(* ===== verification/_CoqProject ===== *)
-Q . S2P
Prelude.v
GoLib.v
GoSync.v
Float.v
Types.v
DeepCopy.v
Sizes.v
Recognizer.v
Json.v
Kube.v
Cluster.v
Gin.v
ManagerJobs.v
JobJson.v
External.v
ManagerObjects.v
Context.v
Config.v
Provider.v
JobDesired.v
EndToEnd.v
ControllerConfig.v
JobReconcile.v
ManagerReconcile.v
NewsReconcile.v
Watch.v
Schedule.v
Wrapper.v
Job.v
Worker.v
Startup.v
Api.v
Site.v
Relay.v
Main.v
Halt.v
Runner.v
SyncResult.v
Hooks.v
Process.v
