(* ===== verification/Prelude.v ===== *)
(** * kubesync: a mirror-site operator, its manager and its workers

    kubesync runs a software mirror on Kubernetes.  A [Job] resource describes
    one mirror.  The controller (src/internal/controller) turns it into a
    deployment that runs a worker (src/worker), with its volume, service and
    ingress.  The worker synchronises the mirror periodically and reports to the
    manager (src/manager), which keeps the status in the Job resource, relays
    commands to workers and serves the listings of the site.

    ** Files and the code they model

    Foundations:
    - [Prelude]: outcomes of Go calls (value, error, panic), machine integers,
      shared lemmas and tactics.
    - [GoLib]: the parts of strings, strconv, path and sort the sources use;
      [Float]: float64 as far as sizes need it; [GoSync]: blocking calls on an
      object with a sync.Mutex; [Json]: JSON values and encoding/json on
      structures, as codecs described by a schema of their fields.
    - [Types]: the resources of src/api/v1beta1 and the records built on them;
      [DeepCopy]: their generated deep copies (zz_generated.deepcopy.go), on a
      memory of pointers, slices and maps with their aliasing.
    - [Kube]: the client of the API server, as a class with the laws the program
      relies on (a cache that may lag, optimistic concurrency), and an in-memory
      instance; [Cluster]: the objects a reconciler applies and deletes, as a
      class with its laws, and the plans of such actions; [Gin]: the monad of
      HTTP handlers (cluster, mutex, clock, answers, panics) and its proof rules.

    Worker (src/worker):
    - [Schedule]: schedule.go, with its mutex; refined to a cell that is empty,
      full or wedged.
    - [Wrapper]: runJobWrapper of job.go, the tree of all its effects and of all
      answers of hooks, provider, timer and job state.
    - [Job]: Run and runJob of job.go, a transition system of the loop, its
      goroutines, kill and done channels, semaphore and message channel.
    - [Worker]: worker.go, one transition system of the scheduler goroutine, the
      command handlers, Halt and any number of activations of [Job].
    - [Startup]: the worker's construction, its registration, the fetch of the
      recorded status and the message it reports.
    - [Context]: context.go and the accessors of base_provider.go, on a heap of
      layers; [Config]: config.go and the environment accessors of util.go.
    - [Provider]: provider.go, and the constructors and command lines of the
      cmd, rsync and two-stage rsync providers.
    - [Runner]: Run, Wait and Terminate of the providers and runner.go, a
      transition system of the mutex, the running flag and the processes, for
      one-stage and two-stage providers.
    - [SyncResult]: what follows the process: exit codes, size extraction from
      logs and by walking, success and failure patterns, the environment of the
      process, the descriptors of the log files.
    - [Hooks]: hooks.go, the log limiter, the exec, zfs and btrfs hooks, on a
      model of the log directory and of subvolumes.
    - [Process]: newCmdJob of runner.go and the process each provider starts.

    Manager (src/manager, src/internal):
    - [Sizes]: sizes and command verbs of internal/types.go; [Recognizer]:
      internal/recognizer.go.
    - [ManagerJobs]: the job handlers of server.go, over any client; [JobJson]:
      createJob with its merge of untyped JSON, and the wire form of a job's
      specification and status; [ManagerObjects]: announcements, files, listings
      and the mirrorz document; [External]: src/manager/external.

    Controller (src/internal/controller, src/cmd):
    - [JobDesired]: job_helper.go and utils.go, the objects wanted for a job;
      [JobReconcile]: job_controller.go.
    - [ManagerReconcile]: manager_helper.go and manager_controller.go;
      [NewsReconcile]: announcement_controller.go.
    - [Watch]: the events that wake the three controllers (SetupWithManager),
      composed with the manager's handlers and the reconcilers.
    - [ControllerConfig]: getConfig and mergeDefaults of cmd/main.go.

    Between the programs:
    - [Api]: the manager's routes and its whole engine, the bodies as JSON, and
      the requests of a worker as they arrive there.
    - [Site]: the list of the mirrors and the mirrorz document, as visitors read
      them after a worker's report.
    - [EndToEnd]: the composition of [JobDesired], [Config] and [Provider], from
      the fields of a Job to the command line of rsync.
    - [Relay]: a command from the manager's API through the worker's handler to
      the loop of the job.
    - [Main]: the three programs: the calls of their set-up and their error
      exits, the life of the manager (Start, waitForCache and Run of server.go)
      and of the worker with its signal handler, as transition systems.
    - [Halt]: the end of a worker, from the signal through Halt, the job's loop and
      the run in progress to the exit of the process.

    ** What the theorems show

    - Worker: the messages of a run follow a protocol and ask for at most one
      next schedule; hooks are bracketed; syncs of a job never overlap, in one
      loop and across the whole worker; a killed run can be joined; the job state
      follows the commands; the schedule refines a cell; the scheduler wedges
      exactly when it adds to a full slot, and then for ever, and a Restart can
      bring it there.  A one-stage provider has at most one process, and no
      process escapes Terminate; both fail between the stages of a two-stage
      provider.  The log limiter keeps the newest logs, at most nine of them;
      every attempt ends with a log that the link latest names; a snapshot is
      the tree of the last success.  The reported size is the one rsync states,
      or the sum over the files of a walk.
    - Manager: every request refines one step of an abstract map from job names
      to statuses, whatever the cache serves and however writes fail; timestamps
      stay consistent over every history; a stop is recorded before it is sent;
      a job that is posted again keeps the fields the request does not give;
      listings are sorted and complete; the mirrorz status can be read back.
    - Controller: a reconcile only touches the objects of its own job; when it
      succeeds the cluster holds exactly the objects the job wants; at most one
      manager is active, and it runs as a deployment or as a daemon set.  Reports
      never wake the controller, a new specification does; a lost object that has
      an owner is brought back, and disabling a job takes nothing down.
    - Memory: the deep copies equal their originals and share nothing with them,
      so a copy can be changed without changing the cache it came from.
    - Programs: the manager serves only synced caches; the worker runs until it is
      signalled, and a signalled worker can always end in order, whatever sync and
      commands are in progress; the controller starts complete or not at all.
    - Between the parts: the worker's configuration, read from the environment
      the controller builds, is the configuration of its Job, up to the options
      of the rsync it starts; the objects of a job refer to each other by the
      names and ports they have; the calls of a worker reach the handlers meant
      for them with the message it encoded; a restarted worker resumes from its
      last report, and the site shows what was reported; whatever is posted,
      statuses keep their types; a command is
      acknowledged exactly when the worker has handed it to the job; a worker
      executes what its configuration says, where and with the environment it
      says.
    - Strings: sizes and verbs read back; the recognizer names versioned files
      and panics exactly on names that are cut short.
    Theorems that exhibit a defect of the code are stated as such.

    ** Parameters

    Code outside the repository is a parameter with the laws the sources rely
    on: gin's router, shell word splitting (go-shlex), a user's regular expressions (as the
    list of their matches), the template of the log directory, the btrfs
    package, resource quantities and Kubernetes codecs, the deep copies of
    Kubernetes' own types, the generations the API server counts, which library
    calls of a set-up fail, the decoding of the MIRRORZ document, and the answers
    of the operating system (exit states, file errors, signals, the clock).

    ** Bounds and fuel

    Transition systems are executable step functions with explicit labels, so no
    fuel is needed; [Context.get_fuel] takes the pointer it starts from as fuel,
    which is enough because parents are allocated first, and [Relay.deliver] gives
    a command handler the six moves it can make.  Channels have the
    capacities of the source (1 and 32).  Integers are Z with the wrap-around
    written out where the source computes on them.

    ** Not modelled

    Flag parsing, HTTP transport and logging beyond its level and format; the
    unused MemBytes of config.go, the empty btrfs hook of other systems than
    Linux, and the registration of the scheme (groupversion_info.go), which is
    generated.  Of JSON, numbers written with a fraction or an exponent and the
    folding of non-ASCII keys are left out. *)

From stdpp Require Export base gmap strings list fin_maps relations.
From Stdlib Require Export Ascii ZArith Lia.

#[global] Open Scope Z_scope.
#[global] Open Scope stdpp_scope.

(** Let [simpl] compute on strings with a known head. *)
#[global] Arguments String.append !_ _ / : simpl nomatch.

(** ** Outcomes of a Go call

    A Go function returns a value, returns a non-nil [error], or panics (index
    out of range, nil dereference, an explicit [panic]).  The text of the error
    or of the panic is kept, because the code reports it. *)
Inductive outcome (A : Type) : Type :=
  | Ret (a : A)
  | Err (e : string)
  | Panic (m : string).
Arguments Ret {A} a.
Arguments Err {A} e.
Arguments Panic {A} m.

#[export] Instance outcome_ret : MRet outcome := fun A a => Ret a.
#[export] Instance outcome_bind : MBind outcome := fun A B f m =>
  match m with Ret a => f a | Err e => Err e | Panic p => Panic p end.
#[export] Instance outcome_fmap : FMap outcome := fun A B f m =>
  match m with Ret a => Ret (f a) | Err e => Err e | Panic p => Panic p end.

#[export] Instance outcome_eq_dec `{EqDecision A} : EqDecision (outcome A).
Proof. solve_decision. Defined.

(** [xs[i]] of a Go slice: a panic when the index is out of range. *)
Definition index {A} (xs : list A) (i : nat) : outcome A :=
  match xs !! i with
  | Some x => Ret x
  | None => Panic "index out of range"
  end.

(** Dereference of a possibly nil pointer. *)
Definition deref {A} (p : option A) : outcome A :=
  match p with
  | Some x => Ret x
  | None => Panic "nil pointer dereference"
  end.

Definition is_panic {A} (o : outcome A) : bool :=
  match o with Panic _ => true | _ => false end.
Definition is_err {A} (o : outcome A) : bool :=
  match o with Err _ => true | _ => false end.

Section outcome_laws.
Context {A B C : Type}.

Lemma outcome_bind_ret_l (a : A) (f : A -> outcome B) : (Ret a ≫= f) = f a.
Proof. reflexivity. Qed.

Lemma outcome_bind_assoc (m : outcome A) (f : A -> outcome B) (g : B -> outcome C) :
  ((m ≫= f) ≫= g) = (m ≫= fun x => f x ≫= g).
Proof. by destruct m. Qed.

Lemma outcome_bind_Ret (m : outcome A) (f : A -> outcome B) (b : B) :
  (m ≫= f) = Ret b <-> exists a, m = Ret a /\ f a = Ret b.
Proof.
  split; [destruct m; intros H; simplify_eq/=; eauto|].
  intros (a & -> & Hf). exact Hf.
Qed.

Lemma index_lt (xs : list A) (i : nat) :
  (i < length xs)%nat -> exists x, index xs i = Ret x /\ xs !! i = Some x.
Proof.
  intros [x Hx]%lookup_lt_is_Some. exists x. unfold index. by rewrite Hx.
Qed.

Lemma index_ge (xs : list A) (i : nat) :
  (length xs <= i)%nat -> index xs i = Panic "index out of range".
Proof. intros H. unfold index. by rewrite lookup_ge_None_2. Qed.
End outcome_laws.

(** ** Machine integers

    [uint64] and [int64] values are integers with the wrap-around written out;
    [int] is 64 bits wide on the platforms the images are built for. *)
Definition two64 : Z := 18446744073709551616.
Definition two63 : Z := 9223372036854775808.
Definition u64 (z : Z) : Z := z mod two64.
Definition i64 (z : Z) : Z := (z + two63) mod two64 - two63.
Definition in_u64 (z : Z) : Prop := 0 <= z < two64.
Definition in_i64 (z : Z) : Prop := - two63 <= z < two63.

Lemma u64_range z : in_u64 (u64 z).
Proof. apply Z.mod_pos_bound. reflexivity. Qed.
Lemma i64_range z : in_i64 (i64 z).
Proof.
  unfold in_i64, i64. assert (H : 0 <= (z + two63) mod two64 < two64)
    by (apply Z.mod_pos_bound; reflexivity).
  unfold two63, two64 in *. lia.
Qed.
Lemma u64_id z : in_u64 z -> u64 z = z.
Proof. intros H. by apply Z.mod_small. Qed.
Lemma i64_id z : in_i64 z -> i64 z = z.
Proof.
  unfold in_i64, i64. intros H. rewrite Z.mod_small; [lia|].
  unfold two63, two64 in *. lia.
Qed.

(** ** Development-wide automation *)
Create HintDb kube discriminated.
#[export] Hint Resolve u64_range i64_range : kube.

(** Case analysis on the scrutinee of the leftmost [match]/[if] of the goal or
    of a hypothesis, keeping its equation. *)
Ltac split_match :=
  match goal with
  | |- context [match ?x with _ => _ end] => destruct x eqn:?
  | H : context [match ?x with _ => _ end] |- _ => destruct x eqn:?
  end.
Ltac split_matches := repeat (split_match; simplify_eq/=; try done).

(** ** Generic lemmas *)
Section lists.
Context {A : Type}.

(** A property of every element but the last. *)
Definition all_but_last (P : A -> Prop) (l : list A) : Prop :=
  forall l1 x l2, l = l1 ++ x :: l2 -> l2 <> [] -> P x.

Lemma all_but_last_nil (P : A -> Prop) : all_but_last P [].
Proof. intros l1 x l2 H. by destruct l1. Qed.
Lemma all_but_last_cons (P : A -> Prop) x l :
  (l <> [] -> P x) -> all_but_last P l -> all_but_last P (x :: l).
Proof.
  intros Hx Hl l1 y l2 H Hne. destruct l1 as [|z l1]; simplify_eq/=; eauto.
Qed.
Lemma all_but_last_app (P : A -> Prop) l k :
  Forall P l -> all_but_last P k -> all_but_last P (l ++ k).
Proof.
  induction 1; simpl; auto using all_but_last_cons.
Qed.
End lists.

(** Sums over a list that is updated in place. *)
Section sums.
Context {A : Type} (f : A -> nat).

Definition sum_of (l : list A) : nat := sum_list (map f l).

Lemma sum_of_insert i l x y :
  l !! i = Some x -> (sum_of (<[i := y]> l) + f x = sum_of l + f y)%nat.
Proof.
  unfold sum_of. revert i; induction l as [|z l IH]; intros [|i] Hi; simplify_eq/=; [lia|].
  specialize (IH i Hi). lia.
Qed.

Lemma sum_of_snoc l x : sum_of (l ++ [x]) = (sum_of l + f x)%nat.
Proof.
  unfold sum_of. rewrite map_app. induction (map f l) as [|n ns IH]; simpl; [lia|].
  simpl in IH. lia.
Qed.

Lemma sum_of_elem i l x : l !! i = Some x -> (f x <= sum_of l)%nat.
Proof.
  unfold sum_of. revert i; induction l as [|z l IH]; intros [|i] Hi; simplify_eq/=; [lia|].
  specialize (IH i Hi). lia.
Qed.

Lemma sum_of_two i j l x y :
  i <> j -> l !! i = Some x -> l !! j = Some y -> (f x + f y <= sum_of l)%nat.
Proof.
  unfold sum_of. revert i j; induction l as [|z l IH]; intros [|i] [|j] Hne Hi Hj; simplify_eq/=.
  - pose proof (sum_of_elem j l y Hj). unfold sum_of in *. lia.
  - pose proof (sum_of_elem i l x Hi). unfold sum_of in *. lia.
  - assert (i <> j) by congruence. specialize (IH i j H Hi Hj). lia.
Qed.

(** At most one element counts. *)
Lemma sum_of_exclusive l :
  (forall x, (f x <= 1)%nat) ->
  (forall i k x y, k <> i -> l !! i = Some x -> l !! k = Some y -> f x = 1%nat -> f y = 0%nat) ->
  (sum_of l <= 1)%nat.
Proof.
  intros Hf. induction l as [|x l IH]; intros Hl; [unfold sum_of; simpl; lia|].
  change (sum_of (x :: l)) with (f x + sum_of l)%nat.
  assert (Hl' : (sum_of l <= 1)%nat).
  { apply IH. intros i k u v Hne Hi Hk. apply (Hl (S i) (S k)); auto. }
  destruct (f x) as [|[|n]] eqn:Ex; [lia| |specialize (Hf x); lia].
  assert (Hall : Forall (fun y => f y = 0%nat) l).
  { apply Forall_lookup. intros k y Hy. apply (Hl 0%nat (S k) x y); done. }
  enough (sum_of l = 0%nat) by lia. unfold sum_of.
  clear -Hall. induction Hall as [|y l Hy _ IH]; simpl; [done|]. lia.
Qed.

Lemma sum_of_pos l : (0 < sum_of l)%nat -> exists i x, l !! i = Some x /\ (0 < f x)%nat.
Proof.
  unfold sum_of. induction l as [|x l IH]; simpl; [lia|]. intros Hs.
  destruct (f x) as [|n] eqn:Ex.
  - destruct (IH Hs) as (i & y & Hi & Hy). by exists (S i), y.
  - exists 0%nat, x. split; [done|]. lia.
Qed.
End sums.
