(* ===== verification/GoLib.v ===== *)
(** * The parts of Go's standard library the program uses

    Strings are byte strings.  [Strings] models package [strings] (with the
    single-byte separators and the ASCII case mapping the sources need),
    [Strconv] models [Itoa], [Atoi] and [ParseBool], and [Path] models
    [path.Base], [path.Ext] and the lexical [Clean]/[Join] of [path/filepath]
    on Unix. *)

From stdpp Require Import sorting.
From S2P Require Import Prelude.

Module Strings.

Fixpoint drop (n : nat) (s : string) : string :=
  match n, s with
  | O, _ => s
  | S n, String _ s => drop n s
  | S _, EmptyString => EmptyString
  end.

Fixpoint take (n : nat) (s : string) : string :=
  match n, s with
  | S n, String c s => String c (take n s)
  | _, _ => EmptyString
  end.

Fixpoint HasPrefix (s p : string) {struct p} : bool :=
  match p, s with
  | EmptyString, _ => true
  | String a p, String b s => Ascii.eqb a b && HasPrefix s p
  | String _ _, EmptyString => false
  end.

Definition HasSuffix (s p : string) : bool :=
  (String.length p <=? String.length s)%nat
  && String.eqb (drop (String.length s - String.length p) s) p.

Definition TrimPrefix (s p : string) : string :=
  if HasPrefix s p then drop (String.length p) s else s.

Definition TrimSuffix (s p : string) : string :=
  if HasSuffix s p then take (String.length s - String.length p) s else s.

(** [strings.Split] with a one-byte separator. *)
Fixpoint Split (s : string) (c : ascii) : list string :=
  match s with
  | EmptyString => [""]
  | String a s =>
      if Ascii.eqb a c then "" :: Split s c
      else match Split s c with
           | [] => [String a ""]
           | w :: ws => String a w :: ws
           end
  end.

Fixpoint Join (l : list string) (sep : string) : string :=
  match l with
  | [] => ""
  | [w] => w
  | w :: ws => w +:+ sep +:+ Join ws sep
  end.

Fixpoint Contains (s sub : string) : bool :=
  HasPrefix s sub ||
  match s with
  | EmptyString => false
  | String _ s => Contains s sub
  end.

(** [strings.ReplaceAll s c ""] for a one-byte [c]. *)
Fixpoint RemoveAll (s : string) (c : ascii) : string :=
  match s with
  | EmptyString => ""
  | String a s => if Ascii.eqb a c then RemoveAll s c else String a (RemoveAll s c)
  end.

Definition upper (c : ascii) : ascii :=
  let n := N_of_ascii c in
  if (97 <=? n)%N && (n <=? 122)%N then ascii_of_N (n - 32) else c.
Definition lower (c : ascii) : ascii :=
  let n := N_of_ascii c in
  if (65 <=? n)%N && (n <=? 90)%N then ascii_of_N (n + 32) else c.

Fixpoint map_bytes (f : ascii -> ascii) (s : string) : string :=
  match s with
  | EmptyString => ""
  | String c s => String (f c) (map_bytes f s)
  end.
Definition ToUpper : string -> string := map_bytes upper.
Definition ToLower : string -> string := map_bytes lower.

(** Byte-wise lexicographic [<] on strings. *)
Definition lt (s t : string) : bool := String.ltb s t.

(** The bytes of a string. *)
Fixpoint mem (c : ascii) (s : string) : bool :=
  match s with
  | EmptyString => false
  | String a s => Ascii.eqb a c || mem c s
  end.

(** ** Lemmas *)

Lemma app_nil_r s : s +:+ "" = s.
Proof. induction s as [|c s IH]; simpl; [done|by f_equal]. Qed.

Lemma app_assoc a b c : (a +:+ b) +:+ c = a +:+ (b +:+ c).
Proof. induction a as [|x a IH]; simpl; [done|by f_equal]. Qed.

Lemma length_app a b :
  String.length (a +:+ b) = (String.length a + String.length b)%nat.
Proof. induction a as [|x a IH]; simpl; [done|by f_equal]. Qed.
Lemma app_inj_r s t u : s +:+ u = t +:+ u -> s = t.
Proof.
  revert t; induction s as [|a s IH]; intros [|b t] E; simpl in E; [done|..].
  1,2: apply (f_equal String.length) in E; simpl in E; rewrite length_app in E; lia.
  injection E as -> E. by rewrite (IH t E).
Qed.

Lemma drop_app a b : drop (String.length a) (a +:+ b) = b.
Proof. by induction a. Qed.

Lemma take_app a b : take (String.length a) (a +:+ b) = a.
Proof. induction a as [|x a IH]; simpl; [by destruct b|by f_equal]. Qed.

Lemma take_drop n s : take n s +:+ drop n s = s.
Proof. revert s; induction n; intros [|c s]; simpl; [done..|by f_equal]. Qed.

Lemma HasPrefix_spec s p : HasPrefix s p = true <-> exists r, s = p +:+ r.
Proof.
  revert s; induction p as [|a p IH]; intros s; simpl; [split; [eauto|done]|].
  destruct s as [|b s]; simpl; [split; [done|by intros [r ?]]|].
  rewrite andb_true_iff, Ascii.eqb_eq, IH. split.
  - intros (-> & r & ->). eauto.
  - intros [r ?]. simplify_eq. eauto.
Qed.

Lemma HasPrefix_app p r : HasPrefix (p +:+ r) p = true.
Proof. apply HasPrefix_spec; eauto. Qed.

Lemma TrimPrefix_app p r : TrimPrefix (p +:+ r) p = r.
Proof. unfold TrimPrefix. by rewrite HasPrefix_app, drop_app. Qed.

Lemma HasSuffix_app r p : HasSuffix (r +:+ p) p = true.
Proof.
  unfold HasSuffix. rewrite length_app, andb_true_iff, Nat.leb_le. split; [lia|].
  replace (String.length r + String.length p - String.length p)%nat
    with (String.length r) by lia.
  by rewrite drop_app, String.eqb_refl.
Qed.

Lemma HasSuffix_spec s p : HasSuffix s p = true <-> exists r, s = r +:+ p.
Proof.
  split; [|intros [r ->]; apply HasSuffix_app].
  unfold HasSuffix. intros [_ H%String.eqb_eq]%andb_true_iff.
  exists (take (String.length s - String.length p) s).
  rewrite <-(take_drop (String.length s - String.length p) s) at 1. by rewrite H.
Qed.

Lemma TrimSuffix_app r p : TrimSuffix (r +:+ p) p = r.
Proof.
  unfold TrimSuffix. rewrite HasSuffix_app, length_app.
  replace (String.length r + String.length p - String.length p)%nat
    with (String.length r) by lia.
  apply take_app.
Qed.

Lemma TrimSuffix_no s p : HasSuffix s p = false -> TrimSuffix s p = s.
Proof. unfold TrimSuffix. by intros ->. Qed.

Lemma Split_not_nil s c : Split s c <> [].
Proof. destruct s; simpl; [done|]. split_match; [done|]. by split_match. Qed.

Lemma Split_cons s c : exists w ws, Split s c = w :: ws.
Proof. destruct (Split s c) eqn:E; [by apply Split_not_nil in E|eauto]. Qed.

(** [Join] undoes [Split]. *)
Lemma Join_Split s c : Join (Split s c) (String c "") = s.
Proof.
  induction s as [|a s IH]; simpl; [done|].
  destruct (Split_cons s c) as (w & ws & E). rewrite E in IH |- *.
  destruct (Ascii.eqb_spec a c) as [->|Hne].
  - change (Join ("" :: w :: ws) (String c ""))
      with ("" +:+ String c "" +:+ Join (w :: ws) (String c "")).
    by rewrite IH.
  - destruct ws as [|w' ws]; simpl in *; by f_equal.
Qed.

Lemma Split_no_sep w c : mem c w = false -> Split w c = [w].
Proof.
  induction w as [|a w IH]; simpl; [done|].
  intros [-> H]%orb_false_iff. by rewrite IH.
Qed.

Lemma Split_app w s c :
  mem c w = false -> Split (w +:+ String c s) c = w :: Split s c.
Proof.
  induction w as [|a w IH]; simpl.
  - intros _. by rewrite Ascii.eqb_refl.
  - intros [-> H]%orb_false_iff. by rewrite IH.
Qed.

(** [Split] undoes [Join] when no piece contains the separator. *)
Lemma Split_Join l c :
  l <> [] -> Forall (fun w => mem c w = false) l ->
  Split (Join l (String c "")) c = l.
Proof.
  intros Hne H. induction H as [|w ws Hw Hws IH]; [done|].
  destruct ws as [|w' ws]; [by apply Split_no_sep|].
  change (Join (w :: w' :: ws) (String c ""))
    with (w +:+ String c (Join (w' :: ws) (String c ""))).
  rewrite Split_app by done. f_equal. by apply IH.
Qed.

Lemma Split_pieces s c : Forall (fun w => mem c w = false) (Split s c).
Proof.
  induction s as [|a s IH]; simpl; [by repeat constructor|].
  destruct (Ascii.eqb a c) eqn:E; [by constructor|].
  destruct (Split s c) as [|w ws].
  { constructor; [|constructor]. simpl. by rewrite E. }
  inv IH. constructor; [|done]. simpl. by rewrite E.
Qed.

(** The last piece does not depend on what stands before a separator. *)
Lemma last_Split_app a b c : last (Split (a +:+ String c b) c) = last (Split b c).
Proof.
  destruct (Split_cons b c) as (w & ws & E).
  induction a as [|x a IH]; simpl.
  - rewrite Ascii.eqb_refl. rewrite E. done.
  - destruct (Split_cons (a +:+ String c b) c) as (w' & ws' & E'). rewrite E' in IH |- *.
    destruct (Ascii.eqb x c); [exact IH|].
    destruct ws' as [|w'' ws']; [|exact IH].
    exfalso. assert (Hs : mem c (a +:+ String c b) = false).
    { rewrite <-(Join_Split (a +:+ String c b) c), E'. simpl.
      pose proof (Split_pieces (a +:+ String c b) c) as Hp. rewrite E' in Hp. by inv Hp. }
    clear -Hs. induction a; simpl in Hs; [by rewrite Ascii.eqb_refl in Hs|].
    apply orb_false_iff in Hs as [_ Hs]. auto.
Qed.

Lemma Split_snoc a n c :
  mem c n = false -> Split (a +:+ String c n) c = (Split a c ++ [n])%list.
Proof.
  intros Hn. induction a as [|x a IH]; simpl.
  - by rewrite Ascii.eqb_refl, Split_no_sep.
  - rewrite IH. destruct (Ascii.eqb x c); [done|].
    destruct (Split_cons a c) as (w & ws & ->). done.
Qed.

Lemma Join_snoc l n c :
  Join (l ++ [n])%list (String c "") = n
  \/ exists d, Join (l ++ [n])%list (String c "") = d +:+ String c n.
Proof.
  induction l as [|w l IH]; [by left|]. right.
  destruct (l ++ [n])%list as [|w' ws] eqn:E; [by destruct l|].
  simpl app. rewrite E.
  change (Join (w :: w' :: ws) (String c "")) with (w +:+ String c (Join (w' :: ws) (String c ""))).
  destruct IH as [->|[d ->]]; [by exists w|].
  exists (w +:+ String c d). by rewrite app_assoc.
Qed.

Lemma mem_app c a b : mem c (a +:+ b) = mem c a || mem c b.
Proof. induction a as [|x a IH]; simpl; [done|]. by rewrite IH, orb_assoc. Qed.

Lemma app_byte_inj a b c : a +:+ String c "" = b +:+ String c "" -> a = b.
Proof.
  revert b; induction a as [|x a IH]; intros [|y b]; simpl; intros H; simplify_eq; [done|..].
  - by destruct b.
  - by destruct a.
  - f_equal. by apply IH.
Qed.

Lemma app_byte_mem r c a b : r +:+ String c "" = a +:+ b -> b <> "" -> mem c b = true.
Proof.
  revert r; induction a as [|x a IH]; intros r H Hb; simpl in H.
  - rewrite <-H, mem_app. simpl. by rewrite Ascii.eqb_refl, orb_true_r.
  - destruct r as [|y r]; simplify_eq/=; [by destruct a, b|eauto].
Qed.

Lemma mem_Join c l sep :
  mem c sep = false -> Forall (fun w => mem c w = false) l -> mem c (Join l sep) = false.
Proof.
  intros Hs. induction 1 as [|w ws Hw Hws IH]; [done|].
  destruct ws as [|w' ws]; [done|].
  change (mem c (w +:+ sep +:+ Join (w' :: ws) sep) = false).
  by rewrite !mem_app, Hw, Hs, IH.
Qed.

End Strings.

Module Strconv.

Definition digit (d : Z) : ascii := ascii_of_N (Z.to_N (48 + d)).
Definition digit_val (c : ascii) : option Z :=
  let n := Z.of_N (N_of_ascii c) in
  if (48 <=? n) && (n <=? 57) then Some (n - 48) else None.

(** Decimal digits of [n], least significant first, onto [acc]. *)
Fixpoint digits (fuel : nat) (n : Z) (acc : string) : string :=
  match fuel with
  | O => acc
  | S fuel =>
      let acc := String (digit (n mod 10)) acc in
      if n <? 10 then acc else digits fuel (n / 10) acc
  end.

(** [strconv.Itoa]; [log2 n + 1] digits are enough. *)
Definition Itoa (n : Z) : string :=
  if n <? 0 then String "-" (digits (S (Z.to_nat (Z.log2 (- n)))) (- n) "")
  else digits (S (Z.to_nat (Z.log2 n))) n "".

Fixpoint parse_digits (s : string) (acc : Z) : option Z :=
  match s with
  | EmptyString => Some acc
  | String c s =>
      match digit_val c with
      | Some d => parse_digits s (acc * 10 + d)
      | None => None
      end
  end.

Definition parse_nat (s : string) : option Z :=
  match s with EmptyString => None | _ => parse_digits s 0 end.

(** [strconv.Atoi]: the value and whether [err == nil].  A syntax error gives
    0; a value out of range gives the nearest [int]. *)
Definition Atoi (s : string) : Z * bool :=
  let signed :=
    match s with
    | String "-" s => option_map Z.opp (parse_nat s)
    | String "+" s => parse_nat s
    | _ => parse_nat s
    end in
  match signed with
  | None => (0, false)
  | Some z =>
      if z <? - two63 then (- two63, false)
      else if two63 <=? z then (two63 - 1, false)
      else (z, true)
  end.

(** [strconv.ParseBool]; [None] is a non-nil error. *)
Definition ParseBool (s : string) : option bool :=
  if bool_decide (s ∈ ["1"; "t"; "T"; "TRUE"; "true"; "True"]) then Some true
  else if bool_decide (s ∈ ["0"; "f"; "F"; "FALSE"; "false"; "False"]) then Some false
  else None.

Lemma digit_val_digit d : 0 <= d < 10 -> digit_val (digit d) = Some d.
Proof.
  intros H. destruct d as [|p|p]; [done| |lia].
  do 4 (destruct p as [p|p|]; try done; try lia).
Qed.

Lemma parse_digits_digits fuel n acc :
  0 <= n < 2 ^ Z.of_nat fuel ->
  parse_digits (digits fuel n acc) 0 = parse_digits acc n.
Proof.
  revert n acc; induction fuel as [|fuel IH]; intros n acc Hn.
  - simpl in *. by replace n with 0 by lia.
  - assert (0 <= n mod 10 < 10) by (apply Z.mod_pos_bound; lia).
    assert (n = 10 * (n / 10) + n mod 10) by (apply Z.div_mod; lia).
    assert (Hstep : forall m, parse_digits (String (digit (n mod 10)) acc) m
        = parse_digits acc (m * 10 + n mod 10)).
    { intros m. simpl. by rewrite digit_val_digit. }
    simpl. destruct (Z.ltb_spec n 10) as [Hlt|Hge].
    + rewrite (Hstep 0), Z.mod_small by lia. f_equal; lia.
    + rewrite IH.
      * rewrite Hstep. f_equal; lia.
      * rewrite Nat2Z.inj_succ, Z.pow_succ_r in Hn by lia.
        split; [|lia]. apply Z.div_pos; lia.
Qed.

Lemma digits_head fuel n acc :
  0 <= n -> exists d s, 0 <= d < 10 /\ digits (S fuel) n acc = String (digit d) s.
Proof.
  revert n acc; induction fuel as [|fuel IH]; intros n acc Hn.
  - exists (n mod 10), acc. split; [apply Z.mod_pos_bound; lia|]. simpl.
    by destruct (n <? 10).
  - change (digits (S (S fuel)) n acc) with
      (let acc := String (digit (n mod 10)) acc in
       if n <? 10 then acc else digits (S fuel) (n / 10) acc). cbv zeta.
    destruct (n <? 10); [|apply IH, Z.div_pos; lia].
    exists (n mod 10), acc. split; [apply Z.mod_pos_bound; lia|done].
Qed.

Lemma digit_not_sign d : 0 <= d < 10 -> digit d <> "-"%char /\ digit d <> "+"%char.
Proof.
  intros H. split; intros E; apply (f_equal digit_val) in E;
    rewrite digit_val_digit in E by done; discriminate E.
Qed.

Lemma parse_nat_digits fuel n :
  0 <= n < 2 ^ Z.of_nat (S fuel) -> parse_nat (digits (S fuel) n "") = Some n.
Proof.
  intros H. destruct (digits_head fuel n "") as (d & s & Hd & E); [lia|].
  unfold parse_nat. rewrite E, <-E. by rewrite parse_digits_digits.
Qed.

Lemma log2_fuel n : 0 <= n -> 0 <= n < 2 ^ Z.of_nat (S (Z.to_nat (Z.log2 n))).
Proof.
  intros H. split; [done|]. rewrite Nat2Z.inj_succ, Z2Nat.id by apply Z.log2_nonneg.
  destruct (Z.eq_dec n 0) as [->|]; [reflexivity|]. apply Z.log2_spec. lia.
Qed.

(** [Atoi] undoes [Itoa] on every [int]. *)
Lemma Atoi_Itoa n : in_i64 n -> Atoi (Itoa n) = (n, true).
Proof.
  intros Hr. assert (Hin : forall o, o = Some n ->
    match o with None => (0, false) | Some z =>
      if z <? - two63 then (- two63, false)
      else if two63 <=? z then (two63 - 1, false) else (z, true) end = (n, true)).
  { intros o ->. destruct Hr.
    destruct (Z.ltb_spec n (- two63)); [lia|].
    destruct (Z.leb_spec two63 n); [lia|done]. }
  unfold Itoa. destruct (Z.ltb_spec n 0) as [Hneg|Hpos].
  - unfold Atoi. apply Hin. rewrite parse_nat_digits by (apply log2_fuel; lia).
    simpl. f_equal; lia.
  - pose proof (parse_nat_digits _ _ (log2_fuel n Hpos)) as Hp.
    destruct (digits_head (Z.to_nat (Z.log2 n)) n "") as (d & s & Hd & E); [lia|].
    destruct (digit_not_sign d Hd) as [Hm Hplus].
    unfold Atoi. apply Hin. rewrite E in Hp |- *.
    destruct (digit d) as [[] [] [] [] [] [] [] []]; done.
Qed.

Lemma digits_mem c fuel n acc :
  digit_val c = None -> Strings.mem c acc = false ->
  0 <= n -> Strings.mem c (digits fuel n acc) = false.
Proof.
  intros Hc. revert n acc; induction fuel as [|fuel IH]; intros n acc Hacc Hn; simpl; [done|].
  assert (Hm : 0 <= n mod 10 < 10) by (apply Z.mod_pos_bound; lia).
  assert (Strings.mem c (String (digit (n mod 10)) acc) = false) as H.
  { simpl. rewrite Hacc, orb_false_r. apply Ascii.eqb_neq. intros <-.
    by rewrite digit_val_digit in Hc. }
  destruct (n <? 10); [done|]. apply IH; [done|]. apply Z.div_pos; lia.
Qed.

(** A string of decimal digits only. *)
Fixpoint all_digits (s : string) : bool :=
  match s with
  | EmptyString => true
  | String c s => match digit_val c with Some _ => all_digits s | None => false end
  end.

Lemma all_digits_digits fuel n acc :
  0 <= n -> all_digits acc = true -> all_digits (digits fuel n acc) = true.
Proof.
  revert n acc; induction fuel as [|fuel IH]; intros n acc Hn Ha; simpl; [done|].
  assert (H : all_digits (String (digit (n mod 10)) acc) = true).
  { simpl. rewrite digit_val_digit; [done|apply Z.mod_pos_bound; lia]. }
  destruct (n <? 10); [done|]. apply IH; [apply Z.div_pos; lia|done].
Qed.

Lemma all_digits_Itoa n : 0 <= n -> all_digits (Itoa n) = true.
Proof.
  intros H. unfold Itoa. destruct (Z.ltb_spec n 0); [lia|]. by apply all_digits_digits.
Qed.

Lemma parse_nat_Itoa n : 0 <= n -> parse_nat (Itoa n) = Some n.
Proof.
  intros H. unfold Itoa. destruct (Z.ltb_spec n 0); [lia|].
  by apply parse_nat_digits, log2_fuel.
Qed.

End Strconv.

Module Path.

Fixpoint strip_trailing_slashes (rev_s : list ascii) : list ascii :=
  match rev_s with
  | c :: s => if Ascii.eqb c "/" then strip_trailing_slashes s else rev_s
  | [] => []
  end.

Definition of_list : list ascii -> string := String.string_of_list_ascii.
Definition to_list : string -> list ascii := String.list_ascii_of_string.

(** [path.Base] *)
Definition Base (p : string) : string :=
  if String.eqb p "" then "." else
  let p := of_list (rev (strip_trailing_slashes (rev (to_list p)))) in
  let p := default "" (last (Strings.Split p "/")) in
  if String.eqb p "" then "/" else p.

(** [path.Ext] *)
Definition Ext (p : string) : string :=
  let name := default "" (last (Strings.Split p "/")) in
  if Strings.mem "." name
  then String "." (default "" (last (Strings.Split name ".")))
  else "".

(** [filepath.Clean]: the lexical element stack. *)
Fixpoint clean_elems (rooted : bool) (out : list string) (es : list string) : list string :=
  match es with
  | [] => rev out
  | e :: es =>
      if String.eqb e "" || String.eqb e "." then clean_elems rooted out es
      else if String.eqb e ".." then
        match out with
        | o :: out' => if String.eqb o ".." then clean_elems rooted (".." :: out) es
                       else clean_elems rooted out' es
        | [] => clean_elems rooted (if rooted then [] else [".."]) es
        end
      else clean_elems rooted (e :: out) es
  end.

Definition Clean (p : string) : string :=
  let rooted := Strings.HasPrefix p "/" in
  let body := Strings.Join (clean_elems rooted [] (Strings.Split p "/")) "/" in
  if rooted then String "/" body
  else if String.eqb body "" then "." else body.

(** [filepath.Join] *)
Definition Join (elems : list string) : string :=
  match List.filter (fun e => negb (String.eqb e "")) elems with
  | [] => ""
  | es => Clean (Strings.Join es "/")
  end.

Lemma to_list_app a b : to_list (a +:+ b) = (to_list a ++ to_list b)%list.
Proof. induction a as [|x a IH]; simpl; [done|]. by f_equal. Qed.

Lemma mem_to_list c s : Strings.mem c s = false -> ~ List.In c (to_list s).
Proof.
  induction s as [|x s IH]; simpl; [tauto|].
  intros [H1%Ascii.eqb_neq H2]%orb_false_iff [?|?]; [done|by apply IH].
Qed.

Lemma strip_no_slash d b :
  b <> "" -> Strings.mem "/" b = false ->
  of_list (rev (strip_trailing_slashes (rev (to_list (d +:+ b))))) = d +:+ b.
Proof.
  intros Hb Hm.
  assert (strip_trailing_slashes (rev (to_list (d +:+ b))) = rev (to_list (d +:+ b))) as ->.
  { rewrite to_list_app, (rev_app_distr (to_list d)).
    destruct (rev (to_list b)) as [|c l] eqn:E.
    - apply (f_equal (@length _)) in E. rewrite length_rev in E. by destruct b.
    - simpl. destruct (Ascii.eqb_spec c "/") as [->|_]; [|done].
      apply mem_to_list in Hm. destruct Hm. apply in_rev. rewrite E. by left. }
  rewrite rev_involutive. unfold of_list, to_list. by rewrite String.string_of_list_ascii_of_string.
Qed.

(** The file name of a path below a directory. *)
Lemma Base_app d b :
  b <> "" -> Strings.mem "/" b = false -> Base (d +:+ String "/" b) = b.
Proof.
  intros Hb Hm. unfold Base.
  destruct (String.eqb_spec (d +:+ String "/" b) "") as [E|_]; [by destruct d|].
  change (String "/" b) with ("/" +:+ b). rewrite <-Strings.app_assoc.
  rewrite strip_no_slash by done. rewrite Strings.app_assoc. change ("/" +:+ b) with (String "/" b).
  rewrite Strings.last_Split_app, Strings.Split_no_sep by done. simpl.
  by destruct (String.eqb_spec b "").
Qed.

(** A file name is its own. *)
Lemma Base_no_slash b : b <> "" -> Strings.mem "/" b = false -> Base b = b.
Proof.
  intros Hb Hm. unfold Base. destruct (String.eqb_spec b "") as [E|_]; [done|].
  pose proof (strip_no_slash "" b Hb Hm) as Hs. simpl in Hs. rewrite Hs. rewrite Strings.Split_no_sep by done. simpl.
  by destruct (String.eqb_spec b "").
Qed.

(** Its extension, whatever dots stand before the last one. *)
Lemma Ext_app d n x :
  Strings.mem "/" n = false -> Strings.mem "/" x = false -> Strings.mem "." x = false ->
  Ext (d +:+ String "/" (n +:+ String "." x)) = String "." x.
Proof.
  intros Hn Hx Hd. unfold Ext. rewrite Strings.last_Split_app.
  rewrite Strings.Split_no_sep by (rewrite Strings.mem_app; simpl; by rewrite Hn, Hx).
  simpl. rewrite Strings.mem_app. simpl. rewrite orb_true_r.
  rewrite Strings.last_Split_app, Strings.Split_no_sep by done. done.
Qed.

(** A name that is one path element. *)
Definition plain_name (n : string) : bool :=
  negb (String.eqb n "") && negb (String.eqb n ".") && negb (String.eqb n "..")
  && negb (Strings.mem "/" n).

Lemma plain_name_spec n :
  plain_name n = true <-> n <> "" /\ n <> "." /\ n <> ".." /\ Strings.mem "/" n = false.
Proof.
  unfold plain_name. rewrite !andb_true_iff, !negb_true_iff, !String.eqb_neq. tauto.
Qed.

Lemma clean_elems_snoc rooted out es n :
  plain_name n = true -> clean_elems rooted out (es ++ [n]) = (clean_elems rooted out es ++ [n])%list.
Proof.
  unfold plain_name. rewrite !andb_true_iff, !negb_true_iff. intros [[[H1 H2] H3] _].
  revert out; induction es as [|e es IH]; intros out; simpl; [by rewrite H1, H2, H3|].
  repeat split_match; apply IH.
Qed.

(** A path that ends in a plain name still does after [Join]. *)
Lemma Join_plain p n :
  plain_name n = true -> Join [p; n] = n \/ exists d, Join [p; n] = d +:+ String "/" n.
Proof.
  intros Hn. pose proof Hn as (H1 & _ & _ & Hm)%plain_name_spec.
  assert (Hes : exists es, Join [p; n] = n \/ exists rooted : bool,
    Join [p; n] = let body := Strings.Join (es ++ [n])%list "/" in
                  if rooted then String "/" body else if String.eqb body "" then "." else body).
  { unfold Join. cbn [List.filter]. apply String.eqb_neq in H1. rewrite H1. cbn [negb].
    unfold Clean.
    destruct (String.eqb p "") eqn:Hp; cbn [negb].
    - exists []. right. eexists. change (Strings.Join [n] "/") with n.
      rewrite Strings.Split_no_sep by done. rewrite (clean_elems_snoc _ _ [] n) by done. done.
    - eexists. right. eexists. change (Strings.Join [p; n] "/") with (p +:+ String "/" n).
      rewrite Strings.Split_snoc, clean_elems_snoc by done. done. }
  destruct Hes as (es & [E|[rooted E]]); [by left|].
  rewrite E. cbv zeta. destruct (Strings.Join_snoc es n "/") as [->|[d ->]].
  - destruct rooted; [right; by exists ""|]. apply String.eqb_neq in H1. rewrite H1. by left.
  - right. destruct rooted; [by exists (String "/" d)|]. exists d.
    by destruct (String.eqb_spec (d +:+ String "/" n) "") as [E'|_]; [destruct d|].
Qed.

(** The file name of such a path, with an extension appended. *)
Lemma Base_Join p n x :
  plain_name n = true -> Strings.mem "/" x = false -> Base (Join [p; n] +:+ x) = n +:+ x.
Proof.
  intros Hn Hx. pose proof Hn as (H1 & _ & _ & Hm)%plain_name_spec.
  assert (n +:+ x <> "") by (by destruct n).
  assert (Strings.mem "/" (n +:+ x) = false) by (by rewrite Strings.mem_app, Hm, Hx).
  destruct (Join_plain p n Hn) as [->|[d ->]]; [by apply Base_no_slash|].
  change (String "/" n) with ("/" +:+ n). rewrite !Strings.app_assoc. by apply Base_app.
Qed.

Example Base_1 : Base "/ubuntu/20.04/a.iso" = "a.iso". Proof. reflexivity. Qed.
Example Ext_1 : Ext "/a.b/c.tar.gz" = ".gz". Proof. reflexivity. Qed.
Example Clean_1 : Clean "/a/../b//./c/" = "/b/c". Proof. reflexivity. Qed.

End Path.

(** ** [sort.Slice]

    The order of equal elements is not specified, so the sort is an interface:
    any permutation in which no element is less than an earlier one. *)
Definition not_after {A} (less : A -> A -> bool) (x y : A) : Prop := less y x = false.

#[export] Instance not_after_dec {A} (less : A -> A -> bool) : RelDecision (not_after less).
Proof. intros x y. unfold not_after. apply _. Defined.

Class SortSlice := {
  Slice : forall {A : Type}, (A -> A -> bool) -> list A -> list A;
  Slice_perm : forall {A} (less : A -> A -> bool) l, Slice less l ≡ₚ l;
  Slice_sorted : forall {A} (less : A -> A -> bool) l,
    Total (not_after less) -> Transitive (not_after less) ->
    StronglySorted (not_after less) (Slice less l);
}.

#[export] Program Instance merge_SortSlice : SortSlice := {|
  Slice A less l := merge_sort (not_after less) l |}.
Next Obligation. intros. apply merge_sort_Permutation. Qed.
Next Obligation. intros. by apply StronglySorted_merge_sort. Qed.

Section sort_keys.
Context {A : Type}.

Lemma string_key_total (key : A -> string) :
  Total (not_after (fun a b => Strings.lt (key a) (key b))).
Proof.
  intros x y. unfold not_after, Strings.lt, String.ltb.
  rewrite (String.compare_antisym (key y) (key x)).
  destruct (String.compare (key x) (key y)); simpl; auto.
Qed.

Lemma string_not_lt a b : Strings.lt b a = false <-> String.le a b.
Proof.
  unfold Strings.lt, String.ltb, String.le, String.leb.
  rewrite (String.compare_antisym b a). destruct (String.compare a b); simpl; split; done.
Qed.

Lemma string_key_trans (key : A -> string) :
  Transitive (not_after (fun a b => Strings.lt (key a) (key b))).
Proof.
  intros x y z. unfold not_after. rewrite !string_not_lt. intros H1 H2.
  by transitivity (key y).
Qed.

Lemma int_key_total (key : A -> Z) : Total (not_after (fun a b => key a <? key b)).
Proof. intros x y. unfold not_after. rewrite !Z.ltb_ge. lia. Qed.
Lemma int_key_trans (key : A -> Z) : Transitive (not_after (fun a b => key a <? key b)).
Proof. intros x y z. unfold not_after. rewrite !Z.ltb_ge. lia. Qed.
End sort_keys.
