(* ===== verification/GoSync.v ===== *)
(** * Blocking calls on shared Go objects

    [blk S A] is a call a goroutine makes on a shared object with state [S]: the
    state it leaves, and its result, or [None] when the goroutine blocks for ever
    in that state.  [Mutex] is the non-reentrant [sync.Mutex]: [Lock] on a held
    mutex blocks, whoever holds it. *)

From S2P Require Import Prelude.

Definition blk (S A : Type) : Type := S -> S * option A.

#[export] Instance blk_ret {S} : MRet (blk S) := fun A a s => (s, Some a).
#[export] Instance blk_bind {S} : MBind (blk S) := fun A B f m s =>
  match m s with
  | (s', Some a) => f a s'
  | (s', None) => (s', None)
  end.

Definition get {S} : blk S S := fun s => (s, Some s).
Definition modify {S} (f : S -> S) : blk S unit := fun s => (f s, Some tt).
Definition block {S A} : blk S A := fun s => (s, None).

Section blk_lemmas.
Context {S A B : Type}.

Lemma blk_bind_ret_l (a : A) (f : A -> blk S B) s : (mret a ≫= f) s = f a s.
Proof. reflexivity. Qed.

Lemma blk_bind_step (m : blk S A) (f : A -> blk S B) s s' a :
  m s = (s', Some a) -> (m ≫= f) s = f a s'.
Proof. intros H. unfold mbind, blk_bind. by rewrite H. Qed.

Lemma blk_bind_block (m : blk S A) (f : A -> blk S B) s s' :
  m s = (s', None) -> (m ≫= f) s = (s', None).
Proof. intros H. unfold mbind, blk_bind. by rewrite H. Qed.
End blk_lemmas.

(** An object that embeds a [sync.Mutex]. *)
Class HasMutex (S : Type) := {
  locked : S -> bool;
  set_locked : bool -> S -> S;
  locked_set : forall b s, locked (set_locked b s) = b;
}.

Definition Lock {S} `{!HasMutex S} : blk S unit := fun s =>
  if locked s then (s, None) else (set_locked true s, Some tt).
Definition Unlock {S} `{!HasMutex S} : blk S unit := fun s =>
  (set_locked false s, Some tt).

(** [q.Lock(); defer q.Unlock(); body]: the deferred call runs when the body
    returns, and never when the body blocks. *)
Definition with_lock {S A} `{!HasMutex S} (body : blk S A) : blk S A :=
  Lock ≫= fun _ => body ≫= fun a => Unlock ≫= fun _ => mret a.

Section mutex.
Context {S A : Type} `{!HasMutex S}.

Lemma with_lock_held (body : blk S A) s :
  locked s = true -> with_lock body s = (s, None).
Proof. intros H. apply blk_bind_block. unfold Lock. by rewrite H. Qed.

Lemma with_lock_free (body : blk S A) s s' a :
  locked s = false -> body (set_locked true s) = (s', Some a) ->
  with_lock body s = (set_locked false s', Some a).
Proof.
  intros H Hb. unfold with_lock.
  rewrite (blk_bind_step _ _ s (set_locked true s) tt) by (unfold Lock; by rewrite H).
  by rewrite (blk_bind_step _ _ _ s' a).
Qed.

Lemma with_lock_stuck (body : blk S A) s s' :
  locked s = false -> body (set_locked true s) = (s', None) ->
  with_lock body s = (s', None).
Proof.
  intros H Hb. unfold with_lock.
  rewrite (blk_bind_step _ _ s (set_locked true s) tt) by (unfold Lock; by rewrite H).
  by apply blk_bind_block.
Qed.
End mutex.
