(* ===== verification/Float.v ===== *)
(** * float64, as far as the size code uses it

    A finite [float64] is a dyadic number [m * 2^e]; conversions from integers
    and from decimal strings round to nearest, ties to even, with 53 significant
    bits and exponents down to -1074; [%.2f] rounds the exact value the same
    way.  [strconv.ParseFloat] is modelled on decimal spellings, infinities and
    NaN; hexadecimal floats and digit-separating underscores are not modelled. *)

From S2P Require Import Prelude GoLib.

Inductive float := Fin (m e : Z) | Inf (neg : bool) | NaN.

(** Nearest integer to [num / den], ties to even ([den > 0]). *)
Definition rne (num den : Z) : Z :=
  let q := num / den in
  let r := num mod den in
  if 2 * r <? den then q
  else if den <? 2 * r then q + 1
  else if Z.even q then q else q + 1.

(** [num * 2^-e] as a fraction, kept integral. *)
Definition scale_num (num e : Z) : Z := if e <? 0 then num * 2 ^ (- e) else num.
Definition scale_den (den e : Z) : Z := if e <? 0 then den else den * 2 ^ e.

(** Exponent of the last place of a float64 near [num / den]. *)
Definition lsb_exp (num den : Z) : Z :=
  let e := Z.log2 num - Z.log2 den - 52 in
  let e := if scale_num num e <? scale_den den e * 2 ^ 52 then e - 1 else e in
  Z.max e (-1074).

(** The float64 nearest to the non-negative rational [num / den]; [None] when it
    overflows. *)
Definition round_pos (num den : Z) : option float :=
  if num =? 0 then Some (Fin 0 0) else
  let e := lsb_exp num den in
  let m := rne (scale_num num e) (scale_den den e) in
  if 2 ^ 1024 <=? (if e <? 0 then m else m * 2 ^ e) then None else Some (Fin m e).

Definition float_opp (f : float) : float :=
  match f with Fin m e => Fin (- m) e | Inf b => Inf (negb b) | NaN => NaN end.

(** [float64(n)] of a [uint64]. *)
Definition of_u64 (n : Z) : float := default (Inf false) (round_pos n 1).

(** Multiplication and division by a power of two, exact on the values the code
    meets (an overflow gives an infinity). *)
Definition mul_pow2 (f : float) (k : Z) : float :=
  match f with
  | Fin m e => if 2 ^ 1024 <=? (if e + k <? 0 then Z.abs m else Z.abs m * 2 ^ (e + k))
               then Inf (m <? 0) else Fin m (e + k)
  | f => f
  end.

(** Truncation towards zero; [None] when the value is not finite. *)
Definition trunc (f : float) : option Z :=
  match f with
  | Fin m e => Some (if e <? 0 then Z.quot m (2 ^ (- e)) else m * 2 ^ e)
  | _ => None
  end.

(** [fmt.Sprintf("%.2f", f)] of a non-negative finite float. *)
Definition pad2 (c : Z) : string :=
  if c <? 10 then "0" +:+ Strconv.Itoa c else Strconv.Itoa c.
Definition hundredths (m e : Z) : Z := rne (scale_den (100 * m) e) (scale_num 1 e).
Definition fmt2 (f : float) : string :=
  match f with
  | Fin m e =>
      let c := hundredths m e in
      Strconv.Itoa (c / 100) +:+ "." +:+ pad2 (c mod 100)
  | Inf false => "+Inf"
  | Inf true => "-Inf"
  | NaN => "NaN"
  end.

(** ** strconv.ParseFloat(s, 64) *)

(** Mantissa scanner: digits read so far, how many of them after the point,
    whether a point and a digit were seen. *)
Record mant := mkMant { mt_val : Z; mt_frac : Z; mt_dot : bool; mt_any : bool }.

Fixpoint scan_mant (s : string) (a : mant) : mant * string :=
  match s with
  | EmptyString => (a, s)
  | String c s' =>
      if Ascii.eqb c "." then
        if mt_dot a then (a, s) else scan_mant s' (mkMant (mt_val a) (mt_frac a) true (mt_any a))
      else match Strconv.digit_val c with
           | Some d => scan_mant s' (mkMant (mt_val a * 10 + d)
                         (if mt_dot a then mt_frac a + 1 else mt_frac a) (mt_dot a) true)
           | None => (a, s)
           end
  end.

(** The optional exponent: [e|E], an optional sign, at least one digit. *)
Definition scan_exp (s : string) : option Z :=
  match s with
  | EmptyString => Some 0
  | String c s =>
      if Ascii.eqb c "e" || Ascii.eqb c "E" then
        match s with
        | String "-" s => option_map (fun n => - Z.min n 10000) (Strconv.parse_nat s)
        | String "+" s => option_map (fun n => Z.min n 10000) (Strconv.parse_nat s)
        | _ => option_map (fun n => Z.min n 10000) (Strconv.parse_nat s)
        end
      else None
  end.

Definition parse_unsigned (s : string) : option float :=
  let u := Strings.ToUpper s in
  if bool_decide (u = "INF" \/ u = "INFINITY") then Some (Inf false)
  else
    let '(a, rest) := scan_mant s (mkMant 0 0 false false) in
    if mt_any a then
      match scan_exp rest with
      | Some x =>
          let x := x - mt_frac a in
          if x <? 0 then round_pos (mt_val a) (10 ^ (- x))
          else round_pos (mt_val a * 10 ^ x) 1
      | None => None
      end
    else None.

Definition ParseFloat (s : string) : option float :=
  if bool_decide (Strings.ToUpper s = "NAN") then Some NaN else
  match s with
  | String "-" s => option_map float_opp (parse_unsigned s)
  | String "+" s => parse_unsigned s
  | _ => parse_unsigned s
  end.

(** ** Rounding lemmas *)

Lemma rne_mul q den : 0 < den -> rne (q * den) den = q.
Proof.
  intros H. unfold rne. rewrite Z.div_mul, Z.mod_mul by lia.
  destruct (Z.ltb_spec (2 * 0) den); lia.
Qed.

Lemma rne_1 n : rne n 1 = n.
Proof. rewrite <-(Z.mul_1_r n) at 1. apply rne_mul. lia. Qed.

(** The rounded value is within half a unit. *)
Lemma rne_error num den : 0 < den -> 2 * Z.abs (rne num den * den - num) <= den.
Proof.
  intros H. pose proof (Z.div_mod num den ltac:(lia)) as E.
  pose proof (Z.mod_pos_bound num den H) as B. unfold rne.
  set (q := num / den) in *. set (r := num mod den) in *.
  assert (q * den - num = - r) as E0 by lia.
  assert ((q + 1) * den - num = den - r) as E1 by lia.
  destruct (Z.ltb_spec (2 * r) den); [rewrite E0; lia|].
  destruct (Z.ltb_spec den (2 * r)); [rewrite E1; lia|].
  destruct (Z.even q); [rewrite E0|rewrite E1]; lia.
Qed.

Lemma rne_nonneg num den : 0 <= num -> 0 < den -> 0 <= rne num den.
Proof.
  intros Hn Hd. pose proof (Z.div_pos num den Hn Hd). unfold rne.
  repeat case_match; lia.
Qed.

Lemma rne_mono a b den : 0 < den -> a <= b -> rne a den <= rne b den.
Proof.
  intros Hd Hab. pose proof (Z.div_mod a den ltac:(lia)) as Ea.
  pose proof (Z.div_mod b den ltac:(lia)) as Eb.
  pose proof (Z.mod_pos_bound a den Hd). pose proof (Z.mod_pos_bound b den Hd).
  pose proof (Z.div_le_mono a b den Hd Hab) as Hq. unfold rne.
  destruct (Z.eq_dec (a / den) (b / den)) as [Eq|Ne].
  - rewrite Eq in *. assert (a mod den <= b mod den) by lia.
    destruct (Z.ltb_spec (2 * (a mod den)) den), (Z.ltb_spec (2 * (b mod den)) den),
      (Z.ltb_spec den (2 * (a mod den))), (Z.ltb_spec den (2 * (b mod den))),
      (Z.even (b / den)); lia.
  - repeat case_match; lia.
Qed.

(** Integers of at most 53 bits are exact. *)
Definition fval (f : float) : option (Z * Z) :=
  match f with Fin m e => Some (m, e) | _ => None end.

Lemma pow2_52 : 2 ^ 52 = 4503599627370496.
Proof. reflexivity. Qed.

Lemma round_pos_int n :
  0 < n < 2 ^ 53 -> exists e, - 53 <= e <= 0 /\ round_pos n 1 = Some (Fin (n * 2 ^ (- e)) e).
Proof.
  intros Hn. unfold round_pos. destruct (Z.eqb_spec n 0); [lia|].
  assert (Hlog : 0 <= Z.log2 n <= 52).
  { split; [apply Z.log2_nonneg|]. assert (Z.log2 n < 53); [|lia].
    apply Z.log2_lt_pow2; lia. }
  assert (He : -53 <= lsb_exp n 1 <= 0).
  { unfold lsb_exp. change (Z.log2 1) with 0.
    destruct (scale_num n (Z.log2 n - 0 - 52) <? _) eqn:E; [|lia]. lia. }
  exists (lsb_exp n 1). split; [done|].
  assert (Hm : rne (scale_num n (lsb_exp n 1)) (scale_den 1 (lsb_exp n 1))
               = n * 2 ^ (- lsb_exp n 1)).
  { unfold scale_num, scale_den. destruct (Z.ltb_spec (lsb_exp n 1) 0) as [H|H].
    - apply rne_1.
    - replace (lsb_exp n 1) with 0 by lia. simpl. rewrite rne_1. lia. }
  rewrite Hm. set (e := lsb_exp n 1) in *.
  destruct (Z.leb_spec (2 ^ 1024) (if e <? 0 then n * 2 ^ (- e) else n * 2 ^ (- e) * 2 ^ e)) as [Hc|];
    [exfalso|done].
  assert (2 ^ (- e) <= 2 ^ 53) by (apply Z.pow_le_mono_r; lia).
  assert (2 ^ 106 < 2 ^ 1024) by reflexivity.
  assert (n * 2 ^ (- e) < 2 ^ 106).
  { change (2 ^ 106) with (2 ^ 53 * 2 ^ 53). nia. }
  destruct (Z.ltb_spec e 0); [lia|]. replace e with 0 in * by lia. simpl in *. lia.
Qed.
