(* ===== verification/Types.v ===== *)
(** * The custom resources (src/api/v1beta1) and the messages built on them
      (src/internal/types.go)

    [SyncStatus], [MirrorType], [FileType], [DeployType] and [DeployPhase] are
    Go string types: any string can be stored in them, and the named constants
    are the values the code compares with.  Kubernetes core types the code only
    copies (affinity, tolerations) are opaque tokens; the ones it inspects or
    builds are records. *)

From S2P Require Import Prelude Float.

(** ** Enumerations *)
Definition SyncStatus := string.
Definition None_ : SyncStatus := "none".
Definition Failed : SyncStatus := "failed".
Definition Success : SyncStatus := "success".
Definition Syncing : SyncStatus := "syncing".
Definition PreSyncing : SyncStatus := "pre-syncing".
Definition Paused : SyncStatus := "paused".
Definition Disabled : SyncStatus := "disabled".
Definition Cached : SyncStatus := "cached".
Definition Created : SyncStatus := "created".

Definition MirrorType := string.
Definition Mirror : MirrorType := "mirror".
Definition Proxy : MirrorType := "proxy".
Definition Git : MirrorType := "git".
Definition External : MirrorType := "external".

Definition FileType := string.
Definition OS : FileType := "os".
Definition App : FileType := "app".

Definition DeployType := string.
Definition Deployment_ : DeployType := "Deployment".
Definition DaemonSet_ : DeployType := "DaemonSet".

Definition DeployPhase := string.
Definition DeployPending : DeployPhase := "Pending".
Definition DeploySucceeded : DeployPhase := "Succeeded".
Definition DeployFailed : DeployPhase := "Failed".

(** ** Kubernetes core values *)
Record EnvVar := mkEnv { env_name : string; env_value : string; env_field : option string }.
Definition EnvLit (n v : string) : EnvVar := mkEnv n v None.
Definition Affinity := string.
Definition Toleration := string.
Definition LocalObjectReference := string.

(** ** Job *)
Record JobConfig := mkJobConfig {
  jc_Alias : string; jc_Desc : string; jc_Url : string; jc_HelpUrl : string;
  jc_Type : MirrorType; jc_Upstream : string; jc_Provider : string;
  jc_MirrorPath : string; jc_Command : string;
  jc_Concurrent : Z; jc_Interval : Z; jc_Retry : Z; jc_Timeout : Z;
  jc_FailOnMatch : string; jc_IPv6Only : string; jc_IPv4Only : string;
  jc_ExcludeFile : string; jc_RsyncOptions : string; jc_Stage1Profile : string;
  jc_ExecOnSuccess : string; jc_ExecOnFailure : string; jc_SizePattern : string;
  jc_AdditionEnvs : list EnvVar; jc_Debug : string;
}.

Record DeployConfig := mkDeployConfig {
  dc_Image : string; dc_Env : list EnvVar; dc_ImagePullPolicy : string;
  dc_ImagePullSecrets : option (list LocalObjectReference);
  dc_NodeName : string; dc_Affinity : option Affinity;
  dc_Tolerations : option (list Toleration);
  dc_CPULimit : string; dc_MemoryLimit : string;
}.

Record JobDeploy := mkJobDeploy {
  jd_DeployConfig : DeployConfig;
  jd_DisableFront : string; jd_FrontMode : string; jd_FrontImage : string;
  jd_FrontCmd : string; jd_DisableRsync : string; jd_RsyncImage : string;
  jd_RsyncCmd : string;
}.

Record PVConfig := mkPVConfig {
  pv_Size : string; pv_StorageClass : option string; pv_AccessMode : string;
}.

Record IngressConfig := mkIngressConfig {
  ic_IngressClass : string; ic_TLSSecret : string; ic_Host : string;
  ic_Annotations : gmap string string;
}.

Record JobSpec := mkJobSpec {
  js_Config : JobConfig; js_Deploy : JobDeploy; js_Volume : PVConfig; js_Ingress : IngressConfig;
}.

(** Timestamps are [int64] seconds, [Size] is a [uint64]; the JSON name of
    [Scheduled] is nextSchedule. *)
Record JobStatus := mkJobStatus {
  st_Status : SyncStatus; LastUpdate : Z; LastStarted : Z; LastEnded : Z;
  Scheduled : Z; st_Upstream : string; st_Size : Z; ErrorMsg : string;
  LastOnline : Z; LastRegister : Z;
}.

(** ** Announcement, File, Manager *)
Record AnnouncementSpec := mkAnnouncementSpec { Title : string; Author : string; Content : string }.
Record AnnouncementStatus := mkAnnouncementStatus { PubTime : Z; EditTime : Z }.

Record FileInfo := mkFileInfo {
  fi_Name : string; fi_Ext : string; fi_MajorVersion : string; fi_Version : string;
  fi_Arch : string; fi_Edition : string; fi_EditionType : string; fi_Part : Z;
  fi_Path : string; fi_Size : Z; fi_SizeStr : string;
}.
Record FileSpec := mkFileSpec { fs_Type : FileType; fs_Alias : string }.
Record FileStatus := mkFileStatus { Files : list FileInfo; UpdateTime : Z }.

Record ManagerSpec := mkManagerSpec {
  ms_DeployType : DeployType; ms_Deploy : DeployConfig; ms_Ingress : IngressConfig;
}.
Record ManagerStatus := mkManagerStatus { Phase : DeployPhase }.

(** ** Objects *)
Record ObjectMeta := mkMeta { om_Name : string; om_Namespace : string; om_ResourceVersion : Z }.
Record object (Sp St : Type) := mkObject { Meta : ObjectMeta; Spec : Sp; Status : St }.
Arguments mkObject {Sp St}.
Arguments Meta {Sp St}.
Arguments Spec {Sp St}.
Arguments Status {Sp St}.
Definition Name {Sp St} (o : object Sp St) : string := om_Name (Meta o).
Definition Namespace {Sp St} (o : object Sp St) : string := om_Namespace (Meta o).
Definition with_status {Sp St} (o : object Sp St) (s : St) : object Sp St :=
  mkObject (Meta o) (Spec o) s.

Abbreviation Job := (object JobSpec JobStatus).
Abbreviation Announcement := (object AnnouncementSpec AnnouncementStatus).
Abbreviation File := (object FileSpec FileStatus).
Abbreviation Manager := (object ManagerSpec ManagerStatus).

(** ** Zero values *)
Definition zeroJobConfig : JobConfig :=
  mkJobConfig "" "" "" "" "" "" "" "" "" 0 0 0 0 "" "" "" "" "" "" "" "" "" [] "".
Definition zeroDeployConfig : DeployConfig := mkDeployConfig "" [] "" None "" None None "" "".
Definition zeroJobDeploy : JobDeploy := mkJobDeploy zeroDeployConfig "" "" "" "" "" "" "".
Definition zeroPVConfig : PVConfig := mkPVConfig "" None "".
Definition zeroIngressConfig : IngressConfig := mkIngressConfig "" "" "" ∅.
Definition zeroJobSpec : JobSpec :=
  mkJobSpec zeroJobConfig zeroJobDeploy zeroPVConfig zeroIngressConfig.
Definition zeroJobStatus : JobStatus := mkJobStatus "" 0 0 0 0 "" 0 "" 0 0.
Definition zeroFileInfo : FileInfo := mkFileInfo "" "" "" "" "" "" "" 0 "" 0 "".
Definition zeroFileStatus : FileStatus := mkFileStatus [] 0.

(** ** API messages *)
Record MirrorStatus := mkMirrorStatus {
  mi_ID : string; mi_Alias : string; mi_Desc : string; mi_Url : string;
  mi_HelpUrl : string; mi_Type : MirrorType; mi_SizeStr : string; mi_Job : JobStatus;
}.
Record AnnouncementInfo := mkAnnouncementInfo {
  ai_ID : string; ai_Title : string; ai_Author : string; ai_Content : string;
  ai_Status : AnnouncementStatus;
}.
Record FileListing := mkFileListing {
  fl_ID : string; fl_Type : FileType; fl_Alias : string; fl_Status : FileStatus;
}.
Record FileBase := mkFileBase {
  fb_Type : FileType; fb_Alias : string; fb_Files : list (string * Z);
}.
Record MirrorConfig := mkMirrorConfig { mc_ID : string; mc_Spec : JobSpec }.
Record MirrorSchedule := mkMirrorSchedule { NextSchedule : Z }.

(** ** The mirrorz document (src/manager/mirrorz/types.go) *)
Module mirrorz.
Record SiteInfo := mkSite {
  Url : string; Logo : string; LogoDarkmode : string; Abbr : string; SiteName : string;
  Homepage : string; Issue : string; SiteRequest : string; Email : string; Group : string;
  Disk : string; Note : string; Big : string; SiteDisable : bool;
}.
Record InfoUrl := mkInfoUrl { iu_Name : string; iu_Url : string }.
Record Info := mkInfo { Distro : string; Category : string; Urls : list InfoUrl }.
Record Mirror := mkMirror {
  Cname : string; m_Desc : string; m_Url : string; m_Status : string; Help : string;
  m_Upstream : string; m_Size : string; Disable : bool;
}.
Record Endpoint := mkEndpoint {
  Label : string; Public : bool; Resolve : string; Filter : list string; Range : list string;
}.
Record MirrorZ := mkMirrorZ {
  Version : float; Site : SiteInfo; z_Info : list Info; z_Mirrors : list Mirror;
  Extension : string; Endpoints : list Endpoint;
}.
End mirrorz.
