(* ===== verification/DeepCopy.v ===== *)
(** * Deep copies (src/api/v1beta1/zz_generated.deepcopy.go)

    The reads of the client hand out copies of the objects in a shared cache, and
    the models of the handlers and reconcilers treat what they read as a value.
    This file is about the memory behind that: structures are Go structures whose
    slices, maps and pointers are locations of a heap, and every generated
    function is written as it allocates, loops and stores.

    A [view] reads a structure off the heap as a tree, as reflect.DeepEqual walks
    over it (a nil slice or map is not an empty one), together with the locations
    it goes through.  A function is a [copier] when its result reads as the same
    tree through locations that did not exist before, and nothing that existed
    has changed.

    The copying of Kubernetes' own types is a parameter. *)

From S2P Require Import Prelude Types.

Abbreviation loc := positive.

(** A slice shows part of an array. *)
Record slice := mkSlice { s_array : loc; s_off : nat; s_len : nat }.

(** Go values of Kubernetes' types, which may hold pointers, and the cells only
    those point to. *)
Class K8sTypes := {
  v1_EnvVar : Type; v1_Affinity : Type; v1_Toleration : Type;
  metav1_ObjectMeta : Type; metav1_ListMeta : Type; v1_cell : Type;
  zero_EnvVar : v1_EnvVar; zero_Affinity : v1_Affinity; zero_Toleration : v1_Toleration;
  zero_ObjectMeta : metav1_ObjectMeta; zero_ListMeta : metav1_ListMeta;
}.

(** ** The structures of src/api/v1beta1, as they lie in memory *)
Module Go.
Section structs.
Context {k8s : K8sTypes}.

Record TypeMeta := mkTypeMeta { Kind : string; APIVersion : string }.
Record JobConfig := mkJobConfig {
  Alias : string; Desc : string; Url : string; HelpUrl : string; Type_ : string; Upstream : string;
  Provider : string; MirrorPath : string; Command : string; Concurrent : Z; Interval : Z; Retry : Z;
  Timeout : Z; FailOnMatch : string; IPv6Only : string; IPv4Only : string; ExcludeFile : string;
  RsyncOptions : string; Stage1Profile : string; ExecOnSuccess : string; ExecOnFailure : string;
  SizePattern : string; AdditionEnvs : option slice; Debug : string;
}.
Record DeployConfig := mkDeployConfig {
  Image : string; Env : option slice; ImagePullPolicy : string; ImagePullSecrets : option slice;
  NodeName : string; Affinity : option loc; Tolerations : option slice; CPULimit : string;
  MemoryLimit : string;
}.
Record JobDeploy := mkJobDeploy {
  jd_DeployConfig : DeployConfig; DisableFront : string; FrontMode : string; FrontImage : string;
  FrontCmd : string; DisableRsync : string; RsyncImage : string; RsyncCmd : string;
}.
Record PVConfig := mkPVConfig { Size : string; StorageClass : option loc; AccessMode : string }.
Record IngressConfig := mkIngressConfig {
  IngressClass : string; TLSSecret : string; Host : string; Annotations : option loc;
}.
Record JobSpec := mkJobSpec {
  Config : JobConfig; Deploy : JobDeploy; Volume : PVConfig; Ingress : IngressConfig;
}.
Record ManagerSpec := mkManagerSpec {
  DeployType : string; ms_Deploy : DeployConfig; ms_Ingress : IngressConfig;
}.
Record FileStatus := mkFileStatus { Files : option slice; UpdateTime : Z }.

(** The four resources and their lists share their shape. *)
Record object (Sp St : Type) := mkObject {
  o_TypeMeta : TypeMeta; o_ObjectMeta : metav1_ObjectMeta; Spec : Sp; Status : St;
}.
Record olist := mkList { l_TypeMeta : TypeMeta; l_ListMeta : metav1_ListMeta; Items : option slice }.
End structs.
Arguments mkObject {_ Sp St}.
Arguments o_TypeMeta {_ Sp St}.
Arguments o_ObjectMeta {_ Sp St}.
Arguments Spec {_ Sp St}.
Arguments Status {_ Sp St}.
End Go.

Section memory.
Context {k8s : K8sTypes}.

Abbreviation gNews := (Go.object AnnouncementSpec AnnouncementStatus).
Abbreviation gFile := (Go.object FileSpec Go.FileStatus).
Abbreviation gJob := (Go.object Go.JobSpec JobStatus).
Abbreviation gManager := (Go.object Go.ManagerSpec ManagerStatus).

(** ** The heap: what [new] and [make] allocate *)
Inductive cell :=
  | CEnvs (l : list v1_EnvVar) | CRefs (l : list LocalObjectReference)
  | CTolerations (l : list v1_Toleration) | CInfos (l : list FileInfo)
  | CNewsItems (l : list gNews) | CFileItems (l : list gFile) | CJobItems (l : list gJob)
  | CManagerItems (l : list gManager)
  | CAffinity (a : v1_Affinity) | CString (s : string) | CMap (m : gmap string string)
  | CNews (x : gNews) | CFile (x : gFile) | CJob (x : gJob) | CManager (x : gManager)
  | CNewsList (x : Go.olist) | CFileList (x : Go.olist) | CJobList (x : Go.olist)
  | CManagerList (x : Go.olist)
  | CNewsSpec (x : AnnouncementSpec) | CNewsStatus (x : AnnouncementStatus)
  | CFileSpec (x : FileSpec) | CFileStatus (x : Go.FileStatus) | CFileInfo (x : FileInfo)
  | CJobSpec (x : Go.JobSpec) | CJobStatus (x : JobStatus) | CJobConfig (x : Go.JobConfig)
  | CJobDeploy (x : Go.JobDeploy) | CDeployConfig (x : Go.DeployConfig)
  | CPVConfig (x : Go.PVConfig) | CIngressConfig (x : Go.IngressConfig)
  | CManagerSpec (x : Go.ManagerSpec) | CManagerStatus (x : ManagerStatus)
  | CExt (x : v1_cell).
Abbreviation heap := (gmap loc cell).

(** A type of cells: how a value is stored and read back. *)
Record ctype (T : Type) := mkCType {
  inj : T -> cell; prj : cell -> option T; prj_inj : forall x, prj (inj x) = Some x;
}.
Arguments mkCType {T}.
Arguments inj {T}.
Arguments prj {T}.

(** Computations on the heap; they fail on a dangling or ill-typed pointer. *)
Definition M (A : Type) : Type := heap -> option (A * heap).
#[local] Instance M_ret : MRet M := fun A a h => Some (a, h).
#[local] Instance M_bind : MBind M := fun A B f m h =>
  match m h with Some (a, h') => f a h' | None => None end.

Definition alloc (c : cell) : M loc := fun h => let l := fresh (dom h) in Some (l, <[l := c]> h).
Definition load {T} (t : ctype T) (l : loc) : M T := fun h =>
  x ← h !! l ≫= prj t; Some (x, h).
Definition store {T} (t : ctype T) (l : loc) (x : T) : M unit := fun h =>
  _ ← h !! l ≫= prj t; Some (tt, <[l := inj t x]> h).

(** The elements of a slice. *)
Definition shown {T} (s : slice) (xs : list T) : option (list T) :=
  if decide (s_off s + s_len s <= length xs)%nat
  then Some (take (s_len s) (drop (s_off s) xs)) else None.
Definition load_slice {T} (t : ctype (list T)) (s : slice) : M (list T) := fun h =>
  xs ← h !! s_array s ≫= prj t; ys ← shown s xs; Some (ys, h).
Definition load_elem {T} (t : ctype (list T)) (s : slice) (i : nat) : M T := fun h =>
  '(ys, h) ← load_slice t s h; y ← ys !! i; Some (y, h).
Definition store_elem {T} (t : ctype (list T)) (s : slice) (i : nat) (x : T) : M unit := fun h =>
  xs ← h !! s_array s ≫= prj t;
  if decide (i < s_len s)%nat
  then Some (tt, <[s_array s := inj t (<[(s_off s + i)%nat := x]> xs)]> h) else None.

Fixpoint for_range (n i : nat) (body : nat -> M unit) : M unit :=
  match n with
  | O => mret tt
  | S n => body i;; for_range n (S i) body
  end.

(** [*out = make([]T, len( *in)); for i := range *in { ( *in)[i].DeepCopyInto(&( *out)[i]) }] *)
Definition make {T} (t : ctype (list T)) (zero : T) (n : nat) : M slice :=
  l ← alloc (inj t (replicate n zero)); mret (mkSlice l 0 n).
Definition copy_each {T} (t : ctype (list T)) (zero : T) (into : T -> M T) (s : slice) : M slice :=
  out ← make t zero (s_len s);
  for_range (s_len s) 0 (fun i => x ← load_elem t s i; y ← into x; store_elem t out i y);;
  mret out.
(** [*out = make([]T, len( *in)); copy( *out, *in)] *)
Definition copy_flat {T} (t : ctype (list T)) (zero : T) (s : slice) : M slice :=
  out ← make t zero (s_len s);
  xs ← load_slice t s;
  store t (s_array out) xs;;
  mret out.
(** [*out = new(T); ( *in).DeepCopyInto( *out)] *)
Definition copy_new {T} (t : ctype T) (zero : T) (into : T -> M T) (p : loc) : M loc :=
  out ← alloc (inj t zero);
  x ← load t p; y ← into x; store t out y;;
  mret out.
(** [if in.F != nil { ... }] *)
Definition if_not_nil {P} (copy : P -> M P) (p : option P) : M (option P) :=
  match p with
  | None => mret None
  | Some p => q ← copy p; mret (Some q)
  end.
(** Ranging over a map, in the order the runtime chooses. *)
Class MapOrder := {
  entries : gmap string string -> list (string * string);
  entries_perm : forall m, entries m ≡ₚ map_to_list m;
}.

(** ** The types of cells *)
Definition tEnvs := mkCType CEnvs (fun c => match c with CEnvs x => Some x | _ => None end) (fun _ => eq_refl).
Definition tRefs := mkCType CRefs (fun c => match c with CRefs x => Some x | _ => None end) (fun _ => eq_refl).
Definition tTolerations := mkCType CTolerations (fun c => match c with CTolerations x => Some x | _ => None end) (fun _ => eq_refl).
Definition tInfos := mkCType CInfos (fun c => match c with CInfos x => Some x | _ => None end) (fun _ => eq_refl).
Definition tNewsItems := mkCType CNewsItems (fun c => match c with CNewsItems x => Some x | _ => None end) (fun _ => eq_refl).
Definition tFileItems := mkCType CFileItems (fun c => match c with CFileItems x => Some x | _ => None end) (fun _ => eq_refl).
Definition tJobItems := mkCType CJobItems (fun c => match c with CJobItems x => Some x | _ => None end) (fun _ => eq_refl).
Definition tManagerItems := mkCType CManagerItems (fun c => match c with CManagerItems x => Some x | _ => None end) (fun _ => eq_refl).
Definition tAffinity := mkCType CAffinity (fun c => match c with CAffinity x => Some x | _ => None end) (fun _ => eq_refl).
Definition tString := mkCType CString (fun c => match c with CString x => Some x | _ => None end) (fun _ => eq_refl).
Definition tMap := mkCType CMap (fun c => match c with CMap x => Some x | _ => None end) (fun _ => eq_refl).
Definition tNews := mkCType CNews (fun c => match c with CNews x => Some x | _ => None end) (fun _ => eq_refl).
Definition tFile := mkCType CFile (fun c => match c with CFile x => Some x | _ => None end) (fun _ => eq_refl).
Definition tJob := mkCType CJob (fun c => match c with CJob x => Some x | _ => None end) (fun _ => eq_refl).
Definition tManager := mkCType CManager (fun c => match c with CManager x => Some x | _ => None end) (fun _ => eq_refl).
Definition tNewsList := mkCType CNewsList (fun c => match c with CNewsList x => Some x | _ => None end) (fun _ => eq_refl).
Definition tFileList := mkCType CFileList (fun c => match c with CFileList x => Some x | _ => None end) (fun _ => eq_refl).
Definition tJobList := mkCType CJobList (fun c => match c with CJobList x => Some x | _ => None end) (fun _ => eq_refl).
Definition tManagerList := mkCType CManagerList (fun c => match c with CManagerList x => Some x | _ => None end) (fun _ => eq_refl).
Definition tNewsSpec := mkCType CNewsSpec (fun c => match c with CNewsSpec x => Some x | _ => None end) (fun _ => eq_refl).
Definition tNewsStatus := mkCType CNewsStatus (fun c => match c with CNewsStatus x => Some x | _ => None end) (fun _ => eq_refl).
Definition tFileSpec := mkCType CFileSpec (fun c => match c with CFileSpec x => Some x | _ => None end) (fun _ => eq_refl).
Definition tFileStatus := mkCType CFileStatus (fun c => match c with CFileStatus x => Some x | _ => None end) (fun _ => eq_refl).
Definition tFileInfo := mkCType CFileInfo (fun c => match c with CFileInfo x => Some x | _ => None end) (fun _ => eq_refl).
Definition tJobSpec := mkCType CJobSpec (fun c => match c with CJobSpec x => Some x | _ => None end) (fun _ => eq_refl).
Definition tJobStatus := mkCType CJobStatus (fun c => match c with CJobStatus x => Some x | _ => None end) (fun _ => eq_refl).
Definition tJobConfig := mkCType CJobConfig (fun c => match c with CJobConfig x => Some x | _ => None end) (fun _ => eq_refl).
Definition tJobDeploy := mkCType CJobDeploy (fun c => match c with CJobDeploy x => Some x | _ => None end) (fun _ => eq_refl).
Definition tDeployConfig := mkCType CDeployConfig (fun c => match c with CDeployConfig x => Some x | _ => None end) (fun _ => eq_refl).
Definition tPVConfig := mkCType CPVConfig (fun c => match c with CPVConfig x => Some x | _ => None end) (fun _ => eq_refl).
Definition tIngressConfig := mkCType CIngressConfig (fun c => match c with CIngressConfig x => Some x | _ => None end) (fun _ => eq_refl).
Definition tManagerSpec := mkCType CManagerSpec (fun c => match c with CManagerSpec x => Some x | _ => None end) (fun _ => eq_refl).
Definition tManagerStatus := mkCType CManagerStatus (fun c => match c with CManagerStatus x => Some x | _ => None end) (fun _ => eq_refl).

(** [*out = make(map[string]string, len( *in)); for key, val := range *in { ( *out)[key] = val }] *)
Definition copy_map `{!MapOrder} (p : loc) : M loc :=
  out ← alloc (CMap ∅);
  m ← load tMap p;
  (fix loop (l : list (string * string)) : M unit :=
     match l with
     | [] => mret tt
     | (key, val) :: l => o ← load tMap out; store tMap out (<[key := val]> o);; loop l
     end) (entries m);;
  mret out.

(** ** Reading a structure off the heap *)
Inductive tree :=
  | TStr (s : string) | TNum (z : Z) | TNil | TPtr (t : tree) | TMap (m : gmap string string)
  | TArr (l : list tree) | TRec (l : list tree).

Record view := mkView { v_tree : heap -> option tree; v_foot : heap -> gset loc }.

(** What a view reads depends on the locations it goes through alone. *)
Definition agree (h h' : heap) (S : gset loc) : Prop := forall l, l ∈ S -> h' !! l = h !! l.
Record local (v : view) : Prop := {
  local_dom : forall h t, v_tree v h = Some t -> v_foot v h ⊆ dom h;
  local_agree : forall h h' t, v_tree v h = Some t -> agree h h' (v_foot v h) ->
    v_tree v h' = Some t /\ v_foot v h' = v_foot v h;
}.

Definition leaf (t : tree) : view := mkView (fun _ => Some t) (fun _ => ∅).
Definition rec_view (vs : list view) : view :=
  mkView (fun h => TRec <$> mapM (fun v => v_tree v h) vs)
         (fun h => ⋃ ((fun v => v_foot v h) <$> vs)).
(** Through a location, to a value and on. *)
Definition at_loc {T} (l : loc) (get : cell -> option T) (k : T -> view) (wrap : tree -> tree) : view :=
  mkView (fun h => x ← h !! l ≫= get; wrap <$> v_tree (k x) h)
         (fun h => {[l]} ∪ match h !! l ≫= get with Some x => v_foot (k x) h | None => ∅ end).
Definition nil_or {P} (k : P -> view) (p : option P) : view :=
  match p with None => leaf TNil | Some p => k p end.

Definition ptr_view {T} (t : ctype T) (k : T -> view) : option loc -> view :=
  nil_or (fun l => at_loc l (prj t) k TPtr).
Definition to_arr (t : tree) : tree := match t with TRec l => TArr l | t => t end.
Definition slice_view {T} (t : ctype (list T)) (k : T -> view) : option slice -> view :=
  nil_or (fun s => at_loc (s_array s) (fun c => prj t c ≫= shown s)
                     (fun ys => rec_view (k <$> ys)) to_arr).
Definition map_view : option loc -> view := nil_or (fun l => at_loc l (prj tMap) (fun m => leaf (TMap m)) TPtr).

Lemma agree_subseteq (h h' : heap) S : h ⊆ h' -> S ⊆ dom h -> agree h h' S.
Proof.
  intros Hh HS l Hl. apply HS, elem_of_dom in Hl as [c Hc]. rewrite Hc.
  by eapply lookup_weaken.
Qed.
Lemma agree_mono h h' S S' : agree h h' S -> S' ⊆ S -> agree h h' S'.
Proof. intros H HS l Hl. by apply H, HS. Qed.

Lemma leaf_local t : local (leaf t).
Proof. split; simpl; [set_solver|]. by intros. Qed.

Lemma rec_local vs : Forall local vs -> local (rec_view vs).
Proof.
  intros Hvs. split; cbn [v_tree v_foot rec_view].
  - intros h t. rewrite fmap_Some. intros (ts & Hts & _). apply mapM_Some in Hts.
    revert ts Hts. induction Hvs as [|v vs Hv _ IH]; intros ts Hts; [set_solver|].
    inv Hts. cbn. apply union_subseteq. split; [by eapply local_dom|by eapply IH].
  - intros h h' t Ht Ha. apply fmap_Some in Ht as (ts & Hts & ->). apply mapM_Some in Hts.
    enough (mapM (fun v => v_tree v h') vs = Some ts /\
            ⋃ ((fun v => v_foot v h') <$> vs) = ⋃ ((fun v => v_foot v h) <$> vs)) as [-> ->] by done.
    revert ts Hts Ha. induction Hvs as [|v vs Hv _ IH]; intros ts Hts Ha; inv Hts; [done|].
    cbn in Ha |- *.
    destruct (local_agree v Hv h h' _ ltac:(eassumption)) as [-> ->];
      [eapply agree_mono; [exact Ha|set_solver]|].
    destruct (IH _ ltac:(eassumption)) as [Hm ->]; [eapply agree_mono; [exact Ha|set_solver]|].
    cbn. by rewrite Hm.
Qed.

Lemma at_loc_local {T} l (get : cell -> option T) k wrap : (forall x, local (k x)) -> local (at_loc l get k wrap).
Proof.
  intros Hk. split; cbn [v_tree v_foot at_loc].
  - intros h t Ht. apply bind_Some in Ht as (x & Hx & Ht). rewrite Hx.
    apply fmap_Some in Ht as (t' & Ht & _). apply bind_Some in Hx as (c & Hc & _).
    apply union_subseteq. split; [|by eapply local_dom].
    apply singleton_subseteq_l, elem_of_dom. by eexists.
  - intros h h' t Ht Ha. apply bind_Some in Ht as (x & Hx & Ht). rewrite Hx in Ha.
    assert (El : h' !! l = h !! l) by (apply Ha; set_solver). rewrite El, Hx.
    apply fmap_Some in Ht as (t' & Ht & ->). cbn.
    destruct (local_agree (k x) (Hk x) h h' t' Ht) as [-> ->]; [|done].
    eapply agree_mono; [exact Ha|set_solver].
Qed.

Lemma nil_or_local {P} (k : P -> view) p : (forall p, local (k p)) -> local (nil_or k p).
Proof. intros Hk. destruct p; [apply Hk|apply leaf_local]. Qed.
Lemma ptr_local {T} (t : ctype T) k p : (forall x, local (k x)) -> local (ptr_view t k p).
Proof. intros. apply nil_or_local. intros. by apply at_loc_local. Qed.
Lemma slice_local {T} (t : ctype (list T)) k s : (forall x, local (k x)) -> local (slice_view t k s).
Proof.
  intros Hk. apply nil_or_local. intros p. apply at_loc_local. intros ys. apply rec_local.
  apply Forall_fmap, Forall_true. intros y. apply Hk.
Qed.
Lemma map_local p : local (map_view p).
Proof. apply nil_or_local. intros. apply at_loc_local. intros. apply leaf_local. Qed.

(** ** Copies *)

(** [v'] in [h'] is a copy of [v] in [h]: [h'] only adds to [h], the trees are the
    same, and the copy uses new locations alone. *)
Definition copied (h : heap) (v : view) (h' : heap) (v' : view) : Prop :=
  h ⊆ h' /\ exists t, v_tree v h = Some t /\ v_tree v' h' = Some t /\ v_foot v' h' ## dom h.

Definition copier {T} (view_of : T -> view) (into : T -> M T) : Prop :=
  forall h a t, v_tree (view_of a) h = Some t ->
  exists a' h', into a h = Some (a', h') /\ copied h (view_of a) h' (view_of a').

Lemma tree_mono v h h' t : local v -> h ⊆ h' -> v_tree v h = Some t -> v_tree v h' = Some t.
Proof.
  intros Hv Hh Ht. apply (local_agree v Hv h); [done|]. apply agree_subseteq; [done|].
  by eapply local_dom.
Qed.

(** A copy made later is a copy of the earlier value, and stays one. *)
Lemma copied_mono v v' h0 h h' h1 :
  local v -> local v' -> h0 ⊆ h -> h' ⊆ h1 -> is_Some (v_tree v h0) ->
  copied h v h' v' -> copied h0 v h1 v'.
Proof.
  intros Hv Hv' H0 H1 [t0 Ht0] (Hh & t & Ht & Ht' & Hd). split; [by transitivity h; [|transitivity h']|].
  pose proof (tree_mono v h0 h t0 Hv H0 Ht0) as E. simplify_eq.
  exists t. destruct (local_agree v' Hv' h' h1 t Ht') as [-> ->].
  { apply agree_subseteq; [done|]. by eapply local_dom. }
  split_and!; [done|done|]. apply subseteq_dom in H0. set_solver.
Qed.

Lemma copied_leaf t h h' : h ⊆ h' -> copied h (leaf t) h' (leaf t).
Proof. intros. split; [done|]. exists t. split_and!; [done|done|set_solver]. Qed.

Lemma copied_rec vs vs' h h' :
  h ⊆ h' -> Forall2 (fun v v' => copied h v h' v') vs vs' -> copied h (rec_view vs) h' (rec_view vs').
Proof.
  intros Hh Hvs. split; [done|].
  enough (exists ts, mapM (fun v => v_tree v h) vs = Some ts /\ mapM (fun v => v_tree v h') vs' = Some ts
          /\ ⋃ ((fun v => v_foot v h') <$> vs') ## dom h) as (ts & H1 & H2 & H3).
  { exists (TRec ts). cbn. rewrite H1, H2. done. }
  induction Hvs as [|v v' vs vs' (_ & t & Ht & Ht' & Hd) _ (ts & H1 & H2 & H3)].
  - exists []. split_and!; [done|done|set_solver].
  - exists (t :: ts). cbn. rewrite Ht, Ht', H1, H2. cbn. split_and!; [done|done|]. set_solver.
Qed.

(** ** Copying through fresh locations *)
Lemma fresh_cell (h : heap) : h !! fresh (dom h) = None.
Proof. apply not_elem_of_dom, is_fresh. Qed.

Lemma subseteq_write (h h' : heap) l c : h ⊆ h' -> h !! l = None -> h ⊆ <[l := c]> h'.
Proof. intros Hh Hl. by apply insert_subseteq_r. Qed.

(** A write outside the locations of a view is not seen. *)
Lemma view_write v (h : heap) l c t :
  local v -> v_tree v h = Some t -> l ∉ v_foot v h ->
  v_tree v (<[l := c]> h) = Some t /\ v_foot v (<[l := c]> h) = v_foot v h.
Proof.
  intros Hv Ht Hl. apply (local_agree v Hv h); [done|]. intros l' Hl'.
  apply lookup_insert_ne. set_solver.
Qed.

(** The view through a location that holds [x]. *)
Lemma at_loc_read {T} l (get : cell -> option T) k wrap (h : heap) x t :
  h !! l ≫= get = Some x -> v_tree (k x) h = Some t ->
  v_tree (at_loc l get k wrap) h = Some (wrap t) /\
  v_foot (at_loc l get k wrap) h = {[l]} ∪ v_foot (k x) h.
Proof. intros Hx Ht. cbn. rewrite Hx. cbn. by rewrite Ht. Qed.
Lemma at_loc_foot {T} l (get : cell -> option T) k wrap (h : heap) : l ∈ v_foot (at_loc l get k wrap) h.
Proof. cbn. by apply elem_of_union_l, elem_of_singleton. Qed.
Lemma at_loc_inv {T} l (get : cell -> option T) k wrap (h : heap) t :
  v_tree (at_loc l get k wrap) h = Some t ->
  exists x t', h !! l ≫= get = Some x /\ v_tree (k x) h = Some t' /\ t = wrap t'.
Proof.
  cbn. intros Ht. apply bind_Some in Ht as (x & Hx & Ht). apply fmap_Some in Ht as (t' & Ht & ->).
  by eexists _, _.
Qed.

Lemma copier_nil_or {P} (k : P -> view) (copy : P -> M P) :
  (forall h p t, v_tree (k p) h = Some t ->
     exists q h', copy p h = Some (q, h') /\ copied h (k p) h' (k q)) ->
  copier (nil_or k) (if_not_nil copy).
Proof.
  intros Hc h [p|] t Ht; cbn in Ht |- *.
  - destruct (Hc h p t Ht) as (q & h' & E & Hq). exists (Some q), h'. split; [|done].
    unfold mbind, M_bind. by rewrite E.
  - eexists _, _. split; [done|]. by apply copied_leaf.
Qed.

Lemma load_in {T} (t : ctype T) l (h : heap) x : h !! l ≫= prj t = Some x -> load t l h = Some (x, h).
Proof. intros E. unfold load. rewrite E. done. Qed.
Lemma store_in {T} (t : ctype T) l (h : heap) x y :
  h !! l ≫= prj t = Some x -> store t l y h = Some (tt, <[l := inj t y]> h).
Proof. intros E. unfold store. rewrite E. done. Qed.
Lemma read_mono {T} (get : cell -> option T) (h h' : heap) l x :
  h ⊆ h' -> h !! l ≫= get = Some x -> h' !! l ≫= get = Some x.
Proof.
  intros Hh E. apply bind_Some in E as (c & Hc & Hx).
  by rewrite (lookup_weaken _ _ _ _ Hc Hh).
Qed.

(** A new location, then its content copied, then stored. *)
Lemma copier_new {T} (t : ctype T) (zero : T) (k : T -> view) (into : T -> M T) :
  (forall x, local (k x)) -> copier k into ->
  copier (ptr_view t k) (if_not_nil (copy_new t zero into)).
Proof.
  intros Hk Hinto. apply copier_nil_or. intros h p t0 Ht.
  apply at_loc_inv in Ht as (x & t' & Hx & Ht & ->).
  pose proof (fresh_cell h) as Hl. set (l := fresh (dom h)) in *.
  set (h1 := <[l := inj t zero]> h : heap). assert (Hh1 : h ⊆ h1) by by apply subseteq_write.
  destruct (Hinto h1 x t' (tree_mono _ _ _ _ (Hk x) Hh1 Ht)) as (y & h2 & Ei & Hh2 & t2 & H1 & H2 & Hd).
  rewrite (tree_mono _ _ _ _ (Hk x) Hh1 Ht) in H1. injection H1 as <-.
  assert (El : h2 !! l ≫= prj t = Some zero).
  { apply (read_mono _ h1); [done|]. unfold h1. rewrite lookup_insert_eq. cbn. apply prj_inj. }
  exists l, (<[l := inj t y]> h2). split.
  - unfold copy_new, alloc, mbind, M_bind. fold l h1. rewrite (load_in t p h1 x) by (by eapply read_mono).
    rewrite Ei. by rewrite (store_in t l h2 zero y El).
  - split; [apply subseteq_write; [by transitivity h1|done]|]. exists (TPtr t').
    split; [by apply (at_loc_read p (prj t) k TPtr h x t')|].
    assert (Hnl : l ∉ v_foot (k y) h2).
    { assert (l ∈ dom h1) by (unfold h1; rewrite dom_insert; set_solver). set_solver. }
    destruct (view_write (k y) h2 l (inj t y) t' (Hk y) H2 Hnl) as [H3 H4].
    destruct (at_loc_read l (prj t) k TPtr (<[l := inj t y]> h2) y t') as [-> ->];
      [rewrite lookup_insert_eq; cbn; apply prj_inj|done|].
    split; [done|]. rewrite H4. apply not_elem_of_dom in Hl. apply subseteq_dom in Hh1. set_solver.
Qed.

(** ** Slices *)
Lemma shown_all {T} l (xs : list T) : shown (mkSlice l 0 (length xs)) xs = Some xs.
Proof.
  unfold shown. cbn. rewrite decide_True by lia. by rewrite firstn_all.
Qed.
Lemma shown_length {T} s (xs ys : list T) : shown s xs = Some ys -> length ys = s_len s.
Proof.
  unfold shown. case_decide; [|done]. intros [= <-]. rewrite length_take, length_drop. lia.
Qed.

Lemma load_slice_in {T} (t : ctype (list T)) s (h : heap) ys :
  h !! s_array s ≫= (fun c => prj t c ≫= shown s) = Some ys -> load_slice t s h = Some (ys, h).
Proof.
  intros E. apply bind_Some in E as (c & Hc & E). apply bind_Some in E as (xs & Hx & E).
  unfold load_slice. rewrite Hc. cbn. rewrite Hx. cbn. by rewrite E.
Qed.

(** A whole array behind a slice of its length. *)
Lemma whole_read {T} (t : ctype (list T)) l (h : heap) ys :
  h !! l = Some (inj t ys) ->
  h !! l ≫= (fun c => prj t c ≫= shown (mkSlice l 0 (length ys))) = Some ys.
Proof. intros E. rewrite E. cbn. rewrite prj_inj. cbn. apply shown_all. Qed.

Lemma for_range_inv (I : nat -> heap -> Prop) body n : forall i h,
  I i h -> (forall j h, (i <= j < i + n)%nat -> I j h -> exists h', body j h = Some (tt, h') /\ I (S j) h') ->
  exists h', for_range n i body h = Some (tt, h') /\ I (i + n)%nat h'.
Proof.
  induction n as [|n IH]; intros i h Hi Hb; cbn.
  - exists h. by rewrite Nat.add_0_r.
  - destruct (Hb i h ltac:(lia) Hi) as (h1 & E & H1). unfold mbind, M_bind. rewrite E.
    destruct (IH (S i) h1 H1) as (h' & E' & H'); [intros; apply Hb; [lia|done]|].
    exists h'. by replace (i + S n)%nat with (S i + n)%nat by lia.
Qed.

Section each.
Context {T : Type} (t : ctype (list T)) (zero : T) (k : T -> view) (into : T -> M T).
Context (Hk : forall x, local (k x)).

(** After [i] rounds the array at [l] holds copies of the first [i] elements and
    zeros; the copies are apart from [h0] and from the array. *)
Definition filled (h0 : heap) (l : loc) (xs : list T) (i : nat) (h : heap) : Prop :=
  h0 ⊆ h /\ exists ys, h !! l = Some (inj t (ys ++ replicate (length xs - i) zero)) /\
    Forall2 (fun x y => exists tr, v_tree (k x) h0 = Some tr /\ v_tree (k y) h = Some tr /\
               v_foot (k y) h ## {[l]} ∪ dom h0) (take i xs) ys.

Lemma filled_copied h0 l xs h s :
  h0 !! l = None -> h0 !! s_array s ≫= (fun c => prj t c ≫= shown s) = Some xs ->
  filled h0 l xs (length xs) h ->
  copied h0 (slice_view t k (Some s)) h (slice_view t k (Some (mkSlice l 0 (length xs)))).
Proof.
  clear Hk into. intros Hl Hs (Hh & ys & Hys & Hxy). rewrite Nat.sub_diag, firstn_all in *. cbn in Hys.
  rewrite app_nil_r in Hys. pose proof (Forall2_length _ _ _ Hxy) as Hlen.
  split; [done|].
  assert (Hr : copied h0 (rec_view (k <$> xs)) h (rec_view (k <$> ys))).
  { apply copied_rec; [done|]. apply Forall2_fmap. eapply Forall2_impl; [exact Hxy|].
    intros x y (tr & H1 & H2 & H3). split; [done|]. exists tr. split_and!; [done|done|set_solver]. }
  destruct Hr as (_ & tr & H1 & H2 & H3). exists (to_arr tr). cbn [slice_view nil_or].
  split; [by apply (at_loc_read _ _ (fun ys => rec_view (k <$> ys)) to_arr h0 xs tr)|].
  cbn [s_array]. rewrite Hlen.
  destruct (at_loc_read l (fun c => prj t c ≫= shown (mkSlice l 0 (length ys)))
    (fun ys => rec_view (k <$> ys)) to_arr h ys tr (whole_read t l h ys Hys) H2) as [-> ->].
  split; [done|]. apply not_elem_of_dom in Hl. set_solver.
Qed.

Lemma filled_step h0 l xs s i h :
  copier k into -> h0 !! l = None ->
  h0 !! s_array s ≫= (fun c => prj t c ≫= shown s) = Some xs ->
  (forall x, x ∈ xs -> is_Some (v_tree (k x) h0)) -> (i < length xs)%nat -> filled h0 l xs i h ->
  exists h', (x ← load_elem t s i; y ← into x; store_elem t (mkSlice l 0 (length xs)) i y) h = Some (tt, h')
    /\ filled h0 l xs (S i) h'.
Proof.
  intros Hc Hl Hs Htr Hi (Hh & ys & Hys & Hxy).
  destruct (lookup_lt_is_Some_2 xs i Hi) as [x Hx].
  destruct (Htr x (list_elem_of_lookup_2 _ _ _ Hx)) as [tr Hxt].
  pose proof (Forall2_length _ _ _ Hxy) as Hlen. rewrite length_take in Hlen.
  destruct (Hc h x tr (tree_mono _ _ _ _ (Hk x) Hh Hxt)) as (y & h1 & Ei & Hh1 & tr' & E1 & E2 & Hd).
  rewrite (tree_mono _ _ _ _ (Hk x) Hh Hxt) in E1. injection E1 as <-.
  assert (El : h1 !! l = Some (inj t (ys ++ replicate (length xs - i) zero))) by by eapply lookup_weaken.
  eexists. split.
  - unfold load_elem, mbind, M_bind. rewrite (load_slice_in t s h xs) by (by eapply read_mono).
    cbn. rewrite Hx. cbn. rewrite Ei. unfold store_elem. cbn. rewrite El. cbn. rewrite prj_inj. cbn.
    by rewrite decide_True by lia.
  - split; [apply subseteq_write; [by transitivity h|done]|]. exists (ys ++ [y]). split.
    + rewrite lookup_insert_eq. do 2 f_equal. replace (length xs - i)%nat with (S (length xs - S i)) by lia.
      cbn. rewrite insert_app_r_alt by lia. replace (i - length ys)%nat with O by lia. cbn. by rewrite <-app_assoc.
    + rewrite (take_S_r _ _ x) by done.
      assert (Hdom : l ∈ dom h) by (apply elem_of_dom; by eexists).
      apply subseteq_dom in Hh as Hdh. apply Forall2_app.
      * eapply Forall2_impl; [exact Hxy|]. intros x' y' (tr' & A1 & A2 & A3). exists tr'. split; [done|].
        destruct (local_agree (k y') (Hk y') h h1 tr' A2) as [B1 B2].
        { apply agree_subseteq; [done|by eapply local_dom]. }
        destruct (view_write (k y') h1 l (inj t (<[i := y]> (ys ++ replicate (length xs - i) zero))) tr' (Hk y') B1)
          as [B3 B4]; [rewrite B2; set_solver|]. split; [done|]. by rewrite B4, B2.
      * apply Forall2_cons. split; [|done]. exists tr. split; [done|].
        destruct (view_write (k y) h1 l (inj t (<[i := y]> (ys ++ replicate (length xs - i) zero))) tr (Hk y) E2)
          as [B3 B4]; [set_solver|]. split; [done|]. rewrite B4. set_solver.
Qed.

Lemma slice_inv s h tr :
  v_tree (slice_view t k (Some s)) h = Some tr ->
  exists xs, h !! s_array s ≫= (fun c => prj t c ≫= shown s) = Some xs /\ length xs = s_len s /\
    forall x, x ∈ xs -> is_Some (v_tree (k x) h).
Proof.
  intros Ht. apply at_loc_inv in Ht as (xs & tr' & Hs & Ht & _). exists xs. split; [done|]. split.
  - apply bind_Some in Hs as (c & _ & Hs). apply bind_Some in Hs as (zs & _ & Hs). by eapply shown_length.
  - cbn in Ht. apply fmap_Some in Ht as (ts & Hm & _). apply mapM_Some in Hm.
    apply Forall2_fmap_l in Hm. intros x [i Hi]%list_elem_of_lookup.
    destruct (Forall2_lookup_l _ _ _ _ _ Hm Hi) as (tx & _ & Hx). by eexists.
Qed.

Lemma copier_each : copier k into -> copier (slice_view t k) (if_not_nil (copy_each t zero into)).
Proof.
  intros Hc. apply copier_nil_or. intros h s tr Ht.
  destruct (slice_inv s h tr Ht) as (xs & Hs & Hlen & Htr).
  pose proof (fresh_cell h) as Hl. set (l := fresh (dom h)) in *.
  destruct (for_range_inv (filled h l xs)
    (fun i => x ← load_elem t s i; y ← into x; store_elem t (mkSlice l 0 (length xs)) i y) (length xs) 0
    (<[l := inj t (replicate (length xs) zero)]> h)) as (h' & E & Hf).
  - split; [by apply subseteq_write|]. exists []. cbn. rewrite lookup_insert_eq, Nat.sub_0_r. by split.
  - intros j h1 Hj Hf. apply filled_step; try done; lia.
  - exists (mkSlice l 0 (length xs)), h'. split; [|by apply filled_copied].
    unfold copy_each, make, alloc, mbind, M_bind, mret, M_ret. fold l. rewrite <-Hlen.
    unfold mbind, M_bind in E. by rewrite E.
Qed.
End each.

(** Elements without pointers. *)
Lemma copier_flat {T} (t : ctype (list T)) (zero : T) (c : T -> tree) :
  copier (slice_view t (fun x => leaf (c x))) (if_not_nil (copy_flat t zero)).
Proof.
  apply copier_nil_or. intros h s tr Ht.
  destruct (slice_inv t (fun x => leaf (c x)) s h tr Ht) as (xs & Hs & Hlen & _).
  pose proof (fresh_cell h) as Hl. set (l := fresh (dom h)) in *.
  set (h1 := <[l := inj t (replicate (s_len s) zero)]> h : heap).
  assert (Hh1 : h ⊆ h1) by by apply subseteq_write.
  exists (mkSlice l 0 (length xs)), (<[l := inj t xs]> h1). split.
  - unfold copy_flat, make, alloc, mbind, M_bind, mret, M_ret. fold l h1.
    rewrite (load_slice_in t s h1 xs) by (by eapply read_mono). cbn [s_array].
    rewrite (store_in t l h1 (replicate (s_len s) zero) xs).
    + by rewrite Hlen.
    + unfold h1. rewrite lookup_insert_eq. apply prj_inj.
  - apply (filled_copied t zero (fun x => leaf (c x)) h l xs _ s); [done|done|].
    split; [by apply subseteq_write|]. exists xs.
    rewrite lookup_insert_eq, Nat.sub_diag, firstn_all. cbn. rewrite app_nil_r. split; [done|].
    apply Forall_Forall2_diag, Forall_true. intros x. exists (c x). split_and!; [done|done|set_solver].
Qed.

Lemma copy_entries `{!MapOrder} (out : loc) es : forall (h : heap) o,
  h !! out = Some (CMap o) ->
  (fix loop (l : list (string * string)) : M unit :=
     match l with
     | [] => mret tt
     | (key, val) :: l => o ← load tMap out; store tMap out (<[key := val]> o);; loop l
     end) es h
  = Some (tt, match es with [] => h | _ => <[out := CMap (list_to_map (rev es) ∪ o)]> h end).
Proof.
  induction es as [|[key val] es IH]; intros h o Ho; [done|].
  unfold mbind at 1, M_bind at 1. rewrite (load_in tMap out h o) by (by rewrite Ho).
  unfold mbind at 1, M_bind at 1. rewrite (store_in tMap out h o _) by (by rewrite Ho).
  rewrite (IH _ (<[key := val]> o)) by apply lookup_insert_eq.
  assert (Hm : list_to_map (rev ((key, val) :: es)) ∪ o
               = list_to_map (rev es) ∪ <[key := val]> o :> gmap string string).
  { cbn [rev]. rewrite list_to_map_app, <-(assoc_L (∪)). f_equal. cbn.
    by rewrite insert_empty, <-insert_union_singleton_l. }
  rewrite Hm. destruct es as [|e es]; [|by rewrite insert_insert_eq].
  cbn. by rewrite (left_id_L ∅ (∪)).
Qed.

Lemma copier_map `{!MapOrder} : copier map_view (if_not_nil copy_map).
Proof.
  apply copier_nil_or. intros h p tr Ht. apply at_loc_inv in Ht as (m & t' & Hm & _ & _).
  pose proof (fresh_cell h) as Hl. set (l := fresh (dom h)) in *.
  set (h1 := <[l := CMap ∅]> h : heap).
  assert (Hh1 : h ⊆ h1) by by apply subseteq_write.
  assert (Hall : list_to_map (rev (entries m)) ∪ ∅ = m).
  { rewrite (right_id_L ∅ (∪)). rewrite <-(list_to_map_to_list m) at 2.
    assert (Hp : rev (entries m) ≡ₚ map_to_list m) by (rewrite <-Permutation_rev; apply entries_perm).
    apply list_to_map_proper; [|done]. rewrite Hp. apply NoDup_fst_map_to_list. }
  exists l, (<[l := CMap m]> h1). split.
  - unfold copy_map, alloc. unfold mbind at 1, M_bind at 1. fold l h1.
    unfold mbind at 1, M_bind at 1. rewrite (load_in tMap p h1 m) by (by eapply read_mono).
    unfold mbind at 1, M_bind at 1. rewrite (copy_entries l (entries m) h1 ∅) by apply lookup_insert_eq.
    rewrite Hall. destruct (entries m) eqn:E; [|done].
    cbn in Hall. rewrite (left_id_L ∅ (∪)) in Hall. subst m. unfold h1. by rewrite insert_insert_eq.
  - split; [by apply subseteq_write|]. exists (TPtr (TMap m)).
    split; [by apply (at_loc_read p (prj tMap) (fun m => leaf (TMap m)) TPtr h m (TMap m))|].
    destruct (at_loc_read l (prj tMap) (fun m => leaf (TMap m)) TPtr (<[l := CMap m]> h1) m (TMap m))
      as [-> ->]; [by rewrite lookup_insert_eq|done|].
    split; [done|]. apply not_elem_of_dom in Hl. set_solver.
Qed.

(** ** Structures *)
Lemma rec_inv vs h tr : v_tree (rec_view vs) h = Some tr -> Forall (fun v => is_Some (v_tree v h)) vs.
Proof.
  cbn. intros Ht. apply fmap_Some in Ht as (ts & Hm & _). apply mapM_Some in Hm.
  induction Hm; constructor; [by eexists|done].
Qed.

(** One field is copied while others may have been before: the copy is one of the
    original, and remains one whatever is allocated later. *)
Lemma copier_run {T} (k : T -> view) (into : T -> M T) (h0 h : heap) a :
  (forall x, local (k x)) -> copier k into -> h0 ⊆ h -> is_Some (v_tree (k a) h0) ->
  exists a' h', into a h = Some (a', h') /\ h0 ⊆ h' /\ h ⊆ h' /\
    forall h1, h' ⊆ h1 -> copied h0 (k a) h1 (k a').
Proof.
  intros Hk Hc Hh [tr Ht]. destruct (Hc h a tr (tree_mono _ _ _ _ (Hk a) Hh Ht)) as (a' & h' & E & Hcop).
  exists a', h'. split; [done|]. split; [transitivity h; [done|apply Hcop]|].
  split; [apply Hcop|]. intros h1 H1. by apply (copied_mono _ _ h0 h h' h1); [apply Hk|apply Hk|..].
Qed.

Lemma copier_plain {T} (c : T -> tree) : copier (fun x => leaf (c x)) (fun x => mret x).
Proof. intros h a t _. eexists _, _. split; [done|]. by apply copied_leaf. Qed.

(** ** Kubernetes' own types *)
Class K8sCopies := {
  view_EnvVar : v1_EnvVar -> view; EnvVar_DeepCopyInto : v1_EnvVar -> M v1_EnvVar;
  view_Affinity : v1_Affinity -> view; Affinity_DeepCopyInto : v1_Affinity -> M v1_Affinity;
  view_Toleration : v1_Toleration -> view; Toleration_DeepCopyInto : v1_Toleration -> M v1_Toleration;
  view_ObjectMeta : metav1_ObjectMeta -> view;
  ObjectMeta_DeepCopyInto : metav1_ObjectMeta -> M metav1_ObjectMeta;
  view_ListMeta : metav1_ListMeta -> view;
  ListMeta_DeepCopyInto : metav1_ListMeta -> M metav1_ListMeta;
}.
(** They keep the contract of deep copies. *)
Class K8sCopyLaws `{!K8sCopies} := {
  EnvVar_local : forall x, local (view_EnvVar x);
  EnvVar_copier : copier view_EnvVar EnvVar_DeepCopyInto;
  Affinity_local : forall x, local (view_Affinity x);
  Affinity_copier : copier view_Affinity Affinity_DeepCopyInto;
  Toleration_local : forall x, local (view_Toleration x);
  Toleration_copier : copier view_Toleration Toleration_DeepCopyInto;
  ObjectMeta_local : forall x, local (view_ObjectMeta x);
  ObjectMeta_copier : copier view_ObjectMeta ObjectMeta_DeepCopyInto;
  ListMeta_local : forall x, local (view_ListMeta x);
  ListMeta_copier : copier view_ListMeta ListMeta_DeepCopyInto;
}.

Create HintDb deepcopy.

Section generated.
Context `{!MapOrder} {kcopies : K8sCopies}.

(** ** The generated functions

    [T_DeepCopyInto] takes the content of [*in] and gives that of [*out]: the
    structure is copied, then the fields that hold pointers are replaced. *)
Definition AnnouncementSpec_DeepCopyInto (in_ : AnnouncementSpec) : M AnnouncementSpec := mret in_.
Definition AnnouncementStatus_DeepCopyInto (in_ : AnnouncementStatus) : M AnnouncementStatus := mret in_.
Definition FileInfo_DeepCopyInto (in_ : FileInfo) : M FileInfo := mret in_.
Definition FileSpec_DeepCopyInto (in_ : FileSpec) : M FileSpec := mret in_.
Definition JobStatus_DeepCopyInto (in_ : JobStatus) : M JobStatus := mret in_.
Definition ManagerStatus_DeepCopyInto (in_ : ManagerStatus) : M ManagerStatus := mret in_.

Definition DeployConfig_DeepCopyInto (in_ : Go.DeployConfig) : M Go.DeployConfig :=
  env ← if_not_nil (copy_each tEnvs zero_EnvVar EnvVar_DeepCopyInto) (Go.Env in_);
  secrets ← if_not_nil (copy_flat tRefs "") (Go.ImagePullSecrets in_);
  affinity ← if_not_nil (copy_new tAffinity zero_Affinity Affinity_DeepCopyInto) (Go.Affinity in_);
  tolerations ← if_not_nil (copy_each tTolerations zero_Toleration Toleration_DeepCopyInto)
                  (Go.Tolerations in_);
  mret (Go.mkDeployConfig (Go.Image in_) env (Go.ImagePullPolicy in_) secrets (Go.NodeName in_) affinity
          tolerations (Go.CPULimit in_) (Go.MemoryLimit in_)).

Definition with_AdditionEnvs (envs : option slice) (c : Go.JobConfig) : Go.JobConfig :=
  Go.mkJobConfig (Go.Alias c) (Go.Desc c) (Go.Url c) (Go.HelpUrl c) (Go.Type_ c) (Go.Upstream c)
    (Go.Provider c) (Go.MirrorPath c) (Go.Command c) (Go.Concurrent c) (Go.Interval c) (Go.Retry c)
    (Go.Timeout c) (Go.FailOnMatch c) (Go.IPv6Only c) (Go.IPv4Only c) (Go.ExcludeFile c)
    (Go.RsyncOptions c) (Go.Stage1Profile c) (Go.ExecOnSuccess c) (Go.ExecOnFailure c)
    (Go.SizePattern c) envs (Go.Debug c).
Definition JobConfig_DeepCopyInto (in_ : Go.JobConfig) : M Go.JobConfig :=
  envs ← if_not_nil (copy_each tEnvs zero_EnvVar EnvVar_DeepCopyInto) (Go.AdditionEnvs in_);
  mret (with_AdditionEnvs envs in_).

Definition JobDeploy_DeepCopyInto (in_ : Go.JobDeploy) : M Go.JobDeploy :=
  deploy ← DeployConfig_DeepCopyInto (Go.jd_DeployConfig in_);
  mret (Go.mkJobDeploy deploy (Go.DisableFront in_) (Go.FrontMode in_) (Go.FrontImage in_)
          (Go.FrontCmd in_) (Go.DisableRsync in_) (Go.RsyncImage in_) (Go.RsyncCmd in_)).

Definition PVConfig_DeepCopyInto (in_ : Go.PVConfig) : M Go.PVConfig :=
  class_ ← if_not_nil (copy_new tString "" (fun s => mret s)) (Go.StorageClass in_);
  mret (Go.mkPVConfig (Go.Size in_) class_ (Go.AccessMode in_)).

Definition IngressConfig_DeepCopyInto (in_ : Go.IngressConfig) : M Go.IngressConfig :=
  annotations ← if_not_nil copy_map (Go.Annotations in_);
  mret (Go.mkIngressConfig (Go.IngressClass in_) (Go.TLSSecret in_) (Go.Host in_) annotations).

Definition JobSpec_DeepCopyInto (in_ : Go.JobSpec) : M Go.JobSpec :=
  config ← JobConfig_DeepCopyInto (Go.Config in_);
  deploy ← JobDeploy_DeepCopyInto (Go.Deploy in_);
  volume ← PVConfig_DeepCopyInto (Go.Volume in_);
  ingress ← IngressConfig_DeepCopyInto (Go.Ingress in_);
  mret (Go.mkJobSpec config deploy volume ingress).

Definition ManagerSpec_DeepCopyInto (in_ : Go.ManagerSpec) : M Go.ManagerSpec :=
  deploy ← DeployConfig_DeepCopyInto (Go.ms_Deploy in_);
  ingress ← IngressConfig_DeepCopyInto (Go.ms_Ingress in_);
  mret (Go.mkManagerSpec (Go.DeployType in_) deploy ingress).

Definition FileStatus_DeepCopyInto (in_ : Go.FileStatus) : M Go.FileStatus :=
  files ← if_not_nil (copy_flat tInfos zeroFileInfo) (Go.Files in_);
  mret (Go.mkFileStatus files (Go.UpdateTime in_)).

Definition Announcement_DeepCopyInto (in_ : gNews) : M gNews :=
  meta ← ObjectMeta_DeepCopyInto (Go.o_ObjectMeta in_);
  mret (Go.mkObject (Go.o_TypeMeta in_) meta (Go.Spec in_) (Go.Status in_)).
Definition File_DeepCopyInto (in_ : gFile) : M gFile :=
  meta ← ObjectMeta_DeepCopyInto (Go.o_ObjectMeta in_);
  status ← FileStatus_DeepCopyInto (Go.Status in_);
  mret (Go.mkObject (Go.o_TypeMeta in_) meta (Go.Spec in_) status).
Definition Job_DeepCopyInto (in_ : gJob) : M gJob :=
  meta ← ObjectMeta_DeepCopyInto (Go.o_ObjectMeta in_);
  spec ← JobSpec_DeepCopyInto (Go.Spec in_);
  mret (Go.mkObject (Go.o_TypeMeta in_) meta spec (Go.Status in_)).
Definition Manager_DeepCopyInto (in_ : gManager) : M gManager :=
  meta ← ObjectMeta_DeepCopyInto (Go.o_ObjectMeta in_);
  spec ← ManagerSpec_DeepCopyInto (Go.Spec in_);
  mret (Go.mkObject (Go.o_TypeMeta in_) meta spec (Go.Status in_)).

(** ** Zero values, which [new] and [make] put first *)
Definition zeroTypeMeta : Go.TypeMeta := Go.mkTypeMeta "" "".
Definition zero_JobConfig : Go.JobConfig :=
  Go.mkJobConfig "" "" "" "" "" "" "" "" "" 0 0 0 0 "" "" "" "" "" "" "" "" "" None "".
Definition zero_DeployConfig : Go.DeployConfig := Go.mkDeployConfig "" None "" None "" None None "" "".
Definition zero_JobDeploy : Go.JobDeploy := Go.mkJobDeploy zero_DeployConfig "" "" "" "" "" "" "".
Definition zero_PVConfig : Go.PVConfig := Go.mkPVConfig "" None "".
Definition zero_IngressConfig : Go.IngressConfig := Go.mkIngressConfig "" "" "" None.
Definition zero_JobSpec : Go.JobSpec :=
  Go.mkJobSpec zero_JobConfig zero_JobDeploy zero_PVConfig zero_IngressConfig.
Definition zero_ManagerSpec : Go.ManagerSpec := Go.mkManagerSpec "" zero_DeployConfig zero_IngressConfig.
Definition zero_FileStatus : Go.FileStatus := Go.mkFileStatus None 0.
Definition zero_object {Sp St} (sp : Sp) (st : St) : Go.object Sp St :=
  Go.mkObject zeroTypeMeta zero_ObjectMeta sp st.
Definition zero_list : Go.olist := Go.mkList zeroTypeMeta zero_ListMeta None.
Definition zero_AnnouncementSpec := mkAnnouncementSpec "" "" "".
Definition zero_AnnouncementStatus := mkAnnouncementStatus 0 0.
Definition zero_FileSpec := mkFileSpec "" "".
Definition zero_ManagerStatus := mkManagerStatus "".
Definition zero_Announcement : gNews := zero_object zero_AnnouncementSpec zero_AnnouncementStatus.
Definition zero_File : gFile := zero_object zero_FileSpec zero_FileStatus.
Definition zero_Job : gJob := zero_object zero_JobSpec zeroJobStatus.
Definition zero_Manager : gManager := zero_object zero_ManagerSpec zero_ManagerStatus.

(** ** Lists *)
Definition list_DeepCopyInto {T} (t : ctype (list T)) (zero : T) (into : T -> M T) (in_ : Go.olist)
    : M Go.olist :=
  meta ← ListMeta_DeepCopyInto (Go.l_ListMeta in_);
  items ← if_not_nil (copy_each t zero into) (Go.Items in_);
  mret (Go.mkList (Go.l_TypeMeta in_) meta items).
Definition AnnouncementList_DeepCopyInto : Go.olist -> M Go.olist :=
  list_DeepCopyInto tNewsItems zero_Announcement Announcement_DeepCopyInto.
Definition FileList_DeepCopyInto : Go.olist -> M Go.olist :=
  list_DeepCopyInto tFileItems zero_File File_DeepCopyInto.
Definition JobList_DeepCopyInto : Go.olist -> M Go.olist :=
  list_DeepCopyInto tJobItems zero_Job Job_DeepCopyInto.
Definition ManagerList_DeepCopyInto : Go.olist -> M Go.olist :=
  list_DeepCopyInto tManagerItems zero_Manager Manager_DeepCopyInto.

(** ** DeepCopy and DeepCopyObject *)
Definition DeepCopy {T} (t : ctype T) (zero : T) (into : T -> M T) : option loc -> M (option loc) :=
  if_not_nil (copy_new t zero into).
(** [if c := in.DeepCopy(); c != nil { return c }; return nil] *)
Definition as_object (copy : option loc -> M (option loc)) (in_ : option loc) : M (option loc) :=
  c ← copy in_;
  match c with Some c => mret (Some c) | None => mret None end.

Definition Announcement_DeepCopy := DeepCopy tNews zero_Announcement Announcement_DeepCopyInto.
Definition AnnouncementList_DeepCopy := DeepCopy tNewsList zero_list AnnouncementList_DeepCopyInto.
Definition AnnouncementSpec_DeepCopy := DeepCopy tNewsSpec zero_AnnouncementSpec AnnouncementSpec_DeepCopyInto.
Definition AnnouncementStatus_DeepCopy := DeepCopy tNewsStatus zero_AnnouncementStatus AnnouncementStatus_DeepCopyInto.
Definition DeployConfig_DeepCopy := DeepCopy tDeployConfig zero_DeployConfig DeployConfig_DeepCopyInto.
Definition File_DeepCopy := DeepCopy tFile zero_File File_DeepCopyInto.
Definition FileInfo_DeepCopy := DeepCopy tFileInfo zeroFileInfo FileInfo_DeepCopyInto.
Definition FileList_DeepCopy := DeepCopy tFileList zero_list FileList_DeepCopyInto.
Definition FileSpec_DeepCopy := DeepCopy tFileSpec zero_FileSpec FileSpec_DeepCopyInto.
Definition FileStatus_DeepCopy := DeepCopy tFileStatus zero_FileStatus FileStatus_DeepCopyInto.
Definition IngressConfig_DeepCopy := DeepCopy tIngressConfig zero_IngressConfig IngressConfig_DeepCopyInto.
Definition Job_DeepCopy := DeepCopy tJob zero_Job Job_DeepCopyInto.
Definition JobConfig_DeepCopy := DeepCopy tJobConfig zero_JobConfig JobConfig_DeepCopyInto.
Definition JobDeploy_DeepCopy := DeepCopy tJobDeploy zero_JobDeploy JobDeploy_DeepCopyInto.
Definition JobList_DeepCopy := DeepCopy tJobList zero_list JobList_DeepCopyInto.
Definition JobSpec_DeepCopy := DeepCopy tJobSpec zero_JobSpec JobSpec_DeepCopyInto.
Definition JobStatus_DeepCopy := DeepCopy tJobStatus zeroJobStatus JobStatus_DeepCopyInto.
Definition Manager_DeepCopy := DeepCopy tManager zero_Manager Manager_DeepCopyInto.
Definition ManagerList_DeepCopy := DeepCopy tManagerList zero_list ManagerList_DeepCopyInto.
Definition ManagerSpec_DeepCopy := DeepCopy tManagerSpec zero_ManagerSpec ManagerSpec_DeepCopyInto.
Definition ManagerStatus_DeepCopy := DeepCopy tManagerStatus zero_ManagerStatus ManagerStatus_DeepCopyInto.
Definition PVConfig_DeepCopy := DeepCopy tPVConfig zero_PVConfig PVConfig_DeepCopyInto.
Definition Announcement_DeepCopyObject := as_object Announcement_DeepCopy.
Definition AnnouncementList_DeepCopyObject := as_object AnnouncementList_DeepCopy.
Definition File_DeepCopyObject := as_object File_DeepCopy.
Definition FileList_DeepCopyObject := as_object FileList_DeepCopy.
Definition Job_DeepCopyObject := as_object Job_DeepCopy.
Definition JobList_DeepCopyObject := as_object JobList_DeepCopy.
Definition Manager_DeepCopyObject := as_object Manager_DeepCopy.
Definition ManagerList_DeepCopyObject := as_object ManagerList_DeepCopy.

(** ** Their views *)
Abbreviation str s := (leaf (TStr s)).
Abbreviation num z := (leaf (TNum z)).

Definition view_TypeMeta (m : Go.TypeMeta) : view := leaf (TRec [TStr (Go.Kind m); TStr (Go.APIVersion m)]).
Definition tree_AnnouncementSpec (x : AnnouncementSpec) : tree :=
  TRec [TStr (Title x); TStr (Author x); TStr (Content x)].
Definition tree_AnnouncementStatus (x : AnnouncementStatus) : tree :=
  TRec [TNum (PubTime x); TNum (EditTime x)].
Definition tree_FileInfo (x : FileInfo) : tree :=
  TRec [TStr (fi_Name x); TStr (fi_Ext x); TStr (fi_MajorVersion x); TStr (fi_Version x); TStr (fi_Arch x);
        TStr (fi_Edition x); TStr (fi_EditionType x); TNum (fi_Part x); TStr (fi_Path x);
        TNum (fi_Size x); TStr (fi_SizeStr x)].
Definition tree_FileSpec (x : FileSpec) : tree := TRec [TStr (fs_Type x); TStr (fs_Alias x)].
Definition tree_JobStatus (x : JobStatus) : tree :=
  TRec [TStr (st_Status x); TNum (LastUpdate x); TNum (LastStarted x); TNum (LastEnded x);
        TNum (Scheduled x); TStr (st_Upstream x); TNum (st_Size x); TStr (ErrorMsg x);
        TNum (LastOnline x); TNum (LastRegister x)].
Definition tree_ManagerStatus (x : ManagerStatus) : tree := TRec [TStr (Phase x)].

Definition view_DeployConfig (x : Go.DeployConfig) : view := rec_view
  [str (Go.Image x); slice_view tEnvs view_EnvVar (Go.Env x); str (Go.ImagePullPolicy x);
   slice_view tRefs (fun r => str r) (Go.ImagePullSecrets x); str (Go.NodeName x);
   ptr_view tAffinity view_Affinity (Go.Affinity x);
   slice_view tTolerations view_Toleration (Go.Tolerations x); str (Go.CPULimit x);
   str (Go.MemoryLimit x)].
Definition view_JobConfig (x : Go.JobConfig) : view := rec_view
  [str (Go.Alias x); str (Go.Desc x); str (Go.Url x); str (Go.HelpUrl x); str (Go.Type_ x);
   str (Go.Upstream x); str (Go.Provider x); str (Go.MirrorPath x); str (Go.Command x);
   num (Go.Concurrent x); num (Go.Interval x); num (Go.Retry x); num (Go.Timeout x);
   str (Go.FailOnMatch x); str (Go.IPv6Only x); str (Go.IPv4Only x); str (Go.ExcludeFile x);
   str (Go.RsyncOptions x); str (Go.Stage1Profile x); str (Go.ExecOnSuccess x);
   str (Go.ExecOnFailure x); str (Go.SizePattern x);
   slice_view tEnvs view_EnvVar (Go.AdditionEnvs x); str (Go.Debug x)].
Definition view_JobDeploy (x : Go.JobDeploy) : view := rec_view
  [view_DeployConfig (Go.jd_DeployConfig x); str (Go.DisableFront x); str (Go.FrontMode x);
   str (Go.FrontImage x); str (Go.FrontCmd x); str (Go.DisableRsync x); str (Go.RsyncImage x);
   str (Go.RsyncCmd x)].
Definition view_PVConfig (x : Go.PVConfig) : view := rec_view
  [str (Go.Size x); ptr_view tString (fun s => str s) (Go.StorageClass x); str (Go.AccessMode x)].
Definition view_IngressConfig (x : Go.IngressConfig) : view := rec_view
  [str (Go.IngressClass x); str (Go.TLSSecret x); str (Go.Host x); map_view (Go.Annotations x)].
Definition view_JobSpec (x : Go.JobSpec) : view := rec_view
  [view_JobConfig (Go.Config x); view_JobDeploy (Go.Deploy x); view_PVConfig (Go.Volume x);
   view_IngressConfig (Go.Ingress x)].
Definition view_ManagerSpec (x : Go.ManagerSpec) : view := rec_view
  [str (Go.DeployType x); view_DeployConfig (Go.ms_Deploy x); view_IngressConfig (Go.ms_Ingress x)].
Definition view_FileStatus (x : Go.FileStatus) : view := rec_view
  [slice_view tInfos (fun i => leaf (tree_FileInfo i)) (Go.Files x); num (Go.UpdateTime x)].
Definition view_object {Sp St} (view_spec : Sp -> view) (view_status : St -> view) (x : Go.object Sp St)
    : view := rec_view
  [view_TypeMeta (Go.o_TypeMeta x); view_ObjectMeta (Go.o_ObjectMeta x); view_spec (Go.Spec x);
   view_status (Go.Status x)].
Definition view_Announcement : gNews -> view :=
  view_object (fun x => leaf (tree_AnnouncementSpec x)) (fun x => leaf (tree_AnnouncementStatus x)).
Definition view_File : gFile -> view := view_object (fun x => leaf (tree_FileSpec x)) view_FileStatus.
Definition view_Job : gJob -> view := view_object view_JobSpec (fun x => leaf (tree_JobStatus x)).
Definition view_Manager : gManager -> view :=
  view_object view_ManagerSpec (fun x => leaf (tree_ManagerStatus x)).
Definition view_list {T} (t : ctype (list T)) (k : T -> view) (x : Go.olist) : view := rec_view
  [view_TypeMeta (Go.l_TypeMeta x); view_ListMeta (Go.l_ListMeta x); slice_view t k (Go.Items x)].

(** ** Every generated function copies deeply *)
Context {klaws : K8sCopyLaws}.

#[local] Hint Resolve leaf_local slice_local ptr_local map_local EnvVar_local Affinity_local
  Toleration_local ObjectMeta_local ListMeta_local : deepcopy.
#[local] Hint Resolve copier_each copier_flat copier_new copier_map copier_plain EnvVar_copier
  Affinity_copier Toleration_copier ObjectMeta_copier ListMeta_copier : deepcopy.

Ltac solve_local :=
  apply rec_local; repeat (apply Forall_cons_2; [solve [eauto with deepcopy]|]); apply Forall_nil_2.

Lemma DeployConfig_local x : local (view_DeployConfig x).
Proof. solve_local. Qed.
Lemma JobConfig_local x : local (view_JobConfig x).
Proof. solve_local. Qed.
#[local] Hint Resolve DeployConfig_local JobConfig_local : deepcopy.
Lemma JobDeploy_local x : local (view_JobDeploy x).
Proof. solve_local. Qed.
Lemma PVConfig_local x : local (view_PVConfig x).
Proof. solve_local. Qed.
Lemma IngressConfig_local x : local (view_IngressConfig x).
Proof. solve_local. Qed.
#[local] Hint Resolve JobDeploy_local PVConfig_local IngressConfig_local : deepcopy.
Lemma JobSpec_local x : local (view_JobSpec x).
Proof. solve_local. Qed.
Lemma ManagerSpec_local x : local (view_ManagerSpec x).
Proof. solve_local. Qed.
Lemma FileStatus_local x : local (view_FileStatus x).
Proof. solve_local. Qed.
#[local] Hint Resolve JobSpec_local ManagerSpec_local FileStatus_local : deepcopy.
Lemma object_local {Sp St} (ks : Sp -> view) (kt : St -> view) x :
  (forall x, local (ks x)) -> (forall x, local (kt x)) -> local (view_object ks kt x).
Proof. intros. solve_local. Qed.
Lemma list_local {T} (t : ctype (list T)) k x : (forall x, local (k x)) -> local (view_list t k x).
Proof. intros. solve_local. Qed.

(** A chain of inclusions. *)
Ltac sub_chain := first [reflexivity | eassumption | etransitivity; [eassumption|]; sub_chain].

(** Takes the view of a structure apart. *)
Ltac open_struct :=
  let h := fresh "h" in let a := fresh "a" in let tr := fresh "tr" in let Ht := fresh "Ht" in
  intros h a tr Ht; pose proof (reflexivity h : h ⊆ h); apply rec_inv in Ht;
  repeat match type of Ht with Forall _ (_ :: _) =>
    let Hs := fresh "Hs" in apply Forall_cons in Ht as [Hs Ht] end.
(** Runs the copy [c] of the next field. *)
Ltac copy_field c :=
  match type of c with
  | copier ?k ?into =>
      match goal with
      | Hs : is_Some (v_tree (k ?a) ?h0) |- _ =>
          match goal with
          | Hsub : h0 ⊆ ?hc |- _ =>
              let E := fresh "E" in let Hc := fresh "Hc" in
              let L := fresh "L" in assert (L : forall x, local (k x)) by (intros; eauto with deepcopy);
              destruct (copier_run k into h0 hc a L c Hsub Hs) as (? & ? & E & ? & ? & Hc); clear L
          end
      end
  end.
(** Puts the copies together. *)
Ltac close_struct :=
  eexists _, _; split;
    [unfold mbind, M_bind; repeat match goal with E : _ = Some (_, _) |- _ => rewrite E; clear E end; reflexivity|];
  apply copied_rec; [assumption|];
  repeat (apply Forall2_cons; split;
    [first [apply copied_leaf; assumption
           | match goal with Hc : forall h1, _ -> copied _ ?v h1 _ |- copied _ ?v _ _ => apply Hc; sub_chain end]|]);
  apply Forall2_nil; exact I.

Lemma envs_copier : copier (slice_view tEnvs view_EnvVar)
  (if_not_nil (copy_each tEnvs zero_EnvVar EnvVar_DeepCopyInto)).
Proof. apply copier_each; [apply EnvVar_local|apply EnvVar_copier]. Qed.
Lemma refs_copier : copier (slice_view tRefs (fun r => str r)) (if_not_nil (copy_flat tRefs "")).
Proof. apply copier_flat. Qed.
Lemma affinity_copier : copier (ptr_view tAffinity view_Affinity)
  (if_not_nil (copy_new tAffinity zero_Affinity Affinity_DeepCopyInto)).
Proof. apply copier_new; [apply Affinity_local|apply Affinity_copier]. Qed.
Lemma tolerations_copier : copier (slice_view tTolerations view_Toleration)
  (if_not_nil (copy_each tTolerations zero_Toleration Toleration_DeepCopyInto)).
Proof. apply copier_each; [apply Toleration_local|apply Toleration_copier]. Qed.
Lemma class_copier : copier (ptr_view tString (fun s => str s))
  (if_not_nil (copy_new tString "" (fun s => mret s))).
Proof. apply copier_new; [intros; apply leaf_local|apply (copier_plain TStr)]. Qed.
Lemma infos_copier : copier (slice_view tInfos (fun i => leaf (tree_FileInfo i)))
  (if_not_nil (copy_flat tInfos zeroFileInfo)).
Proof. apply copier_flat. Qed.

Lemma DeployConfig_copier : copier view_DeployConfig DeployConfig_DeepCopyInto.
Proof.
  open_struct. copy_field envs_copier. copy_field refs_copier. copy_field affinity_copier.
  copy_field tolerations_copier. unfold DeployConfig_DeepCopyInto. close_struct.
Qed.
Lemma JobConfig_copier : copier view_JobConfig JobConfig_DeepCopyInto.
Proof. open_struct. copy_field envs_copier. unfold JobConfig_DeepCopyInto. close_struct. Qed.
Lemma JobDeploy_copier : copier view_JobDeploy JobDeploy_DeepCopyInto.
Proof. open_struct. copy_field DeployConfig_copier. unfold JobDeploy_DeepCopyInto. close_struct. Qed.
Lemma PVConfig_copier : copier view_PVConfig PVConfig_DeepCopyInto.
Proof. open_struct. copy_field class_copier. unfold PVConfig_DeepCopyInto. close_struct. Qed.
Lemma IngressConfig_copier : copier view_IngressConfig IngressConfig_DeepCopyInto.
Proof. open_struct. copy_field copier_map. unfold IngressConfig_DeepCopyInto. close_struct. Qed.
Lemma JobSpec_copier : copier view_JobSpec JobSpec_DeepCopyInto.
Proof.
  open_struct. copy_field JobConfig_copier. copy_field JobDeploy_copier. copy_field PVConfig_copier.
  copy_field IngressConfig_copier. unfold JobSpec_DeepCopyInto. close_struct.
Qed.
Lemma ManagerSpec_copier : copier view_ManagerSpec ManagerSpec_DeepCopyInto.
Proof.
  open_struct. copy_field DeployConfig_copier. copy_field IngressConfig_copier.
  unfold ManagerSpec_DeepCopyInto. close_struct.
Qed.
Lemma FileStatus_copier : copier view_FileStatus FileStatus_DeepCopyInto.
Proof. open_struct. copy_field infos_copier. unfold FileStatus_DeepCopyInto. close_struct. Qed.

Lemma Announcement_copier : copier view_Announcement Announcement_DeepCopyInto.
Proof. open_struct. copy_field ObjectMeta_copier. unfold Announcement_DeepCopyInto. close_struct. Qed.
Lemma File_copier : copier view_File File_DeepCopyInto.
Proof.
  open_struct. copy_field ObjectMeta_copier. copy_field FileStatus_copier.
  unfold File_DeepCopyInto. close_struct.
Qed.
Lemma Job_copier : copier view_Job Job_DeepCopyInto.
Proof.
  open_struct. copy_field ObjectMeta_copier. copy_field JobSpec_copier.
  unfold Job_DeepCopyInto. close_struct.
Qed.
Lemma Manager_copier : copier view_Manager Manager_DeepCopyInto.
Proof.
  open_struct. copy_field ObjectMeta_copier. copy_field ManagerSpec_copier.
  unfold Manager_DeepCopyInto. close_struct.
Qed.
Lemma Announcement_local x : local (view_Announcement x).
Proof. apply object_local; eauto with deepcopy. Qed.
Lemma File_local x : local (view_File x).
Proof. apply object_local; eauto with deepcopy. Qed.
Lemma Job_local x : local (view_Job x).
Proof. apply object_local; eauto with deepcopy. Qed.
Lemma Manager_local x : local (view_Manager x).
Proof. apply object_local; eauto with deepcopy. Qed.

Lemma list_copier {T} (t : ctype (list T)) (zero : T) k into :
  (forall x, local (k x)) -> copier k into -> copier (view_list t k) (list_DeepCopyInto t zero into).
Proof.
  intros Hk Hc. pose proof (copier_each t zero k into Hk Hc) as Hitems.
  open_struct. copy_field ListMeta_copier. copy_field Hitems. unfold list_DeepCopyInto. close_struct.
Qed.

(** A pointer to a structure, and what it reaches. *)
Lemma DeepCopy_copier {T} (t : ctype T) (zero : T) k into :
  (forall x, local (k x)) -> copier k into -> copier (ptr_view t k) (DeepCopy t zero into).
Proof. apply copier_new. Qed.
Lemma as_object_same copy in_ (h : heap) : as_object copy in_ h = copy in_ h.
Proof.
  unfold as_object, mbind, M_bind. by destruct (copy in_ h) as [[[c|] h']|].
Qed.

(** Changes confined to what [v] goes through, and to new locations. *)
Definition changed_within (v : view) (h h' : heap) : Prop := agree h h' (dom h ∖ v_foot v h).

Lemma copied_apart (v v' : view) (h h' : heap) t :
  local v -> local v' -> v_tree v h = Some t -> copied h v h' v' ->
  v_tree v' h' = Some t /\ v_foot v h' ## v_foot v' h' /\
  (forall h2, changed_within v' h' h2 -> v_tree v h2 = Some t) /\
  (forall h2, changed_within v h' h2 -> v_tree v' h2 = Some t).
Proof.
  intros Hv Hv' Ht (Hh & t' & E & Ht' & Hd). rewrite Ht in E. injection E as <-.
  destruct (local_agree v Hv h h' t Ht) as [E1 E2].
  { apply agree_subseteq; [done|by eapply local_dom]. }
  pose proof (local_dom v Hv h t Ht) as D1. pose proof (local_dom v' Hv' h' t Ht') as D2.
  apply subseteq_dom in Hh. split_and!; [done|rewrite E2; set_solver|..].
  - intros h2 Hc. apply (local_agree v Hv h' h2 t E1). eapply agree_mono; [exact Hc|]. rewrite E2. set_solver.
  - intros h2 Hc. apply (local_agree v' Hv' h' h2 t Ht'). eapply agree_mono; [exact Hc|]. rewrite E2. set_solver.
Qed.

Definition job_at (p : loc) : view := ptr_view tJob view_Job (Some p).

(** C30: Deep copies are equal and apart: each of the generated functions on the
    four lists (and so on the resources, their specifications and every part of
    them) ends on every structure that can be read, its result reads as the same
    tree, nil slices and maps included, through locations that did not exist
    before, and nothing that existed has changed. *)
Theorem deep_copies_are_equal_and_apart :
  copier (view_list tJobItems view_Job) JobList_DeepCopyInto /\
  copier (view_list tManagerItems view_Manager) ManagerList_DeepCopyInto /\
  copier (view_list tFileItems view_File) FileList_DeepCopyInto /\
  copier (view_list tNewsItems view_Announcement) AnnouncementList_DeepCopyInto.
Proof.
  split_and!; apply list_copier; auto using Job_local, Job_copier, Manager_local, Manager_copier,
    File_local, File_copier, Announcement_local, Announcement_copier.
Qed.

(** C31: A copy shields the original: after DeepCopyObject of a job, whatever is
    then done to the locations of the copy (and to new ones), the original still
    reads as before; and whatever is done to the original, the copy does. *)
Theorem copy_shields_the_original (p : loc) (h : heap) (t : tree) :
  v_tree (job_at p) h = Some t ->
  exists q h', Job_DeepCopyObject (Some p) h = Some (Some q, h') /\ q <> p /\
    v_tree (job_at q) h' = Some t /\ h ⊆ h' /\
    (forall h2, changed_within (job_at q) h' h2 -> v_tree (job_at p) h2 = Some t) /\
    (forall h2, changed_within (job_at p) h' h2 -> v_tree (job_at q) h2 = Some t).
Proof.
  intros Ht. assert (Hl : forall p, local (ptr_view tJob view_Job p)) by (intros; apply ptr_local, Job_local).
  destruct (DeepCopy_copier tJob zero_Job view_Job Job_DeepCopyInto Job_local Job_copier h (Some p) t Ht)
    as ([q|] & h' & E & Hc).
  - destruct (copied_apart _ _ h h' t (Hl (Some p)) (Hl (Some q)) Ht Hc) as (Hq & Hd & H1 & H2).
    exists q, h'. split; [unfold Job_DeepCopyObject; rewrite as_object_same; exact E|].
    split_and!; [|done|apply Hc|done|done]. intros ->. apply (Hd p); apply at_loc_foot.
  - destruct Hc as (_ & t' & H1 & H2 & _). cbn [ptr_view nil_or leaf v_tree] in H2.
    injection H2 as <-. apply at_loc_inv in H1 as (? & ? & _ & _ & ?). discriminate.
Qed.
End generated.
End memory.

(** ** An instance: environment variables with a pointer *)
Module CopyDemo.
(** The name of the variable and where its value comes from. *)
#[export] Instance types : K8sTypes := {|
  v1_EnvVar := string * option loc; v1_Affinity := string; v1_Toleration := string;
  metav1_ObjectMeta := string; metav1_ListMeta := string; v1_cell := string;
  zero_EnvVar := ("", None); zero_Affinity := ""; zero_Toleration := ""; zero_ObjectMeta := "";
  zero_ListMeta := "" |}.
#[export] Instance order : MapOrder := {| entries := map_to_list; entries_perm m := reflexivity _ |}.

Definition tSource : ctype string :=
  {| inj := CExt (k8s := types); prj c := match c with CExt x => Some x | _ => None end;
     prj_inj _ := eq_refl |}.
Definition view_source : option loc -> view := ptr_view tSource (fun s => leaf (TStr s)).
Definition env_view (e : string * option loc) : view := rec_view [leaf (TStr e.1); view_source e.2].
Definition copy_source : option loc -> M (option loc) :=
  if_not_nil (copy_new tSource "" (fun s h => Some (s, h))).
Definition copy_env (e : string * option loc) : M (string * option loc) := fun h =>
  '(s, h) ← copy_source e.2 h; Some ((e.1, s), h).
Definition copy_token (s : string) : M string := fun h => Some (s, h).

#[export] Instance copies : K8sCopies := {|
  view_EnvVar := env_view; EnvVar_DeepCopyInto := copy_env;
  view_Affinity s := leaf (TStr s); Affinity_DeepCopyInto := copy_token;
  view_Toleration s := leaf (TStr s); Toleration_DeepCopyInto := copy_token;
  view_ObjectMeta s := leaf (TStr s); ObjectMeta_DeepCopyInto := copy_token;
  view_ListMeta s := leaf (TStr s); ListMeta_DeepCopyInto := copy_token |}.

Lemma token_copier : copier (fun s => leaf (TStr s)) copy_token.
Proof. apply (copier_plain TStr). Qed.
Lemma source_local p : local (view_source p).
Proof. apply ptr_local. intros. apply leaf_local. Qed.
Lemma env_copier : copier env_view copy_env.
Proof.
  intros h [n p] t Ht. apply rec_inv in Ht. apply Forall_cons in Ht as [_ Ht].
  apply Forall_cons in Ht as [Hp _]. destruct Hp as [tp Hp].
  destruct (copier_new tSource "" (fun s => leaf (TStr s)) (fun s h => Some (s, h))
    (fun s => leaf_local _) (copier_plain TStr) h p tp Hp) as (q & h' & E & Hc).
  exists (n, q), h'. split; [unfold copy_env, copy_source; cbn; by rewrite E|].
  apply copied_rec; [apply Hc|]. constructor; [apply copied_leaf, Hc|]. by constructor.
Qed.
#[export] Instance copy_laws : K8sCopyLaws.
Proof.
  split; try (intros; apply leaf_local); try apply token_copier; [|apply env_copier].
  intros e. apply rec_local. apply Forall_cons_2; [apply leaf_local|].
  apply Forall_singleton, source_local.
Qed.

(** A job at 1 with one additional variable, whose source is at 3. *)
Definition job : Go.object Go.JobSpec JobStatus :=
  Go.mkObject (Go.mkTypeMeta "Job" "v1beta1") "debian"
    (Go.mkJobSpec (with_AdditionEnvs (Some (mkSlice 2 0 1)) zero_JobConfig) zero_JobDeploy zero_PVConfig
       (Go.mkIngressConfig "" "" "" (Some 4%positive)))
    zeroJobStatus.
Definition memory : gmap loc cell :=
  {[1%positive := CJob job; 2%positive := CEnvs [("TOKEN", Some 3%positive)];
    3%positive := CExt "secret"; 4%positive := CMap {["a" := "b"]};
    5%positive := CJobItems [job; job]]}.
(** A list that shows the second of two jobs, which share their parts. *)
Definition items : Go.olist := Go.mkList zeroTypeMeta "" (Some (mkSlice 5 1 1)).
End CopyDemo.
Import CopyDemo.

Lemma deep_copies_are_equal_and_apart_witness :
  exists a' h', JobList_DeepCopyInto CopyDemo.items CopyDemo.memory = Some (a', h') /\
    copied CopyDemo.memory (view_list tJobItems view_Job CopyDemo.items) h' (view_list tJobItems view_Job a').
Proof. eapply (proj1 deep_copies_are_equal_and_apart). vm_compute. reflexivity. Defined.

Lemma copy_shields_the_original_witness :
  exists q h', Job_DeepCopyObject (Some 1%positive) CopyDemo.memory = Some (Some q, h') /\ q <> 1%positive.
Proof.
  destruct (copy_shields_the_original 1%positive CopyDemo.memory
    (default TNil (v_tree (job_at 1%positive) CopyDemo.memory))) as (q & h' & E & Hq & _).
  - vm_compute. reflexivity.
  - by exists q, h'.
Defined.
