(* ===== verification/Sizes.v ===== *)
(** * Sizes and command verbs (src/internal/types.go)

    [ParseSize] prints a byte count with a binary unit, [ParseSizeStr] reads one
    back from a log; [CmdVerb] is the command a client sends to a worker, with
    its JSON spelling. *)

From S2P Require Import Prelude GoLib Float.

(** ** Units *)
Definition B : Z := 1.
Definition K : Z := 1024 * B.
Definition M : Z := 1024 * K.
Definition G : Z := 1024 * M.
Definition T : Z := 1024 * G.

(** [float64(size)/float64(U)] for a unit [U = 2^k]. *)
Definition in_unit (size k : Z) : float := mul_pow2 (of_u64 size) (- k).

Definition ParseSize (size : Z) : string :=
  if T <? size then fmt2 (in_unit size 40) +:+ "T"
  else if G <? size then fmt2 (in_unit size 30) +:+ "G"
  else if M <? size then fmt2 (in_unit size 20) +:+ "M"
  else if K <? size then fmt2 (in_unit size 10) +:+ "K"
  else if negb (size =? 0) then Strconv.Itoa size +:+ "B"
  else "".

Section ParseSizeStr.
(** The conversion [uint64(f)] of a float that no [uint64] represents: Go leaves
    its result to the implementation. *)
Context (u64_overflow : float -> Z).

Definition to_u64 (f : float) : Z :=
  match trunc f with
  | Some z => if (0 <=? z) && (z <? two64) then z else u64_overflow f
  | None => u64_overflow f
  end.

(** Split a non-empty string before its last byte. *)
Fixpoint unsnoc (c : ascii) (s : string) : string * ascii :=
  match s with
  | EmptyString => ("", c)
  | String d s => let '(p, l) := unsnoc d s in (String c p, l)
  end.

(** The unit switch on the last byte; [None] is the [return] on a parse error. *)
Definition size_value (sizeStr : string) (init : string) (unit : ascii) : option float :=
  match ParseFloat init with
  | None => None
  | Some sizeRaw =>
      if Ascii.eqb unit "T" then Some (mul_pow2 sizeRaw 40)
      else if Ascii.eqb unit "G" then Some (mul_pow2 sizeRaw 30)
      else if Ascii.eqb unit "M" then Some (mul_pow2 sizeRaw 20)
      else if Ascii.eqb unit "K" then Some (mul_pow2 sizeRaw 10)
      else ParseFloat sizeStr
  end.

(** Spaces and newlines, the byte or bit suffix and the binary marker go; the
    flag says the size was given in bits. *)
Definition clean_size (sizeStr : string) : string * bool :=
  let sizeStr := Strings.RemoveAll sizeStr " " in
  let sizeStr := Strings.RemoveAll sizeStr "010" in
  let isBit := Strings.HasSuffix sizeStr "b" in
  let sizeStr := if isBit then Strings.TrimSuffix sizeStr "b"
                 else Strings.TrimSuffix sizeStr "B" in
  let sizeStr := Strings.TrimSuffix sizeStr "i" in
  (Strings.ToUpper sizeStr, isBit).

Definition ParseSizeStr (sizeStr : string) : Z :=
  if negb (String.eqb sizeStr "") && negb (String.eqb sizeStr "unknown") then
    let '(sizeStr, isBit) := clean_size sizeStr in
    match sizeStr with
    | EmptyString => 0
    | String c s =>
        let '(init, unit) := unsnoc c s in
        match size_value sizeStr init unit with
        | None => 0
        | Some sizeRaw =>
            if isBit then to_u64 (mul_pow2 sizeRaw (-3)) else to_u64 sizeRaw
        end
    end
  else 0.

End ParseSizeStr.

(** ** Command verbs *)
Inductive CmdVerb := CmdStart | CmdStop | CmdRestart | CmdPing | CmdUpdate.

#[export] Instance CmdVerb_eq_dec : EqDecision CmdVerb.
Proof. solve_decision. Defined.

(** The map lookup gives the zero string for [CmdUpdate]. *)
Definition CmdVerb_String (c : CmdVerb) : string :=
  match c with
  | CmdStart => "start" | CmdStop => "stop" | CmdRestart => "restart"
  | CmdPing => "ping" | CmdUpdate => ""
  end.

(** The map lookup gives the zero verb, [CmdStart], for any other string. *)
Definition NewCmdVerbFromString (s : string) : CmdVerb :=
  if String.eqb s "start" then CmdStart
  else if String.eqb s "stop" then CmdStop
  else if String.eqb s "restart" then CmdRestart
  else if String.eqb s "ping" then CmdPing
  else CmdStart.

(** [UnmarshalJSON]: [j] is what [json.Unmarshal] decodes the bytes to, [None]
    when they are not a JSON string. *)
Definition CmdVerb_UnmarshalJSON (j : option string) : option CmdVerb :=
  option_map NewCmdVerbFromString j.

(** A client command; a missing field decodes to its zero value. *)
Record ClientCmd := mkClientCmd { cc_Cmd : CmdVerb; cc_Force : bool }.

Example ps1 : ParseSize 1536 = "1.50K". Proof. vm_compute. reflexivity. Qed.
Example ps2 : ParseSize (5 * T + 3) = "5.00T". Proof. vm_compute. reflexivity. Qed.
Example ps3 : ParseSizeStr (fun _ => 0) "1.50K" = 1536. Proof. vm_compute. reflexivity. Qed.
Example ps4 : ParseSizeStr (fun _ => 0) "800 Mib" = 104857600. Proof. vm_compute. reflexivity. Qed.
Example ps5 : ParseSizeStr (fun _ => 0) "7" = 0. Proof. vm_compute. reflexivity. Qed.
Example ps6 : ParseSizeStr (fun _ => 0) "1.5P" = 0. Proof. vm_compute. reflexivity. Qed.
Example ps7 : ParseSize 18446744073709551615 = "16777216.00T". Proof. vm_compute. reflexivity. Qed.

(** ** Strings of decimal digits *)
Fixpoint all_digits (s : string) : Prop :=
  match s with
  | EmptyString => True
  | String c s => Strconv.digit_val c <> None /\ all_digits s
  end.

Lemma digit_val_inv c :
  Strconv.digit_val c <> None -> (48 <= N_of_ascii c <= 57)%N.
Proof.
  unfold Strconv.digit_val. destruct (_ && _) eqn:E; [|done]. intros _.
  apply andb_true_iff in E as [H1%Z.leb_le H2%Z.leb_le]. lia.
Qed.

Lemma all_digits_app s t : all_digits (s +:+ t) <-> all_digits s /\ all_digits t.
Proof. induction s as [|c s IH]; simpl; [tauto|]. rewrite IH. tauto. Qed.

Lemma digits_all_digits fuel n acc :
  0 <= n -> all_digits acc -> all_digits (Strconv.digits fuel n acc).
Proof.
  revert n acc; induction fuel as [|fuel IH]; intros n acc Hn Hacc; simpl; [done|].
  assert (all_digits (String (Strconv.digit (n mod 10)) acc)) as H.
  { split; [|done]. rewrite Strconv.digit_val_digit; [done|]. apply Z.mod_pos_bound; lia. }
  destruct (n <? 10); [done|]. apply IH; [apply Z.div_pos; lia|done].
Qed.

Lemma Itoa_all_digits n : 0 <= n -> all_digits (Strconv.Itoa n).
Proof.
  intros H. unfold Strconv.Itoa. destruct (Z.ltb_spec n 0); [lia|].
  by apply digits_all_digits.
Qed.

Lemma RemoveAll_digits s c :
  all_digits s -> Strconv.digit_val c = None -> Strings.RemoveAll s c = s.
Proof.
  induction s as [|a s IH]; simpl; [done|]. intros [Ha Hs] Hc.
  destruct (Ascii.eqb_spec a c) as [->|]; [done|]. f_equal; auto.
Qed.

Lemma ToUpper_digits s : all_digits s -> Strings.ToUpper s = s.
Proof.
  unfold Strings.ToUpper. induction s as [|a s IH]; simpl; [done|].
  intros [Ha Hs]. rewrite IH by done. f_equal.
  apply digit_val_inv in Ha. unfold Strings.upper.
  destruct (N.leb_spec 97 (N_of_ascii a)); [lia|done].
Qed.

Lemma HasSuffix_last s c d :
  Strings.HasSuffix (s +:+ String c "") (String d "") = Ascii.eqb c d.
Proof.
  unfold Strings.HasSuffix. rewrite Strings.length_app. simpl.
  replace (String.length s + 1 - 1)%nat with (String.length s) by lia.
  rewrite Strings.drop_app. simpl.
  replace (String.length s + 1)%nat with (S (String.length s)) by lia.
  simpl. by destruct (Ascii.eqb c d).
Qed.

Lemma unsnoc_spec c s : let '(p, l) := unsnoc c s in p +:+ String l "" = String c s.
Proof.
  revert c; induction s as [|d s IH]; intros c; simpl; [done|].
  specialize (IH d). destruct (unsnoc d s) as [p l]. simpl. by f_equal.
Qed.

Lemma unsnoc_app s l c t : s +:+ String l "" = String c t -> unsnoc c t = (s, l).
Proof.
  revert c t; induction s as [|d s IH]; intros c t H; simpl in *; simplify_eq; [done|].
  destruct s as [|d' s]; simpl; [done|].
  by rewrite (IH d' (s +:+ String l "")).
Qed.

(** Reading digits: the scanner consumes them all. *)
Lemma scan_mant_digits s a v :
  all_digits s -> mt_dot a = false ->
  Strconv.parse_digits s (mt_val a) = Some v ->
  scan_mant s a = (mkMant v (mt_frac a) false (mt_any a || negb (String.eqb s "")), "").
Proof.
  revert a v; induction s as [|c s IH]; intros a v Hs Hd Hv; simpl in *.
  - simplify_eq. destruct a; simpl in *; subst. by rewrite orb_false_r.
  - destruct Hs as [Hc Hs]. apply digit_val_inv in Hc as Hr.
    destruct (Ascii.eqb_spec c ".") as [->|_]; [simpl in Hr; lia|].
    destruct (Strconv.digit_val c) as [d|] eqn:E; [|done].
    rewrite (IH _ v) by (rewrite ?Hd; done). rewrite Hd. by rewrite orb_true_r.
Qed.

Lemma parse_digits_total s v : all_digits s -> exists w, Strconv.parse_digits s v = Some w.
Proof.
  revert v; induction s as [|c s IH]; intros v; simpl; [eauto|]. intros [Hc Hs].
  destruct (Strconv.digit_val c) as [d|]; [|done]. auto.
Qed.

Lemma digits_not_word s w :
  all_digits s -> (exists c t, w = String c t /\ Strconv.digit_val c = None) -> s <> w.
Proof. intros Hs (c & t & -> & Hc) ->. by destruct Hs. Qed.

Lemma ParseFloat_digits s v :
  all_digits s -> s <> "" -> Strconv.parse_digits s 0 = Some v ->
  ParseFloat s = round_pos v 1.
Proof.
  intros Hs Hne Hv. assert (Hp : parse_unsigned s = round_pos v 1).
  { unfold parse_unsigned. rewrite ToUpper_digits by done.
    rewrite bool_decide_false by (intros [->| ->]; by destruct Hs).
    rewrite (scan_mant_digits s _ v) by done. simpl.
    destruct (String.eqb_spec s ""); [done|]. simpl. by rewrite Z.mul_1_r. }
  unfold ParseFloat. rewrite ToUpper_digits by done.
  rewrite bool_decide_false by (intros ->; by destruct Hs).
  destruct s as [|c s]; [done|].
  destruct Hs as [Hc Hs]. apply digit_val_inv in Hc.
  destruct c as [[] [] [] [] [] [] [] []]; try exact Hp; simpl in Hc; lia.
Qed.

(** ** Reading back printed integers *)
Lemma TrimSuffix_last s c d :
  Strings.TrimSuffix (s +:+ String c "") (String d "")
  = if Ascii.eqb c d then s else s +:+ String c "".
Proof.
  destruct (Ascii.eqb_spec c d) as [->|Hne]; [apply Strings.TrimSuffix_app|].
  apply Strings.TrimSuffix_no. rewrite HasSuffix_last. by apply Ascii.eqb_neq.
Qed.

Lemma RemoveAll_app s t c :
  Strings.RemoveAll (s +:+ t) c = Strings.RemoveAll s c +:+ Strings.RemoveAll t c.
Proof. induction s as [|a s IH]; simpl; [done|]. rewrite IH. by destruct (Ascii.eqb a c). Qed.

Lemma ToUpper_app s t : Strings.ToUpper (s +:+ t) = Strings.ToUpper s +:+ Strings.ToUpper t.
Proof.
  unfold Strings.ToUpper. induction s as [|a s IH]; simpl; [done|]. by rewrite IH.
Qed.

Lemma Itoa_snoc n :
  0 <= n -> exists p l, Strconv.Itoa n = p +:+ String l "" /\ all_digits p
    /\ Strconv.digit_val l <> None /\ (p <> "" <-> 10 <= n).
Proof.
  intros Hn. pose proof (Itoa_all_digits n Hn) as Hd.
  assert (Hp : Strconv.parse_nat (Strconv.Itoa n) = Some n).
  { unfold Strconv.Itoa. destruct (Z.ltb_spec n 0); [lia|].
    apply Strconv.parse_nat_digits, Strconv.log2_fuel, Hn. }
  destruct (Strconv.Itoa n) as [|c s] eqn:E; [done|].
  pose proof (unsnoc_spec c s) as Hu. destruct (unsnoc c s) as [p l].
  rewrite <-Hu in *. apply all_digits_app in Hd as [Hdp [Hdl _]].
  exists p, l. split; [done|]. split; [done|]. split; [done|]. split.
  - intros Hne. destruct (Z.le_gt_cases 10 n) as [|Hlt]; [done|exfalso].
    assert (String.length (Strconv.Itoa n) = 1%nat) as Hlen.
    { clear -Hn Hlt. destruct n as [|q|q]; [done| |lia].
      do 4 (destruct q as [q|q|]; try done; try lia). }
    rewrite E, Strings.length_app in Hlen. destruct p; simpl in Hlen; [done|lia].
  - intros Hge ->. unfold Strconv.parse_nat in Hp. simpl in Hp.
    unfold Strconv.digit_val in Hp. destruct (_ && _) eqn:Eb; simplify_eq.
    apply andb_true_iff in Eb as [_ H2%Z.leb_le]. lia.
Qed.

Lemma Itoa_parse n : 0 <= n -> Strconv.parse_digits (Strconv.Itoa n) 0 = Some n.
Proof.
  intros Hn. unfold Strconv.Itoa. destruct (Z.ltb_spec n 0); [lia|].
  by rewrite Strconv.parse_digits_digits by (apply Strconv.log2_fuel, Hn).
Qed.

Lemma Itoa_nonempty n : 0 <= n -> Strconv.Itoa n <> "".
Proof. intros H. destruct (Itoa_snoc n H) as (p & l & -> & _). by destruct p. Qed.

Lemma ParseFloat_Itoa n : 0 <= n -> ParseFloat (Strconv.Itoa n) = round_pos n 1.
Proof.
  intros H. apply ParseFloat_digits;
    auto using Itoa_all_digits, Itoa_nonempty, Itoa_parse.
Qed.

(** Scaling an exactly represented integer by a unit is exact. *)
Lemma trunc_scale n e k :
  0 <= n < 2 ^ 53 -> -53 <= e <= 0 -> 0 <= k <= 40 ->
  trunc (mul_pow2 (Fin (n * 2 ^ (- e)) e) k) = Some (n * 2 ^ k).
Proof.
  intros Hn He Hk. assert (0 < 2 ^ (- e) <= 2 ^ 53) as He2.
  { split; [apply Z.pow_pos_nonneg; lia|apply Z.pow_le_mono_r; lia]. }
  assert (0 < 2 ^ k <= 2 ^ 40) as Hk2.
  { split; [apply Z.pow_pos_nonneg; lia|apply Z.pow_le_mono_r; lia]. }
  assert (2 ^ 106 < 2 ^ 1024) by reflexivity.
  assert (0 <= n * 2 ^ (- e) < 2 ^ 106).
  { change (2 ^ 106) with (2 ^ 53 * 2 ^ 53). nia. }
  assert (Hs : 0 <= e + k -> n * 2 ^ (- e) * 2 ^ (e + k) = n * 2 ^ k).
  { intros. rewrite <-Z.mul_assoc, <-Z.pow_add_r by lia. do 2 f_equal. lia. }
  assert (0 <= n * 2 ^ k < 2 ^ 106).
  { change (2 ^ 106) with (2 ^ 53 * 2 ^ 53). nia. }
  unfold mul_pow2. rewrite Z.abs_eq by lia.
  destruct (Z.ltb_spec (e + k) 0) as [Hlt|Hge].
  - destruct (Z.leb_spec (2 ^ 1024) (n * 2 ^ (- e))); [lia|]. simpl.
    destruct (Z.ltb_spec (e + k) 0); [|lia]. f_equal.
    replace (- e) with (k + - (e + k)) by lia.
    rewrite Z.pow_add_r, Z.mul_assoc by lia. rewrite Z.quot_mul; [done|].
    apply Z.pow_nonzero; lia.
  - rewrite Hs by lia. destruct (Z.leb_spec (2 ^ 1024) (n * 2 ^ k)); [lia|]. simpl.
    destruct (Z.ltb_spec (e + k) 0); [lia|]. by rewrite Hs.
Qed.

Lemma round_pos_scale n k :
  0 <= n < 2 ^ 53 -> 0 <= k <= 40 ->
  exists f, round_pos n 1 = Some f /\ trunc (mul_pow2 f k) = Some (n * 2 ^ k).
Proof.
  intros Hn Hk. destruct (Z.eq_dec n 0) as [->|Hne].
  - exists (Fin 0 0). split; [done|]. apply (trunc_scale 0 0 k); lia.
  - destruct (round_pos_int n) as (e & He & ->); [lia|]. eexists; split; [done|].
    by apply trunc_scale.
Qed.

Lemma mul_pow2_0 n : 0 <= n < 2 ^ 53 ->
  exists f, round_pos n 1 = Some f /\ trunc f = Some n.
Proof.
  intros Hn. destruct (Z.eq_dec n 0) as [->|Hne]; [by exists (Fin 0 0)|].
  destruct (round_pos_int n) as (e & He & ->); [lia|]. eexists; split; [done|].
  simpl. destruct (Z.ltb_spec e 0).
  - rewrite Z.quot_mul; [done|]. apply Z.pow_nonzero; lia.
  - replace e with 0 by lia. f_equal. simpl. lia.
Qed.

Lemma to_u64_trunc ov f n : trunc f = Some n -> in_u64 n -> to_u64 ov f = n.
Proof.
  intros H [H0 H1]. unfold to_u64. rewrite H.
  destruct (Z.leb_spec 0 n), (Z.ltb_spec n two64); simpl; lia.
Qed.

Lemma parse_digits_app s t a :
  Strconv.parse_digits (s +:+ t) a = (Strconv.parse_digits s a ≫= Strconv.parse_digits t).
Proof.
  revert a; induction s as [|c s IH]; intros a; simpl; [done|].
  by destruct (Strconv.digit_val c).
Qed.

Lemma parse_digits_ge s a v : 0 <= a -> Strconv.parse_digits s a = Some v -> a <= v.
Proof.
  revert a; induction s as [|c s IH]; intros a Ha; simpl; intros H; simplify_eq; [done|].
  unfold Strconv.digit_val in H. destruct (_ && _) eqn:E; [|done].
  apply andb_true_iff in E as [E1%Z.leb_le E2%Z.leb_le].
  apply IH in H; lia.
Qed.

(** A prefix of the digits of an exactly represented integer is one too. *)
Lemma ParseFloat_prefix n p l :
  0 <= n < 2 ^ 53 -> Strconv.Itoa n = p +:+ String l "" -> all_digits p -> p <> "" ->
  exists f, ParseFloat p = Some f.
Proof.
  intros Hn E Hp Hne. destruct (parse_digits_total p 0 Hp) as [v Hv].
  rewrite (ParseFloat_digits p v) by done.
  pose proof (Itoa_parse n ltac:(lia)) as Hi. rewrite E, parse_digits_app, Hv in Hi.
  cbn [mbind option_bind] in Hi. pose proof (parse_digits_ge p 0 v ltac:(lia) Hv).
  assert (v <= n).
  { simpl in Hi. unfold Strconv.digit_val in Hi. destruct (_ && _) eqn:Eb; [|done].
    apply andb_true_iff in Eb as [E1%Z.leb_le E2%Z.leb_le]. simplify_eq. lia. }
  destruct (mul_pow2_0 v) as (f & -> & _); [lia|]. eauto.
Qed.

Lemma clean_size_digits s l :
  all_digits s -> Strconv.digit_val l <> None ->
  clean_size (s +:+ String l "") = (s +:+ String l "", false).
Proof.
  intros Hs Hl. assert (Hd : all_digits (s +:+ String l "")) by (by apply all_digits_app).
  assert (Hneq : forall c, Strconv.digit_val c = None -> Ascii.eqb l c = false).
  { intros c Hc. apply Ascii.eqb_neq. by intros ->. }
  unfold clean_size.
  rewrite (RemoveAll_digits _ " "), (RemoveAll_digits _ "010") by done.
  rewrite HasSuffix_last, Hneq by done.
  do 2 (rewrite TrimSuffix_last, Hneq by done).
  by rewrite ToUpper_digits.
Qed.

Lemma not_special s : all_digits s -> s <> "" ->
  forall t, negb (String.eqb (s +:+ t) "") && negb (String.eqb (s +:+ t) "unknown") = true.
Proof.
  intros Hs Hne t. destruct s as [|c s]; [done|]. destruct Hs as [Hc Hs]. simpl.
  destruct (Ascii.eqb_spec c "u") as [->|]; done.
Qed.

Lemma ParseSizeStr_Itoa ov n :
  0 <= n < 2 ^ 53 -> ParseSizeStr ov (Strconv.Itoa n) = if n <? 10 then 0 else n.
Proof.
  intros Hn. destruct (Itoa_snoc n) as (p & l & E & Hp & Hl & Hne); [lia|].
  pose proof (Itoa_all_digits n ltac:(lia)) as Hd.
  pose proof (not_special _ Hd (Itoa_nonempty n ltac:(lia)) "") as Hsp.
  rewrite Strings.app_nil_r in Hsp. unfold ParseSizeStr. rewrite Hsp.
  rewrite E at 1. rewrite clean_size_digits, <-E by done.
  destruct (Strconv.Itoa n) as [|c s] eqn:En; [by destruct p|].
  rewrite (unsnoc_app p l c s) by done. rewrite <-En in *.
  assert (Hneq : forall c, Strconv.digit_val c = None -> Ascii.eqb l c = false).
  { intros c' Hc. apply Ascii.eqb_neq. by intros ->. }
  unfold size_value. destruct (Z.ltb_spec n 10) as [Hlt|Hge].
  - destruct p as [|a p]; [reflexivity|]. destruct Hne as [Hne _].
    specialize (Hne ltac:(done)). lia.
  - destruct (ParseFloat_prefix n p l) as [f ->]; [lia|done..|by apply Hne|].
    rewrite !Hneq, ParseFloat_Itoa by (done || lia).
    destruct (mul_pow2_0 n) as (g & -> & Hg); [lia|].
    apply to_u64_trunc; [done|]. assert (2 ^ 53 < two64) by reflexivity.
    unfold in_u64. lia.
Qed.

(** The unit spellings and the power of two each stands for. *)
Definition unit_spellings : list (string * Z) :=
  [("K", 10); ("KB", 10); ("KiB", 10); ("k", 10); ("kB", 10);
   ("M", 20); ("MB", 20); ("MiB", 20); ("m", 20); ("mB", 20);
   ("G", 30); ("GB", 30); ("GiB", 30); ("g", 30); ("gB", 30);
   ("T", 40); ("TB", 40); ("TiB", 40); ("t", 40); ("tB", 40)].

Definition unit_letter (k : Z) : ascii :=
  if k =? 10 then "K" else if k =? 20 then "M" else if k =? 30 then "G" else "T".

Lemma clean_size_unit s suf k :
  all_digits s -> (suf, k) ∈ unit_spellings ->
  clean_size (s +:+ suf) = (s +:+ String (unit_letter k) "", false).
Proof.
  intros Hs Hin. unfold clean_size.
  rewrite !RemoveAll_app, (RemoveAll_digits s " "), (RemoveAll_digits s "010") by done.
  assert (Hsplit : forall a b, s +:+ String a (String b "") = (s +:+ String a "") +:+ String b "")
    by (intros; by rewrite Strings.app_assoc).
  assert (Hsplit3 : forall a b c, s +:+ String a (String b (String c ""))
      = (s +:+ String a (String b "")) +:+ String c "")
    by (intros; by rewrite Strings.app_assoc).
  unfold unit_spellings in Hin. rewrite !elem_of_cons in Hin.
  destruct_or! Hin; try (by apply elem_of_nil in Hin); injection Hin as -> ->;
    simpl Strings.RemoveAll; rewrite ?Hsplit3, ?Hsplit;
    rewrite ?HasSuffix_last; simpl; rewrite ?TrimSuffix_last; simpl;
    rewrite ?Hsplit; rewrite ?TrimSuffix_last; simpl;
    by rewrite ToUpper_app, ToUpper_digits.
Qed.

Lemma ParseSizeStr_with_unit ov n suf k :
  0 <= n < 2 ^ 53 -> in_u64 (n * 2 ^ k) -> (suf, k) ∈ unit_spellings ->
  ParseSizeStr ov (Strconv.Itoa n +:+ suf) = n * 2 ^ k.
Proof.
  intros Hn Hr Hin. pose proof (Itoa_all_digits n ltac:(lia)) as Hd.
  unfold ParseSizeStr. rewrite not_special by (done || apply Itoa_nonempty; lia).
  rewrite (clean_size_unit _ _ k) by done.
  destruct (Strconv.Itoa n +:+ String (unit_letter k) "") as [|c s] eqn:E.
  { by destruct (Strconv.Itoa n). }
  rewrite (unsnoc_app _ _ _ _ E). unfold size_value. rewrite ParseFloat_Itoa by lia.
  assert (Hk : (k = 10 \/ k = 20 \/ k = 30 \/ k = 40)).
  { unfold unit_spellings in Hin. rewrite !elem_of_cons in Hin.
    destruct_or! Hin; try (by apply elem_of_nil in Hin); injection Hin as _ ->; lia. }
  destruct (round_pos_scale n k) as (f & -> & Hf); [lia..|].
  assert (Hv : to_u64 ov (mul_pow2 f k) = n * 2 ^ k) by (by apply to_u64_trunc).
  destruct_or! Hk; subst; exact Hv.
Qed.

(** ** Properties *)

(** A size printed as a plain decimal number of bytes is read back exactly
    when it has at least two digits, and as 0 when it has a single digit. *)
Theorem ParseSizeStr_plain_integer (ov : float -> Z) (n : Z) :
  0 <= n < 2 ^ 53 -> ParseSizeStr ov (Strconv.Itoa n) = if n <? 10 then 0 else n.
Proof. apply ParseSizeStr_Itoa. Qed.

Lemma ParseSizeStr_plain_integer_witness :
  0 <= 734003200 < 2 ^ 53 /\ ParseSizeStr (fun _ => 0) (Strconv.Itoa 734003200) = 734003200.
Proof. split; [lia|]. apply (ParseSizeStr_plain_integer (fun _ => 0) 734003200). lia. Defined.

(** A whole number followed by any of the spellings of the units K, M, G, T
    (upper or lower case, with B or iB) is read as that many units, as long as
    the result is a uint64. *)
Theorem ParseSizeStr_units (ov : float -> Z) (n k : Z) (suf : string) :
  0 <= n < 2 ^ 53 -> in_u64 (n * 2 ^ k) -> (suf, k) ∈ unit_spellings ->
  ParseSizeStr ov (Strconv.Itoa n +:+ suf) = n * 2 ^ k.
Proof. apply ParseSizeStr_with_unit. Qed.

Lemma ParseSizeStr_units_witness :
  ParseSizeStr (fun _ => 0) (Strconv.Itoa 3 +:+ "GiB") = 3221225472.
Proof.
  apply (ParseSizeStr_units (fun _ => 0) 3 30 "GiB").
  - lia.
  - split; reflexivity || discriminate.
  - by apply (bool_decide_unpack _).
Defined.

(** Every verb a client can name survives its JSON spelling; a string that
    names no verb, and the spelling of CmdUpdate, decode to CmdStart. *)
Theorem CmdVerb_roundtrip (c : CmdVerb) (s : string) :
  CmdVerb_UnmarshalJSON (Some (CmdVerb_String c))
    = Some (if decide (c = CmdUpdate) then CmdStart else c)
  /\ (s ∉ map CmdVerb_String [CmdStart; CmdStop; CmdRestart; CmdPing] ->
      CmdVerb_UnmarshalJSON (Some s) = Some CmdStart).
Proof.
  split; [by destruct c|]. simpl. rewrite !not_elem_of_cons. intros (H1 & H2 & H3 & H4 & _).
  unfold NewCmdVerbFromString.
  destruct (String.eqb_spec s "start"), (String.eqb_spec s "stop"),
    (String.eqb_spec s "restart"), (String.eqb_spec s "ping"); done.
Qed.

Lemma CmdVerb_roundtrip_witness :
  CmdVerb_UnmarshalJSON (Some "update") = Some CmdStart.
Proof.
  apply (proj2 (CmdVerb_roundtrip CmdStart "update")).
  by apply (bool_decide_unpack _).
Defined.
