(* ===== verification/Recognizer.v ===== *)
(** * Recognition of image file names (src/internal/recognizer.go)

    [Recognizer] reads the distribution, version, architecture and edition of a
    downloadable file out of its name.  Every family of the source's [switch]
    is one definition here; slice and string indexing go through [index] and
    [byte_at], so a malformed name that makes the Go code panic is a [Panic] of
    the model. *)

From S2P Require Import Prelude GoLib Types.

(** [combine] *)
Definition combine (s : list string) (e : string) : string :=
  Strings.TrimSuffix
    (fold_left (fun r v => if String.eqb v "" then r else r +:+ (v +:+ e)) s "") e.

(** Assignments to the named result [f]. *)
Definition setMajor (v : string) (f : FileInfo) : FileInfo :=
  mkFileInfo (fi_Name f) (fi_Ext f) v (fi_Version f) (fi_Arch f) (fi_Edition f)
    (fi_EditionType f) (fi_Part f) (fi_Path f) (fi_Size f) (fi_SizeStr f).
Definition setVersion (v : string) (f : FileInfo) : FileInfo :=
  mkFileInfo (fi_Name f) (fi_Ext f) (fi_MajorVersion f) v (fi_Arch f) (fi_Edition f)
    (fi_EditionType f) (fi_Part f) (fi_Path f) (fi_Size f) (fi_SizeStr f).
Definition setArch (v : string) (f : FileInfo) : FileInfo :=
  mkFileInfo (fi_Name f) (fi_Ext f) (fi_MajorVersion f) (fi_Version f) v (fi_Edition f)
    (fi_EditionType f) (fi_Part f) (fi_Path f) (fi_Size f) (fi_SizeStr f).
Definition setEdition (v : string) (f : FileInfo) : FileInfo :=
  mkFileInfo (fi_Name f) (fi_Ext f) (fi_MajorVersion f) (fi_Version f) (fi_Arch f) v
    (fi_EditionType f) (fi_Part f) (fi_Path f) (fi_Size f) (fi_SizeStr f).
Definition setEditionType (v : string) (f : FileInfo) : FileInfo :=
  mkFileInfo (fi_Name f) (fi_Ext f) (fi_MajorVersion f) (fi_Version f) (fi_Arch f)
    (fi_Edition f) v (fi_Part f) (fi_Path f) (fi_Size f) (fi_SizeStr f).
Definition setPart (v : Z) (f : FileInfo) : FileInfo :=
  mkFileInfo (fi_Name f) (fi_Ext f) (fi_MajorVersion f) (fi_Version f) (fi_Arch f)
    (fi_Edition f) (fi_EditionType f) v (fi_Path f) (fi_Size f) (fi_SizeStr f).
Definition setName (v : string) (f : FileInfo) : FileInfo :=
  mkFileInfo v (fi_Ext f) (fi_MajorVersion f) (fi_Version f) (fi_Arch f)
    (fi_Edition f) (fi_EditionType f) (fi_Part f) (fi_Path f) (fi_Size f) (fi_SizeStr f).

(** [s[i]] of a Go string. *)
Definition byte_at (s : string) (i : nat) : outcome ascii :=
  match String.get i s with
  | Some c => Ret c
  | None => Panic "index out of range"
  end.

Definition dash (name : string) : list string := Strings.Split name "-".
Definition atleast (n : nat) (l : list string) : bool := (n <=? length l)%nat.

Definition centos (name : string) (f : FileInfo) : outcome FileInfo :=
  let name := Strings.TrimPrefix name "CentOS-" in
  let stream := Strings.HasPrefix name "Stream-" in
  let name := if stream then Strings.TrimPrefix name "Stream-" else name in
  let nameSp := dash name in
  s0 ← index nameSp 0;
  let f := setMajor s0 f in
  if atleast 4 nameSp then
    if String.eqb s0 "6" || String.eqb s0 "7" then
      s1 ← index nameSp 1; s2 ← index nameSp 2;
      Ret (setVersion (Strings.Join (skipn 3 nameSp) "-") (setEdition s2 (setArch s1 f)))
    else
      s1 ← index nameSp 1; s2 ← index nameSp 2; s3 ← index nameSp 3;
      Ret (setEdition s3 (setArch s2
             (setVersion (if stream then "Stream-" +:+ s1 else s1) f)))
  else Ret f.

Definition debian (name : string) (f : FileInfo) : outcome FileInfo :=
  let nameSp := dash (Strings.TrimPrefix name "debian-") in
  if atleast 3 nameSp then
    s0 ← index nameSp 0;
    b ← byte_at s0 0;
    let notdigit := (N_of_ascii b <? 48)%N || (57 <? N_of_ascii b)%N in
    let start := if notdigit then 1%nat else 0%nat in
    let f := if notdigit then setEdition s0 f else f in
    v ← index nameSp start;
    a ← index nameSp (start + 1);
    let f := setArch a (setVersion v f) in
    if atleast (start + 3) nameSp then
      t ← index nameSp (start + 2);
      let f := setEditionType t f in
      let f := if String.eqb (fi_Edition f) "live"
               then setEditionType (fi_Edition f) (setEdition (fi_EditionType f) f) else f in
      let f := if String.eqb (fi_Arch f) "source"
               then setArch "" (setEdition (fi_Arch f) f) else f in
      if (length nameSp =? start + 4)%nat then
        p ← index nameSp (start + 3);
        Ret (setPart (fst (Strconv.Atoi p)) f)
      else Ret f
    else Ret f
  else Ret f.

(** The derivatives named with one word: edubuntu, kubuntu, ... *)
Definition xbuntu (name : string) (f : FileInfo) : outcome FileInfo :=
  let nameSp := dash name in
  if atleast 4 nameSp then
    s0 ← index nameSp 0; s1 ← index nameSp 1; s2 ← index nameSp 2;
    let f := setEdition s2 (setVersion s1 (setMajor s0 f)) in
    let beta := String.eqb s2 "beta" in
    f ← (if beta then
           s3 ← index nameSp 3;
           Ret (setEdition s3 (setVersion (s1 +:+ "-" +:+ s2) f))
         else Ret f);
    let start := if beta then 4%nat else 3%nat in
    if atleast (start + 1) nameSp then
      a ← index nameSp start; Ret (setArch a f)
    else Ret f
  else Ret f.

(** The derivatives named with two words: ubuntu-budgie, ubuntu-gnome, ... *)
Definition ubuntu_x (name : string) (f : FileInfo) : outcome FileInfo :=
  let nameSp := dash name in
  if atleast 5 nameSp then
    s0 ← index nameSp 0; s1 ← index nameSp 1; s2 ← index nameSp 2; s3 ← index nameSp 3;
    let f := setEdition s3 (setVersion s2 (setMajor (s0 +:+ "-" +:+ s1) f)) in
    let beta := String.eqb s3 "beta" in
    f ← (if beta then
           s4 ← index nameSp 4;
           Ret (setEdition s4 (setVersion (s2 +:+ "-" +:+ s3) f))
         else Ret f);
    let start := if beta then 5%nat else 4%nat in
    if atleast (start + 1) nameSp then
      a ← index nameSp start; Ret (setArch a f)
    else Ret f
  else Ret f.

Definition ubuntu (name : string) (f : FileInfo) : outcome FileInfo :=
  let nameSp := dash (Strings.TrimPrefix name "ubuntu-") in
  if atleast 3 nameSp then
    s0 ← index nameSp 0;
    s1 ← index nameSp 1;
    let beta := String.eqb s1 "beta" in
    let f := setVersion (if beta then s0 +:+ "-beta" else s0) f in
    let start := if beta then 2%nat else 1%nat in
    w ← index nameSp start;
    let start := if String.eqb w "live" then S start else start in
    w ← index nameSp start;
    if String.eqb w "src" then
      p ← index nameSp (start + 1);
      Ret (setPart (fst (Strconv.Atoi p)) (setEdition "src" f))
    else if atleast (start + 2) nameSp then
      let legacy := String.eqb w "legacy" in
      e ← (if legacy then x ← index nameSp (start + 1); Ret (w +:+ "-" +:+ x) else Ret w);
      let start := if legacy then S start else start in
      a ← index nameSp (start + 1);
      let f := setArch a (setEdition e f) in
      f ← (if String.eqb a "legacy" then
             a' ← index nameSp (start + 2);
             Ret (setArch a' (setEdition (e +:+ "-" +:+ "legacy") f))
           else Ret f);
      Ret (if Strings.HasSuffix (fi_Arch f) "+intel"
           then setArch (fi_Arch f +:+ "-iot") f else f)
    else Ret f
  else Ret f.

Definition fedora (name : string) (f : FileInfo) : outcome FileInfo :=
  let nameSp := dash (Strings.TrimPrefix name "Fedora-") in
  if atleast 5 nameSp then
    s0 ← index nameSp 0; s1 ← index nameSp 1; s2 ← index nameSp 2;
    s3 ← index nameSp 3; s4 ← index nameSp 4;
    Ret (setVersion s4 (setMajor s3 (setArch s2 (setEditionType s1 (setEdition s0 f)))))
  else Ret f.

Definition deepin (name : string) (f : FileInfo) : outcome FileInfo :=
  let nameSp := dash (Strings.TrimPrefix name "deepin-") in
  if atleast 4 nameSp then
    s0 ← index nameSp 0; s1 ← index nameSp 1;
    l ← index nameSp (length nameSp - 1);
    Ret (setArch l (setVersion (Strings.Join (skipn 2 (firstn (length nameSp - 1) nameSp)) "-")
          (setEditionType s1 (setEdition s0 f))))
  else Ret f.

Definition kali (name : string) (f : FileInfo) : outcome FileInfo :=
  let nameSp := dash (Strings.TrimPrefix name "kali-linux-") in
  s0 ← index nameSp 0;
  let f := setVersion s0 f in
  if atleast 3 nameSp then
    s1 ← index nameSp 1;
    b ← byte_at s1 0;
    let weekly := Ascii.eqb b "W" in
    let f := if weekly then setVersion (s0 +:+ "-" +:+ s1) f else f in
    let start := if weekly then 2%nat else 1%nat in
    if (length nameSp =? start + 2)%nat then
      e ← index nameSp start;
      a ← index nameSp (start + 1);
      Ret (setArch a (setEdition (if String.eqb e "installer" then "" else e) f))
    else if (length nameSp =? start + 3)%nat then
      e ← index nameSp (start + 1);
      a ← index nameSp (start + 2);
      Ret (setArch a (setEdition e f))
    else Ret f
  else Ret f.

Definition opensuse_leap (nameSp : list string) (f : FileInfo) : outcome FileInfo :=
  if atleast 3 nameSp then
    v ← index nameSp 1;
    t ← index nameSp 2;
    let f := setEditionType t (setVersion v f) in
    '(start, f) ←
      (if String.eqb t "Rescue" then Ret (4%nat, f)
       else if String.eqb t "CR" then
         t' ← index nameSp 3; Ret (4%nat, setEditionType t' f)
       else if snd (Strconv.Atoi t) then
         t' ← index nameSp 3;
         Ret (4%nat, setEditionType t' (setVersion (v +:+ "-" +:+ t) f))
       else Ret (3%nat, f));
    if atleast (start + 1) nameSp then
      w ← index nameSp start;
      let start := if String.eqb w "Live" then S start else start in
      a ← index nameSp start;
      Ret (setArch a f)
    else Ret f
  else Ret f.

Definition tumbleweed_arch (nameSp : list string) (start : nat) (t : string) (f : FileInfo)
    : outcome FileInfo :=
  if Strings.HasPrefix t "Yomi" then
    let etSp := Strings.Split t "." in
    if (length etSp =? 2)%nat then
      e0 ← index etSp 0; e1 ← index etSp 1;
      Ret (setEditionType e0 (setArch e1 f))
    else Ret f
  else
    a ← index nameSp start; Ret (setArch a f).

Definition opensuse_tumbleweed (nameSp : list string) (f : FileInfo) : outcome FileInfo :=
  if atleast 2 nameSp then
    t ← index nameSp 1;
    let rescue := String.eqb t "Rescue" in
    t ← (if rescue then t2 ← index nameSp 2; Ret (t +:+ "-" +:+ t2) else Ret t);
    let start := if rescue then 3%nat else 2%nat in
    start ← (if (start <? length nameSp)%nat then
               w ← index nameSp start;
               Ret (if String.eqb w "Live" then S start else start)
             else Ret start);
    tumbleweed_arch nameSp start t (setEditionType t f)
  else Ret f.

Definition opensuse (name : string) (f : FileInfo) : outcome FileInfo :=
  if negb (Strings.Contains name "Micro") && Strings.HasSuffix name "-Current" then
    let nameSp := dash (Strings.TrimPrefix name "openSUSE-") in
    s0 ← index nameSp 0;
    let f := setMajor s0 f in
    if String.eqb s0 "Leap" then opensuse_leap nameSp f
    else if String.eqb s0 "Tumbleweed" then opensuse_tumbleweed nameSp f
    else if String.eqb s0 "Kubic" then
      if atleast 3 nameSp then
        s1 ← index nameSp 1; s2 ← index nameSp 2;
        Ret (setArch s2 (setEditionType s1 f))
      else Ret f
    else Ret f
  else Ret f.

Definition archlinux (name : string) (f : FileInfo) : outcome FileInfo :=
  let nameSp := dash (Strings.TrimPrefix name "archlinux-") in
  if atleast 2 nameSp then
    s0 ← index nameSp 0; s1 ← index nameSp 1;
    Ret (setArch s1 (setVersion s0 f))
  else Ret f.

Definition alpine (name : string) (f : FileInfo) : outcome FileInfo :=
  let nameSp := dash (Strings.TrimPrefix name "alpine-") in
  if (length nameSp =? 2)%nat then
    s0 ← index nameSp 0; s1 ← index nameSp 1;
    Ret (setArch s1 (setVersion s0 f))
  else if (length nameSp =? 3)%nat then
    s0 ← index nameSp 0; s1 ← index nameSp 1; s2 ← index nameSp 2;
    Ret (setArch s2 (setVersion s1 (setEdition s0 f)))
  else Ret f.

Definition proxmox (name : string) (f : FileInfo) : outcome FileInfo :=
  let nameSp := Strings.Split name "_" in
  if (length nameSp =? 2)%nat then
    s0 ← index nameSp 0; s1 ← index nameSp 1;
    Ret (setVersion s1 (setMajor s0 f))
  else Ret f.

Definition almalinux (name : string) (f : FileInfo) : outcome FileInfo :=
  let nameSp := dash (Strings.TrimPrefix name "AlmaLinux-") in
  s0 ← index nameSp 0;
  let f := setVersion s0 f in
  if atleast 3 nameSp then
    s1 ← index nameSp 1;
    let start := if String.eqb s1 "latest" then 2%nat else 1%nat in
    a ← index nameSp start;
    t ← index nameSp (start + 1);
    let f := setEditionType t (setArch a f) in
    Ret (if String.eqb t "Live"
         then setEdition (Strings.Join (skipn (start + 2) nameSp) "-") f else f)
  else Ret f.

Definition texlive (name : string) (f : FileInfo) : outcome FileInfo :=
  let nameSp := dash (Strings.TrimPrefix name "texlive") in
  if atleast 2 nameSp then s1 ← index nameSp 1; Ret (setVersion s1 f) else Ret f.

Definition family := string -> FileInfo -> outcome FileInfo.

(** The cases of the [switch], in the source's order. *)
Definition families : list (string * family) :=
  [ ("CentOS-", centos); ("debian-", debian);
    ("edubuntu-", xbuntu); ("kubuntu-", xbuntu); ("lubuntu-", xbuntu);
    ("mythbuntu-", xbuntu); ("ubuntucinnamon-", xbuntu); ("ubuntukylin-", xbuntu);
    ("ubuntustudio-", xbuntu); ("xubuntu-", xbuntu);
    ("ubuntu-budgie-", ubuntu_x); ("ubuntu-gnome-", ubuntu_x);
    ("ubuntu-mate-", ubuntu_x); ("ubuntu-unity-", ubuntu_x);
    ("ubuntu-", ubuntu); ("Fedora-", fedora); ("deepin-", deepin);
    ("kali-linux-", kali); ("openSUSE-", opensuse); ("archlinux-", archlinux);
    ("alpine-", alpine); ("proxmox-", proxmox); ("AlmaLinux-", almalinux);
    ("texlive", texlive) ].

Fixpoint dispatch (fs : list (string * family)) : family := fun name f =>
  match fs with
  | [] => Ret f
  | (p, g) :: fs => if Strings.HasPrefix name p then g name f else dispatch fs name f
  end.

(** The display name, after the [switch]. *)
Definition display (f : FileInfo) : FileInfo :=
  let part := if 0 <? fi_Part f then "Part " +:+ Strconv.Itoa (fi_Part f) else "" in
  if negb (String.eqb (fi_MajorVersion f) "") || negb (String.eqb (fi_Version f) "") then
    let n := combine [fi_MajorVersion f; fi_Version f] " " +:+ " ("
             +:+ combine [fi_Arch f; fi_Edition f; fi_EditionType f; part] ", " +:+ ")" in
    setName (if Strings.HasSuffix n "()" then Strings.TrimSuffix n " ()" else n) f
  else f.

Definition Recognizer (filepath : string) : outcome FileInfo :=
  let ext := Path.Ext filepath in
  let f := mkFileInfo "" ext "" "" "" "" "" 0 filepath 0 "" in
  let name := Strings.TrimSuffix (Path.Base filepath) ext in
  f ← dispatch families name f;
  Ret (display f).

Example rec_ubuntu :
  fi_Name <$> Recognizer "/releases/22.04/ubuntu-22.04.3-live-server-amd64.iso"
  = Ret "22.04.3 (amd64, server)".
Proof. reflexivity. Qed.
Example rec_debian :
  fi_Name <$> Recognizer "/cd/debian-12.1.0-amd64-DVD-1.iso" = Ret "12.1.0 (amd64, DVD, Part 1)".
Proof. reflexivity. Qed.
Example rec_panic : is_panic (Recognizer "/x/debian--amd64-netinst.iso") = true.
Proof. reflexivity. Qed.

(** ** What every family keeps *)

(** [Path], [Ext], [Name] and the sizes are not touched by the [switch]. *)
Definition keeps (f g : FileInfo) : Prop :=
  fi_Path g = fi_Path f /\ fi_Ext g = fi_Ext f /\ fi_Name g = fi_Name f
  /\ fi_Size g = fi_Size f /\ fi_SizeStr g = fi_SizeStr f.

(** The families return no error, and what they return keeps those fields. *)
Definition keepsO (f : FileInfo) (o : outcome FileInfo) : Prop :=
  match o with Ret g => keeps f g | Err _ => False | Panic _ => True end.

Lemma keeps_refl f : keeps f f.
Proof. by split_and!. Qed.
Lemma keepsO_Ret f g : keeps f g -> keepsO f (Ret g).
Proof. done. Qed.
Lemma keepsO_bind {A} f (m : outcome A) k :
  is_err m = false -> (forall a, keepsO f (k a)) -> keepsO f (m ≫= k).
Proof. destruct m; simpl; (discriminate || auto). Qed.
Lemma keepsO_bind_f f m k :
  keepsO f m -> (forall g, keeps f g -> keepsO f (k g)) -> keepsO f (m ≫= k).
Proof. destruct m; simpl; (discriminate || auto). Qed.
Lemma keepsO_bind_pair f (m : outcome (nat * FileInfo)) k :
  keepsO f (snd <$> m) -> (forall n g, keeps f g -> keepsO f (k (n, g))) -> keepsO f (m ≫= k).
Proof. destruct m as [[n g]| |]; simpl; auto. Qed.
Lemma no_err_bind {A B} (m : outcome A) (k : A -> outcome B) :
  is_err m = false -> (forall a, is_err (k a) = false) -> is_err (m ≫= k) = false.
Proof. destruct m; simpl; (discriminate || auto). Qed.
Lemma no_err_index {A} (l : list A) i : is_err (index l i) = false.
Proof. unfold index. by case_match. Qed.
Lemma no_err_byte_at s i : is_err (byte_at s i) = false.
Proof. unfold byte_at. by case_match. Qed.
Lemma no_err_if {A} (b : bool) (x y : outcome A) :
  is_err x = false -> is_err y = false -> is_err (if b then x else y) = false.
Proof. by destruct b. Qed.
Lemma no_err_Ret {A} (a : A) : is_err (Ret a) = false.
Proof. done. Qed.
Lemma keepsO_if f (b : bool) x y : keepsO f x -> keepsO f y -> keepsO f (if b then x else y).
Proof. by destruct b. Qed.
Lemma keeps_if f (b : bool) x y : keeps f x -> keeps f y -> keeps f (if b then x else y).
Proof. by destruct b. Qed.

Ltac keep_step :=
  first
    [ assumption
    | apply keepsO_if | apply keeps_if
    | match goal with |- keepsO _ (Ret _) => apply keepsO_Ret end
    | apply keepsO_bind_f; [|intros ? ?]
    | apply keepsO_bind; [|intros ?]
    | apply no_err_index | apply no_err_byte_at | apply no_err_Ret
    | apply no_err_if | apply no_err_bind; [|intros ?]
    | apply keeps_refl
    | solve [unfold keeps in *; cbn; split_and!; intuition congruence] ].
Ltac keep_family := intros; cbv zeta; repeat keep_step.

Lemma leap_keeps f0 sp f : keeps f0 f -> keepsO f0 (opensuse_leap sp f).
Proof.
  unfold opensuse_leap. intros Hf. apply keepsO_if; [|by apply keepsO_Ret].
  do 2 (apply keepsO_bind; [apply no_err_index|intros ?]). cbv zeta. apply keepsO_bind_pair.
  - repeat case_match; simpl; unfold index; repeat case_match; simpl; by repeat keep_step.
  - keep_family.
Qed.

Lemma families_keep :
  Forall (fun pg => forall name f, keepsO f (snd pg name f)) families.
Proof.
  assert (forall name f, keepsO f (opensuse name f)).
  { unfold opensuse. intros. cbv zeta. apply keepsO_if; [|by repeat keep_step].
    apply keepsO_bind; [apply no_err_index|intros ?].
    apply keepsO_if; [apply leap_keeps; by repeat keep_step|].
    unfold opensuse_tumbleweed, tumbleweed_arch. by repeat keep_step. }
  unfold families. repeat (apply List.Forall_cons; [|]); try apply List.Forall_nil;
    cbn [snd]; try assumption;
    unfold centos, debian, xbuntu, ubuntu_x, ubuntu, fedora, deepin, kali, archlinux,
      alpine, proxmox, almalinux, texlive; keep_family.
Qed.

Lemma dispatch_keeps fs :
  Forall (fun pg : string * family => forall name f, keepsO f (snd pg name f)) fs ->
  forall name f, keepsO f (dispatch fs name f).
Proof.
  induction 1 as [|[p g] fs Hg Hfs IH]; intros name f; simpl; [by repeat keep_step|].
  apply keepsO_if; [apply Hg|apply IH].
Qed.

(** ** The display name *)

(** [combine] joins the non-empty words. *)
Lemma combine_Join l e :
  combine l e = Strings.Join (List.filter (fun w => negb (String.eqb w "")) l) e.
Proof.
  unfold combine.
  assert (H : forall r, fold_left (fun r v => if String.eqb v "" then r else r +:+ (v +:+ e)) l r
    = match List.filter (fun w => negb (String.eqb w "")) l with
      | [] => r | ws => r +:+ (Strings.Join ws e +:+ e) end).
  { induction l as [|w l IH]; intros r; simpl; [done|].
    rewrite IH. destruct (String.eqb w ""); simpl; [done|].
    destruct (List.filter _ l) as [|w' ws]; [done|].
    change (Strings.Join (w :: w' :: ws) e) with (w +:+ e +:+ Strings.Join (w' :: ws) e).
    by rewrite !Strings.app_assoc. }
  rewrite H. destruct (List.filter _ l) as [|w ws].
  - unfold Strings.TrimSuffix. by case_match.
  - exact (Strings.TrimSuffix_app (Strings.Join (w :: ws) e) e).
Qed.

Lemma combine_two a b :
  combine [a; b] " " =
  if String.eqb a "" then b else if String.eqb b "" then a else a +:+ " " +:+ b.
Proof.
  rewrite combine_Join. simpl.
  destruct (String.eqb_spec a "") as [->|Ha], (String.eqb_spec b "") as [->|Hb]; done.
Qed.

Lemma combine_two_empty a b : combine [a; b] " " = "" <-> a = "" /\ b = "".
Proof.
  rewrite combine_two.
  destruct (String.eqb_spec a "") as [->|Ha], (String.eqb_spec b "") as [->|Hb];
    try tauto; try (split; [intros ->; tauto|tauto]).
  split; [|tauto]. destruct a; [done|discriminate].
Qed.

Lemma app_nonempty a b : a <> "" -> a +:+ b <> "".
Proof. by destruct a. Qed.

Lemma display_name_empty f :
  fi_Name f = "" ->
  fi_Name (display f) = "" <-> fi_MajorVersion (display f) = "" /\ fi_Version (display f) = "".
Proof.
  intros Hn. unfold display.
  set (c := combine [fi_MajorVersion f; fi_Version f] " ").
  set (d := combine _ ", ").
  destruct (negb (String.eqb (fi_MajorVersion f) "") || negb (String.eqb (fi_Version f) "")) eqn:E.
  - assert (Hc : c <> "").
    { unfold c. rewrite combine_two_empty. intros [H1 H2]. by rewrite H1, H2 in E. }
    cbn [fi_Name fi_MajorVersion fi_Version setName].
    split; [|intros [H1 H2]; by rewrite H1, H2 in E].
    case_match eqn:Hs; [|intros H; by apply app_nonempty in H].
    intros H. exfalso.
    destruct (String.eqb_spec d "") as [Hd|Hd].
    + revert H. rewrite Hd. simpl. by rewrite Strings.TrimSuffix_app.
    + revert H. unfold Strings.TrimSuffix. case_match eqn:Hx; [|by apply app_nonempty].
      destruct c as [|ch c]; [done|]. rewrite !Strings.length_app. cbn [String.length].
      by match goal with |- context [Strings.take ?n _] =>
        destruct n as [|m] eqn:Hm; [lia|] end.
  - apply orb_false_iff in E as [E1%negb_false_iff%String.eqb_eq E2%negb_false_iff%String.eqb_eq].
    tauto.
Qed.

(** ** Names that are cut short

    The families that index past their length check; the names that make them
    do so, by the shape of the name and not by the indices of the code. *)
Definition drop_word (w : string) (l : list string) : list string :=
  match l with
  | x :: l' => if String.eqb x w then l' else l
  | [] => []
  end.

Definition debian_short (sp : list string) : bool :=
  match sp with v :: _ :: _ :: _ => String.eqb v "" | _ => false end.
Definition ubuntu_short (sp : list string) : bool :=
  match sp with
  | v :: (_ :: _ :: _) as r =>
      match drop_word "live" (drop_word "beta" r) with
      | [] => true
      | [w] => String.eqb w "src"
      | w :: a :: r =>
          if String.eqb w "src" then false
          else if String.eqb w "legacy" then
            match r with [] => true | [b] => String.eqb b "legacy" | _ => false end
          else match r with [] => String.eqb a "legacy" | _ => false end
      end
  | _ => false
  end.
Definition kali_short (sp : list string) : bool :=
  match sp with _ :: w :: _ :: _ => String.eqb w "" | _ => false end.
Definition almalinux_short (sp : list string) : bool :=
  match sp with [_; w; _] => String.eqb w "latest" | _ => false end.

Definition cut_short (name : string) : bool :=
  if Strings.HasPrefix name "debian-"
  then debian_short (dash (Strings.TrimPrefix name "debian-"))
  else if existsb (Strings.HasPrefix name)
            ["ubuntu-budgie-"; "ubuntu-gnome-"; "ubuntu-mate-"; "ubuntu-unity-"] then false
  else if Strings.HasPrefix name "ubuntu-"
  then ubuntu_short (dash (Strings.TrimPrefix name "ubuntu-"))
  else if Strings.HasPrefix name "kali-linux-"
  then kali_short (dash (Strings.TrimPrefix name "kali-linux-"))
  else if Strings.HasPrefix name "AlmaLinux-"
  then almalinux_short (dash (Strings.TrimPrefix name "AlmaLinux-"))
  else String.eqb name "openSUSE-Tumbleweed-Current"
       || String.eqb name "openSUSE-Tumbleweed-Rescue-Current".

Ltac run_pieces :=
  unfold index, byte_at, mbind, outcome_bind in *; simpl; try done;
  repeat (case_match; simplify_eq/=; try done).

Lemma debian_panics name f :
  is_panic (debian name f) = debian_short (dash (Strings.TrimPrefix name "debian-")).
Proof.
  unfold debian. generalize (dash (Strings.TrimPrefix name "debian-")). intros sp.
  destruct sp as [|s0 [|s1 [|s2 [|s3 [|s4 sp]]]]]; try reflexivity;
    destruct s0 as [|b s0]; try reflexivity; simpl;
    destruct ((N_of_ascii b <? 48)%N || (57 <? N_of_ascii b)%N); simpl; run_pieces.
Qed.

Lemma ubuntu_panics name f :
  is_panic (ubuntu name f) = ubuntu_short (dash (Strings.TrimPrefix name "ubuntu-")).
Proof.
  unfold ubuntu. generalize (dash (Strings.TrimPrefix name "ubuntu-")). intros sp.
  destruct sp as [|s0 [|s1 [|s2 sp]]]; try reflexivity. simpl.
  destruct (String.eqb s1 "beta") eqn:E1; simpl.
  - destruct (String.eqb s2 "live") eqn:E2; simpl.
    + destruct sp as [|s3 [|s4 [|s5 [|s6 sp]]]]; run_pieces.
    + destruct sp as [|s3 [|s4 [|s5 sp]]]; run_pieces.
  - destruct (String.eqb s1 "live") eqn:E2; simpl.
    + destruct sp as [|s3 [|s4 [|s5 sp]]]; run_pieces.
    + destruct sp as [|s3 [|s4 sp]]; run_pieces.
Qed.

Lemma kali_panics name f :
  is_panic (kali name f) = kali_short (dash (Strings.TrimPrefix name "kali-linux-")).
Proof.
  unfold kali. destruct (Strings.Split_cons (Strings.TrimPrefix name "kali-linux-") "-")
    as (s0 & sp & E). unfold dash. rewrite E. clear E.
  destruct sp as [|s1 [|s2 [|s3 [|s4 sp]]]]; try reflexivity;
    destruct s1 as [|b s1]; try reflexivity; run_pieces.
Qed.

Lemma almalinux_panics name f :
  is_panic (almalinux name f) = almalinux_short (dash (Strings.TrimPrefix name "AlmaLinux-")).
Proof.
  unfold almalinux. destruct (Strings.Split_cons (Strings.TrimPrefix name "AlmaLinux-") "-")
    as (s0 & sp & E). unfold dash. rewrite E. clear E.
  destruct sp as [|s1 [|s2 [|s3 sp]]]; try reflexivity; run_pieces.
Qed.

(** The families that always check the length before they index. *)
Lemma centos_total name f : is_panic (centos name f) = false.
Proof.
  unfold centos, dash. match goal with |- context [Strings.Split ?n "-"] =>
    destruct (Strings.Split_cons n "-") as (s0 & sp & E) end. rewrite E. clear E.
  destruct sp as [|s1 [|s2 [|s3 sp]]]; run_pieces.
Qed.

Ltac pieces sp :=
  unfold dash; match goal with |- context [Strings.Split ?n ?c] =>
    generalize (Strings.Split n c); intros sp end.

Lemma deepin_total name f : is_panic (deepin name f) = false.
Proof.
  unfold deepin. pieces sp. destruct sp as [|s0 [|s1 sp]]; try reflexivity.
  unfold atleast. case_match eqn:E; [|done]. apply Nat.leb_le in E.
  destruct (index_lt (s0 :: s1 :: sp) (length (s0 :: s1 :: sp) - 1)) as (x & Hx & _); [lia|].
  cbn [mbind outcome_bind index lookup list_lookup]. by rewrite Hx.
Qed.

Lemma checked_families_total :
  Forall (fun g : family => forall name f, is_panic (g name f) = false)
    [centos; xbuntu; ubuntu_x; fedora; deepin; archlinux; alpine; proxmox; texlive].
Proof.
  repeat (apply List.Forall_cons; [|]); [apply centos_total| | | |apply deepin_total| | | |
    |apply List.Forall_nil]; intros name f;
    unfold xbuntu, ubuntu_x, fedora, archlinux, alpine, proxmox, texlive;
    pieces sp; destruct sp as [|s0 [|s1 [|s2 [|s3 [|s4 [|s5 sp]]]]]]; run_pieces.
Qed.

(** The last piece of an openSUSE name that is looked at is "Current". *)
Lemma opensuse_last name :
  Strings.HasPrefix name "openSUSE-" = true -> Strings.HasSuffix name "-Current" = true ->
  last (dash (Strings.TrimPrefix name "openSUSE-")) = Some "Current".
Proof.
  intros [t ->]%Strings.HasPrefix_spec [r Hr]%Strings.HasSuffix_spec.
  rewrite Strings.TrimPrefix_app. unfold dash.
  rewrite <-(Strings.last_Split_app "openSUSE" t "-").
  change ("openSUSE" +:+ String "-" t) with ("openSUSE-" +:+ t). rewrite Hr.
  apply (Strings.last_Split_app r "Current" "-").
Qed.

Lemma leap_total sp f : last sp = Some "Current" -> is_panic (opensuse_leap sp f) = false.
Proof.
  unfold opensuse_leap. intros H.
  destruct sp as [|s0 [|s1 [|s2 [|s3 [|s4 [|s5 sp]]]]]]; simpl in H; simplify_eq;
    run_pieces.
Qed.

Lemma tumbleweed_arch_total sp start t f :
  (start < length sp)%nat -> is_panic (tumbleweed_arch sp start t f) = false.
Proof.
  unfold tumbleweed_arch. intros (x & Hx & _)%index_lt. rewrite Hx. case_match; [|done].
  by destruct (Strings.Split t ".") as [|? [|? [|??]]].
Qed.

Lemma tumbleweed_panics sp f :
  last ("Tumbleweed" :: sp) = Some "Current" ->
  is_panic (opensuse_tumbleweed ("Tumbleweed" :: sp) f) =
  bool_decide (sp = ["Current"] \/ sp = ["Rescue"; "Current"]).
Proof.
  unfold opensuse_tumbleweed. intros H. cbv zeta.
  destruct sp as [|s1 [|s2 [|s3 sp]]]; simpl in H; simplify_eq; try reflexivity.
  - destruct (String.eqb_spec s1 "Rescue") as [->|Hn]; [reflexivity|].
    rewrite bool_decide_eq_false_2 by (intros [?|?]; simplify_eq).
    simpl. apply String.eqb_neq in Hn. rewrite Hn. simpl. apply tumbleweed_arch_total; simpl; lia.
  - rewrite bool_decide_eq_false_2 by (intros [?|?]; simplify_eq). simpl.
    destruct (String.eqb s1 "Rescue"); simpl; case_match eqn:E; simpl in *;
      try (apply tumbleweed_arch_total; simpl; lia).
    apply String.eqb_eq in E as ->. destruct sp; [done|].
    apply tumbleweed_arch_total; simpl; lia.
Qed.

Lemma dash_inj a b : dash a = dash b -> a = b.
Proof. intros H. rewrite <-(Strings.Join_Split a "-"), <-(Strings.Join_Split b "-").
  unfold dash in H. by rewrite H. Qed.

Lemma opensuse_panics name f :
  Strings.HasPrefix name "openSUSE-" = true ->
  is_panic (opensuse name f) =
  String.eqb name "openSUSE-Tumbleweed-Current"
  || String.eqb name "openSUSE-Tumbleweed-Rescue-Current".
Proof.
  intros Hp. unfold opensuse.
  destruct (negb (Strings.Contains name "Micro") && Strings.HasSuffix name "-Current") eqn:E.
  2: { destruct (String.eqb_spec name "openSUSE-Tumbleweed-Current") as [->|_]; [discriminate E|].
       destruct (String.eqb_spec name "openSUSE-Tumbleweed-Rescue-Current") as [->|_];
         [discriminate E|done]. }
  apply andb_true_iff in E as [_ Hs]. pose proof (opensuse_last _ Hp Hs) as Hl.
  apply Strings.HasPrefix_spec in Hp as [t ->].
  rewrite Strings.TrimPrefix_app in *. cbv zeta.
  assert (Hiff : String.eqb ("openSUSE-" +:+ t) "openSUSE-Tumbleweed-Current"
    || String.eqb ("openSUSE-" +:+ t) "openSUSE-Tumbleweed-Rescue-Current"
    = bool_decide (dash t = ["Tumbleweed"; "Current"]
                   \/ dash t = ["Tumbleweed"; "Rescue"; "Current"])).
  { apply eq_true_iff_eq. rewrite orb_true_iff, !String.eqb_eq, bool_decide_eq_true.
    split; (intros [H|H]; [left|right]).
    1,2: by simplify_eq/=.
    - by rewrite (dash_inj t "Tumbleweed-Current" H).
    - by rewrite (dash_inj t "Tumbleweed-Rescue-Current" H). }
  rewrite Hiff. destruct (dash t) as [|s0 sp]; [done|].
  cbn [index lookup list_lookup mbind outcome_bind].
  destruct (String.eqb_spec s0 "Leap") as [->|_].
  { rewrite leap_total by done. symmetry. apply bool_decide_eq_false. by intros [?|?]. }
  destruct (String.eqb_spec s0 "Tumbleweed") as [->|Hn].
  { rewrite tumbleweed_panics by done. apply bool_decide_ext. split; intros [?|?]; simplify_eq; auto. }
  transitivity false; [|symmetry; apply bool_decide_eq_false; by intros [?|?]; simplify_eq].
  case_match; [|done]. destruct sp as [|s1 [|s2 sp]]; run_pieces.
Qed.

(** Passes over a case whose family never panics. *)
Ltac total_case H :=
  cbn [dispatch];
  match goal with |- is_panic (if Strings.HasPrefix ?n ?p then _ else _) = _ =>
    let E := fresh "E" in
    destruct (Strings.HasPrefix n p) eqn:E;
    [apply Strings.HasPrefix_spec in E as [? ->]; rewrite H; reflexivity|]
  end.

Lemma dispatch_panics name f : is_panic (dispatch families name f) = cut_short name.
Proof.
  pose proof checked_families_total as Ht. rewrite !Forall_cons in Ht.
  destruct Ht as (Hce & Hx & Hux & Hf & Hde & Ha & Hal & Hpr & Htx & _).
  unfold families. total_case Hce. cbn [dispatch]. unfold cut_short.
  destruct (Strings.HasPrefix name "debian-"); [apply debian_panics|].
  do 8 total_case Hx. do 4 total_case Hux. cbn [dispatch existsb].
  repeat match goal with H : Strings.HasPrefix name _ = false |- _ => rewrite H; clear H end.
  cbn [orb]. destruct (Strings.HasPrefix name "ubuntu-"); [apply ubuntu_panics|].
  total_case Hf. total_case Hde. cbn [dispatch].
  destruct (Strings.HasPrefix name "kali-linux-"); [apply kali_panics|].
  destruct (Strings.HasPrefix name "openSUSE-") eqn:Eo.
  { rewrite opensuse_panics by done. by apply Strings.HasPrefix_spec in Eo as [r ->]. }
  total_case Ha. total_case Hal. total_case Hpr. cbn [dispatch].
  destruct (Strings.HasPrefix name "AlmaLinux-"); [apply almalinux_panics|].
  transitivity false; [case_match; [apply Htx|done]|].
  symmetry. apply orb_false_iff. split; apply String.eqb_neq; intros ->; discriminate Eo.
Qed.

(** ** Properties *)

(** A recognised file keeps its path and extension, carries no size yet,
    and has a display name exactly when a version was found; the manager drops
    the files without one. *)
Theorem Recognizer_names_versioned_files p f :
  Recognizer p = Ret f ->
  fi_Path f = p /\ fi_Ext f = Path.Ext p /\ fi_Size f = 0 /\
  (fi_Name f = "" <-> fi_MajorVersion f = "" /\ fi_Version f = "").
Proof.
  unfold Recognizer. intros (g & Hg & [= <-])%outcome_bind_Ret.
  match type of Hg with dispatch _ ?n ?f0 = _ =>
    pose proof (dispatch_keeps _ families_keep n f0) as Hk end.
  rewrite Hg in Hk. destruct Hk as (Hp & He & Hn & Hs & _).
  assert (Hd : fi_Path (display g) = fi_Path g /\ fi_Ext (display g) = fi_Ext g
               /\ fi_Size (display g) = fi_Size g).
  { unfold display. by case_match. }
  destruct Hd as (-> & -> & ->). split_and!; [done..|]. by apply display_name_empty.
Qed.

Lemma Recognizer_names_versioned_files_witness :
  exists f, Recognizer "/iso/archlinux-2023.09.01-x86_64.iso" = Ret f /\
    fi_Path f = "/iso/archlinux-2023.09.01-x86_64.iso" /\ fi_Name f = "2023.09.01 (x86_64)".
Proof.
  eexists. split; [vm_compute; reflexivity|]. split; [|reflexivity].
  apply (Recognizer_names_versioned_files "/iso/archlinux-2023.09.01-x86_64.iso").
  vm_compute. reflexivity.
Defined.

(** C40: The recogniser never returns an error, and it panics (an index out of
    range) exactly on the names that are cut short: a debian or kali name with
    an empty field, an ubuntu name that ends right after a marker (beta-live,
    src, legacy), AlmaLinux-V-latest-A, and openSUSE-Tumbleweed[-Rescue]-Current. *)
Theorem Recognizer_panics_exactly_on_cut_short_names p :
  is_err (Recognizer p) = false /\
  is_panic (Recognizer p) = cut_short (Strings.TrimSuffix (Path.Base p) (Path.Ext p)).
Proof.
  unfold Recognizer. cbv zeta. split.
  - match goal with |- context [dispatch _ ?n ?f0] =>
      pose proof (dispatch_keeps _ families_keep n f0) as Hk end.
    by destruct (dispatch _ _ _).
  - rewrite <-dispatch_panics with
      (f := mkFileInfo "" (Path.Ext p) "" "" "" "" "" 0 p 0 "").
    by destruct (dispatch _ _ _).
Qed.

Lemma no_empty_parens a b :
  b <> "" -> Strings.mem "(" b = false -> Strings.HasSuffix (a +:+ b +:+ ")") "()" = false.
Proof.
  intros Hb Hm. apply not_true_iff_false. intros [r Hr]%Strings.HasSuffix_spec.
  rewrite <-Strings.app_assoc in Hr.
  change "()" with ("(" +:+ ")") in Hr. rewrite <-(Strings.app_assoc r) in Hr.
  apply Strings.app_byte_inj in Hr. symmetry in Hr.
  by rewrite (Strings.app_byte_mem _ _ _ _ Hr Hb) in Hm.
Qed.

(** A word a release name can be built from. *)
Definition word (w : string) : Prop :=
  w <> "" /\ Strings.mem "-" w = false /\ Strings.mem "/" w = false /\ Strings.mem "(" w = false.

(** The name of a Fedora image is read back field by field: from
    [Fedora-<edition>-<type>-<arch>-<major>-<version>.<ext>], in any directory,
    the recogniser recovers exactly those fields and shows
    "major version (arch, edition, type)". *)
Theorem Recognizer_reads_fedora_names dir ed ty arch mv v ext :
  Forall word [ed; ty; arch; mv; v] ->
  Strings.mem "/" ext = false -> Strings.mem "." ext = false ->
  let base := "Fedora-" +:+ Strings.Join [ed; ty; arch; mv; v] "-" in
  let path := dir +:+ String "/" (base +:+ String "." ext) in
  Recognizer path =
  Ret (mkFileInfo (mv +:+ " " +:+ v +:+ " (" +:+ arch +:+ ", " +:+ ed +:+ ", " +:+ ty +:+ ")")
         (String "." ext) mv v arch ed ty 0 path 0 "").
Proof.
  intros Hw Hxs Hxd base path.
  assert (Hdash : Forall (fun w => Strings.mem "-" w = false) [ed; ty; arch; mv; v]).
  { eapply Forall_impl; [exact Hw|]. by intros w (_ & H & _). }
  assert (Hslash : Strings.mem "/" base = false).
  { apply Strings.mem_Join; [done|]. eapply Forall_impl; [exact Hw|]. by intros w (_ & _ & H & _). }
  unfold Recognizer. cbv zeta. unfold path.
  rewrite Path.Ext_app by done.
  rewrite Path.Base_app; [|done|].
  2:{ rewrite Strings.mem_app, Hslash. simpl. by rewrite Hxs. }
  rewrite Strings.TrimSuffix_app. unfold base.
  assert (Hd : forall f, dispatch families
     ("Fedora-" +:+ Strings.Join [ed; ty; arch; mv; v] "-") f =
     Ret (setVersion v (setMajor mv (setArch arch (setEditionType ty (setEdition ed f)))))).
  { intros f. transitivity (fedora ("Fedora-" +:+ Strings.Join [ed; ty; arch; mv; v] "-") f);
      [reflexivity|]. unfold fedora, dash. by rewrite Strings.TrimPrefix_app, Strings.Split_Join. }
  rewrite Hd. clear Hd. rewrite !Forall_cons in Hw.
  destruct Hw as ((H1 & _) & (H2 & _ & _ & H2') & (H3 & _) & (H4 & _) & (H5 & _) & _).
  cbn [mbind outcome_bind]. unfold display. rewrite combine_two, combine_Join. simpl.
  rewrite !(proj2 (String.eqb_neq _ _)) by done. simpl.
  pose proof (no_empty_parens
    (mv +:+ " " +:+ v +:+ " (" +:+ arch +:+ ", " +:+ ed +:+ ", ") ty H2 H2') as Hp.
  rewrite !Strings.app_assoc in Hp. simpl in Hp. rewrite !Strings.app_assoc. simpl.
  rewrite !Strings.app_assoc. simpl.
  by rewrite Hp.
Qed.

Lemma Recognizer_reads_fedora_names_witness :
  fi_Name <$> Recognizer "/f/Fedora-Server-dvd-x86_64-38-1.6.iso"
  = Ret "38 1.6 (x86_64, Server, dvd)".
Proof.
  pose proof (Recognizer_reads_fedora_names "/f" "Server" "dvd" "x86_64" "38" "1.6" "iso") as H.
  cbv zeta in H. simpl in H. rewrite H; [reflexivity| |reflexivity|reflexivity].
  repeat constructor; discriminate.
Defined.
