(* ===== verification/Json.v ===== *)
(** * JSON values, struct codecs and the merge of objects (encoding/json as the
      manager and the worker use it)

    A value is a tree; a number is an integer literal or a literal with a
    fraction.  Decoding into a Go variable starts from what the variable holds,
    leaves it alone on [null], keeps going after a value of the wrong type and
    reports it at the end: [decode] answers the new content and whether there was
    such an error.  A key of an object belongs to the field with the same name up
    to letter case, and a later key wins over an earlier one.  Letter case is that
    of ASCII.  Literals such as 1.0 or 1e3, whose value is an integer but whose
    spelling is not, are left out. *)

From stdpp Require Import sorting.
From S2P Require Import Prelude GoLib Float.

Inductive json :=
  | JNull | JBool (b : bool) | JNum (z : Z) | JFrac (text : string) | JStr (s : string)
  | JArr (l : list json) | JObj (l : list (string * json)).

(** ** Maps *)

(** A map is written with its keys sorted. *)
Definition key_before {A} (a b : string * A) : bool := Strings.lt a.1 b.1.
Definition sorted_entries {A} (m : gmap string A) : list (string * A) :=
  merge_sort (not_after key_before) (map_to_list m).

(** Reading an object into a map: the last of equal keys wins. *)
Definition to_map {A} (l : list (string * A)) : gmap string A := list_to_map (rev l).

(** A JSON number in a variable of type [interface{}] is a [float64]. *)
Definition float_int (z : Z) : Z :=
  if z <? 0 then - default 0 (trunc (of_u64 (- z))) else default 0 (trunc (of_u64 z)).

(** A value that was read into [interface{}] and is written again. *)
Fixpoint any (j : json) : json :=
  match j with
  | JNum z => JNum (float_int z)
  | JArr l => JArr (map any l)
  | JObj l => JObj (sorted_entries (to_map (map (fun kv => (kv.1, any kv.2)) l)))
  | j => j
  end.

(** ** Codecs *)
Record codec (A : Type) := mkCodec {
  czero : A;
  cempty : A -> bool;                 (* omitempty leaves the value out *)
  encode : A -> json;
  decode : json -> A -> A * bool;
  cfits : A -> Prop;                  (* values the type holds and JSON tells apart *)
  cexact : A -> Prop;                 (* and that survive a [float64] *)
}.
Arguments mkCodec {A}.
Arguments czero {A}.
Arguments cempty {A}.
Arguments encode {A}.
Arguments decode {A}.
Arguments cfits {A}.
Arguments cexact {A}.

Record lawful {A} (c : codec A) : Prop := {
  law_empty : forall v, cfits c v -> cempty c v = true -> v = czero c;
  law_decode : forall v, cfits c v -> decode c (encode c v) (czero c) = (v, false);
  law_any : forall v, cfits c v -> cexact c v -> decode c (any (encode c v)) (czero c) = (v, false);
}.

Definition string_codec : codec string :=
  mkCodec "" (fun s => String.eqb s "") JStr
    (fun j old => match j with JStr s => (s, false) | JNull => (old, false) | _ => (old, true) end)
    (fun _ => True) (fun _ => True).

Definition int_codec (lo hi : Z) : codec Z :=
  mkCodec 0 (Z.eqb 0) JNum
    (fun j old => match j with
                  | JNum z => if (lo <=? z) && (z <? hi) then (z, false) else (old, true)
                  | JNull => (old, false)
                  | _ => (old, true)
                  end)
    (fun z => lo <= z < hi) (fun z => Z.abs z < 2 ^ 53).
Definition i64_codec : codec Z := int_codec (- two63) two63.
Definition u64_codec : codec Z := int_codec 0 two64.

(** A pointer: [null] makes it nil. *)
Definition ptr_codec {A} (c : codec A) : codec (option A) :=
  mkCodec None (fun p => match p with None => true | Some _ => false end)
    (fun p => match p with None => JNull | Some a => encode c a end)
    (fun j old => match j with
                  | JNull => (None, false)
                  | _ => let '(a, e) := decode c j (default (czero c) old) in (Some a, e)
                  end)
    (fun p => match p with None => True | Some a => cfits c a /\ encode c a <> JNull end)
    (fun p => match p with None => True | Some a => cexact c a /\ any (encode c a) <> JNull end).

Fixpoint decode_elems {A} (c : codec A) (l : list json) : list A * bool :=
  match l with
  | [] => ([], false)
  | j :: l =>
      let '(a, e) := decode c j (czero c) in
      let '(r, e') := decode_elems c l in (a :: r, e || e')
  end.
(** A slice whose nil and empty values are not told apart. *)
Definition list_codec {A} (c : codec A) : codec (list A) :=
  mkCodec [] (fun l => match l with [] => true | _ => false end)
    (fun l => JArr (map (encode c) l))
    (fun j old => match j with
                  | JArr l => decode_elems c l
                  | JNull => ([], false)
                  | _ => (old, true)
                  end)
    (Forall (cfits c)) (Forall (cexact c)).
(** A slice that is nil or not; [omitempty] leaves out both. *)
Definition slice_codec {A} (c : codec A) : codec (option (list A)) :=
  mkCodec None (fun p => match p with None => true | Some l => match l with [] => true | _ => false end end)
    (fun p => match p with None => JNull | Some l => JArr (map (encode c) l) end)
    (fun j old => match j with
                  | JArr l => let '(r, e) := decode_elems c l in (Some r, e)
                  | JNull => (None, false)
                  | _ => (old, true)
                  end)
    (fun p => match p with None => True | Some l => l <> [] /\ Forall (cfits c) l end)
    (fun p => match p with None => True | Some l => Forall (cexact c) l end).

Fixpoint decode_entries (l : list (string * json)) (m : gmap string string) (e : bool)
    : gmap string string * bool :=
  match l with
  | [] => (m, e)
  | (k, j) :: l =>
      let '(v, e') := decode string_codec j "" in decode_entries l (<[k := v]> m) (e || e')
  end.
Definition map_codec : codec (gmap string string) :=
  mkCodec ∅ (fun m => bool_decide (m = ∅))
    (fun m => JObj (map (fun kv => (kv.1, JStr kv.2)) (sorted_entries m)))
    (fun j old => match j with
                  | JObj l => decode_entries l old false
                  | JNull => (∅, false)
                  | _ => (old, true)
                  end)
    (fun _ => True) (fun _ => True).

(** ** Structs *)
Record field (R : Type) := Field {
  f_type : Type; f_codec : codec f_type; f_name : string; f_omit : bool; f_get : R -> f_type;
}.
Arguments Field {R f_type}.
Arguments f_type {R}.
Arguments f_codec {R}.
Arguments f_name {R}.
Arguments f_omit {R}.
Arguments f_get {R}.

Definition same_key (a b : string) : bool := String.eqb (Strings.ToLower a) (Strings.ToLower b).

Definition encode_field {R} (f : field R) (r : R) : option json :=
  if f_omit f && cempty (f_codec f) (f_get f r) then None
  else Some (encode (f_codec f) (f_get f r)).
Definition encode_fields {R} (fs : list (field R)) (r : R) : list (string * json) :=
  omap (fun f => (fun j => (f_name f, j)) <$> encode_field f r) fs.

Definition decode_field {R} (l : list (string * json)) (f : field R) (old : f_type f)
    : f_type f * bool :=
  fold_left (fun acc kv =>
    if same_key kv.1 (f_name f)
    then let '(v, e) := decode (f_codec f) kv.2 acc.1 in (v, acc.2 || e) else acc) l (old, false).

(** A struct is built from its fields; an error in one is an error of the whole. *)
Definition ap {A B} (f : (A -> B) * bool) (a : A * bool) : B * bool := (f.1 a.1, f.2 || a.2).
Infix "<**>" := ap (at level 61, left associativity).

Definition builder (R : Type) : Type := (forall f : field R, f_type f * bool) -> R * bool.

Definition struct_codec {R} (schema : list (field R)) (build : builder R) (zero : R) : codec R :=
  mkCodec zero (fun _ => false) (fun r => JObj (encode_fields schema r))
    (fun j old => match j with
                  | JObj l => build (fun f => decode_field l f (f_get f old))
                  | JNull => (old, false)
                  | _ => (old, true)
                  end)
    (fun r => Forall (fun f => cfits (f_codec f) (f_get f r)) schema) (fun _ => False).

(** ** Laws of the codecs *)
Lemma float_int_exact z : Z.abs z < 2 ^ 53 -> float_int z = z.
Proof.
  assert (Hpos : forall n, 0 < n < 2 ^ 53 -> trunc (of_u64 n) = Some n).
  { intros n Hn. destruct (round_pos_int n Hn) as (e & He & E). unfold of_u64. rewrite E. simpl.
    destruct (Z.ltb_spec e 0) as [Hlt|Hge].
    - f_equal. apply Z.quot_mul. assert (0 < 2 ^ (- e)) by (apply Z.pow_pos_nonneg; lia). lia.
    - replace e with 0 by lia. simpl. f_equal; lia. }
  intros Hz. unfold float_int. destruct (Z.ltb_spec z 0) as [Hneg|Hpz].
  - rewrite Hpos by lia. simpl. lia.
  - destruct (Z.eq_dec z 0) as [->|Hne]; [done|]. by rewrite Hpos by lia.
Qed.

Lemma string_lawful : lawful string_codec.
Proof. split; simpl; try done. by intros v _ ->%String.eqb_eq. Qed.

Lemma int_lawful lo hi : lawful (int_codec lo hi).
Proof.
  assert (H : forall v, lo <= v < hi -> (lo <=? v) && (v <? hi) = true).
  { intros v Hv. apply andb_true_iff. rewrite Z.leb_le, Z.ltb_lt. lia. }
  split; cbn [cfits cexact cempty czero decode encode int_codec any].
  - intros v _ <-%Z.eqb_eq. done.
  - intros v Hv. by rewrite H.
  - intros v Hv Hx. rewrite float_int_exact by done. by rewrite H.
Qed.

Lemma ptr_lawful {A} (c : codec A) : lawful c -> lawful (ptr_codec c).
Proof.
  intros [He Hd Ha]. split; cbn [cfits cexact cempty czero decode encode ptr_codec].
  - by intros [v|].
  - intros [v|]; [|done]. intros [Hv Hn]. specialize (Hd v Hv).
    destruct (encode c v) eqn:E; try done; simpl default; by rewrite Hd.
  - intros [v|]; [|done]. intros [Hv _] [Hx Hn]. specialize (Ha v Hv Hx).
    destruct (any (encode c v)) eqn:E; try done; simpl default; by rewrite Ha.
Qed.

Lemma decode_elems_encode {A} (c : codec A) (g : json -> json) l :
  Forall (fun v => decode c (g (encode c v)) (czero c) = (v, false)) l ->
  decode_elems c (map g (map (encode c) l)) = (l, false).
Proof. induction 1 as [|v l Hv _ IH]; simpl; [done|]. by rewrite Hv, IH. Qed.

Lemma elems_lawful {A} (c : codec A) l :
  lawful c -> Forall (cfits c) l ->
  decode_elems c (map (encode c) l) = (l, false) /\
  (Forall (cexact c) l -> decode_elems c (map any (map (encode c) l)) = (l, false)).
Proof.
  intros [He Hd Ha] Hl. split.
  - rewrite <-(map_id (map (encode c) l)). apply (decode_elems_encode c (fun j => j)).
    eapply Forall_impl; [exact Hl|]. eauto.
  - intros Hx. apply decode_elems_encode.
    eapply Forall_impl; [exact (proj2 (Forall_and _ _) (conj Hl Hx))|]. intros v [??]. eauto.
Qed.

Lemma list_lawful {A} (c : codec A) : lawful c -> lawful (list_codec c).
Proof.
  intros Hc. split; cbn [cfits cexact cempty czero decode encode list_codec any].
  - by intros [|].
  - intros l Hl. by apply elems_lawful.
  - intros l Hl Hx. by apply elems_lawful.
Qed.

Lemma slice_lawful {A} (c : codec A) : lawful c -> lawful (slice_codec c).
Proof.
  intros Hc. split; cbn [cfits cexact cempty czero decode encode slice_codec].
  - intros [[|v l]|]; [by intros [? _]|done|done].
  - intros [l|]; [|done]. intros [_ Hl]. by rewrite (proj1 (elems_lawful c l Hc Hl)).
  - intros [l|]; [|done]. intros [_ Hl] Hx. cbn [any]. by rewrite (proj2 (elems_lawful c l Hc Hl) Hx).
Qed.

(** ** Sorted maps *)
Section sorted.
Context {A : Type}.
Implicit Types (m : gmap string A) (l : list (string * A)).

Lemma sorted_entries_perm m : sorted_entries m ≡ₚ map_to_list m.
Proof. apply merge_sort_Permutation. Qed.

Lemma sorted_entries_NoDup m : NoDup (sorted_entries m).*1.
Proof. rewrite sorted_entries_perm. apply NoDup_fst_map_to_list. Qed.

Lemma elem_sorted_entries m k a : (k, a) ∈ sorted_entries m <-> m !! k = Some a.
Proof. rewrite sorted_entries_perm. apply elem_of_map_to_list. Qed.

Lemma to_map_NoDup l : NoDup l.*1 -> to_map l = list_to_map l.
Proof.
  intros H. unfold to_map. apply list_to_map_proper.
  - by rewrite <-Permutation_rev.
  - symmetry. apply Permutation_rev.
Qed.

Lemma to_map_sorted m : to_map (sorted_entries m) = m.
Proof.
  rewrite to_map_NoDup by apply sorted_entries_NoDup.
  rewrite (list_to_map_proper _ (map_to_list m)); [apply list_to_map_to_list|
    apply sorted_entries_NoDup|apply sorted_entries_perm].
Qed.

Lemma to_map_cons k a l : to_map ((k, a) :: l) = to_map l ∪ {[k := a]}.
Proof. unfold to_map. simpl. rewrite list_to_map_app. simpl. by rewrite insert_empty. Qed.
End sorted.

Lemma to_map_fmap {A B} (g : A -> B) (l : list (string * A)) :
  to_map (map (fun kv => (kv.1, g kv.2)) l) = g <$> to_map l.
Proof.
  unfold to_map. rewrite <-map_rev, <-list_to_map_fmap. f_equal.
Qed.

Lemma decode_entries_strings l m e :
  decode_entries (map (fun kv => (kv.1, JStr kv.2)) l) m e = (to_map l ∪ m, e).
Proof.
  revert m e; induction l as [|[k v] l IH]; intros m e; cbn [map decode_entries].
  - change (to_map []) with (∅ : gmap string string). by rewrite (left_id_L ∅ (∪)).
  - cbn [decode string_codec fst snd]. rewrite IH, orb_false_r, to_map_cons. f_equal.
    by rewrite insert_union_singleton_l, (assoc_L (∪)).
Qed.

Lemma map_lawful : lawful map_codec.
Proof.
  assert (H : forall m, decode_entries (map (fun kv => (kv.1, JStr kv.2)) (sorted_entries m)) ∅ false
    = (m, false)).
  { intros m. by rewrite decode_entries_strings, (right_id_L ∅ (∪)), to_map_sorted. }
  split; cbn [cfits cexact cempty czero decode encode map_codec any].
  - by intros m _ ->%bool_decide_eq_true.
  - intros m _. apply H.
  - intros m _ _. rewrite map_map. cbn [fst snd any].
    rewrite (to_map_fmap JStr), to_map_sorted.
    set (unstr j := match j with JStr s => s | _ => "" end).
    assert (E : sorted_entries (JStr <$> m) = map (fun kv => (kv.1, JStr kv.2))
      (map (fun kv => (kv.1, unstr kv.2)) (sorted_entries (JStr <$> m)))).
    { rewrite map_map. rewrite <-(map_id (sorted_entries _)) at 1. apply map_ext_in.
      intros [k j] [v [Hv _]]%list_elem_of_In%elem_sorted_entries%lookup_fmap_Some. by subst j. }
    rewrite E, decode_entries_strings, (right_id_L ∅ (∪)), (to_map_fmap unstr), to_map_sorted.
    rewrite <-map_fmap_compose. f_equal. apply map_fmap_id.
Qed.

(** ** Laws of structs *)

(** The builder reads the fields of the schema and nothing else, and puts them
    where they came from; no two fields share a key. *)
Record built {R} (schema : list (field R)) (build : builder R) : Prop := {
  build_ext : forall g h, Forall (fun f => g f = h f) schema -> build g = build h;
  build_get : forall r, build (fun f => (f_get f r, false)) = (r, false);
  build_proj : forall g f, f ∈ schema -> f_get f (build g).1 = (g f).1;
  build_err : forall g, (build g).2 = existsb (fun f => (g f).2) schema;
  build_keys : forall f f', f ∈ schema -> f' ∈ schema ->
    same_key (f_name f) (f_name f') = true -> f = f';
  build_once : NoDup schema;
}.

Lemma same_key_refl k : same_key k k = true.
Proof. apply String.eqb_refl. Qed.

Section structs.
Context {R : Type}.
Implicit Types (f : field R) (l : list (string * json)).

Lemma decode_field_none l f v :
  (forall k, k ∈ l.*1 -> same_key k (f_name f) = false) -> decode_field l f v = (v, false).
Proof.
  unfold decode_field. induction l as [|[k j] l IH]; intros H; simpl; [done|].
  rewrite (H k) by (simpl; left). apply IH. intros k' Hk'. apply H. by right.
Qed.

Lemma decode_field_once l1 l2 k j f v :
  same_key k (f_name f) = true -> (forall k, k ∈ (l1 ++ l2).*1 -> same_key k (f_name f) = false) ->
  decode_field (l1 ++ (k, j) :: l2) f v = decode (f_codec f) j v.
Proof.
  intros Hk H. unfold decode_field. rewrite fold_left_app. simpl.
  change (fold_left _ l1 (v, false)) with (decode_field l1 f v).
  rewrite (decode_field_none l1) by (intros k' Hk'; apply H; rewrite fmap_app; set_solver). simpl.
  rewrite Hk. destruct (decode (f_codec f) j v) as [w e]. simpl. clear v.
  revert w e. induction l2 as [|[k' j'] l2 IH]; intros w e; simpl; [done|].
  rewrite (H k') by (rewrite fmap_app; set_solver). apply IH. intros k'' Hk''. apply H.
  rewrite fmap_app in *. simpl. set_solver.
Qed.

(** An object whose keys are spelled as the fields are is read field by field. *)
Lemma decode_field_lookup l f v :
  NoDup l.*1 -> (forall k, k ∈ l.*1 -> same_key k (f_name f) = true -> k = f_name f) ->
  decode_field l f v
  = match to_map l !! f_name f with Some j => decode (f_codec f) j v | None => (v, false) end.
Proof.
  intros Hl Hk. rewrite to_map_NoDup by done.
  destruct (list_to_map l !! f_name f) as [j|] eqn:E.
  - apply elem_of_list_to_map_2 in E. apply list_elem_of_split in E as (l1 & l2 & ->).
    apply decode_field_once; [apply same_key_refl|]. intros k Hin.
    destruct (same_key k (f_name f)) eqn:Es; [|done]. exfalso.
    assert (k = f_name f) as ->.
    { apply Hk; [|done]. rewrite fmap_app in *. simpl. set_solver. }
    rewrite fmap_app in Hl, Hin. simpl in Hl. apply NoDup_app in Hl as (_ & H1 & H2).
    apply NoDup_cons in H2 as [H2 _]. set_solver.
  - apply decode_field_none. intros k Hin. destruct (same_key k (f_name f)) eqn:Es; [|done].
    apply not_elem_of_list_to_map in E. by rewrite <-(Hk k Hin Es) in E.
Qed.

Context (schema : list (field R)) (build : builder R) (Hb : built schema build).

Lemma encode_fields_keys r k :
  k ∈ (encode_fields schema r).*1 -> exists f, f ∈ schema /\ k = f_name f.
Proof.
  intros ([k' j] & -> & Hin)%list_elem_of_fmap.
  apply list_elem_of_omap in Hin as (f & Hf & E).
  destruct (encode_field f r); simplify_eq/=. eauto.
Qed.

Lemma encode_fields_NoDup r : NoDup (encode_fields schema r).*1.
Proof.
  pose proof (build_once _ _ Hb) as Hn. pose proof (build_keys _ _ Hb) as Hk.
  unfold encode_fields. revert Hn Hk. generalize schema as fs.
  induction fs as [|f fs IH]; intros Hn Hk; simpl; [constructor|].
  apply NoDup_cons in Hn as [Hf Hn].
  assert (IH' : NoDup (omap (fun f => (fun j => (f_name f, j)) <$> encode_field f r) fs).*1).
  { apply IH; [done|]. intros f1 f2 H1 H2. apply Hk; by right. }
  destruct (encode_field f r); simpl; [|done]. constructor; [|done].
  intros ([k' j'] & E & (f' & Hf' & E')%list_elem_of_omap)%list_elem_of_fmap.
  destruct (encode_field f' r); [|done]. injection E' as <- <-. cbn in E. apply Hf.
  rewrite (Hk f f'); [done|left|by right|]. rewrite E. apply same_key_refl.
Qed.

Lemma encode_fields_lookup r f :
  f ∈ schema -> to_map (encode_fields schema r) !! f_name f = encode_field f r.
Proof.
  intros Hf. rewrite to_map_NoDup by apply encode_fields_NoDup.
  destruct (encode_field f r) as [j|] eqn:E.
  - apply elem_of_list_to_map_1; [apply encode_fields_NoDup|].
    apply list_elem_of_omap. exists f. by rewrite E.
  - apply not_elem_of_list_to_map_1. intros ([k j] & E' & Hin)%list_elem_of_fmap.
    apply list_elem_of_omap in Hin as (f' & Hf' & E'').
    destruct (encode_field f' r) eqn:E3; [|done]. injection E'' as <- <-. cbn in E'.
    rewrite (build_keys _ _ Hb f f') in E; [congruence|done|done|]. rewrite E'. apply same_key_refl.
Qed.

Context (zero : R).
Hypothesis (Hlaw : forall f, f ∈ schema -> lawful (f_codec f)).
Hypothesis (Hzero : forall f, f ∈ schema -> f_get f zero = czero (f_codec f)).

(** What is left out is the zero value. *)
Lemma encode_field_back g r f :
  f ∈ schema -> cfits (f_codec f) (f_get f r) ->
  decode (f_codec f) (g (encode (f_codec f) (f_get f r))) (czero (f_codec f)) = (f_get f r, false) ->
  match g <$> encode_field f r with
  | Some j => decode (f_codec f) j (f_get f zero)
  | None => (f_get f zero, false)
  end = (f_get f r, false).
Proof.
  intros Hf Hfit Hd. rewrite (Hzero f Hf). unfold encode_field.
  destruct (f_omit f && _) eqn:E; [|done]. apply andb_true_iff in E as [_ E]. simpl. f_equal.
  symmetry. by apply (law_empty _ (Hlaw f Hf)).
Qed.

(** The fields of the schema are the keys of what was written. *)
Lemma field_spelling r k f :
  f ∈ schema -> k ∈ (encode_fields schema r).*1 -> same_key k (f_name f) = true -> k = f_name f.
Proof.
  intros Hf (f' & Hf' & ->)%encode_fields_keys Hs. by rewrite (build_keys _ _ Hb f' f).
Qed.

Lemma struct_lawful : lawful (struct_codec schema build zero).
Proof.
  split; [done| |done]. intros r Hfits. cbn [cfits encode decode czero struct_codec] in *.
  rewrite <-(build_get _ _ Hb r). apply (build_ext _ _ Hb).
  rewrite Forall_forall in Hfits |- *. intros f Hf.
  rewrite decode_field_lookup by (try apply encode_fields_NoDup; intros k Hk; by eapply field_spelling).
  rewrite encode_fields_lookup by done.
  pose proof (encode_field_back (fun j => j) r f Hf (Hfits f Hf)
    (law_decode _ (Hlaw f Hf) _ (Hfits f Hf))) as H. by destruct (encode_field f r).
Qed.

(** ** Merging into a struct through maps *)

(** The struct as a [map[string]interface{}]. *)
Definition as_map (r : R) : gmap string json := any <$> to_map (encode_fields schema r).

(** The struct with some fields replaced. *)
Definition patched (patch : gmap string json) (r : R) : R * bool :=
  build (fun f => match patch !! f_name f with
                  | Some j => decode (f_codec f) j (czero (f_codec f))
                  | None => (f_get f r, false)
                  end).

Definition spelled (patch : gmap string json) : Prop :=
  forall k j f, patch !! k = Some j -> f ∈ schema -> same_key k (f_name f) = true -> k = f_name f.

(** Reading back a map that a patch was merged into is replacing fields. *)
Lemma merge_is_patch patch r :
  spelled patch -> cfits (struct_codec schema build zero) r ->
  Forall (fun f => cexact (f_codec f) (f_get f r)) schema ->
  decode (struct_codec schema build zero) (JObj (sorted_entries (patch ∪ as_map r))) zero
  = patched patch r.
Proof.
  intros Hsp Hfits Hex. cbn [cfits decode struct_codec] in *. unfold patched.
  apply (build_ext _ _ Hb). rewrite Forall_forall in Hfits, Hex |- *. intros f Hf.
  rewrite decode_field_lookup.
  - rewrite to_map_sorted, lookup_union. unfold as_map. rewrite lookup_fmap, encode_fields_lookup by done.
    destruct (patch !! f_name f) as [j|] eqn:Ej.
    + rewrite union_Some_l, Hzero by done. done.
    + rewrite (left_id_L None (∪)). apply encode_field_back; [done|by apply Hfits|].
      apply (law_any _ (Hlaw f Hf)); auto.
  - apply sorted_entries_NoDup.
  - intros k ([k' j] & -> & Hin%elem_sorted_entries)%list_elem_of_fmap Hs. cbn [fst] in *.
    apply lookup_union_Some_raw in Hin as [Hin|[_ Hin]]; [by eapply Hsp|].
    unfold as_map in Hin. apply lookup_fmap_Some in Hin as (j' & _ & Hin).
    rewrite to_map_NoDup in Hin by apply encode_fields_NoDup.
    apply elem_of_list_to_map_2 in Hin. eapply (field_spelling r); [done| |done].
    apply list_elem_of_fmap. by exists (k', j').
Qed.
End structs.

(** Distinct names, letter case aside, are enough. *)
Lemma distinct_keys {R} (schema : list (field R)) :
  NoDup (map (fun f => Strings.ToLower (f_name f)) schema) ->
  NoDup schema /\ forall f f', f ∈ schema -> f' ∈ schema ->
    same_key (f_name f) (f_name f') = true -> f = f'.
Proof.
  intros H. split; [by eapply NoDup_fmap_1|].
  intros f f' [i Hi]%list_elem_of_lookup [i' Hi']%list_elem_of_lookup Hs%String.eqb_eq.
  assert (i = i').
  { eapply (NoDup_lookup _ i i' (Strings.ToLower (f_name f)) H).
    - by rewrite list_lookup_fmap, Hi.
    - by rewrite list_lookup_fmap, Hi', Hs. }
  subst. congruence.
Qed.

(** One goal for each field of a schema. *)
Ltac each_field :=
  let f := fresh "f" in let Hf := fresh "Hf" in
  intros f Hf;
  repeat (apply elem_of_cons in Hf as [->|Hf]; [|]);
  [..|by apply elem_of_nil in Hf].

(** Shows a schema [built]: its equations are rewritten one field at a time. *)
Ltac build_struct :=
  match goal with
  | |- built ?schema ?build =>
      let H := fresh in
      assert (H := distinct_keys schema);
      destruct H as [? ?]; [apply (bool_decide_unpack _); vm_compute; exact I|];
      split; [|first [intros []; reflexivity|intros [[]]; reflexivity]
             |let g := fresh in intros g; each_field; reflexivity
             |let s' := eval hnf in schema in
              intros; change schema with s'; unfold build; cbn [ap fst snd existsb];
              rewrite ?orb_false_l, ?orb_false_r, ?orb_assoc; reflexivity
             |assumption|assumption];
      let g := fresh in let h := fresh in let E := fresh in
      intros g h E; unfold build;
      repeat match type of E with
             | Forall ?P ?s =>
                 let s' := eval hnf in s in
                 lazymatch s' with
                 | _ :: _ => let E' := fresh in
                     change (Forall P s') in E; apply Forall_cons in E as [E' E];
                     cbn beta in E'; rewrite E'; clear E'
                 end
             end; reflexivity
  end.
