(* ===== verification/Kube.v ===== *)
(** * The Kubernetes client the manager and the controllers use

    The client (sigs.k8s.io/controller-runtime) is not part of the program.
    [Client] is its interface for one kind of object: reads are served by a
    cache that may lag behind the API server, writes go to the API server.
    [ClientLaws] states what the program relies on, and no more: a read gives an
    object of the asked name, a resource version determines the object it was
    read from, a status update succeeds only against the version it was read
    from (optimistic concurrency) and then replaces the status alone, and a
    failed write changes nothing.

    [store] is an in-memory cluster for one kind that satisfies the laws, so
    the hypotheses of the theorems built on them can hold. *)

From S2P Require Import Prelude Types.

Definition rv {Sp St} (o : object Sp St) : Z := om_ResourceVersion (Meta o).

(** A write returns the new cluster and the error, [None] for a nil error.
    [kStatusUpdate] also refreshes the object it is given. *)
Class Client (K Sp St : Type) := {
  kGet : string -> K -> outcome (object Sp St);
  kList : K -> list (object Sp St) * option string;
  kPatch : object Sp St -> K -> K * option string;
  kDelete : object Sp St -> K -> K * option string;
  kStatusUpdate : object Sp St -> K -> K * object Sp St * option string;
}.
#[global] Hint Mode Client + + + : typeclass_instances.

Class ClientLaws (K Sp St : Type) `{!Client K Sp St} := {
  (** What the API server holds. *)
  stored : K -> gmap string (object Sp St);
  kwf : K -> Prop;
  get_name : forall k n (o : object Sp St), kwf k -> kGet n k = Ret o -> Name o = n;
  get_version : forall k n (o cur : object Sp St), kwf k -> kGet n k = Ret o ->
    stored k !! n = Some cur -> rv cur = rv o -> cur = o;
  update_ok : forall k k' (o o' : object Sp St), kwf k -> kStatusUpdate o k = (k', o', None) ->
    exists cur, stored k !! Name o = Some cur /\ rv cur = rv o /\
      Name o' = Name o /\ Spec o' = Spec cur /\ Status o' = Status o /\
      stored k' = <[Name o := o']> (stored k);
  update_err : forall k k' (o o' : object Sp St) e,
    kStatusUpdate o k = (k', o', Some e) -> stored k' = stored k;
  update_wf : forall k k' (o o' : object Sp St) e,
    kwf k -> kStatusUpdate o k = (k', o', e) -> kwf k';
  patch_ok : forall k k' (o : object Sp St), kwf k -> kPatch o k = (k', None) ->
    exists o', stored k' = <[Name o := o']> (stored k) /\ Name o' = Name o /\
      (forall cur, stored k !! Name o = Some cur -> Status o' = Status cur);
  patch_err : forall k k' (o : object Sp St) e,
    kPatch o k = (k', Some e) -> stored k' = stored k;
  patch_wf : forall k k' (o : object Sp St) e, kwf k -> kPatch o k = (k', e) -> kwf k';
  delete_ok : forall k k' (o : object Sp St), kDelete o k = (k', None) ->
    stored k' = delete (Name o) (stored k);
  delete_err : forall k k' (o : object Sp St) e,
    kDelete o k = (k', Some e) -> stored k' = stored k;
  delete_wf : forall k k' (o : object Sp St) e, kwf k -> kDelete o k = (k', e) -> kwf k';
  stored_name : forall k n (o : object Sp St), kwf k -> stored k !! n = Some o -> Name o = n;
}.
#[global] Hint Mode ClientLaws + + + - : typeclass_instances.

(** An update that succeeds was computed from what the API server holds, even
    though the read came from a cache. *)
Lemma update_after_get {K Sp St} `{!Client K Sp St, !ClientLaws K Sp St}
    (k k' : K) n (o o' : object Sp St) st :
  kwf (Sp := Sp) (St := St) k -> kGet n k = Ret o ->
  kStatusUpdate (with_status o st) k = (k', o', None) ->
  stored k !! n = Some o /\ stored k' = <[n := o']> (stored k) /\
  Name o' = n /\ Spec o' = Spec o /\ Status o' = st.
Proof.
  intros Hwf Hg Hu. pose proof (get_name k n o Hwf Hg) as Hn.
  destruct (update_ok k k' _ o' Hwf Hu) as (cur & Hc & Hrv & Hn' & Hsp & Hst & Hk).
  change (Name (with_status o st)) with (Name o) in *. rewrite Hn in *.
  assert (cur = o) as -> by exact (get_version k n o cur Hwf Hg Hc Hrv). done.
Qed.

(** ** An in-memory cluster *)

(** The zero value of a status type. *)
Class Zero (A : Type) := zero : A.
#[export] Instance zero_JobStatus : Zero JobStatus := zeroJobStatus.
#[export] Instance zero_FileStatus : Zero FileStatus := zeroFileStatus.
#[export] Instance zero_AnnouncementStatus : Zero AnnouncementStatus := mkAnnouncementStatus 0 0.
#[export] Instance zero_ManagerStatus : Zero ManagerStatus := mkManagerStatus "".

Section store.
Context {Sp St : Type} `{!Zero St}.
Implicit Types o : object Sp St.

Definition at_rv o (v : Z) : object Sp St :=
  mkObject (mkMeta (om_Name (Meta o)) (om_Namespace (Meta o)) v) (Spec o) (Status o).

(** The API server's objects, the cache's view of them, and the next version. *)
Record store := mkStore {
  server : gmap string (object Sp St);
  cache : gmap string (object Sp St);
  next_rv : Z;
}.

Definition store_empty : store := mkStore ∅ ∅ 1.

(** The cache catches up. *)
Definition refresh (s : store) : store := mkStore (server s) (server s) (next_rv s).

Definition store_get (n : string) (s : store) : outcome (object Sp St) :=
  match cache s !! n with Some o => Ret o | None => Err (n +:+ " not found") end.

Definition store_list (s : store) : list (object Sp St) * option string :=
  (snd <$> map_to_list (cache s), None).

Definition store_put (o : object Sp St) (s : store) : store :=
  mkStore (<[Name o := at_rv o (next_rv s)]> (server s)) (cache s) (next_rv s + 1).

Definition store_patch (o : object Sp St) (s : store) : store * option string :=
  let st := match server s !! Name o with Some cur => Status cur | None => zero end in
  (store_put (mkObject (Meta o) (Spec o) st) s, None).

Definition store_delete (o : object Sp St) (s : store) : store * option string :=
  match server s !! Name o with
  | Some _ => (mkStore (delete (Name o) (server s)) (cache s) (next_rv s), None)
  | None => (s, Some (Name o +:+ " not found"))
  end.

Definition store_update (o : object Sp St) (s : store) : store * object Sp St * option string :=
  match server s !! Name o with
  | Some cur =>
      if decide (rv cur = rv o) then
        let o' := mkObject (Meta o) (Spec cur) (Status o) in
        (store_put o' s, at_rv o' (next_rv s), None)
      else (s, o, Some "the object has been modified")
  | None => (s, o, Some (Name o +:+ " not found"))
  end.

#[export] Instance store_client : Client store Sp St := {|
  kGet := store_get; kList := store_list; kPatch := store_patch;
  kDelete := store_delete; kStatusUpdate := store_update |}.

(** Names are keys, versions are below the next one, and the cache holds an old
    or the current version of what the server holds. *)
Record store_wf (s : store) : Prop := {
  wf_server : forall n o, server s !! n = Some o -> Name o = n /\ rv o < next_rv s;
  wf_cache : forall n o, cache s !! n = Some o -> Name o = n /\ rv o < next_rv s;
  wf_version : forall n o cur, cache s !! n = Some o -> server s !! n = Some cur ->
    rv cur = rv o -> cur = o;
}.

Lemma store_put_wf o s : store_wf s -> store_wf (store_put o s).
Proof.
  intros [Hs Hc Hv]. split; simpl.
  - intros n o' [[<- <-]|[Hne H]]%lookup_insert_Some; [split; [done|unfold rv; simpl; lia]|].
    destruct (Hs _ _ H). split; [done|lia].
  - intros n o' H. destruct (Hc _ _ H). split; [done|lia].
  - intros n o' cur H [[<- <-]|[Hne H']]%lookup_insert_Some Hrv; [|eauto].
    destruct (Hc _ _ H). unfold at_rv, rv in *. simpl in *. lia.
Qed.

Lemma store_delete_wf n s :
  store_wf s -> store_wf (mkStore (delete n (server s)) (cache s) (next_rv s)).
Proof.
  intros [Hs Hc Hv]. split; simpl; [|done|].
  - intros m o [_ H]%lookup_delete_Some. eauto.
  - intros m o cur H [_ H']%lookup_delete_Some. eauto.
Qed.

#[export] Program Instance store_laws : ClientLaws store Sp St :=
  {| stored := server; kwf := store_wf |}.
Next Obligation.
  intros k n o [_ Hc _] H. simpl in H. unfold store_get in H. case_match; simplify_eq.
  by destruct (Hc n o).
Qed.
Next Obligation.
  intros k n o cur [_ _ Hv] H. simpl in H. unfold store_get in H. case_match; simplify_eq. eauto.
Qed.
Next Obligation.
  intros k k' o o' _ H. simpl in H. unfold store_update in H. repeat case_match; simplify_eq.
  eexists; split_and!; try done.
Qed.
Next Obligation.
  intros k k' o o' e H. simpl in H. unfold store_update in H. by repeat case_match; simplify_eq.
Qed.
Next Obligation.
  intros k k' o o' e Hwf H. simpl in H. unfold store_update in H.
  repeat case_match; simplify_eq; [by apply store_put_wf|done..].
Qed.
Next Obligation.
  intros k k' o Hwf H. simpl in H. unfold store_patch in H. simplify_eq. simpl.
  eexists; split_and!; [done..|]. intros cur Hc. simpl. by rewrite Hc.
Qed.
Next Obligation. intros k k' o e H. simpl in H. unfold store_patch in H. simplify_eq. Qed.
Next Obligation.
  intros k k' o e Hwf H. simpl in H. unfold store_patch in H. simplify_eq. by apply store_put_wf.
Qed.
Next Obligation.
  intros k k' o H. simpl in H. unfold store_delete in H. by repeat case_match; simplify_eq.
Qed.
Next Obligation.
  intros k k' o e H. simpl in H. unfold store_delete in H. by repeat case_match; simplify_eq.
Qed.
Next Obligation.
  intros k k' o e Hwf H. simpl in H. unfold store_delete in H.
  repeat case_match; simplify_eq; [by apply store_delete_wf|done].
Qed.
Next Obligation. intros k n o [Hs _ _] H. by destruct (Hs n o H). Qed.

Lemma refresh_wf s : store_wf s -> store_wf (refresh s).
Proof. intros [Hs Hc Hv]. split; simpl; [done|done|]. congruence. Qed.

Lemma store_empty_wf : store_wf store_empty.
Proof. split; simpl; intros *; by rewrite lookup_empty. Qed.
End store.
Arguments store : clear implicits.
