(* ===== verification/Cluster.v ===== *)
(** * The cluster as the reconcilers see it (src/internal/controller)

    A reconciler reads a custom resource through the client of [Kube] and writes
    the objects that belong to it: it applies them (server-side apply with
    forced ownership) and deletes them.  [Children] is the interface for those
    objects, named by kind and name within the namespace of the request;
    [ChildrenLaws] is what the reconcilers rely on: an applied object is there
    with the fields that were applied, a deleted one is not, a failed write
    changes nothing, and a delete without a name fails.

    [plan] is what a reconciler wants done, as data; [exec] does it, stopping at
    the first failing apply, as the code does. *)

From S2P Require Import Prelude Types Kube.

Abbreviation ckey := (string * string)%type.

Class HasKey (C : Type) := key_of : C -> ckey.

(** [cGet] gives the error of a cached read. *)
Class Children (K C : Type) := {
  cApply : C -> K -> K * option string;
  cDelete : ckey -> K -> K * option string;
  cGet : ckey -> K -> option string;
}.
#[global] Hint Mode Children + + : typeclass_instances.

Class ChildrenLaws (K C : Type) `{!HasKey C, !Children K C} := {
  children : K -> gmap ckey C;
  apply_ok : forall (k k' : K) (c : C), cApply c k = (k', None) ->
    children k' = <[key_of c := c]> (children k);
  apply_err : forall (k k' : K) (c : C) e, cApply c k = (k', Some e) -> children k' = children k;
  cdelete_ok : forall (k k' : K) key, cDelete (C := C) key k = (k', None) ->
    children k' = delete key (children k);
  cdelete_err : forall (k k' : K) key e, cDelete (C := C) key k = (k', Some e) ->
    children k' = children k;
  cdelete_unnamed : forall (k : K) kind, snd (cDelete (C := C) (kind, "") k) <> None;
}.
#[global] Hint Mode ChildrenLaws + + - - : typeclass_instances.

(** Writes to children leave the resources of another client alone. *)
Class Apart (K C Sp St : Type) `{!Children K C, !Client K Sp St, !ClientLaws K Sp St} := {
  apart_apply : forall (k : K) (c : C),
    stored (Sp := Sp) (St := St) (cApply c k).1 = stored k;
  apart_delete : forall (k : K) key,
    stored (Sp := Sp) (St := St) (cDelete (C := C) key k).1 = stored k;
  apart_apply_wf : forall (k : K) (c : C),
    kwf (Sp := Sp) (St := St) k -> kwf (Sp := Sp) (St := St) (cApply c k).1;
  apart_delete_wf : forall (k : K) key,
    kwf (Sp := Sp) (St := St) k -> kwf (Sp := Sp) (St := St) (cDelete (C := C) key k).1;
}.

(** A cluster whose cache is fresh and whose deletes of present objects succeed. *)
Class Reliable (K C : Type) `{!HasKey C, !Children K C, !ChildrenLaws K C} := {
  reliable_get : forall (k : K) key, is_Some (children (C := C) k !! key) ->
    cGet (C := C) key k = None;
  reliable_delete : forall (k : K) key, key.2 <> "" -> is_Some (children (C := C) k !! key) ->
    (cDelete (C := C) key k).2 = None;
}.

(** Status updates leave the children alone. *)
Class ApartBack (K C Sp St : Type) `{!HasKey C, !Children K C, !ChildrenLaws K C, !Client K Sp St} :=
  apart_update : forall (k : K) (o : object Sp St),
    children (C := C) (kStatusUpdate o k).1.1 = children (C := C) k.

(** ** Plans *)
Inductive action (C : Type) :=
  | Apply (c : C)              (* if err = r.Patch(...); err != nil { return err } *)
  | Delete (key : ckey)        (* r.Delete(...), its error ignored *)
  | DeleteFound (key : ckey) (before : list ckey).
      (* r.Get into a zero object, some deletes, and r.Delete of that object *)
Arguments Apply {C} c.
Arguments Delete {C} key.
Arguments DeleteFound {C} key before.

Section exec.
Context {K C : Type} `{!HasKey C, !Children K C}.

(** An object [Get] did not find has no name. *)
Definition found_key (key : ckey) (k : K) : ckey :=
  match cGet (C := C) key k with None => key | Some _ => (fst key, "") end.

Definition delete_key (k : K) (key : ckey) : K := (cDelete (C := C) key k).1.

Definition act (a : action C) (k : K) : K * option string :=
  match a with
  | Apply c => cApply c k
  | Delete key => (delete_key k key, None)
  | DeleteFound key before =>
      (delete_key (fold_left delete_key before k) (found_key key k), None)
  end.

Fixpoint exec (p : list (action C)) (k : K) : K * option string :=
  match p with
  | [] => (k, None)
  | a :: p =>
      match act a k with
      | (k', Some e) => (k', Some e)
      | (k', None) => exec p k'
      end
  end.

Definition touched (a : action C) : list ckey :=
  match a with
  | Apply c => [key_of c]
  | Delete key => [key]
  | DeleteFound key before => key :: before
  end.

Definition applied (p : list (action C)) : list C :=
  omap (fun a => match a with Apply c => Some c | _ => None end) p.

Lemma exec_app p q k :
  exec (p ++ q) k = match exec p k with (k', None) => exec q k' | r => r end.
Proof.
  revert k; induction p as [|a p IH]; intros k; simpl; [done|].
  destruct (act a k) as [k' [e|]]; [done|apply IH].
Qed.

Section laws.
Context `{!ChildrenLaws K C}.

(** A key survives a delete of another one, and a delete that fails. *)
Lemma delete_key_children k key' key :
  children (delete_key k key') !! key = children k !! key
  \/ (key = key' /\ key.2 <> "" /\ children (delete_key k key') !! key = None).
Proof.
  unfold delete_key. pose proof (cdelete_unnamed (C := C) k key'.1) as Hn.
  destruct (cDelete key' k) as [k1 [e|]] eqn:Ed; simpl.
  - apply cdelete_err in Ed as ->. auto.
  - pose proof (cdelete_ok _ _ _ Ed) as ->. destruct (decide (key = key')) as [->|].
    + right. rewrite lookup_delete_eq. split_and!; [done| |done]. destruct key' as [kd n]; simpl.
      intros ->. simpl in Hn. by rewrite Ed in Hn.
    + left. by rewrite lookup_delete_ne.
Qed.

Lemma delete_keys_children l k key :
  children (fold_left delete_key l k) !! key = children k !! key
  \/ (key ∈ l /\ children (fold_left delete_key l k) !! key = None).
Proof.
  revert k; induction l as [|key' l IH]; intros k; simpl; [auto|].
  rewrite elem_of_cons. destruct (IH (delete_key k key')) as [->|[? ?]]; [|auto].
  destruct (delete_key_children k key' key) as [->|(-> & _ & ->)]; auto.
Qed.

(** One action changes at most the keys it is about: it stores the applied
    object, or removes some, or nothing. *)
Lemma act_children a k k' r key :
  act a k = (k', r) ->
  children k' !! key = children k !! key
  \/ (key ∈ touched a /\ match a with
        | Apply c => children k' !! key = Some c
        | _ => children k' !! key = None
        end).
Proof.
  destruct a as [c|key'|key' before]; cbn [act touched]; intros E.
  - destruct r as [e|]; [apply apply_err in E as ->; auto|]. apply apply_ok in E as ->.
    rewrite list_elem_of_singleton. destruct (decide (key = key_of c)) as [->|]; [right|left].
    + by rewrite lookup_insert_eq.
    + by rewrite lookup_insert_ne.
  - simplify_eq. rewrite list_elem_of_singleton.
    destruct (delete_key_children k key' key) as [->|(-> & _ & ->)]; auto.
  - simplify_eq. rewrite elem_of_cons. set (k1 := fold_left delete_key before k).
    destruct (delete_key_children k1 (found_key key' k) key) as [->|(-> & Hn & ->)].
    + unfold k1. destruct (delete_keys_children before k key) as [->|[? ->]]; auto.
    + right. split; [|done]. unfold found_key in *. destruct (cGet key' k); [done|auto].
Qed.

(** A plan leaves every key it does not mention alone, however it ends. *)
Lemma exec_frame p k k' r key :
  exec p k = (k', r) -> key ∉ (p ≫= touched) -> children k' !! key = children k !! key.
Proof.
  revert k; induction p as [|a p IH]; intros k E Hk; simplify_eq/=; [done|].
  apply not_elem_of_app in Hk as [Hne Hk].
  destruct (act a k) as [k1 r1] eqn:Ea.
  destruct (act_children a k k1 r1 key Ea) as [Hs|[? _]]; [|done].
  destruct r1 as [e|]; simplify_eq; [done|]. rewrite <-Hs. by apply IH.
Qed.

(** A plan that succeeds has applied each of its objects, unless a later action
    is about the same key. *)
Lemma exec_applied p1 c p2 k k' :
  exec (p1 ++ Apply c :: p2) k = (k', None) -> key_of c ∉ (p2 ≫= touched) ->
  children k' !! key_of c = Some c.
Proof.
  rewrite exec_app. destruct (exec p1 k) as [k1 [e|]]; [done|]. simpl.
  destruct (cApply c k1) as [k2 [e|]] eqn:Ea; [done|]. intros E Hk.
  rewrite (exec_frame p2 k2 k' None _ E Hk). apply apply_ok in Ea as ->.
  by rewrite lookup_insert_eq.
Qed.

(** A key no object of the plan has can only lose its object. *)
Lemma exec_not_applied p k k' r key :
  exec p k = (k', r) -> key ∉ (key_of <$> applied p) ->
  children k' !! key = children k !! key \/ children k' !! key = None.
Proof.
  revert k; induction p as [|a p IH]; intros k E Hk; simplify_eq/=; [auto|].
  destruct (act a k) as [k1 r1] eqn:Ea.
  assert (Ha : children k1 !! key = children k !! key \/ children k1 !! key = None).
  { destruct (act_children a k k1 r1 key Ea) as [?|[Ht Hc]]; [auto|]. destruct a; [|auto..].
    apply list_elem_of_singleton in Ht as ->. destruct Hk. simpl. by left. }
  destruct r1 as [e|]; simplify_eq; [done|].
  destruct (IH k1 E) as [->|?]; [|done|auto].
  intros ?. apply Hk. destruct a; simpl; [by right|done|done].
Qed.

(** An object is applied after everything before it in the plan. *)
Lemma exec_reached p1 c p2 k k' r :
  exec (p1 ++ Apply c :: p2) k = (k', r) -> key_of c ∉ (p1 ≫= touched) ->
  children k' !! key_of c = children k !! key_of c
  \/ exists k2, exec (p1 ++ [Apply c]) k = (k2, None) /\ exec p2 k2 = (k', r).
Proof.
  rewrite !exec_app. intros E Hk. destruct (exec p1 k) as [k1 [e|]] eqn:E1.
  - simplify_eq. left. by eapply exec_frame.
  - simpl in *. destruct (cApply c k1) as [k2 [e|]] eqn:Ea; [|by eauto]. simplify_eq.
    left. apply apply_err in Ea as ->. by eapply exec_frame.
Qed.

Lemma delete_key_gone `{!Reliable K C} k key :
  key.2 <> "" -> children (delete_key k key) !! key = None.
Proof.
  intros Hn. destruct (children k !! key) as [c|] eqn:Ec.
  - pose proof (reliable_delete k key Hn (mk_is_Some _ _ Ec)) as Hd. unfold delete_key.
    destruct (cDelete key k) as [k1 [e|]] eqn:Ed; [done|]. cbn [fst].
    rewrite (cdelete_ok _ _ _ Ed). apply lookup_delete_eq.
  - destruct (delete_key_children k key key) as [->|(_ & _ & ->)]; done.
Qed.

Lemma delete_keys_gone `{!Reliable K C} l k key :
  key.2 <> "" -> key ∈ l \/ children k !! key = None ->
  children (fold_left delete_key l k) !! key = None.
Proof.
  revert k; induction l as [|key' l IH]; intros k Hn Hk; simpl.
  - destruct Hk as [Hk|Hk]; [by apply not_elem_of_nil in Hk|done].
  - rewrite elem_of_cons in Hk. apply IH; [done|].
    destruct Hk as [[->|Hk]|Hk]; [right; by apply delete_key_gone|by left|right].
    destruct (delete_key_children k key' key) as [->|(_ & _ & ->)]; done.
Qed.

(** In a reliable cluster what a plan deletes last is gone. *)
Lemma exec_gone `{!Reliable K C} p1 a p2 k k' key :
  exec (p1 ++ a :: p2) k = (k', None) -> applied [a] = [] -> key ∈ touched a ->
  key.2 <> "" -> key ∉ (key_of <$> applied p2) -> children k' !! key = None.
Proof.
  rewrite exec_app. intros Hx Ha Hin Hn Hp. destruct (exec p1 k) as [k1 [e|]]; [done|].
  assert (Hgone : exists k2, act a k1 = (k2, None) /\ children k2 !! key = None).
  { destruct a as [c|key'|key' before]; [done|..]; eexists; (split; [reflexivity|]).
    - apply list_elem_of_singleton in Hin as <-. by apply delete_key_gone.
    - cbn [touched] in Hin. rewrite elem_of_cons in Hin.
      set (k2 := fold_left delete_key before k1).
      assert (Hk2 : key = key' /\ found_key key' k1 = key' \/ children k2 !! key = None).
      { destruct Hin as [->|Hin]; [|right; apply delete_keys_gone; auto].
        destruct (children k1 !! key') as [c|] eqn:Ec.
        - left. split; [done|]. unfold found_key. by rewrite (reliable_get k1 key' (mk_is_Some _ _ Ec)).
        - right. apply delete_keys_gone; auto. }
      destruct Hk2 as [[-> ->]|Hk2]; [by apply delete_key_gone|].
      destruct (delete_key_children k2 (found_key key' k1) key) as [->|(_ & _ & ->)]; done. }
  destruct Hgone as (k2 & E & Hg). simpl in Hx. rewrite E in Hx.
  destruct (exec_not_applied p2 k2 k' None key Hx Hp) as [->|]; done.
Qed.

(** An object that a plan looks up and deletes last is gone, unless the lookup did
    not find it or its deletion failed. *)
Lemma exec_found p1 key p2 k k' :
  exec (p1 ++ DeleteFound key [] :: p2) k = (k', None) -> key ∉ (key_of <$> applied p2) ->
  exists k1, exec p1 k = (k1, None) /\
    (children k' !! key = None \/ cGet (C := C) key k1 <> None \/ (cDelete (C := C) key k1).2 <> None).
Proof.
  rewrite exec_app. intros Hx Hp. destruct (exec p1 k) as [k1 [e|]]; [done|]. exists k1. split; [done|].
  simpl in Hx. unfold found_key, delete_key in Hx.
  destruct (cGet key k1) as [e|]; [by right; left|]. destruct (cDelete key k1) as [k2 [e|]] eqn:Ed; [by right; right|].
  left. cbn [fst] in Hx. destruct (exec_not_applied p2 k2 k' None key Hx Hp) as [->|]; [|done].
  rewrite (cdelete_ok _ _ _ Ed). apply lookup_delete_eq.
Qed.

(** A plan that fails has done a prefix of its actions, and the first of the rest
    is the apply that failed. *)
Lemma exec_prefix p k k' e :
  exec p k = (k', Some e) ->
  exists p1 c p2 k1, p = p1 ++ Apply c :: p2 /\ exec p1 k = (k1, None)
    /\ cApply c k1 = (k', Some e) /\ children k' = children k1.
Proof.
  revert k; induction p as [|a p IH]; intros k E; simplify_eq/=.
  destruct (act a k) as [k1 [e1|]] eqn:Ea; simplify_eq.
  - destruct a as [c|key|key before]; simplify_eq/=. exists [], c, p, k.
    split_and!; try done. by apply apply_err in Ea.
  - destruct (IH k1 E) as (p1 & c & p2 & k2 & -> & E1 & E2 & E3).
    exists (a :: p1), c, p2, k2. split_and!; try done. simpl. by rewrite Ea.
Qed.
End laws.

Section apart.
Context {Sp St : Type} `{!Client K Sp St, !ClientLaws K Sp St, !Apart K C Sp St}.

Lemma act_apart a (k : K) :
  stored (Sp := Sp) (St := St) (act a k).1 = stored k
  /\ (kwf (Sp := Sp) (St := St) k -> kwf (Sp := Sp) (St := St) (act a k).1).
Proof.
  assert (Hdel : forall l (k : K), stored (Sp := Sp) (St := St) (fold_left delete_key l k) = stored k
    /\ (kwf (Sp := Sp) (St := St) k -> kwf (Sp := Sp) (St := St) (fold_left delete_key l k))).
  { induction l as [|key l IH]; intros k0; simpl; [done|].
    destruct (IH (delete_key k0 key)) as [-> H]. split; [by apply apart_delete|].
    intros Hk. by apply H, apart_delete_wf. }
  destruct a as [c|key|key before]; cbn [act fst].
  - split; auto using apart_apply, apart_apply_wf.
  - apply (Hdel [key]).
  - destruct (Hdel before k) as [E H]. unfold delete_key at 1 3. rewrite <-E.
    split; [by apply apart_delete|]. intros Hk. by apply apart_delete_wf, H.
Qed.

Lemma exec_apart p (k : K) :
  stored (Sp := Sp) (St := St) (exec p k).1 = stored k
  /\ (kwf (Sp := Sp) (St := St) k -> kwf (Sp := Sp) (St := St) (exec p k).1).
Proof.
  revert k; induction p as [|a p IH]; intros k; simpl; [done|].
  pose proof (act_apart a k) as Ha.
  destruct (act a k) as [k1 [e|]]; [exact Ha|]. simpl in Ha.
  destruct Ha as [H1 H2]. destruct (IH k1) as [H3 H4]. split; [congruence|auto].
Qed.
End apart.
End exec.

(** Keys of different kinds in lists that are spelled out. *)
Ltac key_apart :=
  let Hin := fresh in intros Hin; cbn in Hin; unfold key_of in Hin; cbn in Hin;
  rewrite ?elem_of_cons, ?elem_of_nil in Hin;
  repeat match type of Hin with _ \/ _ => destruct Hin as [Hin|Hin] end;
  first [done | discriminate Hin].

(** ** The reconcilers' monad: the cluster and Go's error or panic *)
Definition rec (K A : Type) : Type := K -> K * outcome A.
#[export] Instance rec_ret {K} : MRet (rec K) := fun A a k => (k, Ret a).
#[export] Instance rec_bind {K} : MBind (rec K) := fun A B f m k =>
  match m k with
  | (k', Ret a) => f a k'
  | (k', Err e) => (k', Err e)
  | (k', Panic p) => (k', Panic p)
  end.

Definition read {K A} (f : K -> A) : rec K A := fun k => (k, Ret (f k)).
Definition pure {K A} (o : outcome A) : rec K A := fun k => (k, o).
(** A call that returns an [error] which the reconciler hands on. *)
Definition check {K} (f : K -> K * option string) : rec K unit := fun k =>
  match f k with (k', None) => (k', Ret tt) | (k', Some e) => (k', Err e) end.
(** A call whose result is dropped. *)
Definition drop_err {K} (f : K -> K * option string) : rec K unit := fun k => ((f k).1, Ret tt).

Section rec_lemmas.
Context {K A B : Type}.

Lemma rec_bind_assoc {D} (m : rec K A) (f : A -> rec K B) (g : B -> rec K D) k :
  ((m ≫= f) ≫= g) k = (m ≫= fun x => f x ≫= g) k.
Proof. unfold mbind, rec_bind. by destruct (m k) as [k' [a|e|p]]. Qed.

Lemma rec_bind_pure (o : outcome A) (f : A -> rec K B) k :
  (pure o ≫= f) k = match o with Ret a => f a k | Err e => (k, Err e) | Panic p => (k, Panic p) end.
Proof. by destruct o. Qed.

(** A checked plan step by step. *)
Lemma check_exec_nil {C} `{!HasKey C, !Children K C} (f : rec K B) k :
  (check (exec (C := C) []) ≫= fun _ => f) k = f k.
Proof. done. Qed.

Lemma check_exec_cons {C} `{!HasKey C, !Children K C} (a : action C) p (f : rec K B) k :
  (check (exec (a :: p)) ≫= fun _ => f) k
  = (check (act a) ≫= fun _ => check (exec p) ≫= fun _ => f) k.
Proof.
  unfold mbind, rec_bind, check. simpl. by destruct (act a k) as [k' [e|]].
Qed.

Lemma check_bind_inv (f : K -> K * option string) (g : rec K B) k k' r :
  (check f ≫= fun _ => g) k = (k', r) ->
  (exists e, f k = (k', Some e) /\ r = Err e)
  \/ exists k1, f k = (k1, None) /\ g k1 = (k', r).
Proof.
  unfold mbind, rec_bind, check. destruct (f k) as [k1 [e|]]; intros E; simplify_eq; eauto.
Qed.
End rec_lemmas.

(** ** An in-memory cluster *)
Section lens.
Context {K K0 Sp St : Type} `{!Client K0 Sp St, !ClientLaws K0 Sp St}.
(** [set] is told the name of the object when one is patched. *)
Context (view : K -> K0) (set : option string -> K0 -> K -> K).
Hypothesis view_set : forall n k0 k, view (set n k0 k) = k0.

(** A client of a part of the cluster. *)
Definition lens_client : Client K Sp St := {|
  kGet n k := kGet n (view k);
  kList k := kList (view k);
  kPatch o k := let '(k0, e) := kPatch o (view k) in (set (Some (Name o)) k0 k, e);
  kDelete o k := let '(k0, e) := kDelete o (view k) in (set None k0 k, e);
  kStatusUpdate o k := let '(k0, o', e) := kStatusUpdate o (view k) in (set None k0 k, o', e);
|}.

#[local] Existing Instance lens_client.

Program Definition lens_laws : ClientLaws K Sp St := {|
  stored k := stored (view k); kwf k := kwf (Sp := Sp) (St := St) (view k) |}.
Next Obligation. intros k n o Hk E. exact (get_name (view k) n o Hk E). Qed.
Next Obligation. intros k n o cur Hk E. exact (get_version (view k) n o cur Hk E). Qed.
Next Obligation.
  intros k k' o o' Hk E. simpl in E. destruct (kStatusUpdate o (view k)) as [[k0 o1] e] eqn:Eu.
  simplify_eq. rewrite view_set. by apply update_ok.
Qed.
Next Obligation.
  intros k k' o o' e E. simpl in E. destruct (kStatusUpdate o (view k)) as [[k0 o1] e1] eqn:Eu.
  simplify_eq. rewrite view_set. by eapply update_err.
Qed.
Next Obligation.
  intros k k' o o' e Hk E. simpl in *. destruct (kStatusUpdate o (view k)) as [[k0 o1] e1] eqn:Eu.
  simplify_eq. rewrite view_set. by eapply update_wf.
Qed.
Next Obligation.
  intros k k' o Hk E. simpl in *. destruct (kPatch o (view k)) as [k0 e1] eqn:Eu.
  simplify_eq. rewrite view_set. by apply patch_ok.
Qed.
Next Obligation.
  intros k k' o e E. simpl in *. destruct (kPatch o (view k)) as [k0 e1] eqn:Eu.
  simplify_eq. rewrite view_set. by eapply patch_err.
Qed.
Next Obligation.
  intros k k' o e Hk E. simpl in *. destruct (kPatch o (view k)) as [k0 e1] eqn:Eu.
  simplify_eq. rewrite view_set. by eapply patch_wf.
Qed.
Next Obligation.
  intros k k' o E. simpl in *. destruct (kDelete o (view k)) as [k0 e1] eqn:Eu.
  simplify_eq. rewrite view_set. by apply delete_ok.
Qed.
Next Obligation.
  intros k k' o e E. simpl in *. destruct (kDelete o (view k)) as [k0 e1] eqn:Eu.
  simplify_eq. rewrite view_set. by eapply delete_err.
Qed.
Next Obligation.
  intros k k' o e Hk E. simpl in *. destruct (kDelete o (view k)) as [k0 e1] eqn:Eu.
  simplify_eq. rewrite view_set. by eapply delete_wf.
Qed.
Next Obligation. intros k n o Hk E. exact (stored_name (view k) n o Hk E). Qed.
End lens.

(** Jobs, managers and the children of one kind of resource. *)
Record world (C : Type) := mkWorld {
  w_jobs : store JobSpec JobStatus; w_managers : store ManagerSpec ManagerStatus;
  w_children : gmap ckey C;
}.
Arguments mkWorld {C}.
Arguments w_jobs {C}.
Arguments w_managers {C}.
Arguments w_children {C}.

Section world.
Context {C : Type} `{!HasKey C}.

Definition set_jobs (s : store JobSpec JobStatus) (w : world C) : world C :=
  mkWorld s (w_managers w) (w_children w).
Definition set_managers (s : store ManagerSpec ManagerStatus) (w : world C) : world C :=
  mkWorld (w_jobs w) s (w_children w).
Definition set_children (m : gmap ckey C) (w : world C) : world C :=
  mkWorld (w_jobs w) (w_managers w) m.

#[export] Instance world_jobs : Client (world C) JobSpec JobStatus := lens_client w_jobs (fun _ => set_jobs).
#[export] Instance world_jobs_laws : ClientLaws (world C) JobSpec JobStatus :=
  lens_laws w_jobs (fun _ => set_jobs) (fun _ _ _ => eq_refl).
#[export] Instance world_managers : Client (world C) ManagerSpec ManagerStatus :=
  lens_client w_managers (fun _ => set_managers).
#[export] Instance world_managers_laws : ClientLaws (world C) ManagerSpec ManagerStatus :=
  lens_laws w_managers (fun _ => set_managers) (fun _ _ _ => eq_refl).

#[export] Instance world_children : Children (world C) C := {|
  cApply c w := (set_children (<[key_of c := c]> (w_children w)) w, None);
  cDelete key w :=
    if decide (key.2 = "" \/ w_children w !! key = None) then (w, Some "not found")
    else (set_children (delete key (w_children w)) w, None);
  cGet key w := match w_children w !! key with Some _ => None | None => Some "not found" end;
|}.

#[export] Program Instance world_children_laws : ChildrenLaws (world C) C :=
  {| children := w_children |}.
Next Obligation. intros k k' c E. by simplify_eq/=. Qed.
Next Obligation. intros k k' c e E. by simplify_eq/=. Qed.
Next Obligation. intros k k' key E. simpl in E. by case_decide; simplify_eq/=. Qed.
Next Obligation. intros k k' key e E. simpl in E. by case_decide; simplify_eq/=. Qed.
Next Obligation. done. Qed.

#[export] Instance world_reliable : Reliable (world C) C.
Proof.
  split; simpl; intros k key; [by intros [c ->]|]. intros Hn [c Hc].
  case_decide as Hd; [|done]. destruct Hd as [?|Hd]; [done|congruence].
Qed.

#[export] Instance world_jobs_apart : Apart (world C) C JobSpec JobStatus.
Proof. split; simpl; intros; try done; by case_decide. Qed.
#[export] Instance world_managers_apart : Apart (world C) C ManagerSpec ManagerStatus.
Proof. split; simpl; intros; try done; by case_decide. Qed.
#[export] Instance world_jobs_back : ApartBack (world C) C JobSpec JobStatus.
Proof.
  intros k o. simpl. by destruct (store_update o (w_jobs k)) as [[? ?] ?].
Qed.
#[export] Instance world_managers_back : ApartBack (world C) C ManagerSpec ManagerStatus.
Proof.
  intros k o. simpl. by destruct (store_update o (w_managers k)) as [[? ?] ?].
Qed.
End world.
