(* ===== verification/Gin.v ===== *)
(** * Request handlers

    A handler of the manager (src/manager/server.go) runs in the monad
    [handler]: it reads and writes the cluster through the client, reads the
    clock, records the calls it makes on the gin context (which is how it
    answers), takes the manager's mutex, and ends by falling through, by an
    early [return], or by a panic.  gin and the clock are not part of the
    program: the answer is the list of calls the handler makes on the context,
    and the clock is a sequence of readings.

    [deferred_unlock] is [Lock] followed by [defer Unlock]: the mutex is
    released however the rest of the handler ends. *)

From S2P Require Import Prelude Types Sizes Kube.

(** What the handlers pass to [c.JSON]. *)
Inductive body :=
  | BError (e : string)
  | BInfo (m : string)
  | BEmpty
  | BStatus (s : JobStatus)
  | BJob (j : Job)
  | BConfig (c : MirrorConfig)
  | BMirrors (l : list MirrorStatus)
  | BNews (a : AnnouncementInfo)
  | BNewsList (l : list AnnouncementInfo)
  | BFile (f : FileListing)
  | BFiles (l : list FileListing)
  | BMirrorZ (z : mirrorz.MirrorZ)
  | BMirrorZPack (l : list mirrorz.MirrorZ).

Definition StatusOK : Z := 200.
Definition StatusBadRequest : Z := 400.
Definition StatusInternalServerError : Z := 500.

(** Calls on the gin context that write an answer.  [BindJSON] answers 400 by
    itself when the body does not decode, and the handlers go on. *)
Inductive call :=
  | JSON (code : Z) (b : body)
  | CString (code : Z) (s : string)
  | AbortWithError (code : Z).

Inductive mutex := Free | RLocked | Locked.
#[export] Instance mutex_eq_dec : EqDecision mutex.
Proof. solve_decision. Defined.

(** How a statement ends: with a value, by [return], by a panic, or blocked on
    a mutex that its own goroutine holds. *)
Inductive flow (A : Type) := Next (a : A) | Return | Crash (m : string) | Blocked.
Arguments Next {A} a.
Arguments Return {A}.
Arguments Crash {A} m.
Arguments Blocked {A}.

Record hstate (K : Type) := mkHS {
  cluster : K;
  rwmu : mutex;
  calls : list call;      (* most recent last *)
  ginErrors : list string; (* c.Error *)
  tick : nat;             (* clock readings taken *)
  posts : list (string * ClientCmd); (* commands posted to workers *)
}.
Arguments mkHS {K}.
Arguments cluster {K}.
Arguments rwmu {K}.
Arguments calls {K}.
Arguments ginErrors {K}.
Arguments tick {K}.
Arguments posts {K}.

Definition handler (K A : Type) : Type := hstate K -> hstate K * flow A.

#[export] Instance handler_ret {K} : MRet (handler K) := fun A a s => (s, Next a).
#[export] Instance handler_bind {K} : MBind (handler K) := fun A B f m s =>
  match m s with
  | (s', Next a) => f a s'
  | (s', Return) => (s', Return)
  | (s', Crash e) => (s', Crash e)
  | (s', Blocked) => (s', Blocked)
  end.

Section ops.
Context {K : Type}.

Definition return_ {A} : handler K A := fun s => (s, Return).
Definition skip : handler K unit := mret tt.
Definition emit (c : call) : handler K unit := fun s =>
  (mkHS (cluster s) (rwmu s) (calls s ++ [c]) (ginErrors s) (tick s) (posts s), Next tt).
Definition cJSON (code : Z) (b : body) : handler K unit := emit (JSON code b).
Definition cString (code : Z) (m : string) : handler K unit := emit (CString code m).
Definition cError (e : string) : handler K unit := fun s =>
  (mkHS (cluster s) (rwmu s) (calls s) (ginErrors s ++ [e]) (tick s) (posts s), Next tt).

(** [returnErrJSON] *)
Definition returnErrJSON (code : Z) (e : string) : handler K unit := cJSON code (BError e).

(** The result of decoding the request's body into a variable: what the
    variable holds afterwards, and whether decoding failed. *)
Record bound (A : Type) := mkBound { bound_value : A; bind_failed : bool }.
Arguments mkBound {A}.
Arguments bound_value {A}.
Arguments bind_failed {A}.

Definition bindJSON {A} (b : bound A) : handler K A :=
  (if bind_failed b then emit (AbortWithError StatusBadRequest) else skip);;
  mret (bound_value b).

Definition time_now (now : nat -> Z) : handler K Z := fun s =>
  (mkHS (cluster s) (rwmu s) (calls s) (ginErrors s) (S (tick s)) (posts s), Next (now (tick s))).

Definition get_cluster : handler K K := fun s => (s, Next (cluster s)).
Definition set_cluster (k : K) : handler K unit := fun s =>
  (mkHS k (rwmu s) (calls s) (ginErrors s) (tick s) (posts s), Next tt).

(** A command goes out to a worker. *)
Definition send_post (mirrorID : string) (c : ClientCmd) : handler K unit := fun s =>
  (mkHS (cluster s) (rwmu s) (calls s) (ginErrors s) (tick s) (posts s ++ [(mirrorID, c)]),
   Next tt).

(** Dereference of a pointer that may be nil. *)
Definition hderef {A} (p : option A) : handler K A :=
  match p with
  | Some a => mret a
  | None => fun s => (s, Crash "nil pointer dereference")
  end.

Definition set_mutex (m : mutex) (s : hstate K) : hstate K :=
  mkHS (cluster s) m (calls s) (ginErrors s) (tick s) (posts s).

(** [m.Lock(); defer m.Unlock(); rest], and the same for the read lock. *)
Definition deferred_unlock {A} (m : mutex) (rest : handler K A) : handler K A := fun s =>
  match rwmu s with
  | Free => let '(s', r) := rest (set_mutex m s) in (set_mutex Free s', r)
  | _ => (s, Blocked)
  end.
End ops.
Arguments mkBound {A}.
Arguments bound_value {A}.
Arguments bind_failed {A}.

(** ** The client in a handler, for one kind of object *)
Section client.
Context {K Sp St : Type} `{!Client K Sp St}.

Definition client_get (n : string) : handler K (outcome (object Sp St)) :=
  k ← get_cluster; mret (kGet n k).
Definition client_list : handler K (list (object Sp St) * option string) :=
  k ← get_cluster; mret (kList k).
Definition client_update (j : object Sp St) : handler K (object Sp St * option string) :=
  k ← get_cluster;
  let '(k', j', e) := kStatusUpdate j k in
  set_cluster k';; mret (j', e).
Definition client_patch (j : object Sp St) : handler K (option string) :=
  k ← get_cluster;
  let '(k', e) := kPatch j k in
  set_cluster k';; mret e.
Definition client_delete (j : object Sp St) : handler K (option string) :=
  k ← get_cluster;
  let '(k', e) := kDelete j k in
  set_cluster k';; mret e.

(** The body that [GetJob], [GetAnnouncement] and [GetFile] share but for the
    message: [None] is the nil pointer that comes with the error. *)
Definition get_object (message id : string) : handler K (option (object Sp St) * option string) :=
  o ← client_get id;
  match o with
  | Ret job => mret (Some job, None)
  | Err e | Panic e =>
      let err := message +:+ e in
      cError err;;
      returnErrJSON StatusInternalServerError err;;
      mret (None, Some err)
  end.

(** The way a handler gives up on a failed write. *)
Definition update_failed (prefix e : string) : handler K unit :=
  let err := prefix +:+ e in
  cError err;; returnErrJSON StatusInternalServerError err;; return_.
End client.
Arguments update_failed {K}.

(** ** Reasoning about handlers

    [wp h Q s]: run from [s], [h] ends in a state and a flow that satisfy [Q].
    One rule per statement; [handler_steps] applies them until a read or a write
    of the cluster has to be decided. *)
Section wp.
Context {K : Type}.
Implicit Types (s : hstate K).

Definition wp {A} (h : handler K A) (Q : hstate K -> flow A -> Prop) (s : hstate K) : Prop :=
  Q (fst (h s)) (snd (h s)).

Lemma wp_elim {A} (h : handler K A) Q s : wp h Q s -> Q (fst (h s)) (snd (h s)).
Proof. done. Qed.

(** From a run of the handler to its weakest precondition. *)
Lemma wp_run {A} (h : handler K A) (Q : hstate K -> flow A -> Prop) s s' r :
  h s = (s', r) -> wp h Q s -> Q s' r.
Proof. unfold wp. by intros ->. Qed.

Lemma wp_mono {A} (h : handler K A) (Q Q' : hstate K -> flow A -> Prop) s :
  (forall s' r, Q s' r -> Q' s' r) -> wp h Q s -> wp h Q' s.
Proof. intros H Hw. by apply H. Qed.

Lemma wp_bind {A B} (m : handler K A) (f : A -> handler K B) Q s :
  wp m (fun s' r => match r with
                    | Next a => wp (f a) Q s'
                    | Return => Q s' Return
                    | Crash e => Q s' (Crash e)
                    | Blocked => Q s' Blocked
                    end) s ->
  wp (m ≫= f) Q s.
Proof.
  unfold wp, mbind, handler_bind. by destruct (m s) as [s' [a| |e|]].
Qed.

Lemma wp_ret {A} (a : A) (Q : hstate K -> flow A -> Prop) s : Q s (Next a) -> wp (mret a) Q s.
Proof. done. Qed.
Lemma wp_skip (Q : hstate K -> flow unit -> Prop) s : Q s (Next tt) -> wp skip Q s.
Proof. done. Qed.
Lemma wp_return {A} (Q : hstate K -> flow A -> Prop) s : Q s Return -> wp return_ Q s.
Proof. done. Qed.
Lemma wp_emit c (Q : hstate K -> flow unit -> Prop) k m cs es t p :
  Q (mkHS k m (cs ++ [c]) es t p) (Next tt) -> wp (emit c) Q (mkHS k m cs es t p).
Proof. done. Qed.
Lemma wp_cError e (Q : hstate K -> flow unit -> Prop) k m cs es t p :
  Q (mkHS k m cs (es ++ [e]) t p) (Next tt) -> wp (cError e) Q (mkHS k m cs es t p).
Proof. done. Qed.
Lemma wp_time_now now (Q : hstate K -> flow Z -> Prop) k m cs es t p :
  Q (mkHS k m cs es (S t) p) (Next (now t)) -> wp (time_now now) Q (mkHS k m cs es t p).
Proof. done. Qed.
Lemma wp_send_post id c (Q : hstate K -> flow unit -> Prop) k m cs es t p :
  Q (mkHS k m cs es t (p ++ [(id, c)])) (Next tt) -> wp (send_post id c) Q (mkHS k m cs es t p).
Proof. done. Qed.
Lemma wp_hderef_Some {A} (a : A) (Q : hstate K -> flow A -> Prop) s :
  Q s (Next a) -> wp (hderef (Some a)) Q s.
Proof. done. Qed.
Lemma wp_hderef_None {A} (Q : hstate K -> flow A -> Prop) s :
  Q s (Crash "nil pointer dereference") -> wp (hderef None) Q s.
Proof. done. Qed.
Lemma wp_bindJSON {A} (b : bound A) (Q : hstate K -> flow A -> Prop) k m cs es t p :
  Q (mkHS k m (cs ++ if bind_failed b then [AbortWithError StatusBadRequest] else []) es t p)
    (Next (bound_value b)) ->
  wp (bindJSON b) Q (mkHS k m cs es t p).
Proof.
  unfold bindJSON. destruct (bind_failed b); [done|]. rewrite app_nil_r. done.
Qed.
(** Whatever the flow, the deferred call has run. *)
Lemma wp_deferred_unlock {A} l (h : handler K A) Q k cs es t p :
  wp h (fun s' r => Q (set_mutex Free s') r) (mkHS k l cs es t p) ->
  wp (deferred_unlock l h) Q (mkHS k Free cs es t p).
Proof.
  unfold wp, deferred_unlock. simpl. unfold set_mutex at 1 3. simpl.
  by destruct (h _) as [s' r].
Qed.
End wp.

Section wp_client.
Context {K Sp St : Type} `{!Client K Sp St}.
#[local] Abbreviation obj := (object Sp St).

Lemma wp_get_cluster (Q : hstate K -> flow K -> Prop) s :
  Q s (Next (cluster s)) -> wp get_cluster Q s.
Proof. done. Qed.

Lemma wp_client_get id (Q : hstate K -> flow (outcome obj) -> Prop) k m cs es t p :
  Q (mkHS k m cs es t p) (Next (kGet id k)) -> wp (client_get id) Q (mkHS k m cs es t p).
Proof. done. Qed.

Lemma wp_client_list (Q : hstate K -> flow (list obj * option string) -> Prop) k m cs es t p :
  Q (mkHS k m cs es t p) (Next (kList k)) -> wp client_list Q (mkHS k m cs es t p).
Proof. done. Qed.

Lemma wp_get_object msg id (Q : hstate K -> flow (option obj * option string) -> Prop)
    k m cs es t p :
  (forall o : obj, kGet id k = Ret o -> Q (mkHS k m cs es t p) (Next (Some o, None))) ->
  (forall e, kGet (Sp := Sp) (St := St) id k = Err e \/ kGet (Sp := Sp) (St := St) id k = Panic e ->
     let err := msg +:+ e in
     Q (mkHS k m (cs ++ [JSON StatusInternalServerError (BError err)]) (es ++ [err]) t p)
       (Next (None, Some err))) ->
  wp (get_object msg id) Q (mkHS k m cs es t p).
Proof.
  intros H1 H2. unfold get_object. apply wp_bind, wp_client_get.
  destruct (kGet id k) as [o|e|e] eqn:E; [by apply H1|apply H2; by left|apply H2; by right].
Qed.

Lemma wp_client_update j (Q : hstate K -> flow (obj * option string) -> Prop) k m cs es t p :
  (forall k' j' e, kStatusUpdate j k = (k', j', e) ->
     Q (mkHS k' m cs es t p) (Next (j', e))) ->
  wp (client_update j) Q (mkHS k m cs es t p).
Proof.
  intros H. unfold client_update. apply wp_bind, wp_get_cluster. cbn [cluster].
  destruct (kStatusUpdate j k) as [[k' j'] e] eqn:E. by apply wp_bind, wp_ret, H.
Qed.

Lemma wp_client_patch (j : obj) (Q : hstate K -> flow (option string) -> Prop) k m cs es t p :
  (forall k' e, kPatch j k = (k', e) -> Q (mkHS k' m cs es t p) (Next e)) ->
  wp (client_patch j) Q (mkHS k m cs es t p).
Proof.
  intros H. unfold client_patch. apply wp_bind, wp_get_cluster. cbn [cluster].
  destruct (kPatch j k) as [k' e] eqn:E. by apply wp_bind, wp_ret, H.
Qed.

Lemma wp_client_delete (j : obj) (Q : hstate K -> flow (option string) -> Prop) k m cs es t p :
  (forall k' e, kDelete j k = (k', e) -> Q (mkHS k' m cs es t p) (Next e)) ->
  wp (client_delete j) Q (mkHS k m cs es t p).
Proof.
  intros H. unfold client_delete. apply wp_bind, wp_get_cluster. cbn [cluster].
  destruct (kDelete j k) as [k' e] eqn:E. by apply wp_bind, wp_ret, H.
Qed.
End wp_client.

Ltac handler_step :=
  match goal with
  | |- wp (_ ≫= _) _ _ => apply wp_bind
  | |- wp (mret _) _ _ => apply wp_ret
  | |- wp skip _ _ => apply wp_skip
  | |- wp return_ _ _ => apply wp_return
  | |- wp (emit _) _ _ => apply wp_emit
  | |- wp (cJSON _ _) _ _ => apply wp_emit
  | |- wp (cString _ _) _ _ => apply wp_emit
  | |- wp (returnErrJSON _ _) _ _ => apply wp_emit
  | |- wp (cError _) _ _ => apply wp_cError
  | |- wp (time_now _) _ _ => apply wp_time_now
  | |- wp (send_post _ _) _ _ => apply wp_send_post
  | |- wp (hderef (Some _)) _ _ => apply wp_hderef_Some
  | |- wp (hderef None) _ _ => apply wp_hderef_None
  | |- wp (bindJSON _) _ _ => apply wp_bindJSON
  | |- wp (deferred_unlock _ _) _ _ => apply wp_deferred_unlock
  | |- wp (if ?b then _ else _) _ _ => let E := fresh "Hif" in destruct b eqn:E
  | |- wp (let '(_, _) := ?x in _) _ _ => destruct x
  | |- wp (match ?e with Some _ => _ | None => _ end) _ _ => destruct e
  | |- wp (match ?l with [] => _ | _ :: _ => _ end) _ _ => destruct l
  end; cbv beta iota.
Ltac handler_steps := repeat handler_step.

(** With the client's calls: one case per outcome of a read or a write. *)
Ltac job_step :=
  first
    [ handler_step
    | match goal with
      | |- wp (get_object _ _) _ _ => apply wp_get_object; intros ? ?; cbv zeta
      | |- wp (client_get _) _ _ => apply wp_client_get
      | |- wp client_list _ _ => apply wp_client_list
      | |- wp (client_update _) _ _ => apply wp_client_update; intros ? ? ? ?
      | |- wp (client_patch _) _ _ => apply wp_client_patch; intros ? ? ?
      | |- wp (client_delete _) _ _ => apply wp_client_delete; intros ? ? ?
      | |- wp (update_failed _ _) _ _ => unfold update_failed
      | |- wp (match ?o with Ret _ => _ | Err _ => _ | Panic _ => _ end) _ _ =>
          let E := fresh "Hreply" in destruct o eqn:E
      end; cbv beta iota ].
Ltac job_steps := repeat job_step.

(** Turns a goal about the result of the run [H] into a [wp]. *)
Ltac run_handler H :=
  match type of H with _ = (?s', ?r) =>
    pattern s', r; apply (wp_run _ _ _ _ _ H); clear H
  end.
