(* ===== verification/ManagerJobs.v ===== *)
(** * The manager's job handlers (src/manager/server.go)

    One definition per handler, in the monad of [Gin], over any client of the
    [Kube] interface.  [now] is the clock, [post] the delivery of a command to a
    worker, [fetch_log] the request for a worker's log. *)

From S2P Require Import Prelude Types Sizes Kube Gin.

(** The answer of a worker: a transport error, or a status code, the part of
    the body that could be read, and the error that ended the reading. *)
Definition reply := outcome (Z * string * option string).

(** The address [PostJSON] posts a command to. *)
Definition PostJSON_url (mirrorID : string) : string := "http://" +:+ mirrorID +:+ ":6000".

Section handlers.
Context {K : Type} `{!Client K JobSpec JobStatus}.
Context (now : nat -> Z).
Context (post : string -> ClientCmd -> reply).
Context (fetch_log : string -> reply).

Definition GetJob (mirrorID : string) : handler K (option Job * option string) :=
  get_object "failed to get mirror: " mirrorID.

Definition set_Status (s : SyncStatus) (t : JobStatus) : JobStatus :=
  mkJobStatus s (LastUpdate t) (LastStarted t) (LastEnded t) (Scheduled t) (st_Upstream t)
    (st_Size t) (ErrorMsg t) (LastOnline t) (LastRegister t).
Definition set_LastOnline (z : Z) (t : JobStatus) : JobStatus :=
  mkJobStatus (st_Status t) (LastUpdate t) (LastStarted t) (LastEnded t) (Scheduled t)
    (st_Upstream t) (st_Size t) (ErrorMsg t) z (LastRegister t).
Definition set_LastRegister (z : Z) (t : JobStatus) : JobStatus :=
  mkJobStatus (st_Status t) (LastUpdate t) (LastStarted t) (LastEnded t) (Scheduled t)
    (st_Upstream t) (st_Size t) (ErrorMsg t) (LastOnline t) z.
Definition set_Scheduled (z : Z) (t : JobStatus) : JobStatus :=
  mkJobStatus (st_Status t) (LastUpdate t) (LastStarted t) (LastEnded t) z (st_Upstream t)
    (st_Size t) (ErrorMsg t) (LastOnline t) (LastRegister t).
Definition set_Size (z : Z) (t : JobStatus) : JobStatus :=
  mkJobStatus (st_Status t) (LastUpdate t) (LastStarted t) (LastEnded t) (Scheduled t)
    (st_Upstream t) z (ErrorMsg t) (LastOnline t) (LastRegister t).
Definition on_status (f : JobStatus -> JobStatus) (j : Job) : Job := with_status j (f (Status j)).

Definition getJob (mirrorID : string) : handler K unit :=
  deferred_unlock RLocked (
    '(job, err) ← GetJob mirrorID;
    match err with
    | Some e =>
        let err := "failed to get job " +:+ mirrorID +:+ ": " +:+ e in
        cError err;; returnErrJSON StatusInternalServerError err;; return_
    | None =>
        job ← hderef job;
        cJSON StatusOK (BStatus (Status job))
    end).

(** The pointer is used before the error is looked at. *)
Definition getJobConfig (mirrorID : string) : handler K unit :=
  deferred_unlock RLocked (
    '(job, err) ← GetJob mirrorID;
    job ← hderef job;
    let config := mkMirrorConfig mirrorID (Spec job) in
    match err with
    | Some e =>
        let err := "failed to get job " +:+ mirrorID +:+ ": " +:+ e in
        cError err;; returnErrJSON StatusInternalServerError err;; return_
    | None => cJSON StatusOK (BConfig config)
    end).

Definition getJobLatestLog (mirrorID : string) : handler K unit :=
  match fetch_log mirrorID with
  | Err e | Panic e =>
      let err := "get log from mirror " +:+ mirrorID +:+ " fail: " +:+ e in
      cError err;; cString StatusInternalServerError err;; return_
  | Ret (_, bodyText, _) => cString StatusOK bodyText
  end.

Definition deleteJob (mirrorID : string) : handler K unit :=
  deferred_unlock Locked (
    '(job, err) ← GetJob mirrorID;
    match err with
    | Some _ => return_
    | None =>
        job ← hderef job;
        err ← client_delete job;
        match err with
        | Some e => update_failed "failed to delete mirror: " e
        | None => cJSON StatusOK (BInfo "deleted")
        end
    end).

Definition registerMirror (mirrorID : string) : handler K unit :=
  deferred_unlock Locked (
    '(job, err) ← GetJob mirrorID;
    match err with
    | Some e => returnErrJSON StatusInternalServerError e;; return_
    | None =>
        job ← hderef job;
        t1 ← time_now now;
        let job := on_status (set_LastOnline t1) job in
        t2 ← time_now now;
        let job := on_status (set_LastRegister t2) job in
        '(job, err) ← client_update job;
        match err with
        | Some e => update_failed ("failed to register mirror " +:+ mirrorID +:+ ": ") e
        | None => cJSON StatusOK (BStatus (Status job))
        end
    end).

Definition updateSchedule (mirrorID : string) (req : bound MirrorSchedule) : handler K unit :=
  schedule ← bindJSON req;
  deferred_unlock Locked (
    '(curJob, err) ← GetJob mirrorID;
    match err with
    | Some _ => cJSON StatusOK BEmpty
    | None => skip
    end;;
    curJob ← hderef curJob;
    (if Scheduled (Status curJob) =? NextSchedule schedule
     then cJSON StatusOK BEmpty else skip);;
    let curJob := on_status (set_Scheduled (NextSchedule schedule)) curJob in
    t ← time_now now;
    let curJob := on_status (set_LastOnline t) curJob in
    '(curJob, err) ← client_update curJob;
    match err with
    | Some e => update_failed ("failed to update job " +:+ mirrorID +:+ ": ") e
    | None => cJSON StatusOK BEmpty
    end).

(** The status [updateJob] stores: the worker's report [status], completed from
    the current one at time [curTime]. *)
Definition merge_status (curTime : Z) (cur status : JobStatus) : JobStatus :=
  let reports s := String.eqb (st_Status status) s in
  mkJobStatus (st_Status status)
    (if reports Success then curTime else LastUpdate cur)
    (if reports PreSyncing && negb (String.eqb (st_Status cur) PreSyncing)
     then curTime else LastStarted cur)
    (if reports Success || reports Failed then curTime else LastEnded cur)
    (Scheduled status) (st_Upstream status)
    (if (0 <? st_Size cur) && (st_Size status =? 0) then st_Size cur else st_Size status)
    (ErrorMsg status) curTime (LastRegister cur).

Definition updateJob (mirrorID : string) (req : bound JobStatus) : handler K unit :=
  status ← bindJSON req;
  deferred_unlock Locked (
    '(curJob, _) ← GetJob mirrorID;
    curTime ← time_now now;
    curJob ← hderef curJob;
    let status := merge_status curTime (Status curJob) status in
    '(_, err) ← client_update (with_status curJob status);
    match err with
    | Some e => update_failed ("failed to update job " +:+ mirrorID +:+ ": ") e
    | None => cJSON StatusOK (BStatus status)
    end).

Definition updateMirrorSize (mirrorID : string) (req : bound Z) : handler K unit :=
  size ← bindJSON req;
  deferred_unlock Locked (
    '(job, err) ← GetJob mirrorID;
    match err with
    | Some e => returnErrJSON StatusInternalServerError e;; return_
    | None =>
        job ← hderef job;
        '(job, err) ← client_update (on_status (set_Size size) job);
        match err with
        | Some e => update_failed ("failed to update job " +:+ mirrorID +:+ ": ") e
        | None => cJSON StatusOK (BJob job)
        end
    end).

Definition enableJob (mirrorID : string) : handler K unit :=
  deferred_unlock Locked (
    '(curJob, err) ← GetJob mirrorID;
    match err with
    | Some _ => return_
    | None =>
        curJob ← hderef curJob;
        let curJob := on_status (set_Status Created) curJob in
        t ← time_now now;
        '(_, err) ← client_update (on_status (set_LastOnline t) curJob);
        match err with
        | Some e => update_failed "failed to enable mirror: " e
        | None => cJSON StatusOK (BInfo "enabled")
        end
    end).

Definition disableJob (mirrorID : string) : handler K unit :=
  deferred_unlock Locked (
    '(curJob, err) ← GetJob mirrorID;
    match err with
    | Some _ => return_
    | None =>
        curJob ← hderef curJob;
        let curJob := on_status (set_Status Disabled) curJob in
        t ← time_now now;
        '(_, err) ← client_update (on_status (set_LastOnline t) curJob);
        match err with
        | Some e => update_failed "failed to disable mirror: " e
        | None => cJSON StatusOK (BInfo "disabled")
        end
    end).

(** The post of a command and the relay of the worker's answer. *)
Definition post_command (mirrorID : string) (clientCmd : ClientCmd) : handler K unit :=
  send_post mirrorID clientCmd;;
  match post mirrorID clientCmd with
  | Err e | Panic e =>
      update_failed ("post command to mirror " +:+ mirrorID +:+ " fail: ") e
  | Ret (code, body, err) =>
      if code =? 200 then
        cJSON StatusOK (BInfo ("successfully send command to mirror " +:+ mirrorID))
      else match err with
           | Some e => cError e;; returnErrJSON StatusInternalServerError e;; return_
           | None => cString code body
           end
  end.

(** A stop is recorded as [Paused] first, and the mutex it takes for that is
    held while the command is posted. *)
Definition handleClientCmd (mirrorID : string) (req : bound ClientCmd) : handler K unit :=
  clientCmd ← bindJSON req;
  match cc_Cmd clientCmd with
  | CmdStop =>
      deferred_unlock Locked (
        '(curJob, err) ← GetJob mirrorID;
        match err with
        | Some _ => return_
        | None =>
            curJob ← hderef curJob;
            let curJob := on_status (set_Status Paused) curJob in
            t ← time_now now;
            '(_, err) ← client_update (on_status (set_LastOnline t) curJob);
            match err with
            | Some _ => return_
            | None => post_command mirrorID clientCmd
            end
        end)
  | _ => post_command mirrorID clientCmd
  end.
End handlers.

(** ** What a handler does to the cluster *)

Section laws.
Context {K : Type} `{!Client K JobSpec JobStatus, !ClientLaws K JobSpec JobStatus}.
Implicit Types (k : K) (s : hstate K).

#[local] Abbreviation jobs := (stored (K := K) (Sp := JobSpec) (St := JobStatus)).
#[local] Abbreviation job_get := (kGet (K := K) (Sp := JobSpec) (St := JobStatus)).
#[local] Abbreviation jobs_wf := (kwf (K := K) (Sp := JobSpec) (St := JobStatus)).

(** [touched]: the handler ended with the mutex free and without blocking on
    itself; it left every stored object as it was, or it replaced the status of
    the stored job [id], and [R] relates the old status to the new one. *)
Definition touched (id : string) (R : JobStatus -> JobStatus -> Prop) (k : K) (t : nat)
    (s : hstate K) (r : flow unit) : Prop :=
  jobs_wf (cluster s) /\ rwmu s = Free /\ r <> Blocked /\ (t <= tick s)%nat /\
  (jobs (cluster s) = jobs k \/
   exists cur o', jobs k !! id = Some cur /\ jobs (cluster s) = <[id := o']> (jobs k) /\
     Name o' = id /\ Spec o' = Spec cur /\ R (Status cur) (Status o')).

Lemma touched_same id R k t s r :
  jobs_wf k -> cluster s = k -> rwmu s = Free -> r <> Blocked -> (t <= tick s)%nat ->
  touched id R k t s r.
Proof. intros. subst. by split_and!; auto. Qed.

Lemma touched_failed id R k t s r (j j' : Job) e :
  jobs_wf k -> kStatusUpdate j k = (cluster s, j', Some e) ->
  rwmu s = Free -> r <> Blocked -> (t <= tick s)%nat -> touched id R k t s r.
Proof.
  intros Hwf Hu ???. split_and!; [by eapply update_wf|done..|].
  left. by eapply update_err.
Qed.

Lemma touched_updated id (R : JobStatus -> JobStatus -> Prop) k t s r (o : Job) st j' :
  job_get id k = Ret o -> kStatusUpdate (with_status o st) k = (cluster s, j', None) ->
  jobs_wf k -> R (Status o) st -> rwmu s = Free -> r <> Blocked -> (t <= tick s)%nat ->
  touched id R k t s r.
Proof.
  intros Hg Hu Hwf HR ???. split_and!; [by eapply update_wf|done..|]. right.
  destruct (update_after_get _ _ _ _ _ _ Hwf Hg Hu) as (? & ? & ? & ? & <-).
  exists o, j'. split_and!; done.
Qed.

End laws.

(** Identifies what the handler read with the object of the hypothesis [Hg]. *)
Ltac same_read Hg :=
  match type of Hg with ?g = Ret ?o =>
    match goal with H : g = Ret ?o1 |- _ =>
      tryif constr_eq o1 o then fail else (assert (o1 = o) as -> by congruence; clear H)
    end
  end.

(** Closes a branch of a handler by what became of the write. *)
Ltac finish_touched :=
  first
    [ apply touched_same; [assumption|done..|simpl; lia]
    | eapply touched_failed; [eassumption|eassumption|done..|simpl; lia]
    | eapply touched_updated; [eassumption|eassumption|eassumption|try done|done..|simpl; lia] ].

(** ** The requests on jobs *)
Inductive request :=
  | RGet (id : string) | RConfig (id : string) | RLog (id : string) | RDelete (id : string)
  | RRegister (id : string)
  | RSchedule (id : string) (b : bound MirrorSchedule)
  | RUpdate (id : string) (b : bound JobStatus)
  | RSize (id : string) (b : bound Z)
  | REnable (id : string) | RDisable (id : string)
  | RCmd (id : string) (b : bound ClientCmd).

Definition target (r : request) : string :=
  match r with
  | RGet id | RConfig id | RLog id | RDelete id | RRegister id | RSchedule id _
  | RUpdate id _ | RSize id _ | REnable id | RDisable id | RCmd id _ => id
  end.

Definition is_delete (r : request) : bool :=
  match r with RDelete _ => true | _ => false end.

Section serve.
Context {K : Type} `{!Client K JobSpec JobStatus}.
Context (now : nat -> Z) (post : string -> ClientCmd -> reply) (fetch_log : string -> reply).

(** The routes of [GetTUNASyncManager] below /job/:id, but for POST /job/:id,
    the creation of a job ([createJob] of [JobJson]). *)
Definition serve (r : request) : handler K unit :=
  match r with
  | RGet id => getJob id
  | RConfig id => getJobConfig id
  | RLog id => getJobLatestLog fetch_log id
  | RDelete id => deleteJob id
  | RRegister id => registerMirror now id
  | RSchedule id b => updateSchedule now id b
  | RUpdate id b => updateJob now id b
  | RSize id b => updateMirrorSize id b
  | REnable id => enableJob now id
  | RDisable id => disableJob now id
  | RCmd id b => handleClientCmd now post id b
  end.

(** The status the handler of a request computes, from the clock readings [t]
    on, or [None] when it writes none. *)
Definition status_effect (r : request) (t : nat) (old : JobStatus) : option JobStatus :=
  match r with
  | RRegister _ => Some (set_LastRegister (now (S t)) (set_LastOnline (now t) old))
  | RSchedule _ b =>
      Some (set_LastOnline (now t) (set_Scheduled (NextSchedule (bound_value b)) old))
  | RUpdate _ b => Some (merge_status (now t) old (bound_value b))
  | RSize _ b => Some (set_Size (bound_value b) old)
  | REnable _ => Some (set_LastOnline (now t) (set_Status Created old))
  | RDisable _ => Some (set_LastOnline (now t) (set_Status Disabled old))
  | RCmd _ b =>
      match cc_Cmd (bound_value b) with
      | CmdStop => Some (set_LastOnline (now t) (set_Status Paused old))
      | _ => None
      end
  | _ => None
  end.
End serve.

(** A coarse view of the handlers as steps on a map from jobs to statuses: a
    request changes nothing, or has its effect, or removes its job. *)
Inductive abs_step (now : nat -> Z) (t : nat) (r : request) (m : gmap string JobStatus)
    : gmap string JobStatus -> Prop :=
  | abs_refuse : abs_step now t r m m
  | abs_write old new :
      m !! target r = Some old -> status_effect now r t old = Some new ->
      abs_step now t r m (<[target r := new]> m)
  | abs_delete id : r = RDelete id -> abs_step now t r m (delete id m).

Section touch.
Context {K : Type} `{!Client K JobSpec JobStatus, !ClientLaws K JobSpec JobStatus}.
Context (now : nat -> Z) (post : string -> ClientCmd -> reply) (fetch_log : string -> reply).
#[local] Abbreviation jobs := (stored (K := K) (Sp := JobSpec) (St := JobStatus)).
#[local] Abbreviation jobs_wf := (kwf (K := K) (Sp := JobSpec) (St := JobStatus)).

Lemma serve_touches r k cs es t p :
  (forall id, r <> RDelete id) -> jobs_wf k ->
  wp (serve now post fetch_log r)
    (touched (target r) (fun old new => status_effect now r t old = Some new) k t)
    (mkHS k Free cs es t p).
Proof.
  intros Hd Hwf. destruct r as [id|id|id|id|id|id b|id b|id b|id|id|id b]; simpl.
  - unfold getJob, GetJob. job_steps; finish_touched.
  - unfold getJobConfig, GetJob. job_steps; finish_touched.
  - unfold getJobLatestLog, GetJob. job_steps; finish_touched.
  - by destruct (Hd id).
  - unfold registerMirror, GetJob. job_steps; finish_touched.
  - unfold updateSchedule, GetJob. job_steps; finish_touched.
  - unfold updateJob, GetJob. job_steps; finish_touched.
  - unfold updateMirrorSize, GetJob. job_steps; finish_touched.
  - unfold enableJob, GetJob. job_steps; finish_touched.
  - unfold disableJob, GetJob. job_steps; finish_touched.
  - unfold handleClientCmd, post_command, GetJob. handler_steps.
    destruct (cc_Cmd (bound_value b)) eqn:Hc; job_steps; finish_touched.
Qed.

Lemma deleteJob_effect id k cs es t p :
  jobs_wf k ->
  wp (deleteJob id) (fun s r =>
    jobs_wf (cluster s) /\ rwmu s = Free /\ r <> Blocked /\ (t <= tick s)%nat /\
    (jobs (cluster s) = jobs k \/ jobs (cluster s) = delete id (jobs k)))
    (mkHS k Free cs es t p).
Proof.
  intros Hwf. unfold deleteJob, GetJob. job_steps; cbn; split_and!; auto; try by eapply delete_wf.
  - left. by eapply delete_err.
  - right. erewrite delete_ok by eassumption. by erewrite get_name.
Qed.

Lemma abs_step_touched r k t (s : hstate K) fl :
  touched (target r) (fun old new => status_effect now r t old = Some new) k t s fl ->
  abs_step now t r (Status <$> jobs k) (Status <$> jobs (cluster s)) /\
  (forall n o o', jobs k !! n = Some o -> jobs (cluster s) !! n = Some o' -> Spec o' = Spec o).
Proof.
  intros (_ & _ & _ & _ & [->|(cur & o' & Hc & -> & _ & Hsp & He)]).
  - split; [constructor|]. by intros n o o' -> [= <-].
  - split.
    + rewrite fmap_insert. apply abs_write with (Status cur); [|done].
      by rewrite lookup_fmap, Hc.
    + intros n o o'' Ho [[<- <-]|[Hne Ho']]%lookup_insert_Some; congruence.
Qed.

Lemma serve_spec r k cs es t p s' fl :
  jobs_wf k ->
  serve now post fetch_log r (mkHS k Free cs es t p) = (s', fl) ->
  abs_step now t r (Status <$> jobs k) (Status <$> jobs (cluster s')) /\
  (forall n o o', jobs k !! n = Some o -> jobs (cluster s') !! n = Some o' -> Spec o' = Spec o) /\
  jobs_wf (cluster s') /\ rwmu s' = Free /\ fl <> Blocked /\ (t <= tick s')%nat.
Proof.
  intros Hwf Hs.
  destruct (is_delete r) eqn:Hd.
  - destruct r; try done.
    pose proof (wp_elim _ _ _ (deleteJob_effect id k cs es t p Hwf)) as He.
    simpl in Hs. rewrite Hs in He. cbn [fst snd] in He. destruct He as (? & ? & ? & ? & Hk).
    split_and!; try done.
    + destruct Hk as [Hk|Hk]; rewrite Hk; [constructor|]. rewrite fmap_delete. by apply abs_delete.
    + intros n o o' Ho Ho'. destruct Hk as [Hk|Hk]; rewrite Hk in Ho'; [congruence|].
      apply lookup_delete_Some in Ho' as [_ Ho']. congruence.
  - pose proof (wp_elim _ _ _ (serve_touches r k cs es t p
      ltac:(by intros id ->) Hwf)) as He.
    rewrite Hs in He. cbn [fst snd] in He.
    destruct (abs_step_touched _ _ _ _ _ He). destruct He as (? & ? & ? & ? & _). done.
Qed.

(** ** Timestamps *)

(** What the timestamps of a status say at time [T]: an update is the end of a
    run, and no event is later than the last sign of life, nor that than [T]. *)
Definition ordered (T : Z) (st : JobStatus) : Prop :=
  LastUpdate st <= LastEnded st <= LastOnline st /\ LastStarted st <= LastOnline st /\
  LastOnline st <= T /\ LastRegister st <= T.

Lemma ordered_le T T' st : ordered T st -> T <= T' -> ordered T' st.
Proof. unfold ordered. lia. Qed.

Lemma status_effect_ordered r t T old new :
  now t <= now (S t) -> now (S t) <= T -> ordered (now t) old ->
  status_effect now r t old = Some new -> ordered T new.
Proof.
  intros H1 H2 Ho He. unfold ordered in *.
  destruct r; simpl in He; simplify_eq; simpl; try lia.
  - unfold merge_status. simpl. repeat case_match; simpl in *; try lia; try done.
  - case_match; simplify_eq. simpl. lia.
Qed.

(** The histories of a manager: requests in any order, on a cluster whose cache
    may move at any time and in which others create jobs (with a zero status);
    the clock only moves forward. *)
Inductive mgr_reach (k0 : K) (t0 : nat) : K -> nat -> Prop :=
  | reach_start : mgr_reach k0 t0 k0 t0
  | reach_serve k t r cs es p s' fl :
      mgr_reach k0 t0 k t ->
      serve now post fetch_log r (mkHS k Free cs es t p) = (s', fl) ->
      mgr_reach k0 t0 (cluster s') (S (tick s'))
  | reach_env k t k' t' :
      mgr_reach k0 t0 k t -> jobs_wf k' -> jobs k' = jobs k -> (t <= t')%nat ->
      mgr_reach k0 t0 k' t'
  | reach_create k t k' n o :
      mgr_reach k0 t0 k t -> jobs_wf k' -> Status o = zeroJobStatus ->
      jobs k' = <[n := o]> (jobs k) -> mgr_reach k0 t0 k' t.

Definition all_ordered (k : K) (t : nat) : Prop :=
  forall n o, jobs k !! n = Some o -> ordered (now t) (Status o).

Lemma serve_all_ordered r k t k' T :
  abs_step now t r (Status <$> jobs k) (Status <$> jobs k') ->
  now t <= now (S t) -> now (S t) <= now T -> all_ordered k t -> all_ordered k' T.
Proof.
  intros Ha H1 H2 Ho n o' Ho'.
  assert (Hl : (Status <$> jobs k') !! n = Some (Status o')) by (by rewrite lookup_fmap, Ho').
  assert (Hm : forall st, (Status <$> jobs k) !! n = Some st -> ordered (now t) st).
  { intros st. rewrite lookup_fmap. destruct (jobs k !! n) as [o|] eqn:E; [|done].
    intros [= <-]. by apply (Ho n). }
  remember (Status <$> jobs k) as m eqn:Em. remember (Status <$> jobs k') as m' eqn:Em'.
  clear Em Em'. destruct Ha as [|old new Ht He|id ->].
  - eapply ordered_le; [by apply Hm|lia].
  - apply lookup_insert_Some in Hl as [[<- <-]|[_ Hl]]; [|eapply ordered_le; [by apply Hm|lia]].
    by eapply status_effect_ordered; eauto.
  - apply lookup_delete_Some in Hl as [_ Hl]. eapply ordered_le; [by apply Hm|lia].
Qed.
End touch.

(** ** What a request means, field by field *)

(** [reported cur_time old rep new]: [new] is the status a job has after its
    worker reported [rep] at [cur_time], when it had [old].  The status, the
    message, the upstream and the schedule are the reported ones; the worker was
    seen now and registered when it last did; only a success moves the last
    update, only the end of a run moves the last end, and only the first
    PreSyncing of a run moves the last start; a report without a size keeps the
    size that is known. *)
Record reported (cur_time : Z) (old rep new : JobStatus) : Prop := {
  rep_status : st_Status new = st_Status rep;
  rep_message : ErrorMsg new = ErrorMsg rep;
  rep_upstream : st_Upstream new = st_Upstream rep;
  rep_scheduled : Scheduled new = Scheduled rep;
  rep_online : LastOnline new = cur_time;
  rep_register : LastRegister new = LastRegister old;
  rep_success : st_Status rep = Success -> LastUpdate new = cur_time;
  rep_no_success : st_Status rep <> Success -> LastUpdate new = LastUpdate old;
  rep_ended : st_Status rep = Success \/ st_Status rep = Failed -> LastEnded new = cur_time;
  rep_not_ended : st_Status rep <> Success -> st_Status rep <> Failed ->
    LastEnded new = LastEnded old;
  rep_started : st_Status rep = PreSyncing -> st_Status old <> PreSyncing ->
    LastStarted new = cur_time;
  rep_not_started : st_Status rep <> PreSyncing \/ st_Status old = PreSyncing ->
    LastStarted new = LastStarted old;
  rep_size : st_Size rep <> 0 -> st_Size new = st_Size rep;
  rep_size_known : st_Size rep = 0 -> 0 < st_Size old -> st_Size new = st_Size old;
  rep_size_unknown : st_Size rep = 0 -> st_Size old <= 0 -> st_Size new = 0;
}.

Lemma merge_status_reported cur_time old rep :
  reported cur_time old rep (merge_status cur_time old rep).
Proof.
  unfold merge_status; split; cbn; try done.
  all: repeat match goal with
    | |- context [String.eqb ?a ?b] => destruct (String.eqb_spec a b)
    | |- context [?a <? ?b] => destruct (Z.ltb_spec a b)
    | |- context [?a =? ?b] => destruct (Z.eqb_spec a b)
    end; cbn; intros; try congruence; try lia; try tauto.
Qed.

(** The fields a request other than a report leaves as they were. *)
Definition same_run (old new : JobStatus) : Prop :=
  LastUpdate new = LastUpdate old /\ LastStarted new = LastStarted old /\
  LastEnded new = LastEnded old /\ st_Upstream new = st_Upstream old /\
  ErrorMsg new = ErrorMsg old.

(** Enabling, disabling and stopping give the job this status. *)
Definition turned (now_t : Z) (st : SyncStatus) (old new : JobStatus) : Prop :=
  same_run old new /\ st_Status new = st /\ LastOnline new = now_t /\
  Scheduled new = Scheduled old /\ st_Size new = st_Size old /\
  LastRegister new = LastRegister old.

(** What request [r], whose first reading of the clock is the [t]th, means for
    the status [old] of its job; [False] for a request that means no change. *)
Definition meant (now : nat -> Z) (t : nat) (r : request) (old new : JobStatus) : Prop :=
  match r with
  | RRegister _ =>
      same_run old new /\ LastOnline new = now t /\ LastRegister new = now (S t) /\
      st_Status new = st_Status old /\ Scheduled new = Scheduled old /\
      st_Size new = st_Size old
  | RSchedule _ b =>
      same_run old new /\ Scheduled new = NextSchedule (bound_value b) /\
      LastOnline new = now t /\ st_Status new = st_Status old /\
      st_Size new = st_Size old /\ LastRegister new = LastRegister old
  | RUpdate _ b => reported (now t) old (bound_value b) new
  | RSize _ b =>
      same_run old new /\ st_Size new = bound_value b /\ st_Status new = st_Status old /\
      Scheduled new = Scheduled old /\ LastOnline new = LastOnline old /\
      LastRegister new = LastRegister old
  | REnable _ => turned (now t) Created old new
  | RDisable _ => turned (now t) Disabled old new
  | RCmd _ b => cc_Cmd (bound_value b) = CmdStop /\ turned (now t) Paused old new
  | _ => False
  end.

Lemma status_effect_meant now r t old new :
  status_effect now r t old = Some new -> meant now t r old new.
Proof.
  destruct r as [id|id|id|id|id|id b|id b|id b|id|id|id b]; cbn; intros H; simplify_eq; try done.
  - apply merge_status_reported.
  - by destruct (cc_Cmd (bound_value b)); simplify_eq.
Qed.

(** The requests that mean a change. *)
Definition writes (r : request) : bool :=
  match r with
  | RGet _ | RConfig _ | RLog _ => false
  | RCmd _ b => match cc_Cmd (bound_value b) with CmdStop => true | _ => false end
  | _ => true
  end.

Section refinement.
Context {K : Type} `{!Client K JobSpec JobStatus, !ClientLaws K JobSpec JobStatus}.
Context (now : nat -> Z) (post : string -> ClientCmd -> reply) (fetch_log : string -> reply).
#[local] Abbreviation jobs := (stored (K := K) (Sp := JobSpec) (St := JobStatus)).
#[local] Abbreviation jobs_wf := (kwf (K := K) (Sp := JobSpec) (St := JobStatus)).
#[local] Abbreviation job_get := (kGet (K := K) (Sp := JobSpec) (St := JobStatus)).

(** The client's grounds for refusing [r]: the job cannot be read, or the write
    of the status that is meant, or the deletion, comes back with an error. *)
Inductive client_refuses (t : nat) (r : request) (k : K) : Prop :=
  | no_job : (forall o, job_get (target r) k <> Ret o) -> client_refuses t r k
  | no_write o st k' o' e :
      job_get (target r) k = Ret o -> meant now t r (Status o) st ->
      kStatusUpdate (with_status o st) k = (k', o', Some e) -> client_refuses t r k
  | no_delete o k' e :
      job_get (target r) k = Ret o -> is_delete r = true ->
      kDelete o k = (k', Some e) -> client_refuses t r k.

(** The abstract manager: a map from jobs to statuses.  A request that means no
    change changes nothing; any other gives its job the status it means, or
    deletes it, unless the client refuses. *)
Inductive status_step (t : nat) (r : request) (k : K) (m : gmap string JobStatus)
    : gmap string JobStatus -> Prop :=
  | status_reads : writes r = false -> status_step t r k m m
  | status_refused : writes r = true -> client_refuses t r k -> status_step t r k m m
  | status_writes old new :
      m !! target r = Some old -> meant now t r old new ->
      status_step t r k m (<[target r := new]> m)
  | status_deletes : is_delete r = true -> status_step t r k m (delete (target r) m).

(** A handler of [r] that read and wrote the cluster [k] implements [status_step]. *)
Definition implements (t : nat) (r : request) (k : K) (s : hstate K) (_ : flow unit) : Prop :=
  status_step t r k (Status <$> jobs k) (Status <$> jobs (cluster s)).

Lemma implements_reads t r k s fl :
  writes r = false -> cluster s = k -> implements t r k s fl.
Proof. intros ? <-. by apply status_reads. Qed.

Lemma implements_unread t r k s fl e :
  writes r = true -> job_get (target r) k = Err e \/ job_get (target r) k = Panic e ->
  cluster s = k -> implements t r k s fl.
Proof.
  intros ? [He|He] <-; apply status_refused; try done; apply no_job; intros o Ho; congruence.
Qed.

Lemma implements_unwritten t r k s fl o st j' e :
  writes r = true -> job_get (target r) k = Ret o -> meant now t r (Status o) st ->
  kStatusUpdate (with_status o st) k = (cluster s, j', Some e) -> implements t r k s fl.
Proof.
  intros ? Hg Hm Hu. unfold implements. erewrite (update_err k (cluster s)) by exact Hu.
  apply status_refused; [done|]. by eapply no_write.
Qed.

Lemma implements_written t r k s fl o st j' :
  jobs_wf k -> job_get (target r) k = Ret o -> meant now t r (Status o) st ->
  kStatusUpdate (with_status o st) k = (cluster s, j', None) -> implements t r k s fl.
Proof.
  intros Hwf Hg Hm Hu. destruct (update_after_get _ _ _ _ _ _ Hwf Hg Hu) as (Ho & Hk & _ & _ & Hst).
  unfold implements. rewrite Hk, fmap_insert, Hst.
  apply status_writes with (Status o); [|done]. by rewrite lookup_fmap, Ho.
Qed.

Lemma implements_undeleted t r k s fl o e :
  is_delete r = true -> job_get (target r) k = Ret o -> kDelete o k = (cluster s, Some e) ->
  implements t r k s fl.
Proof.
  intros Hr Hg Hd. unfold implements. erewrite (delete_err k (cluster s)) by exact Hd.
  apply status_refused; [by destruct r|]. by eapply no_delete.
Qed.

Lemma implements_deleted t r k s fl o :
  jobs_wf k -> is_delete r = true -> job_get (target r) k = Ret o ->
  kDelete o k = (cluster s, None) -> implements t r k s fl.
Proof.
  intros Hwf Hr Hg Hd. unfold implements. rewrite (delete_ok k (cluster s) o Hd), fmap_delete.
  rewrite (get_name k _ o Hwf Hg). by apply status_deletes.
Qed.

Ltac by_command :=
  cbn; repeat match goal with H : cc_Cmd _ = _ |- _ => rewrite H end; done.

(** Closes a branch of a handler by what the client answered. *)
Ltac finish_implements :=
  first
    [ eapply implements_unread; [|eassumption|]; by_command
    | eapply implements_unwritten; [by_command|eassumption| |eassumption];
      apply status_effect_meant; by_command
    | eapply implements_written; [eassumption|eassumption| |eassumption];
      apply status_effect_meant; by_command
    | by eapply implements_undeleted
    | by eapply implements_deleted
    | apply implements_reads; by_command ].

Lemma serve_implements r k cs es t p :
  jobs_wf k -> wp (serve now post fetch_log r) (implements t r k) (mkHS k Free cs es t p).
Proof.
  intros Hwf. destruct r as [id|id|id|id|id|id b|id b|id b|id|id|id b]; simpl.
  - unfold getJob, GetJob. job_steps; finish_implements.
  - unfold getJobConfig, GetJob. job_steps; finish_implements.
  - unfold getJobLatestLog, GetJob. job_steps; finish_implements.
  - unfold deleteJob, GetJob. job_steps; finish_implements.
  - unfold registerMirror, GetJob. job_steps; finish_implements.
  - unfold updateSchedule, GetJob. job_steps; finish_implements.
  - unfold updateJob, GetJob. job_steps; finish_implements.
  - unfold updateMirrorSize, GetJob. job_steps; finish_implements.
  - unfold enableJob, GetJob. job_steps; finish_implements.
  - unfold disableJob, GetJob. job_steps; finish_implements.
  - unfold handleClientCmd, post_command, GetJob. handler_steps.
    destruct (cc_Cmd (bound_value b)) eqn:Hc; job_steps; finish_implements.
Qed.

(** C9: The manager implements its abstract specification, whatever its cache
    holds and however the writes fail.  A request below /job/:id other than the
    creation of a job, read against a well-formed cluster, does one of these:
    it means no change and changes nothing; it gives the job it names, as the
    API server holds it, the status the request means field by field (never
    one computed from a stale read); it deletes that job; or it changes
    nothing because the client refused, that is, the job could not be read or
    the write of that very status, or the deletion, failed.  It keeps every
    specification, releases the mutex on every path, panics included, and never
    blocks on its own lock. *)
Theorem manager_refines_status_map r k cs es t p s' fl :
  jobs_wf k ->
  serve now post fetch_log r (mkHS k Free cs es t p) = (s', fl) ->
  status_step t r k (Status <$> jobs k) (Status <$> jobs (cluster s')) /\
  (forall n o o', jobs k !! n = Some o -> jobs (cluster s') !! n = Some o' -> Spec o' = Spec o) /\
  jobs_wf (cluster s') /\ rwmu s' = Free /\ fl <> Blocked /\ (t <= tick s')%nat.
Proof.
  intros Hwf Hs. destruct (serve_spec now post fetch_log r k cs es t p s' fl Hwf Hs) as [_ H].
  split; [|exact H]. pose proof (wp_elim _ _ _ (serve_implements r k cs es t p Hwf)) as Hi.
  rewrite Hs in Hi. exact Hi.
Qed.
End refinement.

(** C10: With a clock that does not run backwards, every history of requests
    (refused, failed and panicking ones included) keeps the timestamps of every
    job consistent: the last update is not after the last end of a run, which
    is not after the last sign of life; a run never started after that; and no
    timestamp lies in the future. *)
Theorem timestamps_stay_consistent {K} `{!Client K JobSpec JobStatus, !ClientLaws K JobSpec JobStatus}
    now post fetch_log (k0 : K) t0 k t n o :
  (forall i j, (i <= j)%nat -> now i <= now j) -> (forall i, 0 <= now i) ->
  kwf (Sp := JobSpec) (St := JobStatus) k0 -> all_ordered now k0 t0 ->
  mgr_reach now post fetch_log k0 t0 k t ->
  stored k !! n = Some o -> ordered (now t) (Status (o : Job)).
Proof.
  intros Hmono Hpos Hwf0 Ho0 Hr. revert n o.
  enough (kwf (Sp := JobSpec) (St := JobStatus) k /\ all_ordered now k t) by tauto.
  induction Hr as [|k t r cs es p s' fl Hr [Hwf Ho] Hs|k t k' t' Hr [Hwf Ho] Hwf' Hj Ht
                  |k t k' n o Hr [Hwf Ho] Hwf' Hz Hj]; [done|..].
  - destruct (serve_spec now post fetch_log r k cs es t p s' fl Hwf Hs)
      as (Ha & _ & ? & _ & _ & Ht). split; [done|].
    eapply serve_all_ordered; eauto; apply Hmono; lia.
  - split; [done|]. intros n o Hn. rewrite Hj in Hn.
    eapply ordered_le; [by apply (Ho n)|]. by apply Hmono.
  - split; [done|]. intros m o' Hm. rewrite Hj in Hm.
    apply lookup_insert_Some in Hm as [[_ <-]|[_ Hm]]; [|by apply (Ho m)].
    rewrite Hz. unfold ordered. simpl. pose proof (Hpos t). lia.
Qed.

(** ** Orders of effects, and answers *)
Section answers.
Context {K : Type} `{!Client K JobSpec JobStatus, !ClientLaws K JobSpec JobStatus}.
Context (now : nat -> Z) (post : string -> ClientCmd -> reply) (fetch_log : string -> reply).
#[local] Abbreviation jobs := (stored (K := K) (Sp := JobSpec) (St := JobStatus)).
#[local] Abbreviation jobs_wf := (kwf (K := K) (Sp := JobSpec) (St := JobStatus)).
#[local] Abbreviation job_get := (kGet (K := K) (Sp := JobSpec) (St := JobStatus)).

(** C33: The handler of commands posts the command it was sent, once and for the job
    it names.  A stop is posted only when the API server already holds the job as
    paused, and is not posted only when the job cannot be read or that write fails;
    any other command is posted without touching the cluster. *)
Theorem stop_is_recorded_before_it_is_sent id b k cs es t p s' fl :
  jobs_wf k ->
  handleClientCmd now post id b (mkHS k Free cs es t p) = (s', fl) ->
  let cmd := bound_value b in
  match cc_Cmd cmd with
  | CmdStop =>
      (posts s' = p /\ client_refuses now t (RCmd id b) k) \/
      (posts s' = p ++ [(id, cmd)] /\
       exists o, jobs (cluster s') !! id = Some o /\ st_Status (Status o) = Paused)
  | _ => posts s' = p ++ [(id, cmd)] /\ cluster s' = k
  end.
Proof.
  intros Hwf Hs cmd. run_handler Hs.
  unfold handleClientCmd, post_command, GetJob. handler_steps. fold cmd.
  destruct (cc_Cmd cmd) eqn:Hc; job_steps; try (by split);
    try (left; split; [done|]; apply no_job; intros o Ho; cbn in Ho; clear fetch_log; intuition congruence);
    match goal with Hg : job_get id k = Ret ?o, Hu : kStatusUpdate _ _ = (?k', ?j', None) |- _ =>
      right; split; [done|]; cbn [cluster set_mutex];
      destruct (update_after_get k k' id o j' _ Hwf Hg Hu) as (_ & -> & _ & _ & Hst);
      rewrite lookup_insert_eq; (eexists; split; [done|]; by rewrite Hst)
    | Hg : job_get id k = Ret ?o, Hu : kStatusUpdate _ _ = (_, _, Some _) |- _ =>
      left; split; [done|]; refine (no_write now t (RCmd id b) k o _ _ _ _ Hg _ Hu);
      apply status_effect_meant; cbn; unfold cmd in Hc; by rewrite Hc
    end.
Qed.

(** What a handler answers, and how it ends, when its job cannot be read. *)
Definition missing_answers (r : request) (err : string) : list call * flow unit :=
  let bad := JSON StatusInternalServerError (BError err) in
  match r with
  | RGet id => ([bad; JSON StatusInternalServerError
                       (BError ("failed to get job " +:+ id +:+ ": " +:+ err))], Return)
  | RRegister _ | RSize _ _ => ([bad; bad], Return)
  | RConfig _ | RUpdate _ _ => ([bad], Crash "nil pointer dereference")
  | RSchedule _ _ => ([bad; JSON StatusOK BEmpty], Crash "nil pointer dereference")
  | _ => ([bad], Return)
  end.

Definition bind_calls (r : request) : list call :=
  let f (failed : bool) := if failed then [AbortWithError StatusBadRequest] else [] in
  match r with
  | RSchedule _ b => f (bind_failed b) | RUpdate _ b => f (bind_failed b)
  | RSize _ b => f (bind_failed b) | RCmd _ b => f (bind_failed b) | _ => []
  end.

(** Requests that look their job up. *)
Definition reads_job (r : request) : bool :=
  match r with
  | RLog _ => false
  | RCmd _ b => match cc_Cmd (bound_value b) with CmdStop => true | _ => false end
  | _ => true
  end.

(** When the job cannot be read no handler changes the cluster or posts a
    command, and the answers are exactly these: most answer 500 (three of them
    twice); asking for the configuration and reporting a status dereference the
    nil job and panic; reporting a schedule answers 500, then 200, then panics. *)
Theorem missing_job_is_answered r k cs es t p s' fl e :
  reads_job r = true -> job_get (target r) k = Err e ->
  serve now post fetch_log r (mkHS k Free cs es t p) = (s', fl) ->
  let '(answers, how) := missing_answers r ("failed to get mirror: " +:+ e) in
  calls s' = cs ++ bind_calls r ++ answers /\ fl = how /\
  cluster s' = k /\ posts s' = p /\ rwmu s' = Free.
Proof.
  intros Hr Hg Hs. run_handler Hs.
  destruct r as [id|id|id|id|id|id b|id b|id b|id|id|id b]; try done; simpl in Hg |- *.
  all: unfold getJob, getJobConfig, deleteJob, registerMirror, updateSchedule, updateJob,
         updateMirrorSize, enableJob, disableJob, handleClientCmd, post_command, GetJob; handler_steps.
  all: try (simpl in Hr; destruct (cc_Cmd (bound_value b)); try discriminate Hr).
  all: job_steps.
  all: repeat match goal with H : _ \/ _ |- _ => destruct H end; try congruence.
  all: cbn [calls cluster posts rwmu set_mutex]; simplify_eq/=; rewrite ?Hg in *; simplify_eq.
  all: split_and!; try done; rewrite <-?(assoc_L (++)); done.
Qed.

(** A status report is acknowledged exactly when it is durable: the handler
    runs to its end and answers 200 with a status only if the API server now
    holds that very status, merged with the one it held before; otherwise
    nothing is stored and no 200 is answered. *)
Lemma updateJob_acknowledges_what_it_stores id b k cs es t p s' fl :
  jobs_wf k ->
  updateJob now id b (mkHS k Free cs es t p) = (s', fl) ->
  exists answers, calls s' = cs ++ bind_calls (RUpdate id b) ++ answers /\
  ((fl = Next tt /\ exists cur o',
      jobs k !! id = Some cur /\ jobs (cluster s') = <[id := o']> (jobs k) /\
      Status o' = merge_status (now t) (Status cur) (bound_value b) /\
      answers = [JSON StatusOK (BStatus (Status o'))])
   \/ (fl <> Next tt /\ jobs (cluster s') = jobs k /\
       Forall (fun c => forall b, c <> JSON StatusOK b) answers)).
Proof.
  intros Hwf Hs. run_handler Hs. unfold updateJob, GetJob. job_steps;
    cbn [calls cluster posts rwmu set_mutex]; rewrite <-?(assoc_L (++)); eexists; (split; [done|]).
  - right. split_and!; [done|by eapply update_err|by repeat constructor].
  - left. split; [done|].
    match goal with Hg : job_get id k = Ret ?o, Hu : kStatusUpdate _ _ = (?k', ?j', None) |- _ =>
      destruct (update_after_get k k' id o j' _ Hwf Hg Hu) as (? & ? & _ & _ & Hst) end.
    eexists _, _. split_and!; [done..|]. by rewrite Hst.
  - right. split_and!; [done|done|by repeat constructor].
Qed.

(** A schedule report that changes nothing is not skipped: after answering
    200 the handler writes the status again and answers a second time, with a
    500 when that write fails. *)
Theorem unchanged_schedule_is_written_and_answered_twice id b k cs es t p s' fl o :
  jobs_wf k -> job_get id k = Ret o ->
  Scheduled (Status o) = NextSchedule (bound_value b) ->
  updateSchedule now id b (mkHS k Free cs es t p) = (s', fl) ->
  exists answer, calls s' = cs ++ bind_calls (RSchedule id b) ++ [JSON StatusOK BEmpty; answer] /\
  ((answer = JSON StatusOK BEmpty /\ exists o',
      jobs (cluster s') = <[id := o']> (jobs k) /\ Status o' = set_LastOnline (now t) (Status o))
   \/ (exists e, answer = JSON StatusInternalServerError (BError e) /\
       jobs (cluster s') = jobs k)).
Proof.
  intros Hwf Hg Hsch Hs. run_handler Hs. unfold updateSchedule, GetJob. job_steps;
    repeat match goal with H : _ \/ _ |- _ => destruct H end; try congruence.
  all: same_read Hg.
  all: try (by rewrite Hsch, Z.eqb_refl in *).
  all: cbn [calls cluster posts rwmu set_mutex]; rewrite <-?(assoc_L (++));
       eexists; (split; [done|]).
  - right. eexists. split; [done|]. by eapply update_err.
  - left. split; [done|].
    match goal with Hu : kStatusUpdate _ _ = (?k', ?j', None) |- _ =>
      destruct (update_after_get k k' id o j' _ Hwf Hg Hu) as (_ & -> & _ & _ & Hst) end.
    eexists. split; [done|]. rewrite Hst, <-Hsch. by destruct o as [? ? []].
Qed.
End answers.

(** ** An example cluster *)
Module Demo.
Definition now (n : nat) : Z := 1000 + Z.of_nat n.
Definition post (_ : string) (_ : ClientCmd) : reply := Ret (200, "OK", None).
Definition fetch_log (_ : string) : reply := Ret (200, "log", None).

Abbreviation cluster_ := (store JobSpec JobStatus).
Definition job (n : string) (v : Z) (st : JobStatus) : Job :=
  mkObject (mkMeta n "ns" v) zeroJobSpec st.
Definition syncing : JobStatus := mkJobStatus Syncing 900 950 900 0 "up" 7 "" 960 800.

(** A cluster with one job, which the cache holds at its current version. *)
Definition one : cluster_ :=
  mkStore {["debian" := job "debian" 5 syncing]} {["debian" := job "debian" 5 syncing]} 6.
(** The same, with a cache that lags one version behind. *)
Definition lagging : cluster_ :=
  mkStore {["debian" := job "debian" 5 syncing]} {["debian" := job "debian" 4 zeroJobStatus]} 6.

Lemma one_wf : kwf (Sp := JobSpec) (St := JobStatus) one.
Proof.
  split; simpl; intros n o.
  1,2: intros [<- <-]%lookup_singleton_Some; split; [done|reflexivity].
  intros cur [<- <-]%lookup_singleton_Some [_ <-]%lookup_singleton_Some. done.
Qed.
Lemma lagging_wf : kwf (Sp := JobSpec) (St := JobStatus) lagging.
Proof.
  split; simpl; intros n o.
  1,2: intros [<- <-]%lookup_singleton_Some; split; [done|reflexivity].
  intros cur [<- <-]%lookup_singleton_Some [_ <-]%lookup_singleton_Some. discriminate.
Qed.

Definition start (k : cluster_) : hstate cluster_ := mkHS k Free [] [] 0 [].
Definition report (s : SyncStatus) : bound JobStatus :=
  mkBound (mkJobStatus s 0 0 0 0 "up" 0 "" 0 0) false.
End Demo.

Example report_on_lagging_cache_conflicts :
  calls (fst (updateJob Demo.now "debian" (Demo.report Success) (Demo.start Demo.lagging)))
  = [JSON 500 (BError "failed to update job debian: the object has been modified")].
Proof. vm_compute. reflexivity. Qed.

Lemma manager_refines_status_map_witness :
  let run := serve Demo.now Demo.post Demo.fetch_log (RUpdate "debian" (Demo.report Success))
               (Demo.start Demo.one) in
  status_step Demo.now 0 (RUpdate "debian" (Demo.report Success)) Demo.one
    (Status <$> server Demo.one) (Status <$> server (cluster (fst run))) /\
  LastUpdate <$> (Status <$> (server (cluster (fst run)) !! "debian")) = Some 1000.
Proof.
  split; [|vm_compute; reflexivity].
  exact (proj1 (manager_refines_status_map Demo.now Demo.post Demo.fetch_log
    (RUpdate "debian" (Demo.report Success)) Demo.one [] [] 0%nat [] _ _
    Demo.one_wf (surjective_pairing _))).
Defined.

Lemma timestamps_stay_consistent_witness :
  exists o, server (cluster (fst (serve Demo.now Demo.post Demo.fetch_log
      (RUpdate "debian" (Demo.report Success)) (Demo.start Demo.one)))) !! "debian" = Some o /\
    ordered (Demo.now 2) (Status o).
Proof.
  eexists. split; [vm_compute; reflexivity|].
  refine (timestamps_stay_consistent Demo.now Demo.post Demo.fetch_log Demo.one 0%nat
    _ 2%nat "debian" _ _ _ _ _ (reach_serve _ _ _ _ _ Demo.one 0%nat
      (RUpdate "debian" (Demo.report Success)) [] [] [] _ _ (reach_start _ _ _ _ _)
      (surjective_pairing _)) _).
  - unfold Demo.now. lia.
  - unfold Demo.now. lia.
  - apply Demo.one_wf.
  - intros n o H. change ((server Demo.one) !! n = Some o) in H.
    unfold Demo.one in H. cbn [server] in H.
    apply lookup_singleton_Some in H as [<- <-]. vm_compute. intuition discriminate.
  - vm_compute. reflexivity.
Defined.

Lemma stop_is_recorded_before_it_is_sent_witness :
  posts (fst (handleClientCmd Demo.now Demo.post "debian"
    (mkBound (mkClientCmd CmdStop false) false) (Demo.start Demo.one)))
  = [("debian", mkClientCmd CmdStop false)] /\
  exists o, server (cluster (fst (handleClientCmd Demo.now Demo.post "debian"
    (mkBound (mkClientCmd CmdStop false) false) (Demo.start Demo.one)))) !! "debian" = Some o /\
    st_Status (Status o) = Paused.
Proof.
  split; [vm_compute; reflexivity|].
  destruct (stop_is_recorded_before_it_is_sent Demo.now Demo.post "debian"
    (mkBound (mkClientCmd CmdStop false) false) Demo.one [] [] 0%nat [] _ _ Demo.one_wf
    (surjective_pairing _)) as [[H _]|[_ H]]; [exfalso; vm_compute in H; discriminate H|exact H].
Defined.

Lemma missing_job_is_answered_witness :
  calls (fst (updateSchedule Demo.now "gone" (mkBound (mkMirrorSchedule 5) false)
    (Demo.start Demo.one)))
  = [JSON 500 (BError "failed to get mirror: gone not found"); JSON 200 BEmpty].
Proof.
  exact (proj1 (missing_job_is_answered Demo.now Demo.post Demo.fetch_log
    (RSchedule "gone" (mkBound (mkMirrorSchedule 5) false)) Demo.one [] [] 0%nat [] _ _
    "gone not found" eq_refl eq_refl (surjective_pairing _))).
Defined.

Lemma updateJob_acknowledges_what_it_stores_witness :
  exists answers, calls (fst (updateJob Demo.now "debian" (Demo.report Success)
    (Demo.start Demo.one))) = answers /\ length answers = 1%nat.
Proof.
  destruct (updateJob_acknowledges_what_it_stores Demo.now "debian" (Demo.report Success)
    Demo.one [] [] 0%nat [] _ _ Demo.one_wf (surjective_pairing _)) as (a & Ha & _).
  exists a. split; [exact Ha|]. rewrite <-(app_nil_l a).
  change (@nil call ++ bind_calls (RUpdate "debian" (Demo.report Success)) ++ a) with a in Ha.
  change ([] ++ a) with a. rewrite <-Ha. vm_compute. reflexivity.
Defined.

Lemma unchanged_schedule_is_written_and_answered_twice_witness :
  exists answer, calls (fst (updateSchedule Demo.now "debian" (mkBound (mkMirrorSchedule 0) false)
    (Demo.start Demo.one))) = [JSON StatusOK BEmpty; answer].
Proof.
  destruct (unchanged_schedule_is_written_and_answered_twice Demo.now "debian"
    (mkBound (mkMirrorSchedule 0) false) Demo.one [] [] 0%nat [] _ _
    (Demo.job "debian" 5 Demo.syncing) Demo.one_wf eq_refl eq_refl (surjective_pairing _))
    as (a & Ha & _).
  exists a. exact Ha.
Defined.
