(* ===== verification/JobJson.v ===== *)
(** * Jobs as JSON: createJob and handleMerge (src/manager/server.go), and the
      status reports between worker and manager

    The fields and their JSON names are those of src/api/v1beta1.  How Kubernetes'
    own types are written is not part of the program: their codecs are
    parameters. *)

From S2P Require Import Prelude GoLib Types Json Kube Gin ManagerJobs.

(** The codecs of the Kubernetes types. *)
Record kube_codecs := mkKube {
  k_env : codec EnvVar; k_affinity : codec Affinity; k_toleration : codec Toleration;
  k_ref : codec LocalObjectReference;
}.
Record kube_lawful (k : kube_codecs) : Prop := {
  kl_env : lawful (k_env k); kl_affinity : lawful (k_affinity k);
  kl_toleration : lawful (k_toleration k); kl_ref : lawful (k_ref k);
}.

Definition text {R} (n : string) (get : R -> string) : field R := Field string_codec n true get.
Definition int {R} (n : string) (get : R -> Z) : field R := Field i64_codec n true get.

Section schemas.
Context (kc : kube_codecs).

(** [JobConfig] *)
Definition additionEnvs : field JobConfig :=
  Field (list_codec (k_env kc)) "additionEnvs" true jc_AdditionEnvs.
Definition upstream : field JobConfig := Field string_codec "upstream" false jc_Upstream.
Definition config_schema : list (field JobConfig) :=
  [text "alias" jc_Alias; text "desc" jc_Desc; text "url" jc_Url; text "helpUrl" jc_HelpUrl;
   text "type" jc_Type; upstream; text "provider" jc_Provider; text "mirrorPath" jc_MirrorPath;
   text "command" jc_Command; int "concurrent" jc_Concurrent; int "interval" jc_Interval;
   int "retry" jc_Retry; int "timeout" jc_Timeout; text "failOnMatch" jc_FailOnMatch;
   text "IPv6Only" jc_IPv6Only; text "IPv4Only" jc_IPv4Only; text "excludeFile" jc_ExcludeFile;
   text "rsyncOptions" jc_RsyncOptions; text "stage1Profile" jc_Stage1Profile;
   text "execOnSuccess" jc_ExecOnSuccess; text "execOnFailure" jc_ExecOnFailure;
   text "sizePattern" jc_SizePattern; additionEnvs; text "debug" jc_Debug].
Definition build_config : builder JobConfig := fun g =>
  (mkJobConfig, false) <**> g (text "alias" jc_Alias) <**> g (text "desc" jc_Desc)
  <**> g (text "url" jc_Url) <**> g (text "helpUrl" jc_HelpUrl) <**> g (text "type" jc_Type)
  <**> g upstream <**> g (text "provider" jc_Provider) <**> g (text "mirrorPath" jc_MirrorPath)
  <**> g (text "command" jc_Command) <**> g (int "concurrent" jc_Concurrent)
  <**> g (int "interval" jc_Interval) <**> g (int "retry" jc_Retry) <**> g (int "timeout" jc_Timeout)
  <**> g (text "failOnMatch" jc_FailOnMatch) <**> g (text "IPv6Only" jc_IPv6Only)
  <**> g (text "IPv4Only" jc_IPv4Only) <**> g (text "excludeFile" jc_ExcludeFile)
  <**> g (text "rsyncOptions" jc_RsyncOptions) <**> g (text "stage1Profile" jc_Stage1Profile)
  <**> g (text "execOnSuccess" jc_ExecOnSuccess) <**> g (text "execOnFailure" jc_ExecOnFailure)
  <**> g (text "sizePattern" jc_SizePattern) <**> g additionEnvs <**> g (text "debug" jc_Debug).

(** [DeployConfig], inlined into [JobDeploy] *)
Definition deploy_of {R} (n : string) (get : DeployConfig -> string) (d : R -> DeployConfig) : field R :=
  text n (fun r => get (d r)).
Definition d_env : field JobDeploy :=
  Field (list_codec (k_env kc)) "env" true (fun r => dc_Env (jd_DeployConfig r)).
Definition d_secrets : field JobDeploy :=
  Field (slice_codec (k_ref kc)) "imagePullSecrets" true
    (fun r => dc_ImagePullSecrets (jd_DeployConfig r)).
Definition d_affinity : field JobDeploy :=
  Field (ptr_codec (k_affinity kc)) "affinity" true (fun r => dc_Affinity (jd_DeployConfig r)).
Definition d_tolerations : field JobDeploy :=
  Field (slice_codec (k_toleration kc)) "tolerations" true
    (fun r => dc_Tolerations (jd_DeployConfig r)).
Abbreviation dtext n get := (deploy_of n get jd_DeployConfig).

Definition deploy_schema : list (field JobDeploy) :=
  [dtext "image" dc_Image; d_env; dtext "imagePullPolicy" dc_ImagePullPolicy; d_secrets;
   dtext "nodeName" dc_NodeName; d_affinity; d_tolerations; dtext "cpuLimit" dc_CPULimit;
   dtext "memLimit" dc_MemoryLimit; text "disableFront" jd_DisableFront;
   text "frontMode" jd_FrontMode; text "frontImage" jd_FrontImage; text "frontCmd" jd_FrontCmd;
   text "disableRsync" jd_DisableRsync; text "rsyncImage" jd_RsyncImage; text "rsyncCmd" jd_RsyncCmd].
Definition build_deploy : builder JobDeploy := fun g =>
  (mkJobDeploy, false)
  <**> ((mkDeployConfig, false) <**> g (dtext "image" dc_Image) <**> g d_env
        <**> g (dtext "imagePullPolicy" dc_ImagePullPolicy) <**> g d_secrets
        <**> g (dtext "nodeName" dc_NodeName) <**> g d_affinity <**> g d_tolerations
        <**> g (dtext "cpuLimit" dc_CPULimit) <**> g (dtext "memLimit" dc_MemoryLimit))
  <**> g (text "disableFront" jd_DisableFront) <**> g (text "frontMode" jd_FrontMode)
  <**> g (text "frontImage" jd_FrontImage) <**> g (text "frontCmd" jd_FrontCmd)
  <**> g (text "disableRsync" jd_DisableRsync) <**> g (text "rsyncImage" jd_RsyncImage)
  <**> g (text "rsyncCmd" jd_RsyncCmd).

(** [PVConfig] *)
Definition storageClass : field PVConfig :=
  Field (ptr_codec string_codec) "storageClass" true pv_StorageClass.
Definition volume_schema : list (field PVConfig) :=
  [text "size" pv_Size; storageClass; text "accessMode" pv_AccessMode].
Definition build_volume : builder PVConfig := fun g =>
  (mkPVConfig, false) <**> g (text "size" pv_Size) <**> g storageClass
  <**> g (text "accessMode" pv_AccessMode).

(** [IngressConfig] *)
Definition annotations : field IngressConfig := Field map_codec "annotations" true ic_Annotations.
Definition ingress_schema : list (field IngressConfig) :=
  [text "ingressClass" ic_IngressClass; text "TLSSecret" ic_TLSSecret; text "host" ic_Host;
   annotations].
Definition build_ingress : builder IngressConfig := fun g =>
  (mkIngressConfig, false) <**> g (text "ingressClass" ic_IngressClass)
  <**> g (text "TLSSecret" ic_TLSSecret) <**> g (text "host" ic_Host) <**> g annotations.

Definition config_codec : codec JobConfig := struct_codec config_schema build_config zeroJobConfig.
Definition deploy_codec : codec JobDeploy := struct_codec deploy_schema build_deploy zeroJobDeploy.
Definition volume_codec : codec PVConfig := struct_codec volume_schema build_volume zeroPVConfig.
Definition ingress_codec : codec IngressConfig :=
  struct_codec ingress_schema build_ingress zeroIngressConfig.

(** [JobSpec] *)
Definition s_config : field JobSpec := Field config_codec "config" false js_Config.
Definition s_deploy : field JobSpec := Field deploy_codec "deploy" true js_Deploy.
Definition s_volume : field JobSpec := Field volume_codec "volume" true js_Volume.
Definition s_ingress : field JobSpec := Field ingress_codec "ingress" true js_Ingress.
Definition spec_schema : list (field JobSpec) := [s_config; s_deploy; s_volume; s_ingress].
Definition build_spec : builder JobSpec := fun g =>
  (mkJobSpec, false) <**> g s_config <**> g s_deploy <**> g s_volume <**> g s_ingress.
Definition spec_codec : codec JobSpec := struct_codec spec_schema build_spec zeroJobSpec.

(** [JobStatus] *)
Definition stext (n : string) (get : JobStatus -> string) : field JobStatus :=
  Field string_codec n false get.
Definition sint (n : string) (get : JobStatus -> Z) : field JobStatus := Field i64_codec n false get.
Definition s_size : field JobStatus := Field u64_codec "size" false st_Size.
Definition status_schema : list (field JobStatus) :=
  [stext "status" st_Status; sint "lastUpdate" LastUpdate; sint "lastStarted" LastStarted;
   sint "lastEnded" LastEnded; sint "nextSchedule" Scheduled; stext "upstream" st_Upstream;
   s_size; stext "errorMsg" ErrorMsg; sint "lastOnline" LastOnline; sint "lastRegister" LastRegister].
Definition build_status : builder JobStatus := fun g =>
  (mkJobStatus, false) <**> g (stext "status" st_Status) <**> g (sint "lastUpdate" LastUpdate)
  <**> g (sint "lastStarted" LastStarted) <**> g (sint "lastEnded" LastEnded)
  <**> g (sint "nextSchedule" Scheduled) <**> g (stext "upstream" st_Upstream) <**> g s_size
  <**> g (stext "errorMsg" ErrorMsg) <**> g (sint "lastOnline" LastOnline)
  <**> g (sint "lastRegister" LastRegister).
Definition status_codec : codec JobStatus := struct_codec status_schema build_status zeroJobStatus.

Lemma config_built : built config_schema build_config.
Proof. build_struct. Qed.
Lemma deploy_built : built deploy_schema build_deploy.
Proof. build_struct. Qed.
Lemma volume_built : built volume_schema build_volume.
Proof. build_struct. Qed.
Lemma ingress_built : built ingress_schema build_ingress.
Proof. build_struct. Qed.
Lemma spec_built : built spec_schema build_spec.
Proof. build_struct. Qed.
Lemma status_built : built status_schema build_status.
Proof. build_struct. Qed.
End schemas.

(** ** createJob *)

(** Reading into a [map[string]map[string]interface{}]. *)
Fixpoint decode_sections (l : list (string * json)) (acc : gmap string (gmap string json)) (e : bool)
    : gmap string (gmap string json) * bool :=
  match l with
  | [] => (acc, e)
  | (k, JObj kvs) :: l => decode_sections l (<[k := any <$> to_map kvs]> acc) e
  | (k, JNull) :: l => decode_sections l (<[k := ∅]> acc) e
  | (k, _) :: l => decode_sections l (<[k := ∅]> acc) true
  end.
Definition decode_maps (j : json) : gmap string (gmap string json) * bool :=
  match j with
  | JObj l => decode_sections l ∅ false
  | JNull => (∅, false)
  | _ => (∅, true)
  end.
Definition encode_maps (m : gmap string (gmap string json)) : json :=
  JObj (sorted_entries ((fun s => JObj (sorted_entries s)) <$> m)).

(** [for k, v := range val { o[key][k] = v }] *)
Definition merge_section (key : string) (patch o : gmap string (gmap string json))
    : outcome (gmap string (gmap string json)) :=
  match patch !! key with
  | None => Ret o
  | Some val =>
      match o !! key with
      | Some m => Ret (<[key := val ∪ m]> o)
      | None => if bool_decide (val = ∅) then Ret o else Panic "assignment to entry in nil map"
      end
  end.

Section create.
Context (kc : kube_codecs) {K : Type} `{!Client K JobSpec JobStatus}.

Definition merge_sections (o patch : gmap string (gmap string json))
    : outcome (gmap string (gmap string json)) :=
  o ← merge_section "config" patch o;
  o ← merge_section "deploy" patch o;
  o ← merge_section "volume" patch o;
  merge_section "ingress" patch o.

Definition handleMerge (oJobSpec jobSpec : gmap string (gmap string json))
    : handler K (option JobSpec) :=
  match merge_sections oJobSpec jobSpec with
  | Ret o =>
      let '(nJobSpec, failed) := decode (spec_codec kc) (encode_maps o) zeroJobSpec in
      if failed then emit (AbortWithError StatusBadRequest);; mret None else mret (Some nJobSpec)
  | Err m | Panic m => fun s => (s, Crash m)
  end.

(** [c.BindJSON] of a body, [None] when it is not JSON. *)
Definition bind_body {A} (dec : json -> A * bool) (old : A) (body : option json) : handler K A :=
  bindJSON (match body with
            | None => mkBound old true
            | Some j => mkBound (dec j).1 (dec j).2
            end).

Definition new_spec (mirrorID : string) (body : option json) : handler K JobSpec :=
  o ← client_get (Sp := JobSpec) (St := JobStatus) mirrorID;
  match o with
  | Err _ | Panic _ => bind_body (fun j => decode (spec_codec kc) j zeroJobSpec) zeroJobSpec body
  | Ret ojb =>
      let '(oJobSpec, failed) := decode_maps (encode (spec_codec kc) (Spec ojb)) in
      if failed then emit (AbortWithError StatusBadRequest);; return_
      else
        jobSpec ← bind_body decode_maps ∅ body;
        merged ← handleMerge oJobSpec jobSpec;
        hderef merged
  end.

(** The object that is applied. *)
Definition applied (mirrorID : string) (spec : JobSpec) : Job :=
  mkObject (mkMeta mirrorID "" 0) spec zeroJobStatus.

Definition createJob (mirrorID : string) (body : option json) : handler K unit :=
  deferred_unlock Locked (
    spec ← new_spec mirrorID body;
    e ← client_patch (applied mirrorID spec);
    match e with
    | Some e => update_failed ("failed to patch job " +:+ mirrorID +:+ ": ") e
    | None => cJSON StatusOK (BInfo ("patch " +:+ mirrorID +:+ " succeed"))
    end).
End create.

(** ** Laws of the schemas *)
Section laws.
Context (kc : kube_codecs) (Hkc : kube_lawful kc).

Lemma config_fields : forall f, f ∈ config_schema kc -> lawful (f_codec f).
Proof.
  destruct Hkc. each_field; first [apply string_lawful|apply int_lawful|by apply list_lawful].
Qed.
Lemma deploy_fields : forall f, f ∈ deploy_schema kc -> lawful (f_codec f).
Proof.
  destruct Hkc. each_field;
    first [apply string_lawful|by apply list_lawful|by apply slice_lawful|by apply ptr_lawful].
Qed.
Lemma volume_fields : forall f, f ∈ volume_schema -> lawful (f_codec f).
Proof. each_field; first [apply string_lawful|apply ptr_lawful, string_lawful]. Qed.
Lemma ingress_fields : forall f, f ∈ ingress_schema -> lawful (f_codec f).
Proof. each_field; first [apply string_lawful|apply map_lawful]. Qed.

Lemma config_zero : forall f, f ∈ config_schema kc -> f_get f zeroJobConfig = czero (f_codec f).
Proof. each_field; reflexivity. Qed.
Lemma deploy_zero : forall f, f ∈ deploy_schema kc -> f_get f zeroJobDeploy = czero (f_codec f).
Proof. each_field; reflexivity. Qed.
Lemma volume_zero : forall f, f ∈ volume_schema -> f_get f zeroPVConfig = czero (f_codec f).
Proof. each_field; reflexivity. Qed.
Lemma ingress_zero : forall f, f ∈ ingress_schema -> f_get f zeroIngressConfig = czero (f_codec f).
Proof. each_field; reflexivity. Qed.

Lemma spec_lawful : lawful (spec_codec kc).
Proof.
  apply struct_lawful; [apply spec_built| |each_field; reflexivity].
  each_field; apply struct_lawful;
    auto using config_built, deploy_built, volume_built, ingress_built, config_fields, deploy_fields,
      volume_fields, ingress_fields, config_zero, deploy_zero, volume_zero, ingress_zero.
Qed.

Lemma status_lawful : lawful status_codec.
Proof.
  apply struct_lawful; [apply status_built| |each_field; reflexivity].
  each_field; first [apply string_lawful|apply int_lawful].
Qed.

(** ** A merge replaces fields *)

Definition part (key : string) (patch : gmap string (gmap string json)) : gmap string json :=
  default ∅ (patch !! key).

(** The specification with the fields of the patch replaced. *)
Definition patched_spec (patch : gmap string (gmap string json)) (sp : JobSpec) : JobSpec * bool :=
  (mkJobSpec, false)
  <**> patched (build_config kc) (part "config" patch) (js_Config sp)
  <**> patched (build_deploy kc) (part "deploy" patch) (js_Deploy sp)
  <**> patched build_volume (part "volume" patch) (js_Volume sp)
  <**> patched build_ingress (part "ingress" patch) (js_Ingress sp).

(** The keys of the patch are spelled as the fields' JSON names. *)
Definition well_spelled (patch : gmap string (gmap string json)) : Prop :=
  spelled (config_schema kc) (part "config" patch) /\ spelled (deploy_schema kc) (part "deploy" patch)
  /\ spelled volume_schema (part "volume" patch) /\ spelled ingress_schema (part "ingress" patch).

(** Every field holds a value of its type that JSON and [float64] preserve. *)
Definition exact_in {R} (schema : list (field R)) (r : R) : Prop :=
  Forall (fun f => cfits (f_codec f) (f_get f r)) schema
  /\ Forall (fun f => cexact (f_codec f) (f_get f r)) schema.
Definition plain_spec (sp : JobSpec) : Prop :=
  exact_in (config_schema kc) (js_Config sp) /\ exact_in (deploy_schema kc) (js_Deploy sp)
  /\ exact_in volume_schema (js_Volume sp) /\ exact_in ingress_schema (js_Ingress sp).

(** The stored specification as maps. *)
Definition spec_maps (sp : JobSpec) : gmap string (gmap string json) :=
  <["ingress" := as_map ingress_schema (js_Ingress sp)]>
  (<["volume" := as_map volume_schema (js_Volume sp)]>
  (<["deploy" := as_map (deploy_schema kc) (js_Deploy sp)]>
  (<["config" := as_map (config_schema kc) (js_Config sp)]> ∅))).

Lemma decode_spec_maps sp : decode_maps (encode (spec_codec kc) sp) = (spec_maps sp, false).
Proof.
  unfold spec_codec. cbn [encode struct_codec]. unfold encode_fields at 1. unfold spec_schema.
  cbn [omap list_omap]. unfold encode_field.
  cbn [s_config s_deploy s_volume s_ingress f_omit f_codec f_get f_name andb fmap option_fmap option_map].
  unfold config_codec, deploy_codec, volume_codec, ingress_codec.
  cbn [cempty encode struct_codec decode_maps decode_sections]. unfold spec_maps, as_map. reflexivity.
Qed.

(** A section that is there takes the patch's keys, and no other section changes. *)
Lemma merge_section_there key patch o m :
  o !! key = Some m ->
  exists o', merge_section key patch o = Ret o' /\ o' !! key = Some (part key patch ∪ m) /\
    forall k, k <> key -> o' !! k = o !! k.
Proof.
  intros Hm. unfold merge_section, part. destruct (patch !! key) as [val|]; simpl.
  - rewrite Hm. eexists. split; [done|]. split; [by rewrite lookup_insert_eq|].
    intros k Hk. by apply lookup_insert_ne.
  - eexists. split; [done|]. split; [by rewrite (left_id_L ∅ (∪))|done].
Qed.

Lemma merge_sections_there patch sp :
  exists o, merge_sections (spec_maps sp) patch = Ret o /\
    o !! "config" = Some (part "config" patch ∪ as_map (config_schema kc) (js_Config sp)) /\
    o !! "deploy" = Some (part "deploy" patch ∪ as_map (deploy_schema kc) (js_Deploy sp)) /\
    o !! "volume" = Some (part "volume" patch ∪ as_map volume_schema (js_Volume sp)) /\
    o !! "ingress" = Some (part "ingress" patch ∪ as_map ingress_schema (js_Ingress sp)) /\
    forall k f, f ∈ spec_schema kc -> is_Some (o !! k) -> same_key k (f_name f) = true -> k = f_name f.
Proof.
  unfold merge_sections.
  destruct (merge_section_there "config" patch (spec_maps sp) _ eq_refl) as (o1 & -> & E1 & F1).
  rewrite outcome_bind_ret_l.
  destruct (merge_section_there "deploy" patch o1 (as_map (deploy_schema kc) (js_Deploy sp)))
    as (o2 & -> & E2 & F2); [by rewrite F1|]. rewrite outcome_bind_ret_l.
  destruct (merge_section_there "volume" patch o2 (as_map volume_schema (js_Volume sp)))
    as (o3 & -> & E3 & F3); [by rewrite F2, F1|]. rewrite outcome_bind_ret_l.
  destruct (merge_section_there "ingress" patch o3 (as_map ingress_schema (js_Ingress sp)))
    as (o4 & -> & E4 & F4); [by rewrite F3, F2, F1|].
  exists o4. split; [done|]. split_and!.
  - by rewrite F4, F3, F2.
  - by rewrite F4, F3.
  - by rewrite F4.
  - done.
  - intros k f Hf Hk Hs.
    assert (Hin : k ∈ ["config"; "deploy"; "volume"; "ingress"]).
    { destruct (decide (k ∈ ["config"; "deploy"; "volume"; "ingress"])) as [|Hn]; [done|exfalso].
      rewrite !not_elem_of_cons in Hn. destruct Hn as (N1 & N2 & N3 & N4 & _).
      rewrite F4, F3, F2, F1 in Hk by done. unfold spec_maps in Hk.
      rewrite !lookup_insert_ne, lookup_empty in Hk by done. by destruct Hk. }
    revert f Hf Hs. repeat (apply elem_of_cons in Hin as [->|Hin]; [each_field; vm_compute; done|]).
    by apply elem_of_nil in Hin.
Qed.

(** What handleMerge reads back. *)
Lemma merged_spec patch sp o :
  well_spelled patch -> plain_spec sp -> merge_sections (spec_maps sp) patch = Ret o ->
  decode (spec_codec kc) (encode_maps o) zeroJobSpec = patched_spec patch sp.
Proof.
  intros (S1 & S2 & S3 & S4) ([P1 Q1] & [P2 Q2] & [P3 Q3] & [P4 Q4]) Eo.
  destruct (merge_sections_there patch sp) as (o' & Eo' & E1 & E2 & E3 & E4 & Hk).
  assert (o' = o) as -> by congruence. clear Eo Eo'.
  pose proof (merge_is_patch _ _ (config_built kc) zeroJobConfig config_fields config_zero _ _ S1 P1 Q1) as M1.
  pose proof (merge_is_patch _ _ (deploy_built kc) zeroJobDeploy deploy_fields deploy_zero _ _ S2 P2 Q2) as M2.
  pose proof (merge_is_patch _ _ volume_built zeroPVConfig volume_fields volume_zero _ _ S3 P3 Q3) as M3.
  pose proof (merge_is_patch _ _ ingress_built zeroIngressConfig ingress_fields ingress_zero _ _ S4 P4 Q4) as M4.
  unfold encode_maps. set (l := sorted_entries _).
  assert (Hfield : forall f, f ∈ spec_schema kc -> decode_field l f (f_get f zeroJobSpec)
    = match (fun s => JObj (sorted_entries s)) <$> o !! f_name f with
      | Some j => decode (f_codec f) j (f_get f zeroJobSpec) | None => (f_get f zeroJobSpec, false) end).
  { intros f Hf. rewrite decode_field_lookup.
    - unfold l. by rewrite to_map_sorted, lookup_fmap.
    - apply sorted_entries_NoDup.
    - intros k ([k' j] & -> & Hin%elem_sorted_entries)%list_elem_of_fmap Hs. cbn [fst] in *.
      apply lookup_fmap_Some in Hin as (s & _ & Hin). eapply Hk; eauto. }
  change (decode (spec_codec kc) (JObj l) zeroJobSpec)
    with (build_spec kc (fun f => decode_field l f (f_get f zeroJobSpec))).
  unfold build_spec, patched_spec.
  rewrite !Hfield by (unfold spec_schema; set_solver). cbn [f_name s_config s_deploy s_volume s_ingress].
  rewrite E1, E2, E3, E4. cbn [fmap option_fmap option_map].
  unfold s_config, s_deploy, s_volume, s_ingress, zeroJobSpec.
  cbn [f_type f_codec f_get js_Config js_Deploy js_Volume js_Ingress].
  unfold config_codec, deploy_codec, volume_codec, ingress_codec.
  by rewrite M1, M2, M3, M4.
Qed.
End laws.

(** ** What a request does *)

(** The value of a field after the patch. *)
Definition replaced {R} (patch : gmap string json) (r : R) (f : field R) : f_type f :=
  match patch !! f_name f with
  | Some j => (decode (f_codec f) j (czero (f_codec f))).1
  | None => f_get f r
  end.
(** A value of the patch that its field cannot hold. *)
Definition ill_typed {R} (patch : gmap string json) (f : field R) : bool :=
  match patch !! f_name f with
  | Some j => (decode (f_codec f) j (czero (f_codec f))).2
  | None => false
  end.

Lemma patched_replaces {R} (schema : list (field R)) build patch r :
  built schema build ->
  (forall f, f ∈ schema -> f_get f (patched build patch r).1 = replaced patch r f) /\
  (patched build patch r).2 = existsb (ill_typed patch) schema.
Proof.
  intros Hb. unfold patched. split.
  - intros f Hf. rewrite (build_proj _ _ Hb _ f Hf). unfold replaced. by destruct (patch !! f_name f).
  - rewrite (build_err _ _ Hb). clear Hb. induction schema as [|f fs IH]; cbn; [done|].
    rewrite IH. f_equal. unfold ill_typed. by destruct (patch !! f_name f).
Qed.

Section requests.
Context (kc : kube_codecs) (Hkc : kube_lawful kc) {K : Type} `{!Client K JobSpec JobStatus}.

Definition ill_typed_spec (patch : gmap string (gmap string json)) : bool :=
  existsb (ill_typed (part "config" patch)) (config_schema kc)
  || existsb (ill_typed (part "deploy" patch)) (deploy_schema kc)
  || existsb (ill_typed (part "volume" patch)) volume_schema
  || existsb (ill_typed (part "ingress" patch)) ingress_schema.

Lemma patched_spec_replaces patch sp :
  let sp' := (patched_spec kc patch sp).1 in
  (forall f, f ∈ config_schema kc ->
     f_get f (js_Config sp') = replaced (part "config" patch) (js_Config sp) f) /\
  (forall f, f ∈ deploy_schema kc ->
     f_get f (js_Deploy sp') = replaced (part "deploy" patch) (js_Deploy sp) f) /\
  (forall f, f ∈ volume_schema ->
     f_get f (js_Volume sp') = replaced (part "volume" patch) (js_Volume sp) f) /\
  (forall f, f ∈ ingress_schema ->
     f_get f (js_Ingress sp') = replaced (part "ingress" patch) (js_Ingress sp) f) /\
  (patched_spec kc patch sp).2 = ill_typed_spec patch.
Proof.
  unfold patched_spec, ill_typed_spec.
  destruct (patched_replaces _ _ (part "config" patch) (js_Config sp) (config_built kc)) as [H1 E1].
  destruct (patched_replaces _ _ (part "deploy" patch) (js_Deploy sp) (deploy_built kc)) as [H2 E2].
  destruct (patched_replaces _ _ (part "volume" patch) (js_Volume sp) volume_built) as [H3 E3].
  destruct (patched_replaces _ _ (part "ingress" patch) (js_Ingress sp) ingress_built) as [H4 E4].
  cbn [ap fst snd js_Config js_Deploy js_Volume js_Ingress].
  split_and!; try done. by rewrite <-E1, <-E2, <-E3, <-E4, orb_false_l.
Qed.

Lemma bind_next {A B} (h : handler K A) (g : A -> handler K B) s s' a :
  h s = (s', Next a) -> (h ≫= g) s = g a s'.
Proof. unfold mbind, handler_bind. by intros ->. Qed.
Lemma bind_crash {A B} (h : handler K A) (g : A -> handler K B) s s' m :
  h s = (s', Crash m) -> (h ≫= g) s = (s', Crash m).
Proof. unfold mbind, handler_bind. by intros ->. Qed.
Lemma client_patch_bind {B} (j : Job) (g : option string -> handler K B) (s : hstate K) :
  (client_patch j ≫= g) s
  = let '(k', e) := kPatch j (cluster s) in
    g e (mkHS k' (rwmu s) (calls s) (ginErrors s) (tick s) (posts s)).
Proof.
  unfold client_patch. unfold mbind, handler_bind, get_cluster, set_cluster. cbn.
  by destruct (kPatch j (cluster s)).
Qed.
Lemma client_get_bind {B} id (g : outcome Job -> handler K B) (s : hstate K) :
  (client_get id ≫= g) s = g (kGet id (cluster s)) s.
Proof. reflexivity. Qed.
Lemma bindJSON_ok {A B} (a : A) (g : A -> handler K B) (s : hstate K) :
  (bindJSON (mkBound a false) ≫= g) s = g a s.
Proof. reflexivity. Qed.

(** The merge of a patch into what is stored, in a handler. *)
Lemma new_spec_existing id (ojb : Job) body patch (k : K) m cs es t ps :
  kGet id k = Ret ojb -> plain_spec kc (Spec ojb) -> decode_maps body = (patch, false) ->
  well_spelled kc patch ->
  new_spec kc id (Some body) (mkHS k m cs es t ps)
  = if ill_typed_spec patch
    then (mkHS k m (cs ++ [AbortWithError StatusBadRequest]) es t ps,
          Crash "nil pointer dereference")
    else (mkHS k m cs es t ps, Next (patched_spec kc patch (Spec ojb)).1).
Proof.
  intros Hg Hp Hd Hs. destruct (merge_sections_there kc patch (Spec ojb)) as (o & Eo & _).
  pose proof (merged_spec kc Hkc patch (Spec ojb) o Hs Hp Eo) as Hm.
  destruct (patched_spec_replaces patch (Spec ojb)) as (_ & _ & _ & _ & Herr).
  unfold new_spec. rewrite client_get_bind. cbn [cluster].
  rewrite Hg, decode_spec_maps. unfold bind_body. rewrite Hd. cbn [fst snd].
  rewrite bindJSON_ok. unfold handleMerge. rewrite Eo, Hm. rewrite <-Herr.
  by destruct (patched_spec kc patch (Spec ojb)) as [sp []].
Qed.

(** The object is applied and the request answered. *)
Definition apply_spec (id : string) (sp : JobSpec) (k : K) (cs : list call) (es : list string) (t : nat)
    (ps : list (string * Sizes.ClientCmd)) : hstate K * flow unit :=
  match kPatch (applied id sp) k with
  | (k', None) =>
      (mkHS k' Free (cs ++ [JSON StatusOK (BInfo ("patch " +:+ id +:+ " succeed"))]) es t ps, Next tt)
  | (k', Some e) =>
      let err := "failed to patch job " +:+ id +:+ ": " +:+ e in
      (mkHS k' Free (cs ++ [JSON StatusInternalServerError (BError err)]) (es ++ [err]) t ps, Return)
  end.

(** A handler that goes on with the specification [sp]. *)
Lemma createJob_with id body sp cs' (k : K) cs es t ps :
  new_spec kc id body (mkHS k Locked cs es t ps) = (mkHS k Locked cs' es t ps, Next sp) ->
  createJob kc id body (mkHS k Free cs es t ps) = apply_spec id sp k cs' es t ps.
Proof.
  intros H. unfold createJob, deferred_unlock, apply_spec.
  cbn [rwmu set_mutex cluster calls ginErrors tick posts].
  rewrite (bind_next _ _ _ _ _ H), client_patch_bind. cbn [cluster].
  destruct (kPatch (applied id sp) k) as [k' [e|]]; [|done].
  unfold update_failed. cbn. by rewrite !Strings.app_assoc.
Qed.

Lemma createJob_crash id body m cs' (k : K) cs es t ps :
  new_spec kc id body (mkHS k Locked cs es t ps) = (mkHS k Locked cs' es t ps, Crash m) ->
  createJob kc id body (mkHS k Free cs es t ps) = (mkHS k Free cs' es t ps, Crash m).
Proof.
  intros H. unfold createJob, deferred_unlock.
  cbn [rwmu set_mutex cluster calls ginErrors tick posts]. by rewrite (bind_crash _ _ _ _ _ H).
Qed.
End requests.

(** ** What a POST writes *)
Section creates.
Context (kc : kube_codecs) {K : Type} `{!Client K JobSpec JobStatus}.

Lemma handleMerge_reads o patch Q (k : K) m cs es t p :
  (forall s r, cluster s = k -> Q s r) -> wp (handleMerge kc o patch) Q (mkHS k m cs es t p).
Proof.
  intros HQ. unfold handleMerge. destruct (merge_sections o patch) as [x|e|e]; [|by apply HQ..].
  destruct (decode _ _ _) as [sp [|]]; job_steps; by apply HQ.
Qed.
Lemma hderef_reads {A} (x : option A) Q (s : hstate K) k :
  (forall s r, cluster s = k -> Q s r) -> cluster s = k -> wp (hderef x) Q s.
Proof. intros HQ Hs. destruct x; by apply HQ. Qed.

(** Computing the new specification writes nothing. *)
Lemma new_spec_reads id body Q (k : K) m cs es t p :
  (forall s r, cluster s = k -> Q s r) -> wp (new_spec kc id body) Q (mkHS k m cs es t p).
Proof.
  intros HQ. unfold new_spec, bind_body. job_steps; try by apply HQ.
  apply handleMerge_reads. intros s [x| |e|] Hs; try by apply HQ. by apply (hderef_reads x Q s k).
Qed.

(** The handler writes nothing, or applies one object; it runs to its end only after
    an application that succeeded. *)
Lemma createJob_cases id body (k : K) cs es t p s' fl :
  createJob kc id body (mkHS k Free cs es t p) = (s', fl) ->
  (cluster s' = k /\ fl <> Next tt) \/
  exists sp e, kPatch (applied id sp) k = (cluster s', e) /\ (fl = Next tt -> e = None).
Proof.
  intros Hs. run_handler Hs. unfold createJob. apply wp_deferred_unlock, wp_bind, new_spec_reads.
  intros [k1 m1 cs1 es1 t1 p1] [sp| |e|] Hk; cbn in Hk; subst k1; [|by left..].
  job_steps; right; eexists sp, _; (split; [cbn [cluster set_mutex]; eassumption|done]).
Qed.
End creates.

(** C15: A POST to an existing job changes the fields it names and no others: with a
    body whose keys are spelled as the fields are and whose values have the
    fields' types, the manager applies, in one patch of the object, a
    specification in which every named field of the four sections has the value
    from the body and every other field, the stored one. *)
Theorem create_replaces_given_fields (kc : kube_codecs) {K : Type} `{!Client K JobSpec JobStatus}
    (id : string) (ojb : Job) (body : json) (patch : gmap string (gmap string json)) (k : K)
    (cs : list call) (es : list string) (t : nat) (ps : list (string * Sizes.ClientCmd)) :
  kube_lawful kc -> kGet id k = Ret ojb -> plain_spec kc (Spec ojb) ->
  decode_maps body = (patch, false) -> well_spelled kc patch -> ill_typed_spec kc patch = false ->
  exists sp,
    createJob kc id (Some body) (mkHS k Free cs es t ps) = apply_spec id sp k cs es t ps /\
    (forall f, f ∈ config_schema kc ->
       f_get f (js_Config sp) = replaced (part "config" patch) (js_Config (Spec ojb)) f) /\
    (forall f, f ∈ deploy_schema kc ->
       f_get f (js_Deploy sp) = replaced (part "deploy" patch) (js_Deploy (Spec ojb)) f) /\
    (forall f, f ∈ volume_schema ->
       f_get f (js_Volume sp) = replaced (part "volume" patch) (js_Volume (Spec ojb)) f) /\
    (forall f, f ∈ ingress_schema ->
       f_get f (js_Ingress sp) = replaced (part "ingress" patch) (js_Ingress (Spec ojb)) f).
Proof.
  intros Hkc Hg Hp Hd Hs Ht. exists (patched_spec kc patch (Spec ojb)).1. split.
  - apply createJob_with. by rewrite (new_spec_existing kc Hkc id ojb body patch), Ht.
  - destruct (patched_spec_replaces kc patch (Spec ojb)) as (H1 & H2 & H3 & H4 & _). done.
Qed.

(** A POST to an existing job with a value of the wrong type writes nothing: the
    handler answers 400, then dereferences the missing specification and panics;
    the cluster is unchanged and the manager's mutex free. *)
Theorem ill_typed_patch_writes_nothing (kc : kube_codecs) {K : Type} `{!Client K JobSpec JobStatus}
    (id : string) (ojb : Job) (body : json) (patch : gmap string (gmap string json)) (k : K)
    (cs : list call) (es : list string) (t : nat) (ps : list (string * Sizes.ClientCmd)) :
  kube_lawful kc -> kGet id k = Ret ojb -> plain_spec kc (Spec ojb) ->
  decode_maps body = (patch, false) -> well_spelled kc patch -> ill_typed_spec kc patch = true ->
  createJob kc id (Some body) (mkHS k Free cs es t ps)
  = (mkHS k Free (cs ++ [AbortWithError StatusBadRequest]) es t ps, Crash "nil pointer dereference").
Proof.
  intros Hkc Hg Hp Hd Hs Ht. apply createJob_crash.
  by rewrite (new_spec_existing kc Hkc id ojb body patch), Ht.
Qed.

(** A POST to a job that does not exist with a body that is not JSON still
    creates the job: the request is answered 400, and the manager goes on to apply
    an empty specification, whose success it reports. *)
Theorem bad_body_creates_empty_job (kc : kube_codecs) {K : Type} `{!Client K JobSpec JobStatus}
    (id e : string) (k : K) (cs : list call) (es : list string) (t : nat)
    (ps : list (string * Sizes.ClientCmd)) :
  kGet (Sp := JobSpec) (St := JobStatus) id k = Err e ->
  createJob kc id None (mkHS k Free cs es t ps)
  = apply_spec id zeroJobSpec k (cs ++ [AbortWithError StatusBadRequest]) es t ps.
Proof.
  intros Hg. apply createJob_with. unfold new_spec. rewrite client_get_bind. cbn [cluster].
  by rewrite Hg.
Qed.

(** A status survives the wire: whatever status the worker reports and the
    manager answers with, within the ranges of its integer fields, decodes to
    itself. *)
Theorem status_survives_the_wire (st : JobStatus) :
  Forall in_i64 [LastUpdate st; LastStarted st; LastEnded st; Scheduled st; LastOnline st; LastRegister st] ->
  in_u64 (st_Size st) ->
  decode status_codec (encode status_codec st) zeroJobStatus = (st, false).
Proof.
  intros Hi Hu. apply (law_decode _ status_lawful). cbn [cfits status_codec struct_codec].
  rewrite !Forall_cons in Hi. unfold status_schema. rewrite !Forall_cons.
  split_and!; try exact I; try apply Hi; try exact Hu. constructor.
Qed.

(** ** An example *)
Module JsonDemo.
Definition d_value : field EnvVar := text "value" env_value.
Definition d_from : field EnvVar := Field (ptr_codec string_codec) "valueFrom" true env_field.
Definition env_schema : list (field EnvVar) := [text "name" env_name; d_value; d_from].
Definition build_env : builder EnvVar := fun g =>
  (mkEnv, false) <**> g (text "name" env_name) <**> g d_value <**> g d_from.
Definition kc : kube_codecs :=
  mkKube (struct_codec env_schema build_env (mkEnv "" "" None)) string_codec string_codec string_codec.

Lemma env_built : built env_schema build_env.
Proof. build_struct. Qed.
Lemma kc_lawful : kube_lawful kc.
Proof.
  split; try apply string_lawful.
  apply struct_lawful; [apply env_built| |each_field; reflexivity].
  each_field; first [apply string_lawful|apply ptr_lawful, string_lawful].
Qed.

Definition config : JobConfig :=
  mkJobConfig "" "Debian" "" "" "" "rsync://a/" "rsync" "" "" 0 120 0 0 "" "" "" "" "" "" "" "" "" [] "".
Definition job : Job := mkObject (mkMeta "debian" "ns" 5)
  (mkJobSpec config zeroJobDeploy (mkPVConfig "1Ti" None "") zeroIngressConfig) zeroJobStatus.
Definition cluster : Demo.cluster_ := mkStore {["debian" := job]} {["debian" := job]} 6.

Definition body : json := JObj [("config", JObj [("interval", JNum 60); ("alias", JStr "deb")])].
Definition patch : gmap string (gmap string json) :=
  {["config" := <["alias" := JStr "deb"]> {["interval" := JNum 60]}]}.
Definition bad_body : json := JObj [("config", JObj [("interval", JStr "hourly")])].
Definition bad_patch : gmap string (gmap string json) :=
  {["config" := {["interval" := JStr "hourly"]}]}.

Lemma stored_job : kGet (Sp := JobSpec) (St := JobStatus) "debian" cluster = Ret job.
Proof. vm_compute. reflexivity. Qed.

Lemma plain : plain_spec kc (Spec job).
Proof.
  repeat split; unfold config_schema, deploy_schema, volume_schema, ingress_schema;
    repeat (apply Forall_cons_2; [cbn; repeat split; done|]); constructor.
Qed.

(** A patch of the configuration whose keys are fields. *)
Lemma spelled_config (names : gmap string json) :
  Forall (fun k => existsb (fun f => String.eqb k (f_name f)) (config_schema kc) = true)
    (map_to_list names).*1 ->
  well_spelled kc {["config" := names]}.
Proof.
  intros H. unfold well_spelled, part. rewrite lookup_singleton_eq, !lookup_singleton_ne by done.
  split_and!; try (intros k j f Hk; cbn in Hk; by rewrite lookup_empty in Hk).
  intros k j f Hk Hf Hs. rewrite Forall_forall in H.
  assert (Hin : k ∈ (map_to_list names).*1).
  { apply list_elem_of_fmap. exists (k, j). split; [done|]. by apply elem_of_map_to_list. }
  apply H, existsb_exists in Hin as (f' & Hf' & ->%String.eqb_eq).
  f_equal. apply (build_keys _ _ (config_built kc)); [by apply list_elem_of_In|done|done].
Qed.
End JsonDemo.

Lemma create_replaces_given_fields_witness :
  exists sp, fst (createJob JsonDemo.kc "debian" (Some JsonDemo.body) (Demo.start JsonDemo.cluster))
      = fst (apply_spec "debian" sp JsonDemo.cluster [] [] 0 []) /\
    jc_Interval (js_Config sp) = 60 /\ jc_Alias (js_Config sp) = "deb" /\
    jc_Desc (js_Config sp) = "Debian" /\ pv_Size (js_Volume sp) = "1Ti".
Proof.
  destruct (create_replaces_given_fields JsonDemo.kc "debian" JsonDemo.job JsonDemo.body JsonDemo.patch
    JsonDemo.cluster [] [] 0 [] JsonDemo.kc_lawful JsonDemo.stored_job JsonDemo.plain)
    as (sp & E & H1 & _ & H3 & _).
  - vm_compute. reflexivity.
  - apply JsonDemo.spelled_config. vm_compute. repeat constructor.
  - vm_compute. reflexivity.
  - exists sp. split; [by rewrite <-E|]. split_and!.
    + etransitivity; [exact (H1 (int "interval" jc_Interval) (list_elem_of_lookup_2 (config_schema JsonDemo.kc) 10 _ eq_refl))|].
      vm_compute. reflexivity.
    + etransitivity; [exact (H1 (text "alias" jc_Alias) (list_elem_of_lookup_2 (config_schema JsonDemo.kc) 0 _ eq_refl))|].
      vm_compute. reflexivity.
    + etransitivity; [exact (H1 (text "desc" jc_Desc) (list_elem_of_lookup_2 (config_schema JsonDemo.kc) 1 _ eq_refl))|].
      vm_compute. reflexivity.
    + etransitivity; [exact (H3 (text "size" pv_Size) (list_elem_of_lookup_2 volume_schema 0 _ eq_refl))|].
      vm_compute. reflexivity.
Defined.

Lemma ill_typed_patch_writes_nothing_witness :
  createJob JsonDemo.kc "debian" (Some JsonDemo.bad_body) (Demo.start JsonDemo.cluster)
  = (mkHS JsonDemo.cluster Free [AbortWithError 400] [] 0 [], Crash "nil pointer dereference").
Proof.
  apply (ill_typed_patch_writes_nothing JsonDemo.kc "debian" JsonDemo.job JsonDemo.bad_body
    JsonDemo.bad_patch JsonDemo.cluster [] [] 0 [] JsonDemo.kc_lawful
    JsonDemo.stored_job JsonDemo.plain).
  - vm_compute. reflexivity.
  - apply JsonDemo.spelled_config. vm_compute. repeat constructor.
  - vm_compute. reflexivity.
Defined.

Lemma bad_body_creates_empty_job_witness :
  createJob JsonDemo.kc "typo" None (Demo.start JsonDemo.cluster)
  = apply_spec "typo" zeroJobSpec JsonDemo.cluster [AbortWithError 400] [] 0 [].
Proof.
  apply (bad_body_creates_empty_job JsonDemo.kc "typo" "typo not found" JsonDemo.cluster [] [] 0 []).
  vm_compute. reflexivity.
Defined.

Lemma status_survives_the_wire_witness :
  decode status_codec (encode status_codec Demo.syncing) zeroJobStatus = (Demo.syncing, false).
Proof.
  apply (status_survives_the_wire Demo.syncing).
  - repeat (apply Forall_cons_2; [unfold in_i64, two63; cbn; lia|]). constructor.
  - unfold in_u64, two64. cbn. lia.
Defined.
