(* ===== verification/External.v ===== *)
(** * External mirror lists (src/manager/external)

    A job of type [External] stands for the mirrors another service lists; the
    only provider is a Gitea server.  [search] is the request to that server
    (its URL resolution, transport and JSON decoding), [rfc3339] is
    [time.Parse(time.RFC3339, _)] as Unix seconds. *)

From S2P Require Import Prelude GoLib Types Sizes.

Record giteaRepo := mkGiteaRepo {
  gr_ID : Z; gr_Name : string; gr_FullName : string; gr_Desc : string; gr_Empty : bool;
  gr_Size : Z; gr_CloneUrl : string; gr_OriginalUrl : string; gr_Interval : string;
  gr_Updated : string;
}.
Record giteaMsg := mkGiteaMsg { gm_OK : bool; gm_Data : list giteaRepo }.

Section gitea.
Context (search : string -> outcome (Z * outcome giteaMsg)).
Context (rfc3339 : string -> option Z).

Definition getStatus (r : giteaRepo) : SyncStatus := if gr_Empty r then Syncing else Success.

(** The receiver of [.Unix()] is nil when the time does not parse. *)
Definition getTime (r : giteaRepo) : outcome Z := deref (rfc3339 (gr_Updated r)).

Definition getStatusZ (r : giteaRepo) : outcome string :=
  if gr_Empty r then Ret "U"
  else t ← getTime r; Ret ("S" +:+ Strconv.Itoa t).

Definition fetch (url : string) : outcome giteaMsg :=
  '(code, body) ← search url;
  if negb (code =? 200) then Err "HTTP status code is not 200"
  else info ← body;
       if negb (gm_OK info) then Err "gitea not ok" else Ret info.

Definition repo_size (r : giteaRepo) : Z := u64 (gr_Size r * K).

Definition repo_status (v : giteaRepo) : outcome MirrorStatus :=
  t ← getTime v;
  Ret (mkMirrorStatus (gr_Name v) "" (gr_Desc v) (gr_CloneUrl v) "" "git"
         (ParseSize (repo_size v))
         (mkJobStatus (getStatus v) t 0 0 0 (gr_OriginalUrl v) (repo_size v) "" 0 0)).

Definition repo_mirror (v : giteaRepo) : outcome mirrorz.Mirror :=
  s ← getStatusZ v;
  Ret (mirrorz.mkMirror (Strings.ToLower (gr_Name v) +:+ ".git") (gr_Desc v) (gr_CloneUrl v)
         s "" (gr_OriginalUrl v) (ParseSize (repo_size v)) false).

Definition gitea_List (url : string) : outcome (list MirrorStatus) :=
  info ← fetch url; mapM repo_status (gm_Data info).
Definition gitea_ListZ (url : string) : outcome (list mirrorz.Mirror) :=
  info ← fetch url; mapM repo_mirror (gm_Data info).

(** [Provider(cfg).List()]: the interface is nil for any other provider. *)
Definition Provider (cfg : JobConfig) : option string :=
  if String.eqb (jc_Provider cfg) "gitea" then Some (jc_Upstream cfg) else None.
Definition external_List (cfg : JobConfig) : outcome (list MirrorStatus) :=
  url ← deref (Provider cfg); gitea_List url.
Definition external_ListZ (cfg : JobConfig) : outcome (list mirrorz.Mirror) :=
  url ← deref (Provider cfg); gitea_ListZ url.

Lemma mapM_no_panic {A B} (f : A -> outcome B) l :
  Forall (fun a => is_panic (f a) = false) l -> is_panic (mapM f l) = false.
Proof.
  induction 1 as [|a l Ha Hl IH]; [done|]. simpl.
  destruct (f a); [|done|done]. simpl. by destruct (mapM f l).
Qed.

(** Listing an external job panics only through its two nil pointers: the
    provider is not "gitea", or the server lists a repository whose time does
    not parse; in the mirrorz list empty repositories are exempt from the
    latter. *)
Lemma external_list_panics_only_on_nil cfg :
  (forall url, is_panic (search url) = false) ->
  (forall url code body, search url = Ret (code, body) -> is_panic body = false) ->
  jc_Provider cfg = "gitea" ->
  (forall url code info, search url = Ret (code, Ret info) ->
     Forall (fun r => is_Some (rfc3339 (gr_Updated r))) (gm_Data info)) ->
  is_panic (external_List cfg) = false /\ is_panic (external_ListZ cfg) = false.
Proof.
  intros Hs Hb Hp Ht. unfold external_List, external_ListZ, Provider. rewrite Hp. simpl.
  unfold gitea_List, gitea_ListZ, fetch. specialize (Hs (jc_Upstream cfg)).
  destruct (search (jc_Upstream cfg)) as [[code body]|e|e] eqn:E; [|done..]. simpl.
  destruct (negb (code =? 200)); [done|]. specialize (Hb _ _ _ E).
  destruct body as [info|e|e]; [|done..]. specialize (Ht _ _ _ E). simpl.
  destruct (negb (gm_OK info)); [done|]. simpl.
  split; apply mapM_no_panic; (eapply Forall_impl; [exact Ht|]); intros r [z Hz];
    unfold repo_status, repo_mirror, getStatusZ, getTime; rewrite Hz; simpl; [done|].
  by destruct (gr_Empty r).
Qed.
End gitea.
