(* ===== verification/ManagerObjects.v ===== *)
(** * Announcements, files and the listings of the manager (src/manager/server.go)

    The handlers of announcements and files, the three sorted listings, and the
    mirrorz document. *)

From stdpp Require Import sorting.
From S2P Require Import Prelude GoLib Types Sizes Recognizer Kube Gin External.

(** An object built in a handler: only its name is set. *)
Definition named {Sp St} (id : string) (sp : Sp) (st : St) : object Sp St :=
  mkObject (mkMeta id "" 0) sp st.

Section objects.
Context {K : Type} `{!Client K JobSpec JobStatus}
  `{!Client K AnnouncementSpec AnnouncementStatus} `{!Client K FileSpec FileStatus}.
Context `{!SortSlice}.
Context (now : nat -> Z).
Context (search : string -> outcome (Z * outcome giteaMsg)) (rfc3339 : string -> option Z).

(** ** Announcements *)

Definition GetAnnouncement (id : string) : handler K (option Announcement * option string) :=
  get_object "failed to get announcement: " id.

(** The keys a patch of an announcement may carry. *)
Definition merge_news (patch : gmap string string) (o : AnnouncementSpec) : AnnouncementSpec :=
  mkAnnouncementSpec (default (Title o) (patch !! "title"))
    (default (Author o) (patch !! "author")) (default (Content o) (patch !! "content")).

(** The body is decoded as a whole specification for a new announcement and as
    a string map for an existing one. *)
Definition createAnnouncement (id : string)
    (asSpec : bound AnnouncementSpec) (asMap : bound (gmap string string)) : handler K unit :=
  deferred_unlock Locked (
    o ← client_get (Sp := AnnouncementSpec) (St := AnnouncementStatus) id;
    spec ← match o with
           | Err _ | Panic _ => bindJSON asSpec
           | Ret oNews => patch ← bindJSON asMap; mret (merge_news patch (Spec oNews))
           end;
    e ← client_patch (named id spec (mkAnnouncementStatus 0 0));
    match e with
    | Some e => update_failed ("failed to patch announcement " +:+ id +:+ ": ") e
    | None => cJSON StatusOK (BInfo ("patch " +:+ id +:+ " succeed"))
    end).

Definition news_info (id : string) (v : Announcement) : AnnouncementInfo :=
  mkAnnouncementInfo id (Title (Spec v)) (Author (Spec v)) (Content (Spec v)) (Status v).

Definition listAnnouncement : handler K unit :=
  deferred_unlock RLocked (
    '(items, err) ← client_list (Sp := AnnouncementSpec) (St := AnnouncementStatus);
    let ws := (fun v => news_info (Name v) v) <$> items in
    let ws := Slice (fun a b => PubTime (ai_Status a) <? PubTime (ai_Status b)) ws in
    match err with
    | Some e => update_failed "failed to list announcements: " e
    | None => cJSON StatusOK (BNewsList ws)
    end).

Definition getAnnouncement (id : string) : handler K unit :=
  deferred_unlock RLocked (
    '(announcement, err) ← GetAnnouncement id;
    match err with
    | Some e => update_failed ("failed to get announcement " +:+ id +:+ ": ") e
    | None =>
        announcement ← hderef announcement;
        cJSON StatusOK (BNews (news_info id announcement))
    end).

Definition deleteAnnouncement (id : string) : handler K unit :=
  deferred_unlock Locked (
    '(news, err) ← GetAnnouncement id;
    match err with
    | Some _ => return_
    | None =>
        news ← hderef news;
        err ← client_delete news;
        match err with
        | Some e => update_failed "failed to delete announcement: " e
        | None => cJSON StatusOK (BInfo "deleted")
        end
    end).

(** ** Files *)

Definition GetFile (id : string) : handler K (option File * option string) :=
  get_object "failed to get file: " id.

Definition set_sizes (size : Z) (f : FileInfo) : FileInfo :=
  mkFileInfo (fi_Name f) (fi_Ext f) (fi_MajorVersion f) (fi_Version f) (fi_Arch f)
    (fi_Edition f) (fi_EditionType f) (fi_Part f) (fi_Path f) size (ParseSize size).

(** The recognised files of a report, in the order the map is iterated in. *)
Fixpoint recognize_all (files : list (string * Z)) : outcome (list FileInfo) :=
  match files with
  | [] => Ret []
  | (k, v) :: files =>
      info ← Recognizer k;
      rest ← recognize_all files;
      Ret (if String.eqb (fi_Name info) "" then rest else set_sizes v info :: rest)
  end.

Definition or_crash {A} (o : outcome A) : handler K A :=
  match o with
  | Ret a => mret a
  | Err e | Panic e => fun s => (s, Crash e)
  end.

(** The type and alias to store, from the report and the current file. *)
Definition file_spec (nFile : FileBase) (cur : option File) : FileSpec :=
  match cur with
  | None => mkFileSpec (if String.eqb (fb_Type nFile) "" then OS else fb_Type nFile)
              (fb_Alias nFile)
  | Some o => mkFileSpec (if String.eqb (fb_Type nFile) "" then fs_Type (Spec o) else fb_Type nFile)
                (if String.eqb (fb_Alias nFile) "" then fs_Alias (Spec o) else fb_Alias nFile)
  end.

Definition zeroFile : File := named "" (mkFileSpec "" "") zeroFileStatus.

(** [updateFile]: a changed type or alias is patched and the object read again
    before its list is stored. *)
Definition updateFile (fileID : string) (req : bound FileBase) : handler K unit :=
  nFile ← bindJSON req;
  fileInfo ← or_crash (recognize_all (fb_Files nFile));
  deferred_unlock Locked (
    o ← client_get (Sp := FileSpec) (St := FileStatus) fileID;
    let cur := match o with Ret f => Some f | _ => None end in
    let oFile := default zeroFile cur in
    let spec := file_spec nFile cur in
    oFile ←
      (if negb (String.eqb (fs_Type spec) (fs_Type (Spec oFile)))
          || negb (String.eqb (fs_Alias spec) (fs_Alias (Spec oFile))) then
         e ← client_patch (named fileID spec zeroFileStatus);
         match e with
         | Some e =>
             update_failed ("failed to patch file " +:+ fileID +:+ " info: ") e;; mret oFile
         | None =>
             match fileInfo with
             | [] => mret oFile
             | _ :: _ =>
                 o ← client_get (Sp := FileSpec) (St := FileStatus) fileID;
                 match o with
                 | Ret f => mret f
                 | Err e | Panic e => update_failed "failed to get file: " e;; mret oFile
                 end
             end
         end
       else mret oFile);
    match fileInfo with
    | [] => skip
    | _ :: _ =>
        t ← time_now now;
        '(_, e) ← client_update (with_status oFile (mkFileStatus fileInfo t));
        match e with
        | Some e => update_failed ("failed to update file " +:+ fileID +:+ " list: ") e
        | None => skip
        end
    end;;
    cJSON StatusOK (BInfo ("update " +:+ fileID +:+ " succeed"))).

Definition file_listing (id : string) (v : File) : FileListing :=
  mkFileListing id (fs_Type (Spec v)) (fs_Alias (Spec v)) (Status v).

Definition sort_files (st : FileStatus) : FileStatus :=
  mkFileStatus (Slice (fun a b => Strings.lt (fi_Name a) (fi_Name b)) (Files st)) (UpdateTime st).

Definition has_files (v : File) : bool :=
  match Files (Status v) with [] => false | _ => true end.

Definition listFile : handler K unit :=
  deferred_unlock RLocked (
    '(items, err) ← client_list (Sp := FileSpec) (St := FileStatus);
    let ws := (fun v => file_listing (Name v) (with_status v (sort_files (Status v))))
                <$> List.filter has_files items in
    let ws := Slice (fun a b => Strings.lt (fl_ID a) (fl_ID b)) ws in
    match err with
    | Some e => update_failed "failed to list files: " e
    | None => cJSON StatusOK (BFiles ws)
    end).

Definition getFile (fileID : string) : handler K unit :=
  deferred_unlock RLocked (
    '(file, err) ← GetFile fileID;
    match err with
    | Some e => update_failed ("failed to get file " +:+ fileID +:+ ": ") e
    | None =>
        file ← hderef file;
        cJSON StatusOK (BFile (file_listing fileID file))
    end).

Definition deleteFile (fileID : string) : handler K unit :=
  deferred_unlock Locked (
    '(file, err) ← GetFile fileID;
    match err with
    | Some _ => return_
    | None =>
        file ← hderef file;
        err ← client_delete file;
        match err with
        | Some e => update_failed "failed to delete file: " e
        | None => cJSON StatusOK (BInfo "deleted")
        end
    end).

(** ** The list of jobs *)

Definition with_upstream (s : SyncStatus) (u : string) (t : JobStatus) : JobStatus :=
  mkJobStatus s (LastUpdate t) (LastStarted t) (LastEnded t) (Scheduled t) u (st_Size t)
    (ErrorMsg t) (LastOnline t) (LastRegister t).

(** The entry of a job that is not external. *)
Definition job_entry (v : Job) : MirrorStatus :=
  let c := js_Config (Spec v) in
  let entry typ st :=
    mkMirrorStatus (Name v) (jc_Alias c) (jc_Desc c) (jc_Url c) (jc_HelpUrl c) typ
      (ParseSize (st_Size (Status v))) st in
  if String.eqb (jc_Type c) Proxy then
    entry (jc_Type c) (with_upstream Cached (jc_Upstream c) (Status v))
  else if String.eqb (jc_Type c) Git then
    entry (jc_Type c) (with_upstream Created (jc_Upstream c) (Status v))
  else if String.eqb (jc_Type c) "" then entry Mirror (Status v)
  else entry (jc_Type c) (Status v).

(** The entries of a job; an external provider that fails lists nothing. *)
Definition job_entries (v : Job) : outcome (list MirrorStatus) :=
  if String.eqb (jc_Type (js_Config (Spec v))) External then
    match external_List search rfc3339 (js_Config (Spec v)) with
    | Ret wss => Ret wss
    | Err _ => Ret []
    | Panic m => Panic m
    end
  else Ret [job_entry v].

Definition listJob : handler K unit :=
  deferred_unlock RLocked (
    '(items, err) ← client_list (Sp := JobSpec) (St := JobStatus);
    ws ← or_crash (mapM job_entries items);
    let ws := Slice (fun a b => Strings.lt (Strings.ToLower (mi_ID a)) (Strings.ToLower (mi_ID b)))
                (concat ws) in
    match err with
    | Some e => update_failed "failed to list mirrors: " e
    | None => cJSON StatusOK (BMirrors ws)
    end).

(** ** The mirrorz document *)

Definition at_time (letter : string) (t : Z) : string := letter +:+ Strconv.Itoa t.

(** The state of a job, by its last event; "U" when it is not known. *)
Definition status_letter (st : JobStatus) : string :=
  let ev letter t := if t =? 0 then "U" else at_time letter t in
  let s := st_Status st in
  if String.eqb s Success then ev "S" (LastUpdate st)
  else if String.eqb s PreSyncing then ev "D" (Scheduled st)
  else if String.eqb s Syncing then ev "Y" (LastStarted st)
  else if String.eqb s Failed then ev "F" (LastEnded st)
  else if String.eqb s Paused then ev "P" (LastEnded st)
  else if String.eqb s Created then ev "N" (LastRegister st)
  else "U".

Definition statusZ (typ : MirrorType) (st : JobStatus) : string :=
  if String.eqb typ Proxy then "C"
  else
    let status := status_letter st in
    if String.eqb status "U" then status
    else
      status
      +:+ (if Scheduled st =? 0 then "" else at_time "X" (Scheduled st))
      +:+ (if (LastUpdate st =? 0) && negb (LastRegister st =? 0)
           then at_time "N" (LastRegister st) else "")
      +:+ (if (String.eqb (st_Status st) Syncing || String.eqb (st_Status st) Failed)
              && negb (LastUpdate st =? 0)
           then at_time "O" (LastUpdate st) else "").

Definition job_mirror (v : Job) : mirrorz.Mirror :=
  let c := js_Config (Spec v) in
  mirrorz.mkMirror (Name v) (jc_Desc c)
    (if String.eqb (jc_Url c) "" then "/" +:+ Name v else jc_Url c)
    (statusZ (jc_Type c) (Status v)) (jc_HelpUrl c) (jc_Upstream c)
    (ParseSize (st_Size (Status v)))
    (negb (String.eqb (jc_Type c) Proxy) && String.eqb (st_Status (Status v)) Disabled).

(** The mirrors of a job, and what it adds to the space used. *)
Definition job_mirrors (v : Job) : outcome (list mirrorz.Mirror * Z) :=
  if String.eqb (jc_Type (js_Config (Spec v))) External then
    match external_ListZ search rfc3339 (js_Config (Spec v)) with
    | Ret ws => Ret (ws, 0)
    | Err _ => Ret ([], 0)
    | Panic m => Panic m
    end
  else Ret ([job_mirror v], st_Size (Status v)).

Definition file_mirrorz (v : File) : mirrorz.Info :=
  mirrorz.mkInfo (if String.eqb (fs_Alias (Spec v)) "" then Name v else fs_Alias (Spec v))
    (fs_Type (Spec v))
    ((fun u => mirrorz.mkInfoUrl (fi_Name u) (fi_Path u)) <$> Files (Status v)).

Definition set_disk (d : string) (s : mirrorz.SiteInfo) : mirrorz.SiteInfo :=
  mirrorz.mkSite (mirrorz.Url s) (mirrorz.Logo s) (mirrorz.LogoDarkmode s) (mirrorz.Abbr s)
    (mirrorz.SiteName s) (mirrorz.Homepage s) (mirrorz.Issue s) (mirrorz.SiteRequest s)
    (mirrorz.Email s) (mirrorz.Group s) d (mirrorz.Note s) (mirrorz.Big s)
    (mirrorz.SiteDisable s).

(** [z] is the document shared by all requests ([m.option.MirrorZ]); the handler
    rewrites it in place, so its result is the document the next request
    finds.  [total] is the size of the disk, [pack] the query parameter. *)
Definition mirrorZ (z : mirrorz.MirrorZ) (total : string) (pack : bool) : handler K mirrorz.MirrorZ :=
  '(files, ferr) ← client_list (Sp := FileSpec) (St := FileStatus);
  let info := match ferr with
              | None => file_mirrorz <$> List.filter has_files files
              | Some _ => []
              end in
  '(jobs, jerr) ← client_list (Sp := JobSpec) (St := JobStatus);
  ms ← match jerr with
       | None => or_crash (mapM job_mirrors jobs)
       | Some _ => mret []
       end;
  let fullSize := fold_left (fun acc m => u64 (acc + snd m)) ms 0 in
  let disk := ParseSize fullSize +:+ (if String.eqb total "" then "" else "/" +:+ total) in
  let z := mirrorz.mkMirrorZ (mirrorz.Version z) (set_disk disk (mirrorz.Site z)) info
             (concat (fst <$> ms)) (mirrorz.Extension z) (mirrorz.Endpoints z) in
  (if pack then cJSON StatusOK (BMirrorZPack [z]) else cJSON StatusOK (BMirrorZ z));;
  mret z.
End objects.

(** ** The listings are complete and sorted *)
Section listings.
Context {K : Type} `{!Client K JobSpec JobStatus}.
Context `{!SortSlice}.
Context (search : string -> outcome (Z * outcome giteaMsg)) (rfc3339 : string -> option Z).

Definition by_name (a b : MirrorStatus) : bool :=
  Strings.lt (Strings.ToLower (mi_ID a)) (Strings.ToLower (mi_ID b)).

Lemma mapM_Ret_elem {A B} (f : A -> outcome (list B)) l bss a bs :
  mapM f l = Ret bss -> a ∈ l -> f a = Ret bs -> forall b, b ∈ bs -> b ∈ concat bss.
Proof.
  revert bss. induction l as [|x l IH]; intros bss Hm Ha Hf b Hb; [set_solver|].
  simpl in Hm. apply outcome_bind_Ret in Hm as (y & Hy & Hm).
  apply outcome_bind_Ret in Hm as (ys & Hys & [= <-]). simpl.
  apply elem_of_cons in Ha as [->|Ha]; [|set_solver].
  rewrite Hf in Hy. simplify_eq. set_solver.
Qed.

(** The answer to a listing of the jobs is sorted by the lower-case names,
    and it is a rearrangement of the entries of all jobs: every job that is not
    external has its entry. *)
Theorem listJob_is_sorted_and_complete (k : K) cs es t p s' fl :
  listJob search rfc3339 (mkHS k Free cs es t p) = (s', fl) ->
  fl = Next tt ->
  exists ws, calls s' = cs ++ [JSON StatusOK (BMirrors ws)] /\
    StronglySorted (not_after by_name) ws /\
    (exists entries, mapM (job_entries search rfc3339) (fst (kList k)) = Ret entries /\
       ws ≡ₚ concat entries) /\
    forall v : Job, v ∈ fst (kList k) -> jc_Type (js_Config (Spec v)) <> External ->
      job_entry v ∈ ws.
Proof.
  intros Hs. run_handler Hs. unfold listJob, or_crash. job_steps; try discriminate.
  - intros _. eexists. split; [done|].
    match goal with H : mapM _ _ = Ret ?x |- _ => rename H into Hm; rename x into ws end.
    assert (Hp : Slice by_name (concat ws) ≡ₚ concat ws) by apply Slice_perm.
    split_and!.
    + apply Slice_sorted; [apply (string_key_total (fun m => Strings.ToLower (mi_ID m)))|
        apply (string_key_trans (fun m => Strings.ToLower (mi_ID m)))].
    + eauto.
    + intros v Hv Ht. change (job_entry v ∈ Slice by_name (concat ws)). rewrite Hp.
      eapply mapM_Ret_elem; [exact Hm|exact Hv| |by left].
      unfold job_entries. apply String.eqb_neq in Ht. by rewrite Ht.
Qed.
End listings.

(** ** The mirrorz status can be read back *)

(** Splits a status into letters, each with the digits that follow it. *)
Fixpoint scan (s : string) : string * list (ascii * string) :=
  match s with
  | EmptyString => ("", [])
  | String c s =>
      let '(d, ts) := scan s in
      match Strconv.digit_val c with
      | Some _ => (String c d, ts)
      | None => ("", (c, d) :: ts)
      end
  end.
Definition decode_status (s : string) : list (ascii * option Z) :=
  (fun '(c, d) => (c, Strconv.parse_nat d)) <$> snd (scan s).

(** The events a status stands for, the state first. *)
Definition state_event (st : JobStatus) : option (ascii * Z) :=
  let s := st_Status st in
  let ev (c : ascii) (t : Z) := if t =? 0 then None else Some (c, t) in
  if String.eqb s Success then ev "S"%char (LastUpdate st)
  else if String.eqb s PreSyncing then ev "D"%char (Scheduled st)
  else if String.eqb s Syncing then ev "Y"%char (LastStarted st)
  else if String.eqb s Failed then ev "F"%char (LastEnded st)
  else if String.eqb s Paused then ev "P"%char (LastEnded st)
  else if String.eqb s Created then ev "N"%char (LastRegister st)
  else None.

Definition status_events (typ : MirrorType) (st : JobStatus) : list (ascii * option Z) :=
  if String.eqb typ Proxy then [("C"%char, None)]
  else match state_event st with
       | None => [("U"%char, None)]
       | Some (c, t) =>
           (c, Some t)
           :: (if Scheduled st =? 0 then [] else [("X"%char, Some (Scheduled st))])
           ++ (if (LastUpdate st =? 0) && negb (LastRegister st =? 0)
               then [("N"%char, Some (LastRegister st))] else [])
           ++ (if (String.eqb (st_Status st) Syncing || String.eqb (st_Status st) Failed)
                  && negb (LastUpdate st =? 0)
               then [("O"%char, Some (LastUpdate st))] else [])
       end.

Lemma scan_digits d rest :
  Strconv.all_digits d = true -> fst (scan rest) = "" ->
  scan (d +:+ rest) = (d, snd (scan rest)).
Proof.
  intros Hd Hr. induction d as [|c d IH]; simpl in *.
  - destruct (scan rest). by simplify_eq/=.
  - destruct (Strconv.digit_val c) eqn:E; [|done]. by rewrite (IH Hd).
Qed.

(** A letter with its time, in front of a rest that does not start with a digit. *)
Lemma scan_at_time c t rest :
  Strconv.digit_val c = None -> 0 <= t -> fst (scan rest) = "" ->
  scan (at_time (String c "") t +:+ rest) = ("", (c, Strconv.Itoa t) :: snd (scan rest)).
Proof.
  intros Hc Ht Hr. unfold at_time. rewrite Strings.app_assoc. simpl.
  rewrite scan_digits by (auto using Strconv.all_digits_Itoa). by rewrite Hc.
Qed.

Lemma decode_at_time c t rest :
  Strconv.digit_val c = None -> 0 <= t -> fst (scan rest) = "" ->
  decode_status (at_time (String c "") t +:+ rest) = (c, Some t) :: decode_status rest
  /\ fst (scan (at_time (String c "") t +:+ rest)) = "".
Proof.
  intros Hc Ht Hr. unfold decode_status. rewrite scan_at_time by done. simpl.
  by rewrite Strconv.parse_nat_Itoa.
Qed.

(** An optional event in front of the rest. *)
Lemma decode_optional (b : bool) c t rest es :
  Strconv.digit_val c = None -> 0 <= t ->
  decode_status rest = es /\ fst (scan rest) = "" ->
  decode_status ((if b then at_time (String c "") t else "") +:+ rest)
    = (if b then [(c, Some t)] else []) ++ es
  /\ fst (scan ((if b then at_time (String c "") t else "") +:+ rest)) = "".
Proof.
  intros Hc Ht [<- Hr]. destruct b; [by apply decode_at_time|done].
Qed.

Lemma status_letter_event st :
  status_letter st =
  match state_event st with None => "U" | Some (c, t) => at_time (String c "") t end.
Proof. unfold status_letter, state_event. by repeat case_match. Qed.

(** A status without negative timestamps. *)
Definition nonneg_times (st : JobStatus) : Prop :=
  0 <= LastUpdate st /\ 0 <= Scheduled st /\ 0 <= LastStarted st /\
  0 <= LastEnded st /\ 0 <= LastRegister st.

Lemma state_event_time st c t :
  nonneg_times st -> state_event st = Some (c, t) ->
  Strconv.digit_val c = None /\ c <> "U"%char /\ 0 <= t.
Proof.
  intros (? & ? & ? & ? & ?). unfold state_event.
  repeat case_match; intros [= <- <-]; (split_and!; done).
Qed.

Lemma statusZ_decodes typ st :
  nonneg_times st -> decode_status (statusZ typ st) = status_events typ st.
Proof.
  intros Hnn. unfold statusZ, status_events.
  destruct (String.eqb typ Proxy); [done|]. rewrite status_letter_event.
  destruct (state_event st) as [[c t]|] eqn:E; [|done].
  apply (state_event_time _ _ _ Hnn) in E as (Hd & Hc & Ht). destruct Hnn as (H1 & H2 & _ & _ & H5).
  assert (Hn : String.eqb (at_time (String c "") t) "U" = false).
  { apply String.eqb_neq. by intros [= ? _]. }
  rewrite Hn.
  set (o := if (_ || _) && _ then at_time "O" _ else "").
  assert (Ho : decode_status o = (if (String.eqb (st_Status st) Syncing || String.eqb (st_Status st) Failed)
      && negb (LastUpdate st =? 0) then [("O"%char, Some (LastUpdate st))] else [])
      /\ fst (scan o) = "").
  { unfold o. destruct (_ && _); [|done].
    rewrite <-(Strings.app_nil_r (at_time "O" (LastUpdate st))). by apply decode_at_time. }
  apply decode_optional with (b := (LastUpdate st =? 0) && negb (LastRegister st =? 0))
    (c := "N"%char) (t := LastRegister st) in Ho; [|done..].
  destruct (Z.eqb_spec (Scheduled st) 0) as [_|_].
  - edestruct decode_at_time as [-> _]; [exact Hd|exact Ht|apply Ho|].
    exact (f_equal (cons _) (proj1 Ho)).
  - edestruct decode_at_time as [-> _]; [exact Hd|exact Ht|by apply decode_at_time, Ho|].
    edestruct (decode_at_time "X") as [-> _]; [done|exact H2|apply Ho|].
    by rewrite (proj1 Ho).
Qed.

(** C39: The status string of the mirrorz document is unambiguous: for a status
    with non-negative timestamps, splitting it at its letters gives back exactly
    the events it was made of, the state of the job first, then its schedule,
    its registration if it never succeeded, and its last success if it is
    syncing or failed. *)
Theorem mirrorz_status_reads_back typ st :
  nonneg_times st -> decode_status (statusZ typ st) = status_events typ st.
Proof. apply statusZ_decodes. Qed.

Lemma mirrorz_status_reads_back_witness :
  decode_status (statusZ Mirror (mkJobStatus Failed 900 950 960 1200 "" 7 "" 960 800))
  = [("F"%char, Some 960); ("X"%char, Some 1200); ("O"%char, Some 900)].
Proof.
  apply (mirrorz_status_reads_back Mirror). unfold nonneg_times. simpl. lia.
Defined.

(** ** Reports of files *)
Section files.
Context {K : Type} `{!Client K FileSpec FileStatus, !ClientLaws K FileSpec FileStatus}.
Context (now : nat -> Z).
#[local] Abbreviation files := (stored (K := K) (Sp := FileSpec) (St := FileStatus)).
#[local] Abbreviation files_wf := (kwf (K := K) (Sp := FileSpec) (St := FileStatus)).

Lemma file_spec_new nFile : String.eqb (fs_Type (file_spec nFile None)) "" = false.
Proof. unfold file_spec. simpl. by destruct (String.eqb_spec (fb_Type nFile) ""), (fb_Type nFile). Qed.

(** C38: A file report that is answered to the end has stored exactly what was
    recognised: if anything was, the API server holds the file with that list
    and the time of the report, whatever it held and whatever the cache showed;
    the mutex is released on every path. *)
Theorem updateFile_stores_the_recognised_files id req (k : K) cs es t p s' fl infos :
  files_wf k ->
  recognize_all (fb_Files (bound_value req)) = Ret infos -> infos <> [] ->
  updateFile now id req (mkHS k Free cs es t p) = (s', fl) ->
  rwmu s' = Free /\
  (fl = Next tt ->
   exists o, files (cluster s') !! id = Some o /\ Status o = mkFileStatus infos (now t)).
Proof.
  intros Hwf Hr Hne Hs. run_handler Hs. unfold updateFile, or_crash. handler_steps. rewrite Hr.
  job_steps; (split; [done|]); try discriminate; try done; intros _; cbn [cluster set_mutex].
  - match goal with Hp : kPatch _ _ = (?k1, None), Hg : kGet id ?k1 = Ret ?a,
      Hu : kStatusUpdate _ ?k1 = (?k2, ?o', None) |- _ =>
      assert (Hwf1 : files_wf k1) by (by eapply patch_wf);
      destruct (update_after_get k1 k2 id a o' _ Hwf1 Hg Hu) as (_ & -> & _ & _ & Hst)
    end.
    rewrite lookup_insert_eq. eauto.
  - destruct (kGet id k) as [o|e|e] eqn:Hg; cbn [default] in *.
    2,3: rewrite file_spec_new in *; discriminate.
    match goal with Hu : kStatusUpdate _ k = (?k2, ?o', None) |- _ =>
      destruct (update_after_get k k2 id o o' _ Hwf Hg Hu) as (_ & -> & _ & _ & Hst) end.
    rewrite lookup_insert_eq. eauto.
Qed.
End files.

Module FilesDemo.
Abbreviation cluster_ := (store FileSpec FileStatus).
Definition arch : File := mkObject (mkMeta "arch" "ns" 3) (mkFileSpec OS "Arch") zeroFileStatus.
Definition one : cluster_ := mkStore {["arch" := arch]} {["arch" := arch]} 4.
Lemma arch_wf : kwf (Sp := FileSpec) (St := FileStatus) one.
Proof.
  split; simpl; intros n o.
  1,2: intros [<- <-]%lookup_singleton_Some; split; [done|reflexivity].
  intros cur [<- <-]%lookup_singleton_Some [_ <-]%lookup_singleton_Some. done.
Qed.
Definition report : bound FileBase :=
  mkBound (mkFileBase "" "" [("/iso/archlinux-2023.09.01-x86_64.iso", 2048); ("/iso/README", 3)]) false.
Definition infos : list FileInfo :=
  [mkFileInfo "2023.09.01 (x86_64)" ".iso" "" "2023.09.01" "x86_64" "" "" 0
     "/iso/archlinux-2023.09.01-x86_64.iso" 2048 "2.00K"].
End FilesDemo.

Lemma updateFile_stores_the_recognised_files_witness :
  exists o, server (cluster (fst (updateFile (fun _ => 77) "arch" FilesDemo.report
    (mkHS FilesDemo.one Free [] [] 0 [])))) !! "arch" = Some o /\
    Status o = mkFileStatus FilesDemo.infos 77.
Proof.
  refine (proj2 (updateFile_stores_the_recognised_files (fun _ => 77) "arch" FilesDemo.report
    FilesDemo.one [] [] 0%nat [] _ (snd (updateFile (fun _ => 77) "arch" FilesDemo.report
    (mkHS FilesDemo.one Free [] [] 0 []))) FilesDemo.infos FilesDemo.arch_wf _ _
    (surjective_pairing _)) _); [vm_compute; reflexivity|discriminate|vm_compute; reflexivity].
Defined.

(** A cluster for the listing: two jobs and no external one. *)
Lemma listJob_is_sorted_and_complete_witness :
  let job n := mkObject (mkMeta n "ns" 1) zeroJobSpec zeroJobStatus in
  let k := mkStore ∅ (list_to_map [("b", job "b"); ("a", job "a")]) 2 in
  exists ws, calls (fst (listJob (K := store JobSpec JobStatus) (fun _ => Err "") (fun _ => None)
    (mkHS k Free [] [] 0 []))) = [JSON StatusOK (BMirrors ws)] /\
    mi_ID <$> ws = ["a"; "b"].
Proof.
  intros job k.
  destruct (listJob_is_sorted_and_complete (fun _ => Err "") (fun _ => None) k [] [] 0%nat [] _
    (snd (listJob (K := store JobSpec JobStatus) (fun _ => Err "") (fun _ => None)
      (mkHS k Free [] [] 0 []))) (surjective_pairing _)) as (ws & Hc & _);
    [vm_compute; reflexivity|].
  exists ws. split; [exact Hc|].
  vm_compute in Hc. injection Hc as <-. reflexivity.
Defined.
