(* ===== verification/Context.v ===== *)
(** * Layered contexts (src/worker/context.go) and the provider's view of them
      (src/worker/base_provider.go)

    A [Context] is a pointer to a layer: a parent pointer and a map.  The heap of
    layers is append-only and a layer's parent is allocated before it, so layers
    are numbered by allocation and a lookup visits smaller and smaller numbers.
    The values the worker stores are strings. *)

From S2P Require Import Prelude.

Record layer := mkLayer { parent : option nat; lstore : gmap string string }.
Abbreviation heap := (list layer).

(** Allocation of a layer: the new heap and the pointer. *)
Definition alloc (h : heap) (l : layer) : heap * nat := (h ++ [l], length h).

Definition NewContext (h : heap) : heap * nat := alloc h (mkLayer None ∅).
Definition Enter (h : heap) (ctx : nat) : heap * nat := alloc h (mkLayer (Some ctx) ∅).

Definition Exit (h : heap) (ctx : nat) : outcome nat :=
  match h !! ctx with
  | Some l => match parent l with
              | None => Err "Cannot exit the bottom layer context"
              | Some p => Ret p
              end
  | None => Panic "nil pointer dereference"
  end.

(** [Get] walks to the parent; [S ctx] steps are enough (see [Get_chain]). *)
Fixpoint get_fuel (fuel : nat) (h : heap) (ctx : nat) (key : string) : option string :=
  match fuel with
  | O => None
  | S fuel =>
      match h !! ctx with
      | None => None
      | Some l =>
          match lstore l !! key with
          | Some v => Some v
          | None => match parent l with
                    | None => None
                    | Some p => get_fuel fuel h p key
                    end
          end
      end
  end.
Definition Get (h : heap) (ctx : nat) (key : string) : option string :=
  get_fuel (S ctx) h ctx key.

Definition Set_ (h : heap) (ctx : nat) (key value : string) : heap :=
  alter (fun l => mkLayer (parent l) (<[key := value]> (lstore l))) ctx h.

(** ** The provider's context *)

Definition WorkingDirKey : string := "working_dir".
Definition LogDirKey : string := "log_dir".
Definition LogFileKey : string := "log_file".

(** The heap and the field [ctx], nil after a failed [Exit]. *)
Record pctx := mkPctx { pheap : heap; pcur : option nat }.

Definition EnterContext (p : pctx) : outcome pctx :=
  c ← deref (pcur p);
  let '(h, c') := Enter (pheap p) c in Ret (mkPctx h (Some c')).
(** The error of [Exit] is dropped, and with it the pointer. *)
Definition ExitContext (p : pctx) : outcome pctx :=
  c ← deref (pcur p);
  match Exit (pheap p) c with
  | Ret c' => Ret (mkPctx (pheap p) (Some c'))
  | Err _ => Ret (mkPctx (pheap p) None)
  | Panic m => Panic m
  end.
Definition ctxSet (p : pctx) (key value : string) : outcome pctx :=
  c ← deref (pcur p); Ret (mkPctx (Set_ (pheap p) c key value) (Some c)).

Definition context_string (key message : string) (p : pctx) : outcome string :=
  c ← deref (pcur p);
  match Get (pheap p) c key with Some s => Ret s | None => Panic message end.
Definition WorkingDir : pctx -> outcome string :=
  context_string WorkingDirKey "working dir is impossible to be non-exist".
Definition LogDir : pctx -> outcome string :=
  context_string LogDirKey "log dir is impossible to be unavailable".
Definition LogFile : pctx -> outcome string :=
  context_string LogFileKey "log file is impossible to be unavailable".

(** The context the constructors of the providers build. *)
Definition provider_context (workingDir logDir logFile : string) : pctx :=
  let '(h, c) := NewContext [] in
  let h := Set_ h c WorkingDirKey workingDir in
  let h := Set_ h c LogDirKey logDir in
  let h := Set_ h c LogFileKey logFile in
  mkPctx h (Some c).

(** ** Lookups are lookups in a stack of maps *)

(** Parents are older than their layers. *)
Definition heap_wf (h : heap) : Prop :=
  forall c l p, h !! c = Some l -> parent l = Some p -> (p < c)%nat.

(** The maps seen from a layer, the innermost first. *)
Inductive chain (h : heap) : nat -> list (gmap string string) -> Prop :=
  | chain_bottom c l : h !! c = Some l -> parent l = None -> chain h c [lstore l]
  | chain_layer c l p s : h !! c = Some l -> parent l = Some p -> chain h p s ->
      chain h c (lstore l :: s).

Fixpoint stack_get (s : list (gmap string string)) (key : string) : option string :=
  match s with
  | [] => None
  | m :: s => match m !! key with Some v => Some v | None => stack_get s key end
  end.

Lemma chain_det h c s s' : chain h c s -> chain h c s' -> s = s'.
Proof.
  intros Hs. revert s'. induction Hs as [c l Hl Hp|c l p s Hl Hp Hs IH]; intros s' H';
    inv H'; simplify_eq; try congruence; f_equal; by apply IH.
Qed.

Lemma chain_bound h c s : chain h c s -> (c < length h)%nat.
Proof. destruct 1; by eapply lookup_lt_Some. Qed.

Lemma chain_exists h c :
  heap_wf h -> (c < length h)%nat -> exists s, chain h c s.
Proof.
  intros Hwf. induction c as [c IH] using lt_wf_ind. intros Hc.
  destruct (lookup_lt_is_Some_2 h c Hc) as [l Hl].
  destruct (parent l) as [p|] eqn:Hp; [|eexists; by econstructor].
  destruct (IH p) as [s Hs]; [by eapply Hwf| |by eexists; eapply chain_layer].
  pose proof (Hwf _ _ _ Hl Hp). lia.
Qed.

Lemma get_fuel_chain h c s fuel key :
  heap_wf h -> chain h c s -> (c < fuel)%nat -> get_fuel fuel h c key = stack_get s key.
Proof.
  intros Hwf Hs. revert fuel.
  induction Hs as [c l Hl Hp|c l p s Hl Hp Hs IH]; intros [|fuel] Hf; try lia; simpl; rewrite Hl.
  - rewrite Hp. by destruct (lstore l !! key).
  - rewrite Hp. destruct (lstore l !! key); [done|]. apply IH.
    pose proof (Hwf _ _ _ Hl Hp). lia.
Qed.

(** The fuel of [Get] is enough. *)
Lemma Get_chain h c s key : heap_wf h -> chain h c s -> Get h c key = stack_get s key.
Proof. intros Hwf Hs. apply get_fuel_chain; [done|done|lia]. Qed.

Lemma chain_app h h' c s : chain h c s -> chain (h ++ h') c s.
Proof.
  induction 1 as [c l Hl Hp|c l p s Hl Hp Hs IH].
  - eapply chain_bottom; [by apply lookup_app_l_Some|done].
  - eapply chain_layer; [by apply lookup_app_l_Some|done|done].
Qed.

Lemma heap_wf_app h l :
  heap_wf h -> (forall p, parent l = Some p -> (p < length h)%nat) -> heap_wf (h ++ [l]).
Proof.
  intros Hwf Hl c l' p [H|[H1 H2]]%lookup_app_Some Hp; [by eapply Hwf|].
  apply list_lookup_singleton_Some in H2 as [? <-]. specialize (Hl _ Hp). lia.
Qed.

Lemma heap_wf_set h c key v : heap_wf h -> heap_wf (Set_ h c key v).
Proof.
  intros Hwf c' l p Hl Hp. unfold Set_ in Hl.
  destruct (decide (c' = c)) as [->|Hne].
  - rewrite list_lookup_alter_eq in Hl. destruct (h !! c) eqn:E; simplify_eq/=. by eapply Hwf.
  - rewrite list_lookup_alter_ne in Hl by done. by eapply Hwf.
Qed.

(** A layer that starts above [c] is not seen from [c]. *)
Lemma chain_set_above h c c' s key v :
  heap_wf h -> chain h c s -> (c < c')%nat -> chain (Set_ h c' key v) c s.
Proof.
  intros Hwf Hs. induction Hs as [c l Hl Hp|c l p s Hl Hp Hs IH]; intros Hc.
  - eapply chain_bottom; [|done]. unfold Set_. by rewrite list_lookup_alter_ne by lia.
  - eapply chain_layer; [|done|]; [unfold Set_; by rewrite list_lookup_alter_ne by lia|].
    apply IH. pose proof (Hwf _ _ _ Hl Hp). lia.
Qed.

Lemma chain_set_top h c m s key v :
  heap_wf h -> chain h c (m :: s) -> chain (Set_ h c key v) c (<[key := v]> m :: s).
Proof.
  intros Hwf Hs. set (upd l := mkLayer (parent l) (<[key := v]> (lstore l))).
  assert (Hl : forall l, h !! c = Some l -> Set_ h c key v !! c = Some (upd l)).
  { intros l Hl. unfold Set_. by rewrite list_lookup_alter_eq, Hl. }
  inv Hs; change (<[key := v]> (lstore l)) with (lstore (upd l)).
  - eapply chain_bottom; [by apply Hl|done].
  - eapply chain_layer; [by apply Hl|done|].
    apply chain_set_above; [done|done|]. by eapply Hwf.
Qed.

(** ** Nested use of a provider's context *)
Inductive cop := OEnter | OExit | OSet (key value : string).

Definition cstep (o : cop) (p : pctx) : outcome pctx :=
  match o with
  | OEnter => EnterContext p
  | OExit => ExitContext p
  | OSet k v => ctxSet p k v
  end.
Fixpoint cops (os : list cop) (p : pctx) : outcome pctx :=
  match os with
  | [] => Ret p
  | o :: os => p ← cstep o p; cops os p
  end.

(** The same operations on a stack of maps; [None] when the stack is left. *)
Definition sstep (o : cop) (s : list (gmap string string)) : option (list (gmap string string)) :=
  match o, s with
  | OEnter, _ :: _ => Some (∅ :: s)
  | OExit, _ :: (_ :: _) as s' => Some s'
  | OSet k v, m :: s => Some (<[k := v]> m :: s)
  | _, _ => None
  end.
Fixpoint sops (os : list cop) (s : list (gmap string string)) : option (list (gmap string string)) :=
  match os with
  | [] => Some s
  | o :: os => s ← sstep o s; sops os s
  end.

(** The provider's context represents a stack. *)
Definition repr (p : pctx) (s : list (gmap string string)) : Prop :=
  heap_wf (pheap p) /\ exists c, pcur p = Some c /\ chain (pheap p) c s.

Lemma cstep_refines o p s s' :
  repr p s -> sstep o s = Some s' -> exists p', cstep o p = Ret p' /\ repr p' s'.
Proof.
  intros (Hwf & c & Hc & Hs) Hstep. destruct p as [h cur]. simpl in *. subst cur.
  destruct o as [| |k v]; simpl in *.
  - destruct s; simplify_eq. eexists. split; [done|]. split; simpl.
    + apply heap_wf_app; [done|]. intros p' [= <-]. by eapply chain_bound.
    + exists (length h). split; [done|].
      eapply (chain_layer _ _ (mkLayer (Some c) ∅)); [|done|by apply chain_app].
      rewrite lookup_app_r by lia. by rewrite Nat.sub_diag.
  - destruct s as [|m [|m' s]]; simplify_eq.
    inv Hs. unfold ExitContext, Exit. simpl.
    match goal with H : h !! c = _ |- _ => rewrite H end.
    match goal with H : parent l = _ |- _ => rewrite H end.
    eexists. split; [done|]. split; simpl; eauto.
  - destruct s as [|m s]; simplify_eq. eexists. split; [done|]. split; simpl.
    + by apply heap_wf_set.
    + exists c. split; [done|]. by apply chain_set_top.
Qed.

Lemma cops_refine os p s s' :
  repr p s -> sops os s = Some s' -> exists p', cops os p = Ret p' /\ repr p' s'.
Proof.
  revert p s; induction os as [|o os IH]; intros p s Hr Hs; simpl in *; [simplify_eq; eauto|].
  destruct (sstep o s) as [s1|] eqn:E; [|done].
  destruct (cstep_refines _ _ _ _ Hr E) as (p1 & -> & Hr1). simpl. eauto.
Qed.

(** [nested d os]: the operations stay above the level they start [d] layers
    over, set keys only there, and end at that level. *)
Fixpoint nested (d : nat) (os : list cop) : bool :=
  match os with
  | [] => (d =? 0)%nat
  | OEnter :: os => nested (S d) os
  | OExit :: os => match d with O => false | S d => nested d os end
  | OSet _ _ :: os => match d with O => false | S _ => nested d os end
  end.

Lemma nested_sops os d top s :
  length top = d -> s <> [] -> nested d os = true -> sops os (top ++ s) = Some s.
Proof.
  revert d top; induction os as [|o os IH]; intros d top Hd Hs Hn; simpl in *.
  - apply Nat.eqb_eq in Hn. by destruct top; simplify_eq/=.
  - destruct o as [| |k v].
    + assert (sstep OEnter (top ++ s) = Some ((∅ :: top) ++ s)) as ->.
      { simpl. destruct (top ++ s) eqn:E; [|done]. apply app_nil in E as [_ ->]. done. }
      apply (IH (S d)); [by simpl; f_equal|done|done].
    + destruct top as [|m top]; simplify_eq/=.
      destruct (top ++ s) as [|m' s'] eqn:E; [apply app_nil in E as [_ ->]; done|].
      simpl. rewrite <-E. by apply (IH (length top)).
    + destruct top as [|m top]; simplify_eq/=.
      apply (IH (S (length top)) (<[k := v]> m :: top)); done.
Qed.

(** The context of a provider behaves as a stack of maps, and leaving a
    layer restores everything: after any nested sequence of entering, setting
    and leaving, every key reads as it did before, and the sequence never
    fails. *)
Theorem context_is_restored os p s :
  repr p s -> nested 0 os = true ->
  exists p', cops os p = Ret p' /\
  forall key message, context_string key message p' = context_string key message p.
Proof.
  intros Hr Hn. assert (s <> []).
  { destruct Hr as (_ & c & _ & Hc). by destruct Hc. }
  destruct (cops_refine os p s s Hr) as (p' & Hp & Hr').
  { by apply (nested_sops os 0 []). }
  exists p'. split; [done|]. intros key message.
  destruct Hr as (Hwf & c & Hc & Hs), Hr' as (Hwf' & c' & Hc' & Hs').
  unfold context_string. rewrite Hc, Hc'. simpl.
  by rewrite (Get_chain _ _ _ _ Hwf Hs), (Get_chain _ _ _ _ Hwf' Hs').
Qed.

Lemma provider_context_repr w l f :
  repr (provider_context w l f)
    [<[LogFileKey := f]> (<[LogDirKey := l]> (<[WorkingDirKey := w]> ∅))].
Proof.
  split.
  - intros c la p Hc Hp. destruct c as [|c]; simpl in Hc; [|done]. simplify_eq.
  - exists 0%nat. split; [done|].
    set (m := <[LogFileKey := f]> _). change m with (lstore (mkLayer None m)).
    by apply chain_bottom.
Qed.

(** A fresh provider answers with what it was built with, also after a nested
    change. *)
Lemma context_is_restored_witness :
  exists p', cops [OEnter; OSet LogFileKey "/log/a.log.fail"; OEnter; OExit; OExit]
    (provider_context "/data/m" "/log" "/log/a.log") = Ret p' /\
  LogFile p' = Ret "/log/a.log".
Proof.
  destruct (context_is_restored [OEnter; OSet LogFileKey "/log/a.log.fail"; OEnter; OExit; OExit]
    (provider_context "/data/m" "/log" "/log/a.log") _ (provider_context_repr _ _ _) eq_refl)
    as (p' & Hp & Hk).
  exists p'. split; [exact Hp|]. unfold LogFile. rewrite Hk. reflexivity.
Defined.

(** Leaving the bottom layer loses the context: the provider cannot be used
    any more. *)
Lemma exit_of_bottom_is_fatal w l f p' :
  ExitContext (provider_context w l f) = Ret p' -> is_panic (WorkingDir p') = true.
Proof. intros [= <-]. reflexivity. Qed.

(** What a provider reads is what its stack holds. *)
Lemma repr_read key message p s :
  repr p s ->
  context_string key message p
  = match stack_get s key with Some v => Ret v | None => Panic message end.
Proof.
  intros (Hwf & c & Hc & Hs). unfold context_string. rewrite Hc. simpl.
  by rewrite (Get_chain _ _ _ _ Hwf Hs).
Qed.

Lemma stack_not_nil p s : repr p s -> exists m s', s = m :: s'.
Proof. intros (_ & c & _ & Hc). destruct Hc; eauto. Qed.
