(* ===== verification/Config.v ===== *)
(** * The worker's configuration (src/worker/config.go, src/worker/util.go)

    The environment of the process is a map; the accessors and [LoadConfig] are
    translated as they are written. *)

From S2P Require Import Prelude GoLib.

Abbreviation environ := (gmap string string).

(** [None] of [os.LookupEnv] is an unset variable. *)
Definition GetStringEnv (env : environ) (key def : string) : string :=
  match env !! key with
  | None => def
  | Some val => if String.eqb val "" then def else val
  end.

Definition GetIntEnv (env : environ) (key : string) (def : Z) : Z :=
  match env !! key with
  | None => def
  | Some val =>
      let '(i, ok) := Strconv.Atoi val in
      if negb ok || (i =? 0) then def else i
  end.

Definition GetBoolEnv (env : environ) (key : string) : bool :=
  match env !! key with
  | None => false
  | Some val => default false (Strconv.ParseBool val)
  end.

(** [None] is the nil slice. *)
Definition GetListEnv (env : environ) (key : string) : option (list string) :=
  match env !! key with
  | None => None
  | Some val => if String.eqb val "" then None else Some (Strings.Split val ";")
  end.

Record Config := mkConfig {
  c_Name : string; c_Provider : string; c_Upstream : string; c_LogDir : string;
  c_MirrorDir : string; c_MirrorPath : string;
  c_Concurrent : Z; c_Interval : Z; c_Retry : Z; c_Timeout : Z;
  c_Command : string; c_FailOnMatch : string; c_SizePattern : string;
  c_UseIPv6 : bool; c_UseIPv4 : bool; c_ExcludeFile : string;
  c_RsyncNoTimeo : bool; c_RsyncTimeout : Z;
  c_RsyncOptions : option (list string); c_RsyncOverride : option (list string);
  c_Stage1Profile : string;
  c_ExecOnSuccess : option (list string); c_ExecOnFailure : option (list string);
  c_APIBase : string; c_Addr : string;
  c_ZFSEnable : bool; c_Zpool : string; c_BtrfsEnable : bool; c_SnapshotPath : string;
  c_Verbose : bool; c_Debug : bool;
}.

(** [Err] is returned with a half-filled configuration, which the caller of
    [LoadConfig] does not use. *)
Definition LoadConfig (env : environ) : outcome Config :=
  let name := GetStringEnv env "NAME" "" in
  let provider := GetStringEnv env "PROVIDER" "rsync" in
  let upstream := GetStringEnv env "UPSTREAM" "" in
  if String.eqb name "" || String.eqb provider "" || String.eqb upstream ""
  then Err "failed to get mirror config"
  else Ret (mkConfig name provider upstream
    (GetStringEnv env "LOG_DIR" "/var/log") (GetStringEnv env "MIRROR_DIR" "/data")
    (GetStringEnv env "MIRROR_PATH" "")
    (GetIntEnv env "CONCURRENT" 3) (GetIntEnv env "INTERVAL" 1440)
    (GetIntEnv env "RETRY" 0) (GetIntEnv env "TIMEOUT" 0)
    (GetStringEnv env "COMMAND" "") (GetStringEnv env "FAIL_ON_MATCH" "")
    (GetStringEnv env "SIZE_PATTERN" "")
    (GetBoolEnv env "IPV6") (GetBoolEnv env "IPV4") (GetStringEnv env "EXCLUDE_FILE" "")
    (GetBoolEnv env "RSYNC_NO_TIMEOUT") (GetIntEnv env "RSYNC_TIMEOUT" 0)
    (GetListEnv env "RSYNC_OPTIONS") (GetListEnv env "RSYNC_OVERRIDE")
    (GetStringEnv env "STAGE1_PROFILE" "")
    (GetListEnv env "EXEC_ON_SUCCESS") (GetListEnv env "EXEC_ON_FAILURE")
    (GetStringEnv env "API" "http://manager:3000") (GetStringEnv env "ADDR" ":6000")
    (GetBoolEnv env "ZFS") (GetStringEnv env "ZPOOL" "")
    (GetBoolEnv env "BTRFS") (GetStringEnv env "SNAPSHOT_PATH" "")
    (GetBoolEnv env "VERBOSE") (GetBoolEnv env "DEBUG")).

Section accessors.
Context (env : environ).

Lemma GetStringEnv_set key v def :
  env !! key = Some v -> GetStringEnv env key def = if String.eqb v "" then def else v.
Proof. unfold GetStringEnv. by intros ->. Qed.
Lemma GetStringEnv_unset key def : env !! key = None -> GetStringEnv env key def = def.
Proof. unfold GetStringEnv. by intros ->. Qed.

(** An [int] written with [Itoa] is read back, except that 0 stands for the
    default. *)
Lemma GetIntEnv_set key n def :
  in_i64 n -> env !! key = Some (Strconv.Itoa n) ->
  GetIntEnv env key def = if n =? 0 then def else n.
Proof. intros Hn He. unfold GetIntEnv. rewrite He, Strconv.Atoi_Itoa by done. done. Qed.
Lemma GetIntEnv_unset key def : env !! key = None -> GetIntEnv env key def = def.
Proof. unfold GetIntEnv. by intros ->. Qed.
Lemma GetBoolEnv_set key v :
  env !! key = Some v -> GetBoolEnv env key = default false (Strconv.ParseBool v).
Proof. unfold GetBoolEnv. by intros ->. Qed.
Lemma GetBoolEnv_unset key : env !! key = None -> GetBoolEnv env key = false.
Proof. unfold GetBoolEnv. by intros ->. Qed.
Lemma GetListEnv_set key v :
  env !! key = Some v ->
  GetListEnv env key = if String.eqb v "" then None else Some (Strings.Split v ";").
Proof. unfold GetListEnv. by intros ->. Qed.
Lemma GetListEnv_unset key : env !! key = None -> GetListEnv env key = None.
Proof. unfold GetListEnv. by intros ->. Qed.
End accessors.

(** A list of commands or options survives its spelling. *)
Lemma GetListEnv_Join env key l :
  l <> [] -> Strings.Join l ";" <> "" -> Forall (fun w => Strings.mem ";" w = false) l ->
  env !! key = Some (Strings.Join l ";") -> GetListEnv env key = Some l.
Proof.
  intros Hl Hne Hw He. rewrite (GetListEnv_set _ _ _ He).
  apply String.eqb_neq in Hne. rewrite Hne. f_equal. by apply Strings.Split_Join.
Qed.
