(* ===== verification/Provider.v ===== *)
(** * The sync providers (src/worker/provider.go, rsync_provider.go,
      two_stage_rsync_provider.go, cmd_provider.go)

    How a provider and its command lines are made from the worker's
    configuration.  The splitting of shell words, regular expressions and
    templates are libraries': parameters.  How the processes run is modelled in
    [Runner]. *)

From S2P Require Import Prelude GoLib Types Config Context.

Definition defaultMaxRetry : Z := 2.
(** [time.Duration(n) * time.Minute], [time.Second]: nanoseconds in an int64. *)
Definition minutes (n : Z) : Z := i64 (i64 n * 60000000000).
Definition seconds (n : Z) : Z := i64 (i64 n * 1000000000).

(** The hooks a provider can have. *)
Inductive hook :=
  | HLog                                         (* logLimiter *)
  | HZfs (zpool : string)
  | HBtrfs (snapshot : string)
  | HExec (on_success : bool) (command : list string).

Record baseProvider := mkBase {
  bp_name : string; bp_ctx : pctx; bp_interval : Z; bp_retry : Z; bp_timeout : Z;
  bp_hooks : list hook;
}.
Definition AddHook (h : hook) (b : baseProvider) : baseProvider :=
  mkBase (bp_name b) (bp_ctx b) (bp_interval b) (bp_retry b) (bp_timeout b) (bp_hooks b ++ [h]).

Record rsyncConfig := mkRsyncConfig {
  rs_name : string; rs_rsyncCmd : string; rs_upstreamURL : string; rs_excludeFile : string;
  rs_extraOptions : option (list string); rs_overriddenOptions : option (list string);
  rs_rsyncNeverTimeout : bool; rs_rsyncTimeoutValue : Z;
  rs_workingDir : string; rs_logDir : string; rs_logFile : string;
  rs_useIPv6 : bool; rs_useIPv4 : bool; rs_interval : Z; rs_retry : Z; rs_timeout : Z;
}.
Record rsyncProvider := mkRsyncProvider {
  rp_base : baseProvider; rp_upstreamURL : string; rp_rsyncCmd : string; rp_options : list string;
}.

Definition base_of (name : string) (ctx : pctx) (interval retry timeout : Z) : baseProvider :=
  mkBase name ctx interval (if retry =? 0 then defaultMaxRetry else retry) timeout [].

(** The options both rsync providers end with. *)
Definition timeout_option (never : bool) (value : Z) : list string :=
  if never then [] else ["--timeout=" +:+ Strconv.Itoa (if 0 <? value then value else 120)].
Definition ip_option (v6 v4 : bool) : list string :=
  if v6 then ["-6"] else if v4 then ["-4"] else [].
Definition exclude_option (f : string) : list string :=
  if String.eqb f "" then [] else ["--exclude-from"; f].

Definition rsync_options : list string :=
  ["-aHvh"; "--no-o"; "--no-g"; "--stats"; "--filter"; "risk .~tmp~/"; "--exclude"; ".~tmp~/";
   "--delete"; "--delete-after"; "--delay-updates"; "--safe-links"].
Definition stage1Options : list string :=
  ["-aHvh"; "--no-o"; "--no-g"; "--stats"; "--filter"; "risk .~tmp~/"; "--exclude"; ".~tmp~/";
   "--safe-links"].
Definition stage2Options : list string := rsync_options.

Definition newRsyncProvider (c : rsyncConfig) : outcome rsyncProvider :=
  if negb (Strings.HasSuffix (rs_upstreamURL c) "/")
  then Err "rsync upstream URL should ends with /"
  else
    Ret (mkRsyncProvider
      (base_of (rs_name c) (provider_context (rs_workingDir c) (rs_logDir c) (rs_logFile c))
         (rs_interval c) (rs_retry c) (rs_timeout c))
      (rs_upstreamURL c)
      (if String.eqb (rs_rsyncCmd c) "" then "rsync" else rs_rsyncCmd c)
      (default rsync_options (rs_overriddenOptions c)
       ++ timeout_option (rs_rsyncNeverTimeout c) (rs_rsyncTimeoutValue c)
       ++ ip_option (rs_useIPv6 c) (rs_useIPv4 c)
       ++ exclude_option (rs_excludeFile c)
       ++ default [] (rs_extraOptions c))).

(** The command line of [Start]. *)
Definition rsync_command (p : rsyncProvider) : outcome (list string) :=
  dir ← WorkingDir (bp_ctx (rp_base p));
  Ret (rp_rsyncCmd p :: rp_options p ++ [rp_upstreamURL p; dir]).

(** ** The two-stage provider *)
Record twoStageRsyncConfig := mkTwoStageConfig {
  ts_name : string; ts_rsyncCmd : string; ts_stage1Profile : string; ts_upstreamURL : string;
  ts_excludeFile : string; ts_extraOptions : option (list string);
  ts_rsyncNeverTimeout : bool; ts_rsyncTimeoutValue : Z;
  ts_workingDir : string; ts_logDir : string; ts_logFile : string;
  ts_useIPv6 : bool; ts_useIPv4 : bool; ts_interval : Z; ts_retry : Z; ts_timeout : Z;
}.
Record twoStageRsyncProvider := mkTwoStage {
  tp_base : baseProvider; tp_config : twoStageRsyncConfig; tp_rsyncCmd : string;
}.

Definition rsyncStage1Profiles (name : string) : option (list string) :=
  if String.eqb name "debian" then
    Some ["--include=*.diff/"; "--exclude=*.diff/Index"; "--exclude=Packages*"; "--exclude=Sources*";
          "--exclude=Release*"; "--exclude=InRelease"; "--include=i18n/by-hash"; "--exclude=i18n/*";
          "--exclude=ls-lR*"]
  else if String.eqb name "debian-oldstyle" then
    Some ["--exclude=Packages*"; "--exclude=Sources*"; "--exclude=Release*"; "--exclude=InRelease";
          "--exclude=i18n/*"; "--exclude=ls-lR*"; "--exclude=dep11/*"]
  else None.

Definition newTwoStageRsyncProvider (c : twoStageRsyncConfig) : outcome twoStageRsyncProvider :=
  if negb (Strings.HasSuffix (ts_upstreamURL c) "/")
  then Err "rsync upstream URL should ends with /"
  else
    Ret (mkTwoStage
      (base_of (ts_name c) (provider_context (ts_workingDir c) (ts_logDir c) (ts_logFile c))
         (ts_interval c) (ts_retry c) (ts_timeout c))
      c (if String.eqb (ts_rsyncCmd c) "" then "rsync" else ts_rsyncCmd c)).

Definition Options (p : twoStageRsyncProvider) (stage : Z) : outcome (list string) :=
  let c := tp_config p in
  let tail := timeout_option (ts_rsyncNeverTimeout c) (ts_rsyncTimeoutValue c)
    ++ ip_option (ts_useIPv6 c) (ts_useIPv4 c) ++ exclude_option (ts_excludeFile c) in
  if stage =? 1 then
    match rsyncStage1Profiles (ts_stage1Profile c) with
    | None => Err "Invalid Stage 1 Profile"
    | Some profile => Ret (stage1Options ++ profile ++ tail)
    end
  else if stage =? 2 then Ret (stage2Options ++ default [] (ts_extraOptions c) ++ tail)
  else Err ("Invalid stage: " +:+ Strconv.Itoa stage).

(** The command line of one stage of [Run]. *)
Definition stage_command (p : twoStageRsyncProvider) (stage : Z) : outcome (list string) :=
  options ← Options p stage;
  dir ← WorkingDir (bp_ctx (tp_base p));
  Ret (tp_rsyncCmd p :: options ++ [ts_upstreamURL (tp_config p); dir]).

(** ** The command provider *)
Record cmdConfig := mkCmdConfig {
  cf_name : string; cf_upstreamURL : string; cf_command : string;
  cf_workingDir : string; cf_logDir : string; cf_logFile : string;
  cf_interval : Z; cf_retry : Z; cf_timeout : Z; cf_failOnMatch : string; cf_sizePattern : string;
}.

Section providers.
Context {regexp : Type}.
Context (shlex : string -> outcome (list string)).
Context (Compile : string -> outcome regexp).
(** The template of a log directory, instantiated with the configuration. *)
Context (formatLogDir : Config -> string -> outcome string).

Record cmdProvider := mkCmdProvider {
  cp_base : baseProvider; cp_upstreamURL : string; cp_command : list string;
  cp_failOnMatch : option regexp; cp_sizePattern : option regexp;
}.

(** [regexp.Compile] of a pattern that is not empty; its error is prefixed. *)
Definition compile_pattern (what pattern : string) : outcome (option regexp) :=
  if String.eqb pattern "" then Ret None
  else match Compile pattern with
       | Ret r => Ret (Some r)
       | Err e | Panic e => Err (what +:+ " regexp error: " +:+ e)
       end.

Definition newCmdProvider (c : cmdConfig) : outcome cmdProvider :=
  cmd ← shlex (cf_command c);
  fail ← compile_pattern "fail-on-match" (cf_failOnMatch c);
  size ← compile_pattern "size-pattern" (cf_sizePattern c);
  Ret (mkCmdProvider
    (base_of (cf_name c) (provider_context (cf_workingDir c) (cf_logDir c) (cf_logFile c))
       (cf_interval c) (cf_retry c) (cf_timeout c))
    (cf_upstreamURL c) cmd fail size).

(** The environment [Start] gives the command. *)
Definition cmd_env (p : cmdProvider) : outcome (gmap string string) :=
  wd ← WorkingDir (bp_ctx (cp_base p));
  ld ← LogDir (bp_ctx (cp_base p));
  lf ← LogFile (bp_ctx (cp_base p));
  Ret (list_to_map [("TUNASYNC_MIRROR_NAME", bp_name (cp_base p)); ("TUNASYNC_WORKING_DIR", wd);
    ("TUNASYNC_UPSTREAM_URL", cp_upstreamURL p); ("TUNASYNC_LOG_DIR", ld);
    ("TUNASYNC_LOG_FILE", lf)]).

(** ** The constructors of the hooks *)
Definition newLogLimiter : hook := HLog.
Definition newZfsHook (zpool : string) : hook := HZfs zpool.
Definition newBtrfsSnapshotHook (name snapshotPath : string) : hook := HBtrfs (Path.Join [snapshotPath; name]).

(** When a command runs, a [uint8]. *)
Definition execOnSuccess : Z := 0.
Definition execOnFailure : Z := 1.
Definition newExecPostHook (execOn : Z) (command : string) : outcome hook :=
  cmd ← shlex command;
  if negb (execOn =? execOnSuccess) && negb (execOn =? execOnFailure)
  then Err ("Invalid option for exec-on: " +:+ Strconv.Itoa execOn)
  else Ret (HExec (execOn =? execOnSuccess) cmd).

(** ** [newMirrorProvider] *)
Inductive mirrorProvider :=
  | PCmd (p : cmdProvider) | PRsync (p : rsyncProvider) | PTwoStage (p : twoStageRsyncProvider).

Definition provider_base (p : mirrorProvider) : baseProvider :=
  match p with PCmd p => cp_base p | PRsync p => rp_base p | PTwoStage p => tp_base p end.
Definition with_base (b : baseProvider) (p : mirrorProvider) : mirrorProvider :=
  match p with
  | PCmd p => PCmd (mkCmdProvider b (cp_upstreamURL p) (cp_command p) (cp_failOnMatch p)
                      (cp_sizePattern p))
  | PRsync p => PRsync (mkRsyncProvider b (rp_upstreamURL p) (rp_rsyncCmd p) (rp_options p))
  | PTwoStage p => PTwoStage (mkTwoStage b (tp_config p) (tp_rsyncCmd p))
  end.
Definition add_hook (h : hook) (p : mirrorProvider) : mirrorProvider :=
  with_base (AddHook h (provider_base p)) p.

(** [if err != nil { panic(err) }] *)
Definition or_panic {A} (o : outcome A) : outcome A :=
  match o with Err e => Panic e | _ => o end.

Definition mirror_dir (cfg : Config) : string :=
  if String.eqb (c_MirrorPath cfg) "" then Path.Join [c_MirrorDir cfg; c_Name cfg]
  else c_MirrorPath cfg.

(** The provider without its hooks. *)
Definition bare_provider (cfg : Config) (logDir : string) : outcome mirrorProvider :=
  let mirrorDir := mirror_dir cfg in
  let logFile := Path.Join [logDir; "latest.log"] in
  let interval := minutes (c_Interval cfg) in
  let timeout := seconds (c_Timeout cfg) in
  if String.eqb (c_Provider cfg) "command" then
    PCmd <$> or_panic (newCmdProvider (mkCmdConfig (c_Name cfg) (c_Upstream cfg) (c_Command cfg)
      mirrorDir logDir logFile interval (c_Retry cfg) timeout (c_FailOnMatch cfg)
      (c_SizePattern cfg)))
  else if String.eqb (c_Provider cfg) "rsync" then
    PRsync <$> or_panic (newRsyncProvider (mkRsyncConfig (c_Name cfg) (c_Command cfg)
      (c_Upstream cfg) (c_ExcludeFile cfg) (c_RsyncOptions cfg) (c_RsyncOverride cfg)
      (c_RsyncNoTimeo cfg) (c_RsyncTimeout cfg) mirrorDir logDir logFile (c_UseIPv6 cfg)
      (c_UseIPv4 cfg) interval (c_Retry cfg) timeout))
  else if String.eqb (c_Provider cfg) "two-stage-rsync" then
    PTwoStage <$> or_panic (newTwoStageRsyncProvider (mkTwoStageConfig (c_Name cfg) (c_Command cfg)
      (c_Stage1Profile cfg) (c_Upstream cfg) (c_ExcludeFile cfg) (c_RsyncOptions cfg)
      (c_RsyncNoTimeo cfg) (c_RsyncTimeout cfg) mirrorDir logDir logFile (c_UseIPv6 cfg)
      (c_UseIPv4 cfg) interval (c_Retry cfg) timeout))
  else Panic "Invalid mirror provider".

(** [addHookFromCmdList] *)
Fixpoint add_exec_hooks (execOn : Z) (cmds : list string) (p : mirrorProvider)
    : outcome mirrorProvider :=
  match cmds with
  | [] => Ret p
  | cmd :: cmds =>
      h ← or_panic (newExecPostHook execOn cmd);
      add_exec_hooks execOn cmds (add_hook h p)
  end.

Definition newMirrorProvider (cfg : Config) : outcome mirrorProvider :=
  logDir ← or_panic (formatLogDir cfg (c_LogDir cfg));
  p ← bare_provider cfg logDir;
  let p := add_hook newLogLimiter p in
  let p := if c_ZFSEnable cfg then add_hook (newZfsHook (c_Zpool cfg)) p else p in
  let p := if c_BtrfsEnable cfg
           then add_hook (newBtrfsSnapshotHook (bp_name (provider_base p)) (c_SnapshotPath cfg)) p
           else p in
  p ← add_exec_hooks execOnSuccess (default [] (c_ExecOnSuccess cfg)) p;
  add_exec_hooks execOnFailure (default [] (c_ExecOnFailure cfg)) p.
End providers.
