(* ===== verification/JobDesired.v ===== *)
(** * The objects the controller wants for a job
      (src/internal/controller/job_helper.go, utils.go)

    One definition per [desired...] function.  The Kubernetes types are records
    with the fields the code sets.  Quantities ([resource.MustParse]), the
    compaction of a JSON text and the setting of the owner reference are the
    libraries': they are parameters.  So is the kubelet, which turns the entries of
    a container into the environment of its process. *)

From S2P Require Import Prelude GoLib Types Config ManagerJobs.

(** The controller's configuration (manager_controller.go). *)
Record CConfig := mkCConfig {
  ManagerImage : string; WorkerImage : string; PullPolicy : string; PullSecret : string;
  StorageClass : string; AccessMode : string; FrontMode : string; FrontImage : string;
  RsyncImage : string; FrontCmd : string; FrontConfig : string; RsyncCmd : string;
  FrontHost : string; FrontTLS : string; FrontClass : string; FrontAnn : gmap string string;
  EnableMetric : bool; CDebug : bool;
}.

Definition ApiPort : Z := 6000.
Definition FrontPort : Z := 80.
Definition RsyncPort : Z := 873.
Definition MetricPort : Z := 2019.

Record KMeta := mkKMeta {
  km_Name : string; km_Namespace : string; km_Labels : gmap string string;
  km_Annotations : gmap string string; km_Owned : bool;
}.
Record Probe := mkProbe {
  pr_Port : Z; pr_InitialDelay : Z; pr_Timeout : Z; pr_Period : Z; pr_Success : Z; pr_Failure : Z;
}.
Record VolumeMount := mkMount { vm_Name : string; vm_SubPath : string; vm_MountPath : string }.
Record ContainerPort := mkPort { cp_Port : Z; cp_Name : string; cp_Protocol : string }.
Record ServicePort := mkSvcPort { sp_Name : string; sp_Port : Z; sp_Protocol : string; sp_Target : string }.
Inductive VolumeSource := ClaimSource (claim : string) | ConfigMapSource (name : string).
Record Volume := mkVolume { vo_Name : string; vo_Source : VolumeSource }.
Record Ingress := mkIngress {
  ig_Meta : KMeta; ig_Path : string; ig_Service : string; ig_Port : string;
  ig_Class : option string; ig_TLS : list string; ig_Host : string;
}.
Record Service := mkService { sv_Meta : KMeta; sv_Ports : list ServicePort; sv_Selector : gmap string string }.
Record ConfigMap := mkConfigMap { cm_Meta : KMeta; cm_Data : gmap string string }.
Record ServiceMonitor := mkServiceMonitor {
  sm_Meta : KMeta; sm_JobLabel : string; sm_Namespaces : list string;
  sm_Selector : gmap string string; sm_Port : string; sm_Path : string;
}.

Definition getCommonLabels (job : Job) : gmap string string :=
  list_to_map [("app.kubernetes.io/app", Name job);
               ("app.kubernetes.io/component", "mirror");
               ("app.kubernetes.io/managed-by", "kubesync")].
Definition serviceName (jobName : string) : string := "mirror-" +:+ jobName.

Definition meta_of (job : Job) (name : string) (ann : gmap string string) (owned : bool) : KMeta :=
  mkKMeta name (Namespace job) (getCommonLabels job) ann owned.

Definition probe (port : Z) : Probe := mkProbe port 10 5 30 1 5.
Definition or_else (s t : string) : string := if String.eqb s "" then t else s.

Section desired.
Context {quantity : Type}.
Context (parse_quantity : string -> option quantity).
Context (json_compact : string -> outcome string).
(** [ctrl.SetControllerReference] on an object of the named kind. *)
Context (set_owner : string -> Job -> option string).
Context (rc : CConfig).

Record PVC := mkPVC {
  pvc_Meta : KMeta; pvc_Storage : quantity; pvc_Modes : list string; pvc_Class : option string;
}.
Record Container := mkContainer {
  ct_Name : string; ct_Image : string; ct_PullPolicy : string; ct_Env : list EnvVar;
  ct_Probe : Probe; ct_Mounts : list VolumeMount; ct_Ports : list ContainerPort;
  ct_Command : list string; ct_Limits : list (string * quantity);
}.
Record Deployment := mkDeployment {
  dp_Meta : KMeta; dp_Selector : gmap string string; dp_PodLabels : gmap string string;
  dp_EnableServiceLinks : bool;
  dp_Containers : list Container; dp_Volumes : list Volume;
  dp_PullSecrets : option (list LocalObjectReference); dp_NodeName : string;
  dp_Affinity : option Affinity; dp_Tolerations : option (list Toleration);
}.

Definition MustParse (s : string) : outcome quantity :=
  match parse_quantity s with
  | Some q => Ret q
  | None => Panic ("cannot parse '" +:+ s +:+ "'")
  end.

Definition own {A} (kind : string) (job : Job) (a : A) : outcome A :=
  match set_owner kind job with None => Ret a | Some e => Err e end.

Definition getFrontConfig : outcome string :=
  if String.eqb (FrontConfig rc) "" then Ret "" else json_compact (FrontConfig rc).

Record front := mkFront {
  disableFront : bool; disableRsync : bool; frontCmd : option (list string);
  rsyncCmd : option (list string); frontMode : string; frontImage : string; rsyncImage : string;
}.

Definition split_cmd (s t : string) : option (list string) :=
  if negb (String.eqb s "") then Some (Strings.Split s " ")
  else if negb (String.eqb t "") then Some (Strings.Split t " ") else None.

Definition checkRsyncFront (job : Job) : front :=
  let d := js_Deploy (Spec job) in
  let mode := if String.eqb (jd_FrontMode d) "" then FrontMode rc else jd_FrontMode d in
  let disFront := default false (Strconv.ParseBool (jd_DisableFront d)) in
  let disRsync := default false (Strconv.ParseBool (jd_DisableRsync d)) in
  let rImage := if String.eqb (jd_RsyncImage d) "" then RsyncImage rc else jd_RsyncImage d in
  mkFront
    (if String.eqb mode "" then true else disFront)
    (if String.eqb rImage "" then true else disRsync)
    (split_cmd (jd_FrontCmd d) (FrontCmd rc)) (split_cmd (jd_RsyncCmd d) (RsyncCmd rc))
    mode
    (if String.eqb mode "" then FrontImage rc
     else if String.eqb (FrontImage rc) "" then mode +:+ ":latest" else FrontImage rc)
    rImage.

(** The default size is set after the user's, possibly empty, one is parsed. *)
Definition desiredPersistentVolumeClaim (job : Job) : outcome PVC :=
  let v := js_Volume (Spec job) in
  q ← MustParse (pv_Size v);
  q ← (if String.eqb (pv_Size v) "" then MustParse "50Gi" else Ret q);
  let mode := or_else (pv_AccessMode v) (or_else (AccessMode rc) "ReadWriteOnce") in
  let cls := match pv_StorageClass v with
             | Some c => Some c
             | None => if String.eqb (StorageClass rc) "" then None else Some (StorageClass rc)
             end in
  own "PersistentVolumeClaim" job (mkPVC (meta_of job (Name job) ∅ true) q [mode] cls).

Definition desiredFrontConfigmap (job : Job) : outcome (option ConfigMap) :=
  caddyConfig ← getFrontConfig;
  if String.eqb caddyConfig "" then Ret None
  else Ret (Some (mkConfigMap (meta_of job (Name job +:+ "-front") ∅ false)
                    {["frontConfig" := caddyConfig]})).

(** The environment of the worker's container. *)
Definition worker_env (job : Job) (manager : string) : list EnvVar :=
  let c := js_Config (Spec job) in
  [ EnvLit "NAME" (Name job); EnvLit "PROVIDER" (jc_Provider c);
    EnvLit "UPSTREAM" (jc_Upstream c); EnvLit "MIRROR_PATH" (jc_MirrorPath c);
    EnvLit "CONCURRENT" (Strconv.Itoa (jc_Concurrent c));
    EnvLit "INTERVAL" (Strconv.Itoa (jc_Interval c));
    EnvLit "RETRY" (Strconv.Itoa (jc_Retry c)); EnvLit "TIMEOUT" (Strconv.Itoa (jc_Timeout c));
    EnvLit "COMMAND" (jc_Command c); EnvLit "FAIL_ON_MATCH" (jc_FailOnMatch c);
    EnvLit "SIZE_PATTERN" (jc_SizePattern c);
    EnvLit "IPV6" (jc_IPv6Only c); EnvLit "IPV4" (jc_IPv4Only c);
    EnvLit "EXCLUDE_FILE" (jc_ExcludeFile c); EnvLit "RSYNC_OPTIONS" (jc_RsyncOptions c);
    EnvLit "STAGE1_PROFILE" (jc_Stage1Profile c);
    EnvLit "EXEC_ON_SUCCESS" (jc_ExecOnSuccess c); EnvLit "EXEC_ON_FAILURE" (jc_ExecOnFailure c);
    EnvLit "API" ("http://" +:+ manager +:+ ":3000"); EnvLit "ADDR" (":" +:+ Strconv.Itoa ApiPort) ]
  ++ dc_Env (jd_DeployConfig (js_Deploy (Spec job)))
  ++ jc_AdditionEnvs c
  ++ (if negb (String.eqb (jc_Debug c) "") || CDebug rc then [EnvLit "DEBUG" "true"] else []).

(** The limits are filed under the names of the quota resources. *)
Definition worker_limits (d : DeployConfig) : outcome (list (string * quantity)) :=
  mem ← (if String.eqb (dc_MemoryLimit d) "" then Ret []
         else q ← MustParse (dc_MemoryLimit d); Ret [("limits.memory", q)]);
  cpu ← (if String.eqb (dc_CPULimit d) "" then Ret []
         else q ← MustParse (dc_CPULimit d); Ret [("limits.cpu", q)]);
  Ret (mem ++ cpu).

Definition data_mount (job : Job) : VolumeMount := mkMount (Name job) "" ("/data/" +:+ Name job).

Definition pull_policy (job : Job) : string :=
  or_else (dc_ImagePullPolicy (jd_DeployConfig (js_Deploy (Spec job))))
    (or_else (PullPolicy rc) "IfNotPresent").

(** The worker's container, unless the job is disabled or no image is known. *)
Definition worker_container (job : Job) (manager : string) : outcome (list Container) :=
  let d := jd_DeployConfig (js_Deploy (Spec job)) in
  if String.eqb (st_Status (Status job)) Disabled then Ret []
  else if String.eqb (jc_Upstream (js_Config (Spec job))) "" then Err "upstream not set"
  else
    let image := or_else (dc_Image d) (WorkerImage rc) in
    limits ← worker_limits d;
    Ret (if String.eqb image "" then []
         else [mkContainer (Name job) image (pull_policy job) (worker_env job manager)
                 (probe ApiPort) [data_mount job] [mkPort ApiPort "api" "TCP"] [] limits]).

Definition front_containers (job : Job) (frontCM : option ConfigMap) : list Container * list Volume :=
  let f := checkRsyncFront job in
  if disableFront f then ([], [])
  else
    let cmv := match frontCM with
               | Some cm => let n := km_Name (cm_Meta cm) in
                   ([mkVolume n (ConfigMapSource n)], [mkMount n "frontConfig" "/etc/frontConfig"])
               | None => ([], [])
               end in
    ([mkContainer (Name job +:+ "-front") (frontImage f) (pull_policy job)
        [EnvLit "JOB_NAME" (Name job)] (probe FrontPort) (data_mount job :: snd cmv)
        (mkPort FrontPort "front" "TCP"
         :: (if EnableMetric rc then [mkPort MetricPort "metrics" "TCP"] else []))
        (default [] (frontCmd f)) []],
     fst cmv).

Definition rsync_containers (job : Job) : list Container :=
  let f := checkRsyncFront job in
  if disableRsync f then []
  else [mkContainer (Name job +:+ "-rsync") (rsyncImage f) (pull_policy job) [] (probe RsyncPort)
          [data_mount job] [mkPort RsyncPort "rsync" "TCP"] (default [] (rsyncCmd f)) []].

Definition pull_secrets (job : Job) : option (list LocalObjectReference) :=
  match dc_ImagePullSecrets (jd_DeployConfig (js_Deploy (Spec job))) with
  | Some l => Some l
  | None => if String.eqb (PullSecret rc) "" then None else Some [PullSecret rc]
  end.

(** [None] is the nil deployment: there is nothing to run. *)
Definition desiredDeployment (job : Job) (manager : string) (frontCM : option ConfigMap)
    : outcome (option Deployment) :=
  let d := jd_DeployConfig (js_Deploy (Spec job)) in
  w ← worker_container job manager;
  let '(f, fv) := front_containers job frontCM in
  let containers := w ++ f ++ rsync_containers job in
  match containers with
  | [] => Ret None
  | _ :: _ =>
      own "Deployment" job (Some (mkDeployment (meta_of job (Name job) ∅ true)
        (getCommonLabels job) (getCommonLabels job) false containers
        (mkVolume (Name job) (ClaimSource (Name job)) :: fv)
        (pull_secrets job) (dc_NodeName d) (dc_Affinity d) (dc_Tolerations d)))
  end.

Definition desiredService (job : Job) : outcome Service :=
  let f := checkRsyncFront job in
  own "Service" job (mkService (meta_of job (serviceName (Name job)) ∅ true)
    ([mkSvcPort "api" ApiPort "TCP" "api"]
     ++ (if disableFront f then [] else [mkSvcPort "front" FrontPort "TCP" "front"])
     ++ (if disableRsync f then [] else [mkSvcPort "rsync" RsyncPort "TCP" "rsync"])
     ++ (if EnableMetric rc then [mkSvcPort "metrics" MetricPort "TCP" "metrics"] else []))
    (getCommonLabels job)).

Definition desiredIngress (job : Job) : outcome Ingress :=
  let i := js_Ingress (Spec job) in
  let either a b := or_else b a in
  own "Ingress" job (mkIngress
    (meta_of job (Name job) (ic_Annotations i ∪ FrontAnn rc) true)
    ("/" +:+ Name job) (serviceName (Name job)) "front"
    (let c := either (FrontClass rc) (ic_IngressClass i) in if String.eqb c "" then None else Some c)
    (let s := either (FrontTLS rc) (ic_TLSSecret i) in if String.eqb s "" then [] else [s])
    (either (FrontHost rc) (ic_Host i))).

Definition desiredServiceMonitor (job : Job) : ServiceMonitor :=
  mkServiceMonitor (meta_of job (Name job) ∅ false) "job" [Namespace job]
    (getCommonLabels job) "metrics" "/".
End desired.
Arguments PVC : clear implicits.
Arguments Container : clear implicits.
Arguments Deployment : clear implicits.

(** ** The worker runs with the configuration of its job *)

(** The kubelet is not part of the program: [container_env] is the environment it
    starts a container with, given the entries of the pod, and [image_env] what the
    image and the cluster set besides.  The laws are the documented ones the code
    relies on: a literal value without a $, which starts a reference to another
    variable or an escape, is passed as it is, unless a later entry has the same
    name; and a name without an entry keeps its value. *)
Class Kubelet := {
  container_env : list EnvVar -> environ;
  image_env : environ;
  env_set : forall l1 e l2, env_field e = None -> Strings.mem "$" (env_value e) = false ->
    env_name e ∉ (env_name <$> l2) ->
    container_env (l1 ++ e :: l2) !! env_name e = Some (env_value e);
  env_unset : forall l k, k ∉ (env_name <$> l) -> container_env l !! k = image_env !! k;
}.

Definition fixed_keys : list string :=
  ["NAME"; "PROVIDER"; "UPSTREAM"; "MIRROR_PATH"; "CONCURRENT"; "INTERVAL"; "RETRY"; "TIMEOUT";
   "COMMAND"; "FAIL_ON_MATCH"; "SIZE_PATTERN"; "IPV6"; "IPV4"; "EXCLUDE_FILE"; "RSYNC_OPTIONS";
   "STAGE1_PROFILE"; "EXEC_ON_SUCCESS"; "EXEC_ON_FAILURE"; "API"; "ADDR"].

Section worker_config.
Context `{!Kubelet} (rc : CConfig) (job : Job) (manager : string).
#[local] Abbreviation c := (js_Config (Spec job)).
#[local] Abbreviation extra :=
  (dc_Env (jd_DeployConfig (js_Deploy (Spec job))) ++ jc_AdditionEnvs c).

(** The entries the user adds do not redefine the ones the controller sets. *)
Definition extra_ok : Prop := Forall (fun e => env_name e ∉ fixed_keys) extra.

Definition fixed_env : list EnvVar :=
  [ EnvLit "NAME" (Name job); EnvLit "PROVIDER" (jc_Provider c);
    EnvLit "UPSTREAM" (jc_Upstream c); EnvLit "MIRROR_PATH" (jc_MirrorPath c);
    EnvLit "CONCURRENT" (Strconv.Itoa (jc_Concurrent c));
    EnvLit "INTERVAL" (Strconv.Itoa (jc_Interval c));
    EnvLit "RETRY" (Strconv.Itoa (jc_Retry c)); EnvLit "TIMEOUT" (Strconv.Itoa (jc_Timeout c));
    EnvLit "COMMAND" (jc_Command c); EnvLit "FAIL_ON_MATCH" (jc_FailOnMatch c);
    EnvLit "SIZE_PATTERN" (jc_SizePattern c);
    EnvLit "IPV6" (jc_IPv6Only c); EnvLit "IPV4" (jc_IPv4Only c);
    EnvLit "EXCLUDE_FILE" (jc_ExcludeFile c); EnvLit "RSYNC_OPTIONS" (jc_RsyncOptions c);
    EnvLit "STAGE1_PROFILE" (jc_Stage1Profile c);
    EnvLit "EXEC_ON_SUCCESS" (jc_ExecOnSuccess c); EnvLit "EXEC_ON_FAILURE" (jc_ExecOnFailure c);
    EnvLit "API" ("http://" +:+ manager +:+ ":3000"); EnvLit "ADDR" (":" +:+ Strconv.Itoa ApiPort) ].

(** The values the controller writes hold no $. *)
Definition env_literal : Prop := Forall (fun e => Strings.mem "$" (env_value e) = false) fixed_env.

Definition later_env : list EnvVar :=
  extra ++ (if negb (String.eqb (jc_Debug c) "") || CDebug rc then [EnvLit "DEBUG" "true"] else []).

Lemma worker_env_split : worker_env rc job manager = fixed_env ++ later_env.
Proof. unfold worker_env, later_env. by rewrite <-(assoc_L (++)). Qed.

Lemma fixed_keys_kept k : extra_ok -> k ∈ fixed_keys -> k ∉ (env_name <$> later_env).
Proof.
  intros Hex Hk. unfold later_env. rewrite fmap_app. intros [He|Hd]%elem_of_app.
  - apply list_elem_of_fmap in He as (e & -> & He).
    unfold extra_ok in Hex. rewrite Forall_forall in Hex. by apply (Hex e).
  - case_match; simpl in Hd; [|by apply not_elem_of_nil in Hd].
    apply list_elem_of_singleton in Hd as ->.
    apply (bool_decide_eq_true_2 _) in Hk. vm_compute in Hk. discriminate Hk.
Qed.

(** What the controller writes is what the container finds. *)
Lemma worker_env_lookup k v :
  env_literal -> extra_ok -> EnvLit k v ∈ fixed_env ->
  container_env (worker_env rc job manager) !! k = Some v.
Proof.
  intros Hlit Hex Hin. assert (Hnd : NoDup (env_name <$> fixed_env)).
  { change (NoDup fixed_keys). by apply (bool_decide_unpack _). }
  assert (Hk : k ∈ fixed_keys) by exact (list_elem_of_fmap_2 env_name fixed_env _ Hin).
  unfold env_literal in Hlit. rewrite Forall_forall in Hlit. specialize (Hlit _ Hin).
  pose proof (fixed_keys_kept k Hex Hk) as Hlater. rewrite worker_env_split.
  apply list_elem_of_split in Hin as (l1 & l2 & E). rewrite E in *. rewrite fmap_app, fmap_cons in Hnd.
  apply NoDup_app in Hnd as (_ & _ & [Hn _]%NoDup_cons). rewrite <-(assoc_L (++)), <-app_comm_cons.
  apply (env_set l1 (EnvLit k v)); [done|done|]. rewrite fmap_app. by intros [?|?]%elem_of_app.
Qed.

(** What [LoadConfig] makes of the fixed entries. *)
Record runs_with (cfg : Config) : Prop := {
  rw_name : c_Name cfg = Name job;
  rw_provider : c_Provider cfg = or_else (jc_Provider c) "rsync";
  rw_upstream : c_Upstream cfg = jc_Upstream c;
  rw_path : c_MirrorPath cfg = jc_MirrorPath c;
  rw_concurrent : c_Concurrent cfg = if jc_Concurrent c =? 0 then 3 else jc_Concurrent c;
  rw_interval : c_Interval cfg = if jc_Interval c =? 0 then 1440 else jc_Interval c;
  rw_retry : c_Retry cfg = jc_Retry c;
  rw_timeout : c_Timeout cfg = jc_Timeout c;
  rw_command : c_Command cfg = jc_Command c;
  rw_fail : c_FailOnMatch cfg = jc_FailOnMatch c;
  rw_size : c_SizePattern cfg = jc_SizePattern c;
  rw_ipv6 : c_UseIPv6 cfg = default false (Strconv.ParseBool (jc_IPv6Only c));
  rw_ipv4 : c_UseIPv4 cfg = default false (Strconv.ParseBool (jc_IPv4Only c));
  rw_exclude : c_ExcludeFile cfg = jc_ExcludeFile c;
  rw_options : c_RsyncOptions cfg =
    if String.eqb (jc_RsyncOptions c) "" then None else Some (Strings.Split (jc_RsyncOptions c) ";");
  rw_stage1 : c_Stage1Profile cfg = jc_Stage1Profile c;
  rw_success : c_ExecOnSuccess cfg =
    if String.eqb (jc_ExecOnSuccess c) "" then None else Some (Strings.Split (jc_ExecOnSuccess c) ";");
  rw_failure : c_ExecOnFailure cfg =
    if String.eqb (jc_ExecOnFailure c) "" then None else Some (Strings.Split (jc_ExecOnFailure c) ";");
  rw_api : c_APIBase cfg = "http://" +:+ manager +:+ ":3000";
  rw_addr : c_Addr cfg = ":6000";
}.

Definition ints_ok : Prop :=
  Forall in_i64 [jc_Concurrent c; jc_Interval c; jc_Retry c; jc_Timeout c].

Lemma or_empty s : (if String.eqb s "" then "" else s) = s.
Proof. by destruct (String.eqb_spec s ""). Qed.
Lemma or_zero n : (if n =? 0 then 0 else n) = n.
Proof. by destruct (Z.eqb_spec n 0). Qed.

(** Membership of a named entry. *)
Ltac in_env :=
  unfold fixed_env; repeat first [apply list_elem_of_here | apply list_elem_of_further].

Lemma worker_config_loads :
  Name job <> "" -> jc_Upstream c <> "" -> ints_ok -> env_literal -> extra_ok ->
  exists cfg, LoadConfig (container_env (worker_env rc job manager)) = Ret cfg /\ runs_with cfg.
Proof.
  intros Hn Hu Hints Hlit Hex.
  assert (Hs : forall k v, EnvLit k v ∈ fixed_env ->
    container_env (worker_env rc job manager) !! k = Some v).
  { intros k v. by apply worker_env_lookup. }
  unfold ints_ok in Hints. rewrite !Forall_cons in Hints. destruct Hints as (H1 & H2 & H3 & H4 & _).
  unfold LoadConfig.
  rewrite (GetStringEnv_set _ "NAME" (Name job)), or_empty by (apply Hs; in_env).
  rewrite (GetStringEnv_set _ "PROVIDER" (jc_Provider c)) by (apply Hs; in_env).
  rewrite (GetStringEnv_set _ "UPSTREAM" (jc_Upstream c)), or_empty by (apply Hs; in_env).
  fold (or_else (jc_Provider c) "rsync").
  assert (Hp : String.eqb (or_else (jc_Provider c) "rsync") "" = false).
  { unfold or_else. by destruct (String.eqb_spec (jc_Provider c) ""), (jc_Provider c). }
  rewrite (proj2 (String.eqb_neq _ _) Hn), (proj2 (String.eqb_neq _ _) Hu), Hp.
  assert (Hstr : forall k v, EnvLit k v ∈ fixed_env ->
    GetStringEnv (container_env (worker_env rc job manager)) k "" = v).
  { intros k v Hk. by rewrite (GetStringEnv_set _ k v), or_empty by (by apply Hs). }
  assert (Hlist : forall k v, EnvLit k v ∈ fixed_env ->
    GetListEnv (container_env (worker_env rc job manager)) k
    = if String.eqb v "" then None else Some (Strings.Split v ";")).
  { intros k v Hk. by rewrite (GetListEnv_set _ k v) by (by apply Hs). }
  assert (Hint : forall k n def, EnvLit k (Strconv.Itoa n) ∈ fixed_env -> in_i64 n ->
    GetIntEnv (container_env (worker_env rc job manager)) k def = if n =? 0 then def else n).
  { intros k n def Hk Hn'. by rewrite (GetIntEnv_set _ k n) by (done || by apply Hs). }
  eexists. split; [reflexivity|]. split; try reflexivity.
  - apply Hstr. in_env.
  - apply Hint; [in_env|done].
  - apply Hint; [in_env|done].
  - rewrite <-(or_zero (jc_Retry c)). apply Hint; [in_env|done].
  - rewrite <-(or_zero (jc_Timeout c)). apply Hint; [in_env|done].
  - apply Hstr. in_env.
  - apply Hstr. in_env.
  - apply Hstr. in_env.
  - apply GetBoolEnv_set. apply Hs. in_env.
  - apply GetBoolEnv_set. apply Hs. in_env.
  - apply Hstr. in_env.
  - apply Hlist. in_env.
  - apply Hstr. in_env.
  - apply Hlist. in_env.
  - apply Hlist. in_env.
  - etransitivity; [apply GetStringEnv_set, Hs; in_env|reflexivity].
  - etransitivity; [apply GetStringEnv_set, Hs; in_env|reflexivity].
Qed.

(** C27: The worker runs with what the job says: with any kubelet that passes
    literal values on, the environment the controller gives its container, read back
    by [LoadConfig], yields a configuration that agrees with the job's specification
    field by field (an empty provider is rsync, a concurrency or interval of 0 is
    the default), as long as the job has a name and an upstream, none of the values
    holds a $, which the kubelet would expand, and the entries the user adds do not
    redefine the controller's. *)
Theorem worker_runs_with_its_job_config :
  Name job <> "" -> jc_Upstream c <> "" -> ints_ok -> env_literal -> extra_ok ->
  exists cfg, LoadConfig (container_env (worker_env rc job manager)) = Ret cfg /\ runs_with cfg.
Proof. apply worker_config_loads. Qed.
End worker_config.

Module JobDemo.
Definition rc : CConfig :=
  mkCConfig "manager" "worker" "" "" "" "" "caddy" "" "rsyncd" "" "" "" "" "" "" ∅ true false.
Definition config : JobConfig :=
  mkJobConfig "" "" "" "" "" "rsync://up/debian/" "" "" "" 0 60 5 0 "" "true" "" "" "-z;--bwlimit=9"
    "" "" "" "" [EnvLit "ZFS" "true"] "".
Definition job : Job :=
  mkObject (mkMeta "debian" "ns" 1)
    (mkJobSpec config zeroJobDeploy (mkPVConfig "9Ti" None "") zeroIngressConfig) zeroJobStatus.
(** A kubelet that passes every value on as it is. *)
Definition plain_env (l : list EnvVar) : environ :=
  fold_left (fun m e => <[env_name e := env_value e]> m) l ∅.
Lemma plain_env_app l1 l2 k :
  k ∉ (env_name <$> l2) -> plain_env (l1 ++ l2) !! k = plain_env l1 !! k.
Proof.
  unfold plain_env. rewrite fold_left_app.
  generalize (fold_left (fun (m : environ) e => <[env_name e := env_value e]> m) l1 ∅).
  induction l2 as [|e l2 IH]; intros m Hk; simpl; [done|].
  rewrite fmap_cons, not_elem_of_cons in Hk. destruct Hk as [Hne Hk].
  rewrite IH by done. by rewrite lookup_insert_ne.
Qed.
#[export] Program Instance plain_kubelet : Kubelet := {| container_env := plain_env; image_env := ∅ |}.
Next Obligation.
  intros l1 e l2 _ _ He. rewrite cons_middle, app_assoc, plain_env_app by done.
  unfold plain_env. rewrite fold_left_app. simpl. apply lookup_insert_eq.
Qed.
Next Obligation.
  intros l k Hk. rewrite <-(app_nil_l l), plain_env_app by done. done.
Qed.
Definition parse_quantity (s : string) : option string := if String.eqb s "" then None else Some s.
End JobDemo.

Lemma worker_runs_with_its_job_config_witness :
  exists cfg, LoadConfig (@container_env JobDemo.plain_kubelet (worker_env JobDemo.rc JobDemo.job "mgr")) = Ret cfg /\
    runs_with JobDemo.job "mgr" cfg /\ c_RsyncOptions cfg = Some ["-z"; "--bwlimit=9"] /\
    c_ZFSEnable cfg = true.
Proof.
  destruct (@worker_runs_with_its_job_config JobDemo.plain_kubelet JobDemo.rc JobDemo.job "mgr")
    as (cfg & Hl & Hr); [discriminate|discriminate| | | |].
  - repeat constructor; discriminate.
  - by apply (bool_decide_unpack _).
  - apply Forall_cons_2; [|apply Forall_nil_2].
    by apply (bool_decide_unpack _).
  - exists cfg. split; [exact Hl|]. split; [exact Hr|]. split.
    + rewrite (rw_options _ _ _ Hr). reflexivity.
    + vm_compute in Hl. injection Hl as <-. reflexivity.
Defined.

(** ** The objects of a job fit together *)
Section fit.
Context {quantity : Type} (parse_quantity : string -> option quantity).
Context (set_owner : string -> Job -> option string).
Context (rc : CConfig).
Implicit Types (d : Deployment quantity).

Lemma own_Ret {A} kind job (a b : A) : own set_owner kind job a = Ret b -> b = a.
Proof. unfold own. by case_match; intros [= <-]. Qed.

Definition port_names (cs : list (Container quantity)) : list string :=
  cp_Name <$> (cs ≫= ct_Ports).
Definition mount_names (cs : list (Container quantity)) : list string :=
  vm_Name <$> (cs ≫= ct_Mounts).

Lemma worker_container_Ret job manager w :
  worker_container parse_quantity rc job manager = Ret w ->
  w = [] \/ exists image limits, w = [mkContainer (Name job) image (pull_policy rc job)
    (worker_env rc job manager) (probe ApiPort) [data_mount job] [mkPort ApiPort "api" "TCP"] [] limits].
Proof.
  unfold worker_container. case_match; [intros [= <-]; by left|]. case_match; [done|].
  intros (l & _ & Hl)%outcome_bind_Ret. case_match; simplify_eq; [by left|right; eauto].
Qed.

(** Membership in lists that are spelled out. *)
Ltac list_mem :=
  intros; repeat (rewrite ?elem_of_cons, ?elem_of_nil in * ); intuition (subst; auto; try congruence).

Lemma app_neq s t : t <> "" -> s +:+ t <> s.
Proof.
  intros Ht H. apply (f_equal String.length) in H. rewrite Strings.length_app in H.
  destruct t; simpl in H; [done|lia].
Qed.

Lemma desiredDeployment_Some job manager cm d :
  desiredDeployment parse_quantity set_owner rc job manager cm = Ret (Some d) ->
  exists w, worker_container parse_quantity rc job manager = Ret w /\
    dp_Containers d = w ++ fst (front_containers rc job cm) ++ rsync_containers rc job /\
    dp_Volumes d = mkVolume (Name job) (ClaimSource (Name job)) :: snd (front_containers (quantity := quantity) rc job cm) /\
    dp_Selector d = getCommonLabels job /\ dp_PodLabels d = getCommonLabels job /\
    dp_Meta d = meta_of job (Name job) ∅ true.
Proof.
  unfold desiredDeployment. intros (w & Hw & Hd)%outcome_bind_Ret.
  destruct (front_containers rc job cm) as [f fv]. exists w. split; [done|].
  destruct (w ++ f ++ rsync_containers rc job) as [|c0 cs] eqn:Hc; [done|].
  apply own_Ret in Hd. by simplify_eq.
Qed.

Lemma desiredPVC_meta job pvc :
  desiredPersistentVolumeClaim parse_quantity set_owner rc job = Ret pvc ->
  pvc_Meta pvc = meta_of job (Name job) ∅ true.
Proof.
  unfold desiredPersistentVolumeClaim.
  intros (q & _ & (q' & _ & Hp)%outcome_bind_Ret)%outcome_bind_Ret. by apply own_Ret in Hp as ->.
Qed.

(** C26: What the controller applies for a job is consistent: the deployment
    and the service both select exactly the labels of the pod template; the ingress leads to
    that service and a port it has; every service port is the port of a
    container, provided the worker's container is there and, for the metrics
    port, the front; and every volume a container mounts is a volume of the
    pod, the data volume being the job's claim. *)
Theorem job_objects_fit_together job manager cm d svc ig pvc :
  desiredDeployment parse_quantity set_owner rc job manager cm = Ret (Some d) ->
  desiredService set_owner rc job = Ret svc ->
  desiredIngress set_owner rc job = Ret ig ->
  desiredPersistentVolumeClaim parse_quantity set_owner rc job = Ret pvc ->
  sv_Selector svc = dp_PodLabels d /\ dp_Selector d = dp_PodLabels d /\
  ig_Service ig = km_Name (sv_Meta svc) /\
  (disableFront (checkRsyncFront rc job) = false ->
     ig_Port ig ∈ (sp_Name <$> sv_Ports svc) /\ ig_Port ig ∈ port_names (dp_Containers d)) /\
  (Name job ∈ (ct_Name <$> dp_Containers d) ->
   (EnableMetric rc = true -> disableFront (checkRsyncFront rc job) = false) ->
   forall sp, sp ∈ sv_Ports svc -> sp_Target sp ∈ port_names (dp_Containers d)) /\
  (forall n, n ∈ mount_names (dp_Containers d) -> n ∈ (vo_Name <$> dp_Volumes d)) /\
  mkVolume (Name job) (ClaimSource (km_Name (pvc_Meta pvc))) ∈ dp_Volumes d.
Proof.
  intros Hd Hs Hi Hp. apply own_Ret in Hs as ->. apply own_Ret in Hi as ->.
  apply desiredDeployment_Some in Hd as (w & Hw%worker_container_Ret & -> & -> & -> & -> & _).
  apply desiredPVC_meta in Hp. rewrite Hp. cbn [sv_Selector ig_Service sv_Meta ig_Port sv_Ports].
  unfold front_containers, rsync_containers.
  destruct (checkRsyncFront rc job) as [df dr fc rcmd fm fi ri]. cbn [disableFront disableRsync].
  assert (Hfront : Name job +:+ "-front" <> Name job) by by apply app_neq.
  assert (Hrsync : Name job +:+ "-rsync" <> Name job) by by apply app_neq.
  unfold port_names, mount_names.
  destruct Hw as [->|(image & limits & ->)], df, dr, (EnableMetric rc), cm; cbn;
    split_and!; try done; list_mem.
Qed.
End fit.

Lemma job_objects_fit_together_witness :
  exists d svc, desiredDeployment JobDemo.parse_quantity (fun _ _ => None) JobDemo.rc JobDemo.job
      "mgr" None = Ret (Some d) /\
    desiredService (fun _ _ => None) JobDemo.rc JobDemo.job = Ret svc /\
    length (dp_Containers d) = 3%nat /\ sv_Selector svc = dp_PodLabels d.
Proof.
  destruct (desiredDeployment JobDemo.parse_quantity (fun _ _ => None) JobDemo.rc JobDemo.job
    "mgr" None) as [[d|]|e|e] eqn:Ed; try (vm_compute in Ed; discriminate Ed).
  destruct (desiredService (fun _ _ => None) JobDemo.rc JobDemo.job) as [svc|e|e] eqn:Es;
    try (vm_compute in Es; discriminate Es).
  destruct (desiredIngress (fun _ _ => None) JobDemo.rc JobDemo.job) as [ig|e|e] eqn:Ei;
    try (vm_compute in Ei; discriminate Ei).
  destruct (desiredPersistentVolumeClaim JobDemo.parse_quantity (fun _ _ => None) JobDemo.rc
    JobDemo.job) as [pvc|e|e] eqn:Ep; try (vm_compute in Ep; discriminate Ep).
  exists d, svc. split; [reflexivity|]. split; [reflexivity|]. split.
  - vm_compute in Ed. injection Ed as <-. reflexivity.
  - exact (proj1 (job_objects_fit_together _ _ _ _ _ _ _ _ _ _ Ed Es Ei Ep)).
Defined.

(** The manager sends commands to a host that is not the worker's service:
    the service of a job is called mirror-<job>, the commands are posted to
    <job>. *)
Theorem commands_are_posted_beside_the_service set_owner rc job svc :
  desiredService set_owner rc job = Ret svc ->
  PostJSON_url (Name job) <> "http://" +:+ km_Name (sv_Meta svc) +:+ ":6000" /\
  km_Name (sv_Meta svc) = serviceName (Name job).
Proof.
  intros Hs. apply own_Ret in Hs as ->. split; [|reflexivity]. cbn [sv_Meta km_Name meta_of].
  unfold PostJSON_url, serviceName. intros H.
  apply (f_equal String.length) in H. rewrite !Strings.length_app in H. simpl in H. lia.
Qed.

Lemma commands_are_posted_beside_the_service_witness :
  PostJSON_url "debian" <> "http://mirror-debian:6000".
Proof.
  destruct (desiredService (fun _ _ => None) JobDemo.rc JobDemo.job) as [svc|e|e] eqn:Es;
    try (vm_compute in Es; discriminate Es).
  destruct (commands_are_posted_beside_the_service _ _ _ _ Es) as [H Hn].
  rewrite Hn in H. exact H.
Defined.

(** The default size of a claim is out of reach: a job without a volume
    size panics the reconciler, since the empty size is parsed first (an empty
    string is not a quantity); with a size, the claim asks for exactly it. *)
Theorem default_volume_size_panics {quantity} (parse_quantity : string -> option quantity)
    set_owner rc job :
  parse_quantity "" = None ->
  (pv_Size (js_Volume (Spec job)) = "" ->
     is_panic (desiredPersistentVolumeClaim parse_quantity set_owner rc job) = true) /\
  (forall pvc, desiredPersistentVolumeClaim parse_quantity set_owner rc job = Ret pvc ->
     parse_quantity (pv_Size (js_Volume (Spec job))) = Some (pvc_Storage pvc)).
Proof.
  intros He. unfold desiredPersistentVolumeClaim, MustParse. split.
  - intros ->. by rewrite He.
  - intros pvc Hp. destruct (parse_quantity (pv_Size _)) as [q|] eqn:Eq; [|done]. simpl in Hp.
    destruct (String.eqb_spec (pv_Size (js_Volume (Spec job))) "") as [E|_]; [congruence|].
    by apply own_Ret in Hp as ->.
Qed.

Lemma default_volume_size_panics_witness :
  is_panic (desiredPersistentVolumeClaim JobDemo.parse_quantity (fun _ _ => None) JobDemo.rc
    (mkObject (mkMeta "d" "ns" 1) zeroJobSpec zeroJobStatus)) = true.
Proof.
  apply (default_volume_size_panics JobDemo.parse_quantity (fun _ _ => None) JobDemo.rc
    (mkObject (mkMeta "d" "ns" 1) zeroJobSpec zeroJobStatus)); reflexivity.
Defined.
