(* ===== verification/EndToEnd.v ===== *)
(** * From a Job resource to the sync command

    The controller writes the job's specification into the environment of the
    worker's container ([JobDesired]), the worker reads it back ([Config]) and
    builds its provider ([Provider]).  Here the three are put together. *)

From S2P Require Import Prelude GoLib Types Config Context Provider JobDesired.

(** ** Generic facts *)

Lemma Join_data n : Path.plain_name n = true -> Path.Join ["/data"; n] = "/data/" +:+ n.
Proof.
  unfold Path.plain_name. rewrite !andb_true_iff, !negb_true_iff. intros [[[H1 H2] H3] H4].
  unfold Path.Join. cbn [List.filter String.eqb negb]. rewrite H1. cbn [negb].
  change (Strings.Join ["/data"; n] "/") with (String "/" ("data" +:+ String "/" n)).
  unfold Path.Clean. change (Strings.HasPrefix (String "/" ("data" +:+ String "/" n)) "/") with true.
  change (String "/" ("data" +:+ String "/" n)) with ("" +:+ String "/" ("data" +:+ String "/" n)).
  rewrite !Strings.Split_app, Strings.Split_no_sep by done.
  cbn [Path.clean_elems String.eqb orb]. cbn. rewrite H1, H2, H3. done.
Qed.

Lemma WorkingDir_provider w l f : WorkingDir (provider_context w l f) = Ret w.
Proof. reflexivity. Qed.

(** The options of the rsync provider, in order. *)
Definition rsync_line (c : rsyncConfig) : list string :=
  default rsync_options (rs_overriddenOptions c)
  ++ timeout_option (rs_rsyncNeverTimeout c) (rs_rsyncTimeoutValue c)
  ++ ip_option (rs_useIPv6 c) (rs_useIPv4 c) ++ exclude_option (rs_excludeFile c)
  ++ default [] (rs_extraOptions c).

Lemma newRsyncProvider_command c :
  Strings.HasSuffix (rs_upstreamURL c) "/" = true ->
  exists p, newRsyncProvider c = Ret p /\
    rsync_command p = Ret (or_else (rs_rsyncCmd c) "rsync" :: rsync_line c
      ++ [rs_upstreamURL c; rs_workingDir c]) /\
    bp_retry (rp_base p) = (if rs_retry c =? 0 then defaultMaxRetry else rs_retry c).
Proof. intros Hu. unfold newRsyncProvider. rewrite Hu. cbn [negb]. eexists. split; [reflexivity|]. done. Qed.

Section hooks.
Context {regexp : Type} (shlex : string -> outcome (list string)).
Implicit Types p : @mirrorProvider regexp.

(** Two providers that differ at most in their hooks. *)
Definition same_sync p p' : Prop :=
  exists hs, p' = with_base (mkBase (bp_name (provider_base p)) (bp_ctx (provider_base p))
    (bp_interval (provider_base p)) (bp_retry (provider_base p)) (bp_timeout (provider_base p))
    (bp_hooks (provider_base p) ++ hs)) p.

Lemma same_sync_refl p : same_sync p p.
Proof. exists []. rewrite app_nil_r. by destruct p as [[[] ? ? ? ?]|[[] ? ? ?]|[[] ? ?]]. Qed.
Lemma same_sync_trans p1 p2 p3 : same_sync p1 p2 -> same_sync p2 p3 -> same_sync p1 p3.
Proof.
  intros [h1 ->] [h2 ->]. exists (h1 ++ h2). destruct p1; cbn; by rewrite app_assoc.
Qed.
Lemma add_hook_same h p : same_sync p (add_hook h p).
Proof. by exists [h]. Qed.

Lemma same_sync_rsync r p' :
  same_sync (PRsync r) p' ->
  exists r', p' = PRsync r' /\ rsync_command r' = rsync_command r
    /\ bp_retry (rp_base r') = bp_retry (rp_base r).
Proof. intros [hs ->]. by eexists. Qed.

Lemma add_exec_hooks_same b cmds p :
  b = execOnSuccess \/ b = execOnFailure ->
  Forall (fun c => exists l, shlex c = Ret l) cmds ->
  exists p', add_exec_hooks shlex b cmds p = Ret p' /\ same_sync p p'.
Proof.
  intros Hb Hc. revert p; induction Hc as [|c cmds [l Hl] _ IH]; intros p; cbn [add_exec_hooks].
  - exists p. split; [done|apply same_sync_refl].
  - assert (newExecPostHook shlex b c = Ret (HExec (b =? execOnSuccess) l)) as ->.
    { unfold newExecPostHook. rewrite Hl. by destruct Hb as [->| ->]. }
    destruct (IH (add_hook (HExec (b =? execOnSuccess) l) p)) as (p' & E & Hs). exists p'.
    split; [done|]. eapply same_sync_trans; [apply add_hook_same|done].
Qed.

(** The hooks do not change what is synchronised. *)
Lemma newMirrorProvider_same Compile formatLogDir cfg logDir p :
  formatLogDir cfg (c_LogDir cfg) = Ret logDir ->
  bare_provider (regexp := regexp) shlex Compile cfg logDir = Ret p ->
  Forall (fun c => exists l, shlex c = Ret l) (default [] (c_ExecOnSuccess cfg)) ->
  Forall (fun c => exists l, shlex c = Ret l) (default [] (c_ExecOnFailure cfg)) ->
  exists p', newMirrorProvider shlex Compile formatLogDir cfg = Ret p' /\ same_sync p p'.
Proof.
  intros Hl Hp H1 H2. unfold newMirrorProvider. rewrite Hl. cbn [or_panic]. rewrite outcome_bind_ret_l, Hp, outcome_bind_ret_l.
  set (p1 := add_hook newLogLimiter p).
  set (p2 := if c_ZFSEnable cfg then add_hook (newZfsHook (c_Zpool cfg)) p1 else p1).
  set (p3 := if c_BtrfsEnable cfg then add_hook _ p2 else p2).
  assert (Hs : same_sync p p3).
  { eapply same_sync_trans; [apply (add_hook_same newLogLimiter)|]. fold p1.
    eapply (same_sync_trans _ p2).
    - unfold p2. destruct (c_ZFSEnable cfg); [apply add_hook_same|apply same_sync_refl].
    - unfold p3. destruct (c_BtrfsEnable cfg); [apply add_hook_same|apply same_sync_refl]. }
  destruct (add_exec_hooks_same _ _ p3 (or_introl eq_refl) H1) as (p4 & E4 & Hs4). rewrite E4, outcome_bind_ret_l.
  destruct (add_exec_hooks_same _ _ p4 (or_intror eq_refl) H2) as (p5 & E5 & Hs5). exists p5. split; [done|].
  eauto using same_sync_trans.
Qed.
End hooks.

(** ** The environment and the configuration *)

(** Variables the worker reads that the controller does not set. *)
Definition other_keys : list string :=
  ["MIRROR_DIR"; "LOG_DIR"; "RSYNC_NO_TIMEOUT"; "RSYNC_TIMEOUT"; "RSYNC_OVERRIDE"].

(** A list as the resource spells it. *)
Definition cmd_list (s : string) : list string := if String.eqb s "" then [] else Strings.Split s ";".

Lemma LoadConfig_others env cfg :
  LoadConfig env = Ret cfg -> (forall k, k ∈ other_keys -> env !! k = None) ->
  c_MirrorDir cfg = "/data" /\ c_LogDir cfg = "/var/log" /\ c_RsyncNoTimeo cfg = false
  /\ c_RsyncTimeout cfg = 0 /\ c_RsyncOverride cfg = None.
Proof.
  intros Hl Hk. unfold LoadConfig in Hl. destruct (_ || _); [done|]. injection Hl as <-. cbn.
  rewrite GetStringEnv_unset, GetStringEnv_unset, GetBoolEnv_unset, GetIntEnv_unset, GetListEnv_unset
    by (apply Hk; by apply (bool_decide_unpack _)). done.
Qed.

Section reaches.
Context {regexp : Type} (shlex : string -> outcome (list string)) (Compile : string -> outcome regexp).
Context (formatLogDir : Config -> string -> outcome string).
Context `{!Kubelet} (rc : CConfig) (job : Job) (manager : string).
#[local] Abbreviation c := (js_Config (Spec job)).
#[local] Abbreviation extra :=
  (dc_Env (jd_DeployConfig (js_Deploy (Spec job))) ++ jc_AdditionEnvs c).

(** The entries the user adds are not variables of the controller or the worker. *)
Definition foreign_extra : Prop :=
  Forall (fun e => env_name e ∉ fixed_keys ++ other_keys) extra.

Lemma foreign_extra_ok : foreign_extra -> extra_ok job.
Proof.
  intros Hf. eapply Forall_impl; [exact Hf|]. intros e He. by apply not_elem_of_app in He as [? _].
Qed.

(** What the controller and the user leave unset is what the image sets. *)
Lemma worker_env_others k :
  foreign_extra -> k ∈ other_keys ->
  container_env (worker_env rc job manager) !! k = image_env !! k.
Proof.
  intros Hex Hk. apply env_unset. unfold worker_env. rewrite fmap_app. intros [Hf|Hr]%elem_of_app.
  - change (k ∈ fixed_keys) in Hf. unfold other_keys, fixed_keys in *. set_solver.
  - rewrite app_assoc, fmap_app in Hr. apply elem_of_app in Hr as [He|Hd].
    + apply list_elem_of_fmap in He as (e & -> & He). unfold foreign_extra in Hex.
      rewrite Forall_forall in Hex. destruct (Hex e He). apply elem_of_app. by right.
    + destruct (_ || _); simpl in Hd; [|by apply not_elem_of_nil in Hd].
      apply list_elem_of_singleton in Hd as ->. unfold other_keys in Hk. set_solver.
Qed.

(** The bare rsync provider of a configuration without special timeouts. *)
Lemma bare_rsync cfg logDir :
  c_Provider cfg = "rsync" -> Strings.HasSuffix (c_Upstream cfg) "/" = true ->
  c_RsyncNoTimeo cfg = false -> c_RsyncTimeout cfg = 0 -> c_RsyncOverride cfg = None ->
  exists p0, bare_provider shlex Compile cfg logDir = Ret (PRsync p0) /\
    rsync_command p0 = Ret (or_else (c_Command cfg) "rsync" :: (rsync_options ++ ["--timeout=120"]
      ++ ip_option (c_UseIPv6 cfg) (c_UseIPv4 cfg) ++ exclude_option (c_ExcludeFile cfg)
      ++ default [] (c_RsyncOptions cfg)) ++ [c_Upstream cfg; mirror_dir cfg]) /\
    bp_retry (rp_base p0) = (if c_Retry cfg =? 0 then defaultMaxRetry else c_Retry cfg).
Proof.
  intros Hp Hu O3 O4 O5. unfold bare_provider. rewrite Hp. cbn [String.eqb Ascii.eqb Bool.eqb].
  match goal with |- context [newRsyncProvider ?c] =>
    destruct (newRsyncProvider_command c Hu) as (p0 & E & Hc & Hr0) end.
  exists p0. rewrite E. split; [done|]. rewrite Hc, Hr0. unfold rsync_line.
  cbn [rs_rsyncCmd rs_overriddenOptions rs_rsyncNeverTimeout rs_rsyncTimeoutValue rs_useIPv6 rs_useIPv4
       rs_excludeFile rs_extraOptions rs_upstreamURL rs_workingDir rs_retry].
  by rewrite O3, O4, O5.
Qed.

(** C16: What an rsync job says is what runs: from the resource through the
    container's environment and the worker's configuration, the worker builds a
    provider whose command line is the job's command with the standard options,
    the job's own options, its upstream, and, as its target, exactly the
    directory where the controller mounts the job's claim.  This needs an upstream
    that ends in a slash, no mirror path, values without a $, which the kubelet would
    expand, no entries of the user for the worker's variables, an image that leaves
    those the controller does not set, and hooks and a log directory that parse. *)
Theorem job_spec_reaches_rsync :
  Path.plain_name (Name job) = true -> Strings.HasSuffix (jc_Upstream c) "/" = true ->
  ints_ok job -> env_literal job manager -> foreign_extra ->
  (forall k, k ∈ other_keys -> image_env !! k = None) ->
  jc_Provider c = "" \/ jc_Provider c = "rsync" -> jc_MirrorPath c = "" ->
  (forall cfg, formatLogDir cfg "/var/log" = Ret "/var/log") ->
  Forall (fun s => exists l, shlex s = Ret l) (cmd_list (jc_ExecOnSuccess c) ++ cmd_list (jc_ExecOnFailure c)) ->
  exists cfg p, LoadConfig (container_env (worker_env rc job manager)) = Ret cfg /\
    newMirrorProvider shlex Compile formatLogDir cfg = Ret (PRsync p) /\
    rsync_command p = Ret (or_else (jc_Command c) "rsync" :: rsync_options ++ ["--timeout=120"]
      ++ ip_option (default false (Strconv.ParseBool (jc_IPv6Only c)))
           (default false (Strconv.ParseBool (jc_IPv4Only c)))
      ++ exclude_option (jc_ExcludeFile c) ++ cmd_list (jc_RsyncOptions c)
      ++ [jc_Upstream c; vm_MountPath (data_mount job)]) /\
    bp_retry (rp_base p) = (if jc_Retry c =? 0 then defaultMaxRetry else jc_Retry c).
Proof.
  intros Hn Hu Hints Hlit Hex Himg Hp Hpath Hlog Hsh. apply Forall_app in Hsh as [Hs1 Hs2].
  assert (Hn' : Name job <> "") by (intros E; by rewrite E in Hn).
  assert (Hu' : jc_Upstream c <> "") by (intros E; by rewrite E in Hu).
  destruct (worker_config_loads rc job manager Hn' Hu' Hints Hlit (foreign_extra_ok Hex)) as (cfg & Hl & Hr).
  destruct (LoadConfig_others _ cfg Hl) as (O1 & O2 & O3 & O4 & O5).
  { intros k Hk. rewrite worker_env_others by done. by apply Himg. }
  assert (Hprov : c_Provider cfg = "rsync").
  { rewrite (rw_provider _ _ _ Hr). unfold or_else. by destruct Hp as [-> | ->]. }
  assert (Hdir : mirror_dir cfg = vm_MountPath (data_mount job)).
  { unfold mirror_dir. rewrite (rw_path _ _ _ Hr), Hpath, O1, (rw_name _ _ _ Hr). by apply Join_data. }
  destruct (bare_rsync cfg "/var/log" Hprov) as (p0 & Hbare & Hcmd & Hretry); try done.
  { by rewrite (rw_upstream _ _ _ Hr). }
  destruct (newMirrorProvider_same shlex Compile formatLogDir cfg "/var/log" (PRsync p0))
    as (p' & Hnew & Hsame).
  - by rewrite O2.
  - done.
  - rewrite (rw_success _ _ _ Hr). unfold cmd_list in Hs1. by destruct (String.eqb _ "").
  - rewrite (rw_failure _ _ _ Hr). unfold cmd_list in Hs2. by destruct (String.eqb _ "").
  - apply same_sync_rsync in Hsame as (p & -> & Hc & Hb). exists cfg, p. split; [done|]. split; [done|].
    rewrite Hc, Hcmd, Hb, Hretry, Hdir, (rw_retry _ _ _ Hr). split; [|done].
    rewrite (rw_command _ _ _ Hr), (rw_ipv6 _ _ _ Hr), (rw_ipv4 _ _ _ Hr), (rw_exclude _ _ _ Hr),
      (rw_options _ _ _ Hr), (rw_upstream _ _ _ Hr). unfold cmd_list. rewrite <-!app_assoc.
    by destruct (String.eqb (jc_RsyncOptions c) "").
Qed.
End reaches.

(** *** Witness: the job of [JobDemo], with two extra rsync options. *)
Lemma job_spec_reaches_rsync_witness :
  exists cfg (p : rsyncProvider),
    LoadConfig (@container_env JobDemo.plain_kubelet (worker_env JobDemo.rc JobDemo.job "mgr")) = Ret cfg /\
    rsync_command p = Ret ("rsync" :: rsync_options ++ ["--timeout=120"; "-6"; "-z"; "--bwlimit=9";
      "rsync://up/debian/"; "/data/debian"]) /\ bp_retry (rp_base p) = 5.
Proof.
  destruct (@job_spec_reaches_rsync unit (fun s => Ret [s]) (fun _ => Ret tt)
    (fun _ s => Ret s) JobDemo.plain_kubelet JobDemo.rc JobDemo.job "mgr") as (cfg & p & H1 & _ & H2 & H3).
  - reflexivity.
  - reflexivity.
  - repeat constructor; discriminate.
  - by apply (bool_decide_unpack _).
  - apply Forall_cons_2; [|apply Forall_nil_2]. by apply (bool_decide_unpack _).
  - done.
  - left. reflexivity.
  - reflexivity.
  - reflexivity.
  - apply Forall_nil_2.
  - exists cfg, p. split; [exact H1|]. split; [exact H2|exact H3].
Defined.

(** ** The stages of the two-stage provider *)

(** The options of rsync that delete, the abbreviation [--del] included. *)
Definition deletes (o : string) : bool := String.eqb o "--del" || Strings.HasPrefix o "--delete".

(** C34: The first stage of the two-stage provider runs without an option that
    deletes (when neither the command nor the name of the exclude file reads as
    one).  The second runs with [--delete] and [--delete-after] and, the extra options of
    the job apart, no other option that deletes.  Both synchronise the same upstream into the same
    directory.  A first-stage profile that is not in the table is refused. *)
Theorem two_stage_deletes_last (c : twoStageRsyncConfig) (p : twoStageRsyncProvider) :
  newTwoStageRsyncProvider c = Ret p -> deletes (ts_excludeFile c) = false ->
  deletes (ts_rsyncCmd c) = false ->
  (is_Some (rsyncStage1Profiles (ts_stage1Profile c)) ->
   exists o1 o2, stage_command p 1 = Ret (tp_rsyncCmd p :: o1 ++ [ts_upstreamURL c; ts_workingDir c]) /\
     stage_command p 2 = Ret (tp_rsyncCmd p :: o2 ++ [ts_upstreamURL c; ts_workingDir c]) /\
     Forall (fun o => deletes o = false) (tp_rsyncCmd p :: o1) /\
     "--delete" ∈ o2 /\ "--delete-after" ∈ o2 /\
     forall o, o ∈ o2 -> deletes o = true ->
       o = "--delete" \/ o = "--delete-after" \/ o ∈ default [] (ts_extraOptions c)) /\
  (rsyncStage1Profiles (ts_stage1Profile c) = None ->
   stage_command p 1 = Err "Invalid Stage 1 Profile").
Proof.
  unfold newTwoStageRsyncProvider. destruct (negb _); [done|]. intros [= <-] Hex Hcmd.
  split; [|intros Hp; unfold stage_command, Options; cbn [tp_config]; simpl; by rewrite Hp].
  intros [prof Hprof]. unfold stage_command, Options. cbn [tp_config tp_rsyncCmd].
  change (1 =? 1) with true. change (2 =? 1) with false. change (2 =? 2) with true. cbv iota.
  rewrite Hprof, !outcome_bind_ret_l. cbn [tp_base base_of bp_ctx].
  rewrite WorkingDir_provider, !outcome_bind_ret_l. eexists _, _.
  assert (Ht : Forall (fun o => deletes o = false)
    (timeout_option (ts_rsyncNeverTimeout c) (ts_rsyncTimeoutValue c)
     ++ ip_option (ts_useIPv6 c) (ts_useIPv4 c) ++ exclude_option (ts_excludeFile c))).
  { unfold timeout_option, ip_option, exclude_option.
    destruct (ts_rsyncNeverTimeout c), (ts_useIPv6 c), (ts_useIPv4 c), (String.eqb (ts_excludeFile c) "");
      repeat apply Forall_cons_2; done. }
  split; [reflexivity|]. split; [reflexivity|]. split_and!.
  - apply Forall_cons_2; [by destruct (String.eqb (ts_rsyncCmd c) "")|].
    apply Forall_app; split; [by repeat apply Forall_cons_2|]. apply Forall_app; split; [|done].
    unfold rsyncStage1Profiles in Hprof. repeat case_match; simplify_eq; by repeat apply Forall_cons_2.
  - apply elem_of_app. left. by apply (bool_decide_unpack _).
  - apply elem_of_app. left. by apply (bool_decide_unpack _).
  - intros o [Ho|[Ho|Ho]%elem_of_app]%elem_of_app Hd; [|by right; right|].
    + unfold stage2Options, rsync_options in Ho.
      repeat (apply elem_of_cons in Ho as [->|Ho]; [first [discriminate Hd|by left|by right; left]|]).
      by apply not_elem_of_nil in Ho.
    + rewrite Forall_forall in Ht. by rewrite (Ht o Ho) in Hd.
Qed.

Lemma two_stage_deletes_last_witness :
  exists p o1, newTwoStageRsyncProvider (mkTwoStageConfig "debian" "" "debian" "rsync://up/debian/" "" None
      false 0 "/data/debian" "/var/log" "/var/log/latest.log" false true 0 0 0) = Ret p /\
    stage_command p 1 = Ret ("rsync" :: o1 ++ ["rsync://up/debian/"; "/data/debian"]) /\
    Forall (fun o => deletes o = false) o1.
Proof.
  eexists. edestruct (two_stage_deletes_last (mkTwoStageConfig "debian" "" "debian" "rsync://up/debian/" ""
    None false 0 "/data/debian" "/var/log" "/var/log/latest.log" false true 0 0 0))
    as [(o1 & o2 & H1 & _ & H3 & _) _]; [reflexivity|reflexivity|reflexivity|eexists; reflexivity|].
  exists o1. split; [reflexivity|]. split; [exact H1|]. by apply Forall_cons in H3 as [_ H3].
Defined.
