(* ===== verification/ControllerConfig.v ===== *)
(** * The controller's configuration (src/cmd/main.go)

    [getConfig] reads the environment and [mergeDefaults] fills in what is not
    set.  The source walks over the fields of the structure by reflection; here
    the fields are written out. *)

From S2P Require Import Prelude GoLib Types Config JobDesired.

(** The default Caddy configuration; its double quotes are written as single
    ones. *)
Definition quoted : string -> string :=
  Strings.map_bytes (fun c => if Ascii.eqb c "'" then ascii_of_nat 34 else c).
Definition defaultFrontConfig : string := quoted "
{
    'logging': {
        'logs': {
            'default': {},
            'loki': {
                'writer': {
                    'labels': {
                        'job': '{env.JOB_NAME}',
                        'instance': '{env.HOSTNAME}',
                        'component': 'caddy'
                    },
                    'output': 'loki',
                    'url': 'http://loki:3100/loki/api/v1/push'
                },
                'encoder': {
                    'format': 'json'
                },
                'level': 'INFO',
                'include': [
                    'http.log.access'
                ]
            }
        }
    },
    'apps': {
        'http': {
            'servers': {
                'metric': {
                    'listen': [
                        ':2019'
                    ],
                    'routes': [
                        {
                            'handle': [
                                {
                                    'handler': 'metrics'
                                }
                            ]
                        }
                    ]
                },
                'file_server': {
                    'listen': [
                        ':80'
                    ],
                    'routes': [
                        {
                            'handle': [
                                {
                                    'browse': {},
                                    'handler': 'file_server',
                                    'root': '/data'
                                }
                            ]
                        }
                    ],
                    'logs': {
                        'default_logger_name': 'loki'
                    },
                    'metrics': {}
                }
            }
        }
    }
}
		".

Definition defaultConfig : CConfig :=
  mkCConfig "cquptmirror/manager:latest" "cquptmirror/worker:latest" "" "" "" ""
    "cquptmirror/caddy:latest" "" "" "" defaultFrontConfig "" "mirrors.cqupt.edu.cn" "" "traefik"
    {["traefik.ingress.kubernetes.io/router.entrypoints" := "web"]} false false.

(** [ann_nil]: the annotation map is nil, which is what [IsZero] asks of a map; an
    empty map is not. *)
Definition mergeDefaults (c : CConfig) (ann_nil : bool) : CConfig :=
  let d := defaultConfig in
  mkCConfig (or_else (ManagerImage c) (ManagerImage d)) (or_else (WorkerImage c) (WorkerImage d))
    (or_else (PullPolicy c) (PullPolicy d)) (or_else (PullSecret c) (PullSecret d))
    (or_else (StorageClass c) (StorageClass d)) (or_else (AccessMode c) (AccessMode d))
    (or_else (FrontMode c) (FrontMode d)) (or_else (FrontImage c) (FrontImage d))
    (or_else (RsyncImage c) (RsyncImage d)) (or_else (FrontCmd c) (FrontCmd d))
    (or_else (FrontConfig c) (FrontConfig d)) (or_else (RsyncCmd c) (RsyncCmd d))
    (or_else (FrontHost c) (FrontHost d)) (or_else (FrontTLS c) (FrontTLS d))
    (or_else (FrontClass c) (FrontClass d)) (if ann_nil then FrontAnn d else FrontAnn c)
    (EnableMetric c) (CDebug c).

(** [os.Getenv] *)
Definition Getenv (env : environ) (k : string) : string := default "" (env !! k).

(** One item of FRONT_ANN: only key=value counts. *)
Definition add_annotation (m : gmap string string) (item : string) : gmap string string :=
  match Strings.Split item "=" with
  | [k; v] => <[k := v]> m
  | _ => m
  end.
Definition parse_annotations (s : string) : gmap string string :=
  if String.eqb s "" then ∅ else fold_left add_annotation (Strings.Split s ";") ∅.

Definition getConfig (env : environ) : CConfig :=
  let g := Getenv env in
  mergeDefaults
    (mkCConfig (g "MANAGER_IMAGE") (g "WORKER_IMAGE") (g "PULL_POLICY") (g "PULL_SECRET")
      (g "STORAGE_CLASS") (g "ACCESS_MODE") (g "FRONT_MODE") (g "FRONT_IMAGE") (g "RSYNC_IMAGE")
      (g "FRONT_CMD") (g "FRONT_CONFIG") (g "RSYNC_CMD") (g "FRONT_HOST") (g "FRONT_TLS")
      (g "FRONT_CLASS") (parse_annotations (g "FRONT_ANN"))
      (negb (String.eqb (g "ENABLE_METRIC") "")) (negb (String.eqb (g "DEBUG") "")))
    false.

(** A variable is unset or empty. *)
Definition unset (env : environ) (k : string) : Prop := Getenv env k = "".

(** Out of the box the front cannot start: with neither FRONT_MODE nor
    FRONT_IMAGE set, every job that does not choose a mode and does not disable
    its front gets a front container whose image carries two tags; and the
    default annotations are never used, since the map read from the environment
    is not nil even when it is empty. *)
Theorem default_front_image_has_two_tags (env : environ) (job : Job) :
  unset env "FRONT_MODE" -> unset env "FRONT_IMAGE" ->
  jd_FrontMode (js_Deploy (Spec job)) = "" ->
  Strconv.ParseBool (jd_DisableFront (js_Deploy (Spec job))) <> Some true ->
  let rc := getConfig env in
  disableFront (checkRsyncFront rc job) = false /\
  frontImage (checkRsyncFront rc job) = "cquptmirror/caddy:latest:latest" /\
  FrontAnn rc = parse_annotations (Getenv env "FRONT_ANN").
Proof.
  unfold unset. intros Hm Hi Hj Hd. unfold getConfig, checkRsyncFront. cbn.
  rewrite Hm, Hi, Hj. cbn. split_and!; [|done|done].
  by destruct (Strconv.ParseBool _) as [[]|].
Qed.

Lemma default_front_image_has_two_tags_witness :
  frontImage (checkRsyncFront (getConfig ∅) JobDemo.job) = "cquptmirror/caddy:latest:latest" /\
  FrontAnn (getConfig ∅) = ∅.
Proof.
  destruct (default_front_image_has_two_tags ∅ JobDemo.job) as (_ & H1 & H2);
    [reflexivity|reflexivity|reflexivity|discriminate|].
  split; [exact H1|exact H2].
Defined.

(** The map read from the environment is never nil, so the default annotations
    are never used, whatever the environment. *)
Lemma default_annotations_never_apply (env : environ) :
  FrontAnn (getConfig env) = parse_annotations (Getenv env "FRONT_ANN").
Proof. reflexivity. Qed.
