(* ===== verification/JobReconcile.v ===== *)
(** * The job reconciler (src/internal/controller/job_controller.go)

    [Reconcile] is the code's function, over any cluster with the interfaces of
    [Kube] and [Cluster].  [reconcile_plan] is its contract: the list of writes
    it makes, computed from the job, the manager's name and the configuration
    before anything is written. *)

From S2P Require Import Prelude GoLib Types Kube Cluster JobDesired.

Section job_reconcile.
Context {quantity : Type} (parse_quantity : string -> option quantity).
Context (json_compact : string -> outcome string).
Context (set_owner : string -> Job -> option string).
(** [apierrors.IsNotFound]. *)
Context (IsNotFound : string -> bool).
Context (rc : CConfig).

(** The objects of a job. *)
Inductive jchild :=
  | JClaim (c : PVC quantity) | JService (s : Service) | JIngress (i : Ingress)
  | JConfigMap (m : ConfigMap) | JDeployment (d : Deployment quantity)
  | JServiceMonitor (m : ServiceMonitor).

#[export] Instance jchild_key : HasKey jchild := fun c =>
  match c with
  | JClaim c => ("PersistentVolumeClaim", km_Name (pvc_Meta c))
  | JService s => ("Service", km_Name (sv_Meta s))
  | JIngress i => ("Ingress", km_Name (ig_Meta i))
  | JConfigMap m => ("ConfigMap", km_Name (cm_Meta m))
  | JDeployment d => ("Deployment", km_Name (dp_Meta d))
  | JServiceMonitor m => ("ServiceMonitor", km_Name (sm_Meta m))
  end.

Definition active (m : Manager) : bool := String.eqb (Phase (Status m)) DeploySucceeded.

Definition is_mirror (job : Job) : bool :=
  String.eqb (jc_Type (js_Config (Spec job))) ""
  || String.eqb (jc_Type (js_Config (Spec job))) Mirror.

Definition with_created (job : Job) : Job :=
  if String.eqb (st_Status (Status job)) "" then
    with_status job (let s := Status job in
      mkJobStatus Created (LastUpdate s) (LastStarted s) (LastEnded s) (Scheduled s)
        (st_Upstream s) (st_Size s) (ErrorMsg s) (LastOnline s) (LastRegister s))
  else job.

Section reconcile.
Context {K : Type} `{!Client K JobSpec JobStatus, !Client K ManagerSpec ManagerStatus,
  !Children K jchild}.

Definition patch (c : jchild) : rec K unit := check (cApply c).
Definition remove (key : ckey) : rec K unit := drop_err (cDelete (C := jchild) key).

(** [if err == nil || x != nil] is always true: [x] is a fresh object. *)
Definition delete_workload (job : Job) : rec K unit :=
  deploy ← read (found_key (C := jchild) ("Deployment", Name job));
  remove ("Ingress", Name job);;
  remove ("Service", Name job);;
  remove deploy;;
  remove ("ConfigMap", Name job);;
  remove ("ServiceMonitor", Name job).

Definition apply_workload (job : Job) (d : Deployment quantity) (svc : Service)
    (ig : option Ingress) (frontCM : option ConfigMap) (sm : option ServiceMonitor) : rec K unit :=
  patch (JService svc);;
  (if disableFront (checkRsyncFront rc job) then mret tt
   else
     ig ← pure (deref ig);
     patch (JIngress ig);;
     match frontCM with Some cm => patch (JConfigMap cm) | None => mret tt end);;
  patch (JDeployment d);;
  match sm with Some sm => patch (JServiceMonitor sm) | None => mret tt end.

Definition reconcile_job (job : Job) (managerName : string) : rec K unit :=
  let off := disableFront (checkRsyncFront rc job) in
  front ← (if off then mret (None, None)
           else ig ← pure (desiredIngress set_owner rc job);
                cm ← pure (desiredFrontConfigmap json_compact rc job);
                mret (Some ig, cm));
  pvc ← pure (desiredPersistentVolumeClaim parse_quantity set_owner rc job);
  app ← pure (desiredDeployment parse_quantity set_owner rc job managerName front.2);
  svc ← pure (desiredService set_owner rc job);
  let sm := if EnableMetric rc then Some (desiredServiceMonitor job) else None in
  patch (JClaim pvc);;
  match app with
  | Some d => apply_workload job d svc front.1 front.2 sm
  | None => delete_workload job
  end;;
  (if off then remove ("Ingress", Name job) else mret tt);;
  check (fun k => let '(k', _, e) := kStatusUpdate (with_created job) k in (k', e)).

Definition Reconcile (req : string) : rec K unit :=
  got ← read (kGet (Sp := JobSpec) (St := JobStatus) req);
  match got with
  | Err e | Panic e => if IsNotFound e then mret tt else pure (Err e)
  | Ret job =>
      managers ← read (kList (Sp := ManagerSpec) (St := ManagerStatus));
      match managers with
      | (_, Some e) => pure (Err e)
      | (items, None) =>
          match List.filter active items with
          | [] => pure (Err "no active manager in this namespace")
          | m :: _ => if is_mirror job then reconcile_job job (Name m) else mret tt
          end
      end
  end.

(** ** The contract *)

(** The writes for given objects, in order: no deployment means that there is
    nothing to run. *)
Definition plan_of (job : Job) (pvc : PVC quantity) (svc : Service) (ig : option Ingress)
    (cm : option ConfigMap) (app : option (Deployment quantity)) : list (action jchild) :=
  let n := Name job in
  Apply (JClaim pvc)
  :: match app with
     | Some d =>
         [Apply (JService svc)]
         ++ match ig with Some ig => [Apply (JIngress ig)] | None => [] end
         ++ match cm with Some cm => [Apply (JConfigMap cm)] | None => [] end
         ++ [Apply (JDeployment d)]
         ++ (if EnableMetric rc then [Apply (JServiceMonitor (desiredServiceMonitor job))] else [])
     | None =>
         [DeleteFound ("Deployment", n) [("Ingress", n); ("Service", n)];
          Delete ("ConfigMap", n); Delete ("ServiceMonitor", n)]
     end
  ++ (if disableFront (checkRsyncFront rc job) then [Delete ("Ingress", n)] else []).

(** What a job's reconciliation writes. *)
Definition reconcile_plan (job : Job) (managerName : string) : outcome (list (action jchild)) :=
  front ← (if disableFront (checkRsyncFront rc job) then Ret (None, None)
           else ig ← desiredIngress set_owner rc job;
                cm ← desiredFrontConfigmap json_compact rc job;
                Ret (Some ig, cm));
  pvc ← desiredPersistentVolumeClaim parse_quantity set_owner rc job;
  app ← desiredDeployment parse_quantity set_owner rc job managerName front.2;
  svc ← desiredService set_owner rc job;
  Ret (plan_of job pvc svc front.1 front.2 app).

Definition update_status (job : Job) (k : K) : K * option string :=
  let '(k', _, e) := kStatusUpdate (with_created job) k in (k', e).

(** The reconciler computes its plan first, then carries it out and records the
    status. *)
Lemma reconcile_job_plan job managerName k :
  reconcile_job job managerName k =
    match reconcile_plan job managerName with
    | Ret p => (check (exec p);; check (update_status job)) k
    | Err e => (k, Err e)
    | Panic m => (k, Panic m)
    end.
Proof.
  unfold reconcile_job, reconcile_plan, plan_of, apply_workload, delete_workload, patch, remove, update_status.
  destruct (disableFront (checkRsyncFront rc job)) eqn:Eoff;
    [|destruct (desiredIngress set_owner rc job) as [ig|e|m]; [|done|done];
      destruct (desiredFrontConfigmap json_compact rc job) as [[cm|]|e|m]; [| |done|done]].
  all: destruct (desiredPersistentVolumeClaim parse_quantity set_owner rc job) as [pvc|e|m];
    [|done|done].
  all: cbv beta iota delta [mbind rec_bind outcome_bind pure mret rec_ret fst snd].
  all: destruct (desiredDeployment _ _ _ _ _ _) as [[d|]|e|m]; [| |done|done].
  all: destruct (desiredService set_owner rc job) as [svc|e|m]; [|done|done].
  all: cbn; unfold check, drop_err, read, deref; cbn.
  all: destruct (EnableMetric rc); cbn.
  all: repeat (destruct (cApply _ _) as [? [?|]]; [done|]; cbn); try done.
Qed.

(** The objects of a plan, and the names they have. *)
Record plan_objects (job : Job) (mgr : string) (p : list (action jchild)) (pvc : PVC quantity)
    (svc : Service) (ig : option Ingress) (cm : option ConfigMap)
    (app : option (Deployment quantity)) : Prop := {
  po_plan : p = plan_of job pvc svc ig cm app;
  po_pvc : desiredPersistentVolumeClaim parse_quantity set_owner rc job = Ret pvc;
  po_svc : desiredService set_owner rc job = Ret svc;
  po_app : desiredDeployment parse_quantity set_owner rc job mgr cm = Ret app;
  po_off : disableFront (checkRsyncFront rc job) = true -> ig = None /\ cm = None;
  po_on : disableFront (checkRsyncFront rc job) = false ->
    exists i, ig = Some i /\ desiredIngress set_owner rc job = Ret i
      /\ desiredFrontConfigmap json_compact rc job = Ret cm;
}.

Lemma reconcile_plan_Ret job mgr p :
  reconcile_plan job mgr = Ret p ->
  exists pvc svc ig cm app, plan_objects job mgr p pvc svc ig cm app.
Proof.
  unfold reconcile_plan. intros ([ig cm] & Hf & Hp)%outcome_bind_Ret.
  apply outcome_bind_Ret in Hp as (pvc & Hpvc & Hp). cbn [fst snd] in Hp.
  apply outcome_bind_Ret in Hp as (app & Happ & Hp).
  apply outcome_bind_Ret in Hp as (svc & Hsvc & Hp). simplify_eq.
  exists pvc, svc, ig, cm, app.
  destruct (disableFront (checkRsyncFront rc job)) eqn:Eoff;
    [simplify_eq; split; intros; try done; congruence|].
  apply outcome_bind_Ret in Hf as (i & Hi & Hf).
  apply outcome_bind_Ret in Hf as (cm' & Hcm & Hf). simplify_eq.
  split; intros; try done; [congruence|eauto].
Qed.

Lemma desiredFrontConfigmap_meta job cm :
  desiredFrontConfigmap json_compact rc job = Ret (Some cm) ->
  km_Name (cm_Meta cm) = Name job +:+ "-front".
Proof.
  unfold desiredFrontConfigmap. intros (c & _ & H)%outcome_bind_Ret.
  by destruct (String.eqb c ""); simplify_eq.
Qed.

Lemma serviceName_neq n : serviceName n <> n.
Proof.
  intros E. apply (f_equal String.length) in E. unfold serviceName in E.
  rewrite Strings.length_app in E. simpl in E. lia.
Qed.

Section names.
Context job mgr p pvc svc ig cm app (Ho : plan_objects job mgr p pvc svc ig cm app).

Lemma key_claim : key_of (JClaim pvc) = ("PersistentVolumeClaim", Name job).
Proof. unfold key_of; simpl. by rewrite (desiredPVC_meta _ _ _ _ _ (po_pvc _ _ _ _ _ _ _ _ Ho)). Qed.
Lemma key_service : key_of (JService svc) = ("Service", serviceName (Name job)).
Proof. unfold key_of; simpl. by rewrite (own_Ret _ _ _ _ _ (po_svc _ _ _ _ _ _ _ _ Ho)). Qed.
Lemma key_ingress i : ig = Some i -> key_of (JIngress i) = ("Ingress", Name job).
Proof.
  intros Hi. destruct (disableFront (checkRsyncFront rc job)) eqn:E.
  - destruct (po_off _ _ _ _ _ _ _ _ Ho E). congruence.
  - destruct (po_on _ _ _ _ _ _ _ _ Ho E) as (i' & E1 & E2 & _). simplify_eq.
    apply own_Ret in E2 as ->. done.
Qed.
Lemma key_config c : cm = Some c -> key_of (JConfigMap c) = ("ConfigMap", Name job +:+ "-front").
Proof.
  intros Hc. destruct (disableFront (checkRsyncFront rc job)) eqn:E.
  - destruct (po_off _ _ _ _ _ _ _ _ Ho E). congruence.
  - destruct (po_on _ _ _ _ _ _ _ _ Ho E) as (i' & E1 & _ & E2). simplify_eq.
    unfold key_of; simpl. by rewrite (desiredFrontConfigmap_meta _ _ E2).
Qed.
Lemma key_deployment d : app = Some d -> key_of (JDeployment d) = ("Deployment", Name job).
Proof.
  intros ->. pose proof (po_app _ _ _ _ _ _ _ _ Ho) as Ha.
  apply desiredDeployment_Some in Ha as (w & _ & _ & _ & _ & _ & Hm). unfold key_of; simpl. by rewrite Hm.
Qed.
End names.

(** The objects of job [n]. *)
Definition own_keys (n : string) : list ckey :=
  [("PersistentVolumeClaim", n); ("Service", serviceName n); ("Ingress", n);
   ("ConfigMap", n +:+ "-front"); ("Deployment", n); ("ServiceMonitor", n)].

(** The names under which the reconciler looks for the service and the config map
    of job [n] when it takes them down; they are not the ones it gives them, and
    may be those of another job. *)
Definition misnamed_keys (n : string) : list ckey := [("Service", n); ("ConfigMap", n)].

(** No two jobs share an object. *)
Lemma own_keys_apart n n' key : n <> n' -> key ∈ own_keys n -> key ∉ own_keys n'.
Proof.
  intros Hn Hk Hk'. unfold own_keys, serviceName in *.
  assert (Hf : n +:+ "-front" <> n' +:+ "-front") by (intros E; by apply Strings.app_inj_r in E).
  rewrite !elem_of_cons, elem_of_nil in Hk, Hk'. destruct_or? Hk; destruct_or? Hk'; simplify_eq/=.
Qed.

Lemma plan_touched job mgr p pvc svc ig cm app key :
  plan_objects job mgr p pvc svc ig cm app -> key ∈ (p ≫= touched) ->
  key ∈ own_keys (Name job) \/ (app = None /\ key ∈ misnamed_keys (Name job)).
Proof.
  intros Ho. rewrite (po_plan _ _ _ _ _ _ _ _ Ho). unfold plan_of, own_keys, misnamed_keys.
  cbn [mbind list_bind]. rewrite elem_of_app. intros [Hk|Hk].
  { cbn [touched] in Hk. rewrite (key_claim _ _ _ _ _ _ _ _ Ho) in Hk. set_solver. }
  rewrite bind_app, elem_of_app in Hk. destruct Hk as [Hk|Hk].
  2: { destruct (disableFront _); cbn in Hk; set_solver. }
  destruct app as [d|]; [left|cbn in Hk; set_solver].
  rewrite !bind_app, !elem_of_app in Hk. destruct Hk as [Hk|[Hk|[Hk|[Hk|Hk]]]].
  - cbn [mbind list_bind touched app] in Hk. rewrite (key_service _ _ _ _ _ _ _ _ Ho) in Hk. set_solver.
  - destruct ig as [i|]; cbn [mbind list_bind touched app] in Hk; [|set_solver].
    rewrite (key_ingress _ _ _ _ _ _ _ _ Ho i eq_refl) in Hk. set_solver.
  - destruct cm as [c|]; cbn [mbind list_bind touched app] in Hk; [|set_solver].
    rewrite (key_config _ _ _ _ _ _ _ _ Ho c eq_refl) in Hk. set_solver.
  - cbn [mbind list_bind touched app] in Hk.
    rewrite (key_deployment _ _ _ _ _ _ _ _ Ho d eq_refl) in Hk. set_solver.
  - destruct (EnableMetric rc); cbn in Hk; set_solver.
Qed.

(** Every way a reconciliation can go. *)
Inductive reconciled (req : string) (k k' : K) (r : outcome unit) : Prop :=
  | rec_untouched (Hk : k' = k)
  | rec_stopped job m p e (Hj : kGet req k = Ret job) (Hp : reconcile_plan job m = Ret p)
      (Hx : exec p k = (k', Some e)) (Hr : r = Err e)
  | rec_carried_out job m p k1 u (Hj : kGet req k = Ret job) (Hp : reconcile_plan job m = Ret p)
      (Hx : exec p k = (k1, None)) (Hu : update_status job k1 = (k', u))
      (Hr : r = match u with None => Ret tt | Some e => Err e end).

Lemma Reconcile_cases req k k' r : Reconcile req k = (k', r) -> reconciled req k k' r.
Proof.
  unfold Reconcile, read, pure. cbv beta iota delta [mbind rec_bind mret rec_ret].
  destruct (kGet req k) as [job|e|e] eqn:Ej; cbv beta iota;
    [|destruct (IsNotFound e); intros; simplify_eq; by apply rec_untouched..].
  destruct (kList k) as [items [e|]]; cbv beta iota; [intros; simplify_eq; by apply rec_untouched|].
  destruct (List.filter active items) as [|m ms]; cbv beta iota; [intros; simplify_eq; by apply rec_untouched|].
  destruct (is_mirror job); cbv beta iota; [|intros; simplify_eq; by apply rec_untouched].
  rewrite reconcile_job_plan. destruct (reconcile_plan job (Name m)) as [p|e|e] eqn:Ep;
    [|intros; simplify_eq; by apply rec_untouched..].
  intros [(e & Hx & ->)|(k1 & Hx & Hu)]%check_bind_inv; [by eapply rec_stopped|].
  unfold check in Hu. destruct (update_status job k1) as [k2 u] eqn:Eu.
  eapply rec_carried_out; [done|done|done|..]; destruct u; by simplify_eq.
Qed.

Section laws.
Context `{!ClientLaws K JobSpec JobStatus, !ChildrenLaws K jchild, !Apart K jchild JobSpec JobStatus,
  !ApartBack K jchild JobSpec JobStatus}.

Lemma with_created_meta job : Meta (with_created job) = Meta job /\ Spec (with_created job) = Spec job.
Proof. unfold with_created. by destruct (String.eqb _ ""). Qed.

(** The status update changes nothing, or marks the job, as the API server holds
    it, as created. *)
Lemma update_status_stored req job (k k1 k' : K) u :
  kwf (Sp := JobSpec) (St := JobStatus) k -> kwf (Sp := JobSpec) (St := JobStatus) k1 ->
  stored (Sp := JobSpec) (St := JobStatus) k1 = stored k -> kGet req k = Ret job ->
  update_status job k1 = (k', u) ->
  children (C := jchild) k' = children k1 /\
  (stored (Sp := JobSpec) (St := JobStatus) k' = stored k
   \/ exists o', stored k !! req = Some job /\ stored k' = <[req := o']> (stored k)
        /\ Spec o' = Spec job /\ Status o' = Status (with_created job)).
Proof.
  intros Hk Hk1 Hs Hg Hu. unfold update_status in Hu.
  pose proof (apart_update (C := jchild) k1 (with_created job)) as Hc.
  destruct (kStatusUpdate (with_created job) k1) as [[k2 o'] e] eqn:Eu. simplify_eq.
  split; [exact Hc|]. destruct u as [e|]; [left; by rewrite (update_err _ _ _ _ _ Eu)|right].
  apply update_ok in Eu as (cur & Hcur & Hrv & Hn & Hsp & Hst & Hk'); [|done].
  destruct (with_created_meta job) as [Hm _].
  assert (Hname : Name (with_created job) = req).
  { unfold Name. rewrite Hm. by apply (get_name k). }
  rewrite Hname, Hs in *. unfold rv in Hrv. rewrite Hm in Hrv.
  assert (cur = job) as -> by (by eapply (get_version k)). eauto.
Qed.

Definition opt_apply {A} (f : A -> jchild) (o : option A) : list (action jchild) :=
  match o with Some a => [Apply (f a)] | None => [] end.

(** A plan that deploys [d]: what comes before, and what comes after. *)
Definition before_app (pvc : PVC quantity) (svc : Service) (ig : option Ingress)
    (cm : option ConfigMap) : list (action jchild) :=
  [Apply (JClaim pvc); Apply (JService svc)] ++ opt_apply JIngress ig ++ opt_apply JConfigMap cm.
Definition after_app (job : Job) : list (action jchild) :=
  (if EnableMetric rc then [Apply (JServiceMonitor (desiredServiceMonitor job))] else [])
  ++ (if disableFront (checkRsyncFront rc job) then [Delete ("Ingress", Name job)] else []).

Lemma plan_of_Some job pvc svc ig cm d :
  plan_of job pvc svc ig cm (Some d)
  = before_app pvc svc ig cm ++ Apply (JDeployment d) :: after_app job.
Proof. unfold plan_of, before_app, after_app. by destruct ig, cm, (EnableMetric rc). Qed.

(** A deployment that a plan brings comes after its claim and its config map. *)
Lemma plan_volumes job mgr p pvc svc ig cm d (k k' : K) r d' :
  plan_objects job mgr p pvc svc ig cm (Some d) -> exec p k = (k', r) ->
  children k' !! ("Deployment", Name job) = Some (JDeployment d') ->
  children k !! ("Deployment", Name job) = Some (JDeployment d')
  \/ (d' = d /\ children k' !! ("PersistentVolumeClaim", Name job) = Some (JClaim pvc)
      /\ forall c, cm = Some c -> children k' !! key_of (JConfigMap c) = Some (JConfigMap c)).
Proof.
  intros Ho Hx Hd. rewrite (po_plan _ _ _ _ _ _ _ _ Ho), plan_of_Some in Hx.
  pose proof (key_deployment _ _ _ _ _ _ _ _ Ho d eq_refl) as Kd.
  pose proof (key_claim _ _ _ _ _ _ _ _ Ho) as Kc.
  assert (Hbefore : key_of (JDeployment d) ∉ (before_app pvc svc ig cm ≫= touched)).
  { rewrite Kd. unfold before_app, opt_apply. destruct ig, cm; key_apart. }
  destruct (exec_reached _ _ _ _ _ _ Hx Hbefore) as [Hs|(k2 & H2 & H3)].
  { left. rewrite <-Kd, <-Hs, Kd. done. }
  right. assert (Hafter : forall key, key.1 = "Deployment" \/ key.1 = "PersistentVolumeClaim"
    \/ key.1 = "ConfigMap" -> children k' !! key = children k2 !! key).
  { intros [kd n] Hkd. eapply exec_frame; [exact H3|]. unfold after_app.
    destruct (EnableMetric rc), (disableFront (checkRsyncFront rc job)); intros Hin; cbn in Hin;
      unfold key_of in Hin; cbn in Hin; rewrite ?elem_of_cons, ?elem_of_nil in Hin;
      destruct_or?; simplify_eq/=. }
  split_and!.
  - assert (E : children k2 !! ("Deployment", Name job) = Some (JDeployment d)).
    { rewrite <-Kd. eapply (exec_applied (before_app pvc svc ig cm) _ []); [exact H2|]. by apply not_elem_of_nil. }
    rewrite Hafter, E in Hd by auto. congruence.
  - rewrite Hafter by auto. rewrite <-Kc. eapply (exec_applied []); [exact H2|].
    rewrite Kc. unfold opt_apply. destruct ig, cm; key_apart.
  - intros c ->. rewrite Hafter by (cbn; auto).
    eapply (exec_applied ([Apply (JClaim pvc); Apply (JService svc)] ++ opt_apply JIngress ig)
      (JConfigMap c) [Apply (JDeployment d)]); [|key_apart].
    unfold before_app in H2. rewrite <-!app_assoc in *. exact H2.
Qed.

(** The volumes of a wanted deployment are its claim and its config map. *)
Lemma deployment_volumes job mgr cm d v :
  desiredDeployment parse_quantity set_owner rc job mgr cm = Ret (Some d) -> v ∈ dp_Volumes d ->
  vo_Source v = ClaimSource (Name job)
  \/ exists c, cm = Some c /\ vo_Source v = ConfigMapSource (km_Name (cm_Meta c)).
Proof.
  intros (w & _ & _ & Hv & _)%desiredDeployment_Some Hin. rewrite Hv, elem_of_cons in Hin.
  destruct Hin as [->|Hin]; [by left|right]. unfold front_containers in Hin.
  destruct (disableFront _); [by apply not_elem_of_nil in Hin|].
  destruct cm as [c|]; cbn in Hin; [|by apply not_elem_of_nil in Hin].
  apply list_elem_of_singleton in Hin as ->. by exists c.
Qed.

(** The claim or config map a volume refers to is in the cluster. *)
Definition volume_there (k : K) (v : Volume) : Prop :=
  match vo_Source v with
  | ClaimSource c => exists pvc, children k !! ("PersistentVolumeClaim", c) = Some (JClaim pvc)
  | ConfigMapSource c => exists cm, children k !! ("ConfigMap", c) = Some (JConfigMap cm)
  end.

Lemma exec_volumes job mgr p (k k' : K) r d :
  reconcile_plan job mgr = Ret p -> exec p k = (k', r) ->
  children k' !! ("Deployment", Name job) = Some (JDeployment d) ->
  children k !! ("Deployment", Name job) = Some (JDeployment d)
  \/ Forall (volume_there k') (dp_Volumes d).
Proof.
  intros (pvc & svc & ig & cm & app & Ho)%reconcile_plan_Ret Hx Hd.
  destruct app as [d0|].
  - destruct (plan_volumes _ _ _ _ _ _ _ _ _ _ _ _ Ho Hx Hd) as [?|(-> & Hp & Hc)]; [auto|right].
    apply Forall_forall. intros v Hv. unfold volume_there.
    destruct (deployment_volumes _ _ _ _ _ (po_app _ _ _ _ _ _ _ _ Ho) Hv) as [->|(c & -> & ->)].
    + by exists pvc.
    + exists c. by apply Hc.
  - left. rewrite (po_plan _ _ _ _ _ _ _ _ Ho) in Hx.
    destruct (exec_not_applied _ _ _ _ ("Deployment", Name job) Hx) as [E|E]; [|congruence|congruence].
    unfold plan_of. destruct (disableFront _); key_apart.
Qed.

(** Without a deployment, the claim is all that is applied. *)
Lemma applied_claim_only job pvc svc ig cm : applied (plan_of job pvc svc ig cm None) = [JClaim pvc].
Proof. unfold plan_of. by destruct (disableFront _). Qed.

(** The job that is reconciled has nothing to run. *)
Definition nothing_to_run (req : string) (k : K) : Prop :=
  exists job mgr cm, kGet req k = Ret job /\
    desiredDeployment parse_quantity set_owner rc job mgr cm = Ret None.

(** What a plan does to an object that is not the job's. *)
Lemma plan_contained req job mgr p (k k' : K) r key :
  kGet req k = Ret job -> reconcile_plan job mgr = Ret p -> exec p k = (k', r) ->
  key ∉ own_keys (Name job) ->
  children k' !! key = children k !! key
  \/ (key ∈ misnamed_keys (Name job) /\ children k' !! key = None /\ nothing_to_run req k).
Proof.
  intros Hj Hp Hx Hkey. destruct (reconcile_plan_Ret _ _ _ Hp) as (pvc & svc & ig & cm & app & Ho).
  destruct (decide (key ∈ (p ≫= touched))) as [Hin|Hin]; [|left; by eapply exec_frame].
  destruct (plan_touched _ _ _ _ _ _ _ _ _ Ho Hin) as [?|[-> Hm]]; [done|].
  assert (Hna : key ∉ (key_of <$> applied p)).
  { rewrite (po_plan _ _ _ _ _ _ _ _ Ho). rewrite applied_claim_only.
    cbn [fmap list_fmap]. rewrite (key_claim _ _ _ _ _ _ _ _ Ho).
    unfold own_keys in Hkey. set_solver. }
  destruct (exec_not_applied _ _ _ _ _ Hx Hna) as [?|Hnone]; [by left|right].
  split_and!; [done|done|]. exists job, mgr, cm. split; [done|]. exact (po_app _ _ _ _ _ _ _ _ Ho).
Qed.

(** C18: Whatever a reconciliation of a job meets (failing reads and writes,
    unusable settings, panics), it is contained: it touches no object but the
    job's own six, which no other job has, with one exception: for a job with
    nothing to run it may delete the Service and the ConfigMap that bear the job's
    bare name, which are not the job's.  It changes no resource but possibly the
    status of this job, from none to created and only if that is what the API server
    still holds, and never leaves a new deployment behind whose claim or config map
    is missing. *)
Theorem reconcile_is_contained req (k k' : K) r :
  kwf (Sp := JobSpec) (St := JobStatus) k -> Reconcile req k = (k', r) ->
  (forall key, key ∉ own_keys req ->
     children k' !! key = children k !! key
     \/ (key ∈ misnamed_keys req /\ children k' !! key = None /\ nothing_to_run req k)) /\
  (forall other key, other <> req -> key ∈ own_keys other -> key ∉ own_keys req) /\
  (stored (Sp := JobSpec) (St := JobStatus) k' = stored k
   \/ exists job o', stored k !! req = Some job /\ stored k' = <[req := o']> (stored k)
        /\ Spec o' = Spec job /\ Status o' = Status (with_created job)) /\
  (forall d, children k' !! ("Deployment", req) = Some (JDeployment d) ->
     children k !! ("Deployment", req) = Some (JDeployment d)
     \/ Forall (volume_there k') (dp_Volumes d)).
Proof.
  intros Hk Hc. assert (Happart : forall other key, other <> req -> key ∈ own_keys other -> key ∉ own_keys req)
    by (intros other key; apply own_keys_apart).
  destruct (Reconcile_cases _ _ _ _ Hc) as [->|job m p e Hj Hp Hx _|job m p k1 u Hj Hp Hx Hu _]; [by auto|..];
    pose proof (get_name k req job Hk Hj) as Hn;
    destruct (exec_apart (Sp := JobSpec) (St := JobStatus) p k) as [Hs Hw];
    rewrite Hx in Hs, Hw; cbn [fst] in Hs, Hw;
    pose proof (fun key => plan_contained req job m p k _ _ key Hj Hp Hx) as Hown; rewrite Hn in Hown.
  - split_and!; [|done|by left|].
    + exact Hown.
    + rewrite <-Hn. intros d. by eapply exec_volumes.
  - destruct (update_status_stored req job k k1 k' u Hk (Hw Hk) Hs Hj Hu) as [Hch Ht].
    unfold volume_there. rewrite Hch. split_and!; [|done|..].
    + exact Hown.
    + destruct Ht as [?|(o' & Ht)]; [auto|right]. by exists job, o'.
    + rewrite <-Hn. intros d. by eapply exec_volumes.
Qed.

(** The manager a job is given, and whether the reconciler deals with it. *)
Definition manages (k : K) (job : Job) (m : Manager) : Prop :=
  is_mirror job = true /\ exists items ms, kList k = (items, None) /\ List.filter active items = m :: ms.

(** A reconciliation that reports success has carried out its whole plan. *)
Lemma Reconcile_success req (k k' : K) job m :
  kwf (Sp := JobSpec) (St := JobStatus) k -> kGet req k = Ret job -> manages k job m ->
  Reconcile req k = (k', Ret tt) ->
  exists p k1, reconcile_plan job (Name m) = Ret p /\ exec p k = (k1, None)
    /\ children (C := jchild) k' = children k1.
Proof.
  intros Hk Hj [Hm (items & ms & Hl & Hf)]. unfold Reconcile, read.
  cbv beta iota delta [mbind rec_bind]. rewrite Hj. cbv beta iota. rewrite Hl. cbv beta iota.
  rewrite Hf. cbv beta iota. rewrite Hm. cbv beta iota. rewrite reconcile_job_plan.
  destruct (reconcile_plan job (Name m)) as [p|e|e] eqn:Ep; [|done|done].
  intros [(e & Hx & ?)|(k1 & Hx & Hu)]%check_bind_inv; [done|].
  exists p, k1. split_and!; [done|done|]. unfold check in Hu.
  destruct (update_status job k1) as [k2 [e|]] eqn:Eu; simplify_eq.
  destruct (exec_apart (Sp := JobSpec) (St := JobStatus) p k) as [Hs Hw].
  rewrite Hx in Hs, Hw. by apply (update_status_stored req job k k1 k' None Hk (Hw Hk) Hs Hj Eu).
Qed.

(** The config map wanted for the front. *)
Definition front_cm (job : Job) : outcome (option ConfigMap) :=
  if disableFront (checkRsyncFront rc job) then Ret None
  else desiredFrontConfigmap json_compact rc job.

Lemma plan_front_cm job mgr p pvc svc ig cm app :
  plan_objects job mgr p pvc svc ig cm app -> front_cm job = Ret cm.
Proof.
  intros Ho. unfold front_cm. destruct (disableFront _) eqn:E.
  - by destruct (po_off _ _ _ _ _ _ _ _ Ho E) as [_ ->].
  - by destruct (po_on _ _ _ _ _ _ _ _ Ho E) as (i & _ & _ & ->).
Qed.

(** What a plan with a deployment leaves, object by object. *)
Lemma plan_converges job mgr p pvc svc ig cm d (k k1 : K) :
  plan_objects job mgr p pvc svc ig cm (Some d) -> exec p k = (k1, None) ->
  children k1 !! ("PersistentVolumeClaim", Name job) = Some (JClaim pvc) /\
  children k1 !! ("Service", serviceName (Name job)) = Some (JService svc) /\
  (forall i, ig = Some i -> children k1 !! ("Ingress", Name job) = Some (JIngress i)) /\
  (forall c, cm = Some c -> children k1 !! ("ConfigMap", Name job +:+ "-front") = Some (JConfigMap c)) /\
  children k1 !! ("Deployment", Name job) = Some (JDeployment d) /\
  (EnableMetric rc = true -> children k1 !! ("ServiceMonitor", Name job)
     = Some (JServiceMonitor (desiredServiceMonitor job))).
Proof.
  intros Ho Hx. rewrite (po_plan _ _ _ _ _ _ _ _ Ho), plan_of_Some in Hx.
  pose proof (key_claim _ _ _ _ _ _ _ _ Ho) as Kc. pose proof (key_service _ _ _ _ _ _ _ _ Ho) as Ks.
  pose proof (key_ingress _ _ _ _ _ _ _ _ Ho) as Ki. pose proof (key_config _ _ _ _ _ _ _ _ Ho) as Km.
  pose proof (key_deployment _ _ _ _ _ _ _ _ Ho d eq_refl) as Kd.
  unfold before_app, after_app in Hx. split_and!.
  - rewrite <-Kc. eapply (exec_applied [] (JClaim pvc)); [exact Hx|]. rewrite Kc. unfold opt_apply.
    destruct ig, cm, (EnableMetric rc), (disableFront _); key_apart.
  - rewrite <-Ks. eapply (exec_applied [Apply (JClaim pvc)] (JService svc)); [exact Hx|]. rewrite Ks.
    unfold opt_apply. destruct ig, cm, (EnableMetric rc), (disableFront _); key_apart.
  - intros i ->. rewrite <-(Ki i eq_refl).
    eapply (exec_applied [Apply (JClaim pvc); Apply (JService svc)] (JIngress i)); [exact Hx|].
    rewrite (Ki i eq_refl). unfold opt_apply. destruct (disableFront _) eqn:E.
    { by destruct (po_off _ _ _ _ _ _ _ _ Ho E). }
    destruct cm, (EnableMetric rc); key_apart.
  - intros c ->. rewrite <-(Km c eq_refl). rewrite <-!app_assoc in Hx.
    rewrite (app_assoc _ (opt_apply JIngress ig)) in Hx.
    eapply (exec_applied ([Apply (JClaim pvc); Apply (JService svc)] ++ opt_apply JIngress ig)
      (JConfigMap c)); [exact Hx|].
    rewrite (Km c eq_refl). destruct (EnableMetric rc), (disableFront _); key_apart.
  - rewrite <-Kd. eapply exec_applied; [exact Hx|]. rewrite Kd.
    destruct (EnableMetric rc), (disableFront _); key_apart.
  - intros Em. rewrite Em in Hx.
    rewrite (app_assoc _ [Apply (JDeployment d)] _ : _ ++ Apply (JDeployment d) :: _ = _) in Hx.
    change ("ServiceMonitor", Name job) with (key_of (JServiceMonitor (desiredServiceMonitor job))).
    eapply exec_applied; [exact Hx|].
    destruct (disableFront _); key_apart.
Qed.

(** C19: A reconciliation that reports success for a job with something to run has
    brought the cluster to the wanted state, whatever the state was before:
    claim, service, deployment and, where they are enabled, ingress, config map
    and service monitor are the ones computed from the job, its manager and the
    configuration. *)
Theorem reconciled_cluster_is_wanted req (k k' : K) job m cm d :
  kwf (Sp := JobSpec) (St := JobStatus) k -> kGet req k = Ret job -> manages k job m ->
  Reconcile req k = (k', Ret tt) -> front_cm job = Ret cm ->
  desiredDeployment parse_quantity set_owner rc job (Name m) cm = Ret (Some d) ->
  exists pvc svc, desiredPersistentVolumeClaim parse_quantity set_owner rc job = Ret pvc /\
  desiredService set_owner rc job = Ret svc /\
  children k' !! ("PersistentVolumeClaim", req) = Some (JClaim pvc) /\
  children k' !! ("Service", serviceName req) = Some (JService svc) /\
  children k' !! ("Deployment", req) = Some (JDeployment d) /\
  (disableFront (checkRsyncFront rc job) = false ->
     exists ig, desiredIngress set_owner rc job = Ret ig /\
       children k' !! ("Ingress", req) = Some (JIngress ig)) /\
  (forall c, cm = Some c -> children k' !! ("ConfigMap", req +:+ "-front") = Some (JConfigMap c)) /\
  (EnableMetric rc = true -> children k' !! ("ServiceMonitor", req)
     = Some (JServiceMonitor (desiredServiceMonitor job))).
Proof.
  intros Hk Hj Hm Hr Hcm Hd. rewrite <-(get_name k req job Hk Hj).
  destruct (Reconcile_success req k k' job m Hk Hj Hm Hr) as (p & k1 & Hp & Hx & Hc). rewrite Hc.
  destruct (reconcile_plan_Ret _ _ _ Hp) as (pvc & svc & ig & cm' & app & Ho).
  pose proof (plan_front_cm _ _ _ _ _ _ _ _ Ho). pose proof (po_app _ _ _ _ _ _ _ _ Ho).
  assert (cm' = cm) as -> by congruence. assert (app = Some d) as -> by congruence.
  destruct (plan_converges _ _ _ _ _ _ _ _ _ _ Ho Hx) as (H1 & H2 & H3 & H4 & H5 & H6).
  exists pvc, svc. split; [apply (po_pvc _ _ _ _ _ _ _ _ Ho)|].
  split; [apply (po_svc _ _ _ _ _ _ _ _ Ho)|]. do 3 (split; [done|]). split; [|auto].
  intros E. destruct (po_on _ _ _ _ _ _ _ _ Ho E) as (i & Hi & Hig & _). exists i. auto.
Qed.

Lemma disabled_wants_nothing job mgr cm :
  st_Status (Status job) = Disabled -> disableFront (checkRsyncFront rc job) = true ->
  disableRsync (checkRsyncFront rc job) = true ->
  desiredDeployment parse_quantity set_owner rc job mgr cm = Ret None.
Proof.
  intros Hs Hf Hr. unfold desiredDeployment, worker_container, front_containers, rsync_containers.
  by rewrite Hs, Hf, Hr.
Qed.

(** Disabling a job that serves no files takes down its deployment, ingress and
    service monitor and keeps its claim, but not its service nor its config map:
    those are deleted under names they do not have, and stay as they are. *)
Theorem disabled_job_leaves_its_service `{!Reliable K jchild} req (k k' : K) job m :
  kwf (Sp := JobSpec) (St := JobStatus) k -> kGet req k = Ret job -> manages k job m ->
  req <> "" -> st_Status (Status job) = Disabled ->
  disableFront (checkRsyncFront rc job) = true -> disableRsync (checkRsyncFront rc job) = true ->
  Reconcile req k = (k', Ret tt) ->
  (forall kind, kind ∈ ["Deployment"; "Ingress"; "ServiceMonitor"] -> children k' !! (kind, req) = None)
  /\ is_Some (children k' !! ("PersistentVolumeClaim", req))
  /\ children k' !! ("Service", serviceName req) = children k !! ("Service", serviceName req)
  /\ children k' !! ("ConfigMap", req +:+ "-front") = children k !! ("ConfigMap", req +:+ "-front").
Proof.
  intros Hk Hj Hm Hne Hs Hf Hrs Hr. pose proof (get_name k req job Hk Hj) as Hn. subst req.
  destruct (Reconcile_success _ k k' job m Hk Hj Hm Hr) as (p & k1 & Hp & Hx & Hc). rewrite Hc.
  destruct (reconcile_plan_Ret _ _ _ Hp) as (pvc & svc & ig & cm & app & Ho).
  pose proof (po_app _ _ _ _ _ _ _ _ Ho) as Ha. rewrite disabled_wants_nothing in Ha by done.
  injection Ha as <-. pose proof (key_claim _ _ _ _ _ _ _ _ Ho) as Kc.
  rewrite (po_plan _ _ _ _ _ _ _ _ Ho) in Hx. unfold plan_of in Hx. rewrite Hf in Hx.
  split_and!.
  - intros kind Hin. rewrite !elem_of_cons, elem_of_nil in Hin.
    destruct Hin as [->|[->|[->|[]]]].
    + eapply (exec_gone [_] _ _ _ _ _ Hx); [done|set_solver|done|key_apart].
    + eapply (exec_gone [_] _ _ _ _ _ Hx); [done|set_solver|done|key_apart].
    + eapply (exec_gone [_; _; _] _ _ _ _ _ Hx); [done|set_solver|done|key_apart].
  - exists (JClaim pvc). rewrite <-Kc. eapply (exec_applied []); [exact Hx|]. rewrite Kc. key_apart.
  - eapply exec_frame; [exact Hx|]. cbn [mbind list_bind touched app]. rewrite Kc.
    pose proof (serviceName_neq (Name job)) as Hsn. set_solver.
  - eapply exec_frame; [exact Hx|]. cbn [mbind list_bind touched app]. rewrite Kc.
    assert (Hcn : Name job +:+ "-front" <> Name job) by by apply app_neq. set_solver.
Qed.

(** A job named like the service of another takes that service down: when it is
    disabled and serves no files, its reconciliation deletes the service of the job
    whose name it bears after mirror-. *)
Theorem disabled_job_deletes_anothers_service `{!Reliable K jchild} other (k k' : K) job m :
  kwf (Sp := JobSpec) (St := JobStatus) k -> kGet (serviceName other) k = Ret job -> manages k job m ->
  st_Status (Status job) = Disabled ->
  disableFront (checkRsyncFront rc job) = true -> disableRsync (checkRsyncFront rc job) = true ->
  Reconcile (serviceName other) k = (k', Ret tt) ->
  ("Service", serviceName other) ∈ own_keys other /\
  children k' !! ("Service", serviceName other) = None.
Proof.
  intros Hk Hj Hm Hs Hf Hrs Hr. split; [unfold own_keys; set_solver|].
  pose proof (get_name k _ job Hk Hj) as Hn.
  destruct (Reconcile_success _ k k' job m Hk Hj Hm Hr) as (p & k1 & Hp & Hx & Hc). rewrite Hc.
  destruct (reconcile_plan_Ret _ _ _ Hp) as (pvc & svc & ig & cm & app & Ho).
  pose proof (po_app _ _ _ _ _ _ _ _ Ho) as Ha. rewrite disabled_wants_nothing in Ha by done.
  injection Ha as <-. rewrite (po_plan _ _ _ _ _ _ _ _ Ho) in Hx. unfold plan_of in Hx. rewrite Hf in Hx.
  rewrite <-Hn. eapply (exec_gone [_] _ _ _ _ _ Hx); [done|set_solver|by rewrite Hn|key_apart].
Qed.
End laws.
End reconcile.
End job_reconcile.

(** ** Witnesses: the job of [JobDemo] and its disabled twin in an in-memory
    cluster with one active manager. *)
Module ReconcileDemo.
Abbreviation child := (jchild (quantity := string)).
Definition manager : Manager :=
  mkObject (mkMeta "mgr" "ns" 1) (mkManagerSpec "" zeroDeployConfig zeroIngressConfig)
    (mkManagerStatus DeploySucceeded).
Definition one {Sp St} (o : object Sp St) : store Sp St :=
  mkStore {[Name o := o]} {[Name o := o]} 2.
Definition cluster (job : Job) (kids : gmap ckey child) : world child :=
  mkWorld (one job) (one manager) kids.

(** A disabled job with neither a front nor an rsync server, and a service left
    from the time it was enabled. *)
Definition rc_bare : CConfig :=
  mkCConfig "manager" "worker" "" "" "" "" "" "" "" "" "" "" "" "" "" ∅ false false.
Definition off : Job :=
  with_status JobDemo.job (mkJobStatus Disabled 0 0 0 0 "" 0 "" 0 0).
Definition old_service : Service := mkService (meta_of off (serviceName "debian") ∅ true) [] ∅.
Definition old_kids : gmap ckey child :=
  {[("Service", "mirror-debian") := JService old_service]}.

Definition run (rc : CConfig) (job : Job) (kids : gmap ckey child) : world child * outcome unit :=
  Reconcile JobDemo.parse_quantity (fun s => Ret s) (fun _ _ => None) (fun _ => true) rc "debian"
    (cluster job kids).

Lemma one_store_wf {Sp St} `{!Zero St} (o : object Sp St) : rv o < 2 -> store_wf (one o).
Proof.
  intros Hr. split; simpl.
  - intros n o' [<- <-]%lookup_singleton_Some. done.
  - intros n o' [<- <-]%lookup_singleton_Some. done.
  - intros n o' cur [<- <-]%lookup_singleton_Some [_ <-]%lookup_singleton_Some. done.
Qed.

Lemma cluster_wf job kids :
  rv job < 2 -> kwf (Sp := JobSpec) (St := JobStatus) (cluster job kids).
Proof. apply one_store_wf. Qed.

Lemma cluster_manages job kids :
  is_mirror job = true -> manages (K := world child) (cluster job kids) job manager.
Proof. intros Hm. split; [done|]. by exists [manager], []. Qed.

(** A disabled job called after the service of the job debian. *)
Definition off_alias : Job := mkObject (mkMeta "mirror-debian" "ns" 1) (Spec off) (Status off).
Definition run_alias : world child * outcome unit :=
  Reconcile JobDemo.parse_quantity (fun s => Ret s) (fun _ _ => None) (fun _ => true) rc_bare
    "mirror-debian" (cluster off_alias old_kids).
End ReconcileDemo.

Lemma reconcile_is_contained_witness :
  w_children (ReconcileDemo.run JobDemo.rc JobDemo.job ReconcileDemo.old_kids).1
    !! ("Deployment", "ubuntu") = None.
Proof.
  destruct (reconcile_is_contained (K := world ReconcileDemo.child) JobDemo.parse_quantity
    (fun s => Ret s) (fun _ _ => None) (fun _ => true) JobDemo.rc "debian"
    (ReconcileDemo.cluster JobDemo.job ReconcileDemo.old_kids)
    (ReconcileDemo.run JobDemo.rc JobDemo.job ReconcileDemo.old_kids).1
    (ReconcileDemo.run JobDemo.rc JobDemo.job ReconcileDemo.old_kids).2
    (ReconcileDemo.cluster_wf JobDemo.job _ eq_refl) (surjective_pairing _)) as [Hf _].
  transitivity (ReconcileDemo.old_kids !! ("Deployment", "ubuntu")); [|reflexivity].
  destruct (Hf ("Deployment", "ubuntu")) as [H|[H _]]; [by apply (bool_decide_unpack _)|exact H|].
  apply (bool_decide_eq_true_2 _) in H. vm_compute in H. discriminate H.
Defined.

Lemma reconciled_cluster_is_wanted_witness :
  exists d, length (dp_Containers d) = 3%nat /\
    w_children (ReconcileDemo.run JobDemo.rc JobDemo.job ∅).1 !! ("Deployment", "debian")
    = Some (JDeployment d).
Proof.
  destruct (desiredDeployment JobDemo.parse_quantity (fun _ _ => None) JobDemo.rc JobDemo.job
    "mgr" None) as [[d|]|e|e] eqn:Ed; try (vm_compute in Ed; discriminate Ed).
  exists d. split; [vm_compute in Ed; injection Ed as <-; reflexivity|].
  destruct (reconciled_cluster_is_wanted (K := world ReconcileDemo.child) JobDemo.parse_quantity
    (fun s => Ret s) (fun _ _ => None) (fun _ => true) JobDemo.rc "debian"
    (ReconcileDemo.cluster JobDemo.job ∅) (ReconcileDemo.run JobDemo.rc JobDemo.job ∅).1
    JobDemo.job ReconcileDemo.manager None d) as (pvc & svc & _ & _ & _ & _ & Hd & _).
  - exact (ReconcileDemo.cluster_wf JobDemo.job _ eq_refl).
  - reflexivity.
  - by apply ReconcileDemo.cluster_manages.
  - vm_compute. reflexivity.
  - reflexivity.
  - exact Ed.
  - exact Hd.
Defined.

Lemma disabled_job_leaves_its_service_witness :
  w_children (ReconcileDemo.run ReconcileDemo.rc_bare ReconcileDemo.off ReconcileDemo.old_kids).1
    !! ("Service", "mirror-debian") = Some (JService ReconcileDemo.old_service).
Proof.
  destruct (disabled_job_leaves_its_service (K := world ReconcileDemo.child) JobDemo.parse_quantity
    (fun s => Ret s) (fun _ _ => None) (fun _ => true) ReconcileDemo.rc_bare "debian"
    (ReconcileDemo.cluster ReconcileDemo.off ReconcileDemo.old_kids)
    (ReconcileDemo.run ReconcileDemo.rc_bare ReconcileDemo.off ReconcileDemo.old_kids).1
    ReconcileDemo.off ReconcileDemo.manager) as (_ & _ & Hs & _).
  - exact (ReconcileDemo.cluster_wf ReconcileDemo.off _ eq_refl).
  - reflexivity.
  - by apply ReconcileDemo.cluster_manages.
  - discriminate.
  - reflexivity.
  - reflexivity.
  - reflexivity.
  - vm_compute. reflexivity.
  - exact Hs.
Defined.

Lemma disabled_job_deletes_anothers_service_witness :
  ReconcileDemo.old_kids !! ("Service", "mirror-debian") = Some (JService ReconcileDemo.old_service) /\
  w_children ReconcileDemo.run_alias.1 !! ("Service", "mirror-debian") = None.
Proof.
  split; [reflexivity|].
  destruct (disabled_job_deletes_anothers_service (K := world ReconcileDemo.child) JobDemo.parse_quantity
    (fun s => Ret s) (fun _ _ => None) (fun _ => true) ReconcileDemo.rc_bare "debian"
    (ReconcileDemo.cluster ReconcileDemo.off_alias ReconcileDemo.old_kids)
    ReconcileDemo.run_alias.1 ReconcileDemo.off_alias ReconcileDemo.manager) as [_ Hs].
  - exact (ReconcileDemo.cluster_wf ReconcileDemo.off_alias _ eq_refl).
  - reflexivity.
  - by apply ReconcileDemo.cluster_manages.
  - reflexivity.
  - reflexivity.
  - reflexivity.
  - vm_compute. reflexivity.
  - exact Hs.
Defined.
