(* ===== verification/ManagerReconcile.v ===== *)
(** * The manager's deployment (src/internal/controller/manager_helper.go,
      manager_controller.go)

    The objects the controller wants for a Manager resource, and the reconciler
    that applies them and marks the manager as the active one of its
    namespace. *)

From S2P Require Import Prelude GoLib Types Kube Cluster Config JobDesired JobReconcile.

Definition ManagerPort : Z := 3000.

Record ServiceAccount := mkSA { sa_Meta : KMeta }.
Record PolicyRule := mkRule {
  ru_Groups : list string; ru_Resources : list string; ru_Verbs : list string;
}.
Record Role := mkRole { ro_Meta : KMeta; ro_Rules : list PolicyRule }.
Record RoleBinding := mkBinding {
  rb_Meta : KMeta; rb_Subjects : list (string * string);     (* kind, name *)
  rb_Ref : string * string * string;                         (* group, kind, name *)
}.
Record IngressPath := mkPath { ip_Path : string; ip_Type : string; ip_Service : string; ip_Port : string }.
Record MIngress := mkMIngress {
  mi_Meta : KMeta; mi_Paths : list IngressPath; mi_Class : option string;
  mi_TLS : list string; mi_Host : string;
}.

Definition manager_meta (m : Manager) (name : string) (ann : gmap string string) : KMeta :=
  mkKMeta name (Namespace m) {["manager" := Name m]} ann true.

Definition Group : string := "mirror.redrock.team".
Definition rbacGroup : string := "rbac.authorization.k8s.io".

Section manager_desired.
Context {quantity : Type} (parse_quantity : string -> option quantity).
Context (set_owner : string -> Manager -> option string).
Context (rc : CConfig).

(** The pod of the manager and the object that runs it. *)
Record Workload := mkWorkload {
  wl_Kind : string; wl_Meta : KMeta; wl_Selector : gmap string string;
  wl_Labels : gmap string string; wl_EnableServiceLinks : bool;
  wl_Container : Container quantity; wl_ServiceAccount : string;
  wl_PullSecrets : option (list LocalObjectReference); wl_NodeName : string;
  wl_Affinity : option Affinity; wl_Tolerations : option (list Toleration);
}.
Inductive App := ADeployment (w : Workload) | ADaemonSet (w : Workload).
Definition app_workload (a : App) : Workload :=
  match a with ADeployment w | ADaemonSet w => w end.

Definition mown {A} (kind : string) (m : Manager) (a : A) : outcome A :=
  match set_owner kind m with None => Ret a | Some e => Err e end.

Definition desiredSA (m : Manager) : outcome ServiceAccount :=
  mown "ServiceAccount" m (mkSA (manager_meta m (Name m +:+ "-sa") ∅)).

Definition all_verbs : list string :=
  ["create"; "delete"; "get"; "list"; "patch"; "update"; "watch"].
Definition status_verbs : list string := ["get"; "patch"; "update"].

Definition desiredRole (m : Manager) : outcome Role :=
  mown "Role" m (mkRole (manager_meta m (Name m +:+ "-role") ∅)
    [mkRule [Group] ["jobs"] all_verbs; mkRule [Group] ["jobs/status"] status_verbs;
     mkRule [Group] ["announcements"] all_verbs; mkRule [Group] ["announcements/status"] status_verbs;
     mkRule [Group] ["files"] all_verbs; mkRule [Group] ["files/status"] status_verbs]).

Definition desiredRoleBinding (m : Manager) : outcome RoleBinding :=
  mown "RoleBinding" m (mkBinding (manager_meta m (Name m) ∅)
    [("ServiceAccount", Name m +:+ "-sa")] (rbacGroup, "Role", Name m +:+ "-role")).

Definition manager_env (m : Manager) : list EnvVar :=
  [mkEnv "NAMESPACE" "" (Some "metadata.namespace");
   EnvLit "ADDR" (":" +:+ Strconv.Itoa ManagerPort)]
  ++ dc_Env (ms_Deploy (Spec m)).

(** [None] is the nil object: no image is known, or the type is neither of the two. *)
Definition desiredManagerDeployment (m : Manager) : outcome (option App) :=
  let d := ms_Deploy (Spec m) in
  let deployType := or_else (ms_DeployType (Spec m)) Deployment_ in
  let image := or_else (dc_Image d) (ManagerImage rc) in
  if String.eqb image "" then Ret None
  else
    limits ← worker_limits parse_quantity d;
    let container := mkContainer (Name m) image
      (or_else (dc_ImagePullPolicy d) (PullPolicy rc)) (manager_env m) (probe ManagerPort) []
      [mkPort ManagerPort "api" "TCP"] [] limits in
    let secrets := match dc_ImagePullSecrets d with
                   | Some l => Some l
                   | None => if String.eqb (PullSecret rc) "" then None else Some [PullSecret rc]
                   end in
    let w := mkWorkload deployType (manager_meta m (Name m) ∅) {["manager" := Name m]}
      {["manager" := Name m]} false container (Name m +:+ "-sa") secrets (dc_NodeName d)
      (dc_Affinity d) (dc_Tolerations d) in
    if String.eqb deployType Deployment_ then mown "Deployment" m (Some (ADeployment w))
    else if String.eqb deployType DaemonSet_ then mown "DaemonSet" m (Some (ADaemonSet w))
    else Ret None.

Definition desiredManagerService (m : Manager) : outcome Service :=
  mown "Service" m (mkService (manager_meta m (Name m) ∅)
    [mkSvcPort "api" ManagerPort "TCP" "api"] {["manager" := Name m]}).

Definition public_paths : list string :=
  ["/api/mirrors"; "/api/news"; "/api/files"; "/api/mirrorz.json"].

Definition desiredManagerIngress (m : Manager) : outcome MIngress :=
  let i := ms_Ingress (Spec m) in
  mown "Ingress" m (mkMIngress (manager_meta m (Name m) (ic_Annotations i ∪ FrontAnn rc))
    ((fun p => mkPath p "Exact" (Name m) "api") <$> public_paths)
    (let c := or_else (ic_IngressClass i) (FrontClass rc) in if String.eqb c "" then None else Some c)
    (let s := or_else (ic_TLSSecret i) (FrontTLS rc) in if String.eqb s "" then [] else [s])
    (or_else (ic_Host i) (FrontHost rc))).
End manager_desired.
Arguments Workload : clear implicits.
Arguments App : clear implicits.

Section manager_reconcile.
Context {quantity : Type} (parse_quantity : string -> option quantity).
Context (set_owner : string -> Manager -> option string).
Context (IsNotFound : string -> bool).
Context (rc : CConfig).

(** The objects of a manager. *)
Inductive mchild :=
  | MAccount (s : ServiceAccount) | MRole (r : Role) | MBinding (b : RoleBinding)
  | MApp (a : App quantity) | MService (s : Service) | MFront (i : MIngress).

#[export] Instance mchild_key : HasKey mchild := fun c =>
  match c with
  | MAccount s => ("ServiceAccount", km_Name (sa_Meta s))
  | MRole r => ("Role", km_Name (ro_Meta r))
  | MBinding b => ("RoleBinding", km_Name (rb_Meta b))
  | MApp (ADeployment w) => ("Deployment", km_Name (wl_Meta w))
  | MApp (ADaemonSet w) => ("DaemonSet", km_Name (wl_Meta w))
  | MService s => ("Service", km_Name (sv_Meta s))
  | MFront i => ("Ingress", km_Name (mi_Meta i))
  end.

(** The workload of the other kind that an earlier deploy type may have left. *)
Definition other_key (m : Manager) (a : App quantity) : ckey :=
  match a with
  | ADeployment _ => ("DaemonSet", Name m)
  | ADaemonSet _ => ("Deployment", Name m)
  end.

Definition with_phase (m : Manager) : Manager := with_status m (mkManagerStatus DeploySucceeded).

Section reconcile.
Context {K : Type} `{!Client K ManagerSpec ManagerStatus, !Children K mchild}.

Definition mpatch (c : mchild) : rec K unit := check (cApply c).

Definition reconcile_manager (m : Manager) : rec K unit :=
  sa ← pure (desiredSA set_owner m);
  role ← pure (desiredRole set_owner m);
  rb ← pure (desiredRoleBinding set_owner m);
  app ← pure (desiredManagerDeployment parse_quantity set_owner rc m);
  svc ← pure (desiredManagerService set_owner m);
  ig ← pure (desiredManagerIngress set_owner rc m);
  mpatch (MAccount sa);; mpatch (MRole role);; mpatch (MBinding rb);;
  match app with
  | Some a =>
      other ← read (found_key (C := mchild) (other_key m a));
      drop_err (cDelete (C := mchild) other);;
      mpatch (MApp a);; mpatch (MService svc);; mpatch (MFront ig);;
      check (fun k => let '(k', _, e) := kStatusUpdate (with_phase m) k in (k', e))
  | None => mret tt
  end.

Definition ManagerReconcile (req : string) : rec K unit :=
  got ← read (kGet (Sp := ManagerSpec) (St := ManagerStatus) req);
  match got with
  | Err e | Panic e => if IsNotFound e then mret tt else pure (Err e)
  | Ret m =>
      managers ← read (kList (Sp := ManagerSpec) (St := ManagerStatus));
      match managers with
      | (_, Some e) => pure (Err e)
      | (items, None) =>
          match List.filter active items with
          | m0 :: _ =>
              if negb (String.eqb (Name m0) (Name m))
              then pure (Err "already have one active manager in this namespace")
              else reconcile_manager m
          | [] => reconcile_manager m
          end
      end
  end.

(** ** The contract *)
Definition manager_plan (m : Manager) : outcome (list (action mchild) * option (App quantity)) :=
  sa ← desiredSA set_owner m;
  role ← desiredRole set_owner m;
  rb ← desiredRoleBinding set_owner m;
  app ← desiredManagerDeployment parse_quantity set_owner rc m;
  svc ← desiredManagerService set_owner m;
  ig ← desiredManagerIngress set_owner rc m;
  Ret ([Apply (MAccount sa); Apply (MRole role); Apply (MBinding rb)]
       ++ match app with
          | Some a => [DeleteFound (other_key m a) []; Apply (MApp a); Apply (MService svc);
                       Apply (MFront ig)]
          | None => []
          end, app).

Definition record_phase (m : Manager) (k : K) : K * option string :=
  let '(k', _, e) := kStatusUpdate (with_phase m) k in (k', e).

Lemma reconcile_manager_plan m k :
  reconcile_manager m k =
    match manager_plan m with
    | Ret (p, Some _) => (check (exec p);; check (record_phase m)) k
    | Ret (p, None) => check (exec p) k
    | Err e => (k, Err e)
    | Panic e => (k, Panic e)
    end.
Proof.
  unfold reconcile_manager, manager_plan, mpatch, record_phase.
  destruct (desiredSA set_owner m) as [sa|e|e]; [|done|done].
  destruct (desiredRole set_owner m) as [role|e|e]; [|done|done].
  destruct (desiredRoleBinding set_owner m) as [rb|e|e]; [|done|done].
  destruct (desiredManagerDeployment parse_quantity set_owner rc m) as [[a|]|e|e]; [| |done|done];
    (destruct (desiredManagerService set_owner m) as [svc|e|e]; [|done|done]);
    (destruct (desiredManagerIngress set_owner rc m) as [ig|e|e]; [|done|done]).
  all: cbv beta iota delta [mbind rec_bind outcome_bind pure mret rec_ret fst snd].
  all: cbn; unfold check, drop_err, read; cbn.
  all: repeat (destruct (cApply _ _) as [? [?|]]; [done|]; cbn); done.
Qed.

Section laws.
Context `{!ClientLaws K ManagerSpec ManagerStatus, !ChildrenLaws K mchild,
  !Apart K mchild ManagerSpec ManagerStatus, !ApartBack K mchild ManagerSpec ManagerStatus}.

#[local] Abbreviation mstored := (stored (Sp := ManagerSpec) (St := ManagerStatus)).
#[local] Abbreviation mwf := (kwf (Sp := ManagerSpec) (St := ManagerStatus)).

(** ** One active manager *)
Definition at_most_one (k : K) : Prop :=
  forall n1 n2 m1 m2, mstored k !! n1 = Some m1 -> mstored k !! n2 = Some m2 ->
    active m1 = true -> active m2 = true -> n1 = n2.

(** The cache has caught up with the API server. *)
Definition fresh (k : K) : Prop :=
  forall items, kList k = (items, None) -> forall m, m ∈ items <-> mstored k !! Name m = Some m.

(** The guard of the reconciler passed for the manager [req]. *)
Definition guard (req : string) (k : K) : Prop :=
  exists items, kList k = (items, None) /\
    match List.filter active items with m0 :: _ => Name m0 = req | [] => True end.

(** What a reconciliation does to the Manager resources. *)
Lemma ManagerReconcile_stored req (k k' : K) r :
  mwf k -> ManagerReconcile req k = (k', r) ->
  mwf k' /\ (mstored k' = mstored k
    \/ guard req k /\ exists o', mstored k' = <[req := o']> (mstored k)).
Proof.
  intros Hk. unfold ManagerReconcile, read, pure. cbv beta iota delta [mbind rec_bind mret rec_ret].
  destruct (kGet req k) as [m|e|e] eqn:Ej; cbv beta iota;
    [|destruct (IsNotFound e); intros; simplify_eq; by auto..].
  pose proof (get_name k req m Hk Ej) as Hn.
  destruct (kList k) as [items [e|]] eqn:El; cbv beta iota; [intros; simplify_eq; by auto|].
  assert (Hgo : guard req k -> reconcile_manager m k = (k', r) -> mwf k' /\ (mstored k' = mstored k
    \/ guard req k /\ exists o', mstored k' = <[req := o']> (mstored k))).
  { intros Hg. rewrite reconcile_manager_plan.
    destruct (manager_plan m) as [[p [a|]]|e|e]; [| |intros; simplify_eq; by auto..];
      destruct (exec_apart (Sp := ManagerSpec) (St := ManagerStatus) p k) as [Hs Hw].
    - intros [(e & Hx & ->)|(k1 & Hx & Hu)]%check_bind_inv; rewrite Hx in Hs, Hw; [by auto|].
      unfold check, record_phase in Hu.
      destruct (kStatusUpdate (with_phase m) k1) as [[k2 o'] e] eqn:Eu. cbn [fst] in Hs, Hw.
      assert (k2 = k') as -> by (destruct e; congruence).
      split; [by eapply update_wf; [apply Hw|]|]. destruct e as [e|].
      + left. by rewrite (update_err _ _ _ _ _ Eu).
      + right. split; [done|]. destruct (update_ok _ _ _ _ (Hw Hk) Eu) as (cur & _ & _ & _ & _ & _ & E).
        exists o'. change (Name (with_phase m)) with (Name m) in E. by rewrite E, Hs, Hn.
    - unfold check. destruct (exec p k) as [k1 [e|]]; intros; simplify_eq/=; auto. }
  unfold guard in Hgo |- *. rewrite El in Hgo.
  destruct (List.filter active items) as [|m0 ms] eqn:Ef; cbv beta iota.
  - intros E. rewrite <-El in Hgo. apply Hgo; [|done]. exists items. by rewrite Ef.
  - destruct (String.eqb_spec (Name m0) (Name m)) as [Em|Em]; cbn [negb]; cbv beta iota;
      [|intros; simplify_eq; by auto].
    intros E. rewrite <-El in Hgo. apply Hgo; [|done]. exists items. rewrite Ef. split; congruence.
Qed.

Lemma ManagerReconcile_one req (k k' : K) r :
  mwf k -> fresh k -> at_most_one k -> ManagerReconcile req k = (k', r) -> at_most_one k'.
Proof.
  intros Hk Hf Hone Hr.
  destruct (ManagerReconcile_stored req k k' r Hk Hr) as [_ [E|[(items & Hl & Hg) [o' E]]]];
    unfold at_most_one; rewrite E; [done|].
  assert (Hreq : forall n m, mstored k !! n = Some m -> active m = true -> n = req).
  { intros n m Hm Ha. pose proof (stored_name k n m Hk Hm) as <-.
    assert (Hin : m ∈ List.filter active items).
    { apply list_elem_of_In, filter_In. split; [|done]. apply list_elem_of_In. by apply Hf. }
    destruct (List.filter active items) as [|m0 ms] eqn:Ef; [by apply not_elem_of_nil in Hin|].
    rewrite <-Hg. assert (Hm0 : m0 ∈ m0 :: ms) by by left. rewrite <-Ef in Hm0.
    apply list_elem_of_In, filter_In in Hm0 as [Hi0 Ha0]. apply list_elem_of_In in Hi0.
    apply (Hf items Hl) in Hi0. by eapply Hone. }
  intros n1 n2 m1 m2 H1 H2 A1 A2.
  apply lookup_insert_Some in H1 as [[<- <-]|[_ H1]]; apply lookup_insert_Some in H2 as [[<- <-]|[_ H2]].
  - done.
  - symmetry. eauto.
  - eauto.
  - rewrite (Hreq _ _ H1 A1). symmetry. eauto.
Qed.

(** Histories: reconciliations against a fresh cache, and any other writer of the
    cluster, who may create, edit and delete managers but activates none. *)
Inductive history (k0 : K) : K -> Prop :=
  | history_start : history k0 k0
  | history_reconcile req k k' r :
      history k0 k -> fresh k -> ManagerReconcile req k = (k', r) -> history k0 k'
  | history_other k k' :
      history k0 k -> mwf k' ->
      (forall n m', mstored k' !! n = Some m' -> active m' = true ->
         exists m, mstored k !! n = Some m /\ active m = true) ->
      history k0 k'.

(** C23: At most one manager of a namespace is ever active, whichever managers are
    created, reconciled in whatever order, edited and deleted, as long as each
    reconciliation sees the managers as they are. *)
Theorem one_active_manager (k0 k : K) n1 n2 m1 m2 :
  mwf k0 -> (forall n m, mstored k0 !! n = Some m -> active m = false) -> history k0 k ->
  mstored k !! n1 = Some m1 -> mstored k !! n2 = Some m2 ->
  active m1 = true -> active m2 = true -> n1 = n2.
Proof.
  intros Hk0 H0 Hh. revert n1 n2 m1 m2. enough (mwf k /\ at_most_one k) by tauto.
  induction Hh as [|req k k' r _ [Hk Hone] Hf Hr|k k' _ [Hk Hone] Hk' Ho].
  - split; [done|]. intros n1 n2 m1 m2 H1 _ A1. rewrite (H0 _ _ H1) in A1. done.
  - split; [by apply (ManagerReconcile_stored req k k' r Hk Hr)|]. by eapply ManagerReconcile_one.
  - split; [done|]. intros n1 n2 m1 m2 H1 H2 A1 A2.
    destruct (Ho _ _ H1 A1) as (m1' & ? & ?). destruct (Ho _ _ H2 A2) as (m2' & ? & ?). by eapply Hone.
Qed.

(** ** What a successful reconciliation leaves *)

Lemma mown_Ret {A} kind m (a b : A) : mown set_owner kind m a = Ret b -> b = a.
Proof. unfold mown. by case_match; intros [= <-]. Qed.

Lemma app_key m a :
  desiredManagerDeployment parse_quantity set_owner rc m = Ret (Some a) ->
  key_of (MApp a) = (match a with ADeployment _ => "Deployment" | ADaemonSet _ => "DaemonSet" end, Name m).
Proof.
  unfold desiredManagerDeployment. destruct (String.eqb _ ""); [done|].
  intros (l & _ & H)%outcome_bind_Ret.
  destruct (String.eqb _ Deployment_); [|destruct (String.eqb _ DaemonSet_); [|done]];
    by apply mown_Ret in H; simplify_eq.
Qed.

(** A reconciliation that gives the manager something to run and reports success
    has carried out its whole plan. *)
Lemma manager_success m p a (k k' : K) :
  manager_plan m = Ret (p, Some a) -> reconcile_manager m k = (k', Ret tt) ->
  exists k1, exec p k = (k1, None) /\ children (C := mchild) k' = children k1.
Proof.
  rewrite reconcile_manager_plan. intros ->.
  intros [(e & _ & ?)|(k1 & Hx & Hu)]%check_bind_inv; [done|]. exists k1. split; [done|].
  unfold check, record_phase in Hu. pose proof (apart_update (C := mchild) k1 (with_phase m)) as Hc.
  destruct (kStatusUpdate (with_phase m) k1) as [[k2 o'] [e|]]; by simplify_eq.
Qed.

(** C24: When the reconciliation of a manager that has something to run succeeds,
    the cluster holds its workload in the kind its resource asks for, together with
    the account, role, binding, service and ingress that go with it, all as computed
    from the resource.  A workload of the other kind, from the time it asked for
    that, is gone, unless, after the first three objects were applied, the cache did
    not show it or its deletion failed, which the reconciler does not look at. *)
Theorem manager_runs_as_one_kind m a (k k' : K) :
  desiredManagerDeployment parse_quantity set_owner rc m = Ret (Some a) ->
  reconcile_manager m k = (k', Ret tt) ->
  key_of (MApp a) <> other_key m a /\ children k' !! key_of (MApp a) = Some (MApp a) /\
  exists sa role rb svc ig k1,
    desiredSA set_owner m = Ret sa /\ desiredRole set_owner m = Ret role /\
    desiredRoleBinding set_owner m = Ret rb /\ desiredManagerService set_owner m = Ret svc /\
    desiredManagerIngress set_owner rc m = Ret ig /\
    (forall c, c ∈ [MAccount sa; MRole role; MBinding rb; MService svc; MFront ig] ->
      children k' !! key_of c = Some c) /\
    exec [Apply (MAccount sa); Apply (MRole role); Apply (MBinding rb)] k = (k1, None) /\
    (children k' !! other_key m a = None
     \/ cGet (C := mchild) (other_key m a) k1 <> None
     \/ (cDelete (C := mchild) (other_key m a) k1).2 <> None).
Proof.
  intros Ha Hr. pose proof (app_key m a Ha) as Ka.
  destruct (manager_plan m) as [[p o]|e|e] eqn:Ep; [|by rewrite reconcile_manager_plan, Ep in Hr..].
  pose proof Ep as Ep0. unfold manager_plan in Ep0.
  apply outcome_bind_Ret in Ep0 as (sa & Hsa & Ep0). apply outcome_bind_Ret in Ep0 as (role & Hro & Ep0).
  apply outcome_bind_Ret in Ep0 as (rb & Hrb & Ep0). rewrite Ha, outcome_bind_ret_l in Ep0.
  apply outcome_bind_Ret in Ep0 as (svc & Hsv & Ep0). apply outcome_bind_Ret in Ep0 as (ig & Hig & Ep0).
  injection Ep0 as <- <-. destruct (manager_success m _ a k k' Ep Hr) as (k2 & Hx & ->).
  assert (Hkeys : forall c p1 p2, [Apply (MAccount sa); Apply (MRole role); Apply (MBinding rb);
     DeleteFound (other_key m a) []; Apply (MApp a); Apply (MService svc); Apply (MFront ig)]
     = p1 ++ Apply c :: p2 -> key_of c ∉ (p2 ≫= touched) -> children k2 !! key_of c = Some c).
  { intros c p1 p2 E Hk. cbn [app] in Hx. rewrite E in Hx. by eapply exec_applied. }
  destruct (exec_found [Apply (MAccount sa); Apply (MRole role); Apply (MBinding rb)] (other_key m a)
    [Apply (MApp a); Apply (MService svc); Apply (MFront ig)] k k2 Hx) as (k1 & Hk1 & Hgone).
  { destruct a; key_apart. }
  split; [rewrite Ka; by destruct a|]. split.
  - eapply (Hkeys (MApp a) [_; _; _; _]); [done|]. rewrite Ka. destruct a; key_apart.
  - exists sa, role, rb, svc, ig, k1. do 5 (split; [done|]). split; [|done]. intros c Hc.
    rewrite !elem_of_cons, elem_of_nil in Hc. destruct Hc as [->|[->|[->|[->|[->|[]]]]]].
    + eapply (Hkeys _ []); [done|]. destruct a; key_apart.
    + eapply (Hkeys _ [_]); [done|]. destruct a; key_apart.
    + eapply (Hkeys _ [_; _]); [done|]. destruct a; key_apart.
    + eapply (Hkeys _ [_; _; _; _; _]); [done|]. key_apart.
    + eapply (Hkeys _ [_; _; _; _; _; _]); [done|]. key_apart.
Qed.
End laws.
End reconcile.
End manager_reconcile.

(** ** The objects of a manager fit together, and with its workers *)

(** C25: The objects of a manager fit together: the service and the workload select
    the manager's pods, every service port is a port of its container, which
    listens there; the pod runs under the account that the binding gives the
    role; the public paths lead to that service; and every worker of the manager
    is told exactly the address of that service. *)
Theorem manager_objects_fit_together {quantity} (parse_quantity : string -> option quantity)
    set_owner rc m a sa role rb svc ig :
  desiredManagerDeployment parse_quantity set_owner rc m = Ret (Some a) ->
  desiredSA set_owner m = Ret sa -> desiredRole set_owner m = Ret role ->
  desiredRoleBinding set_owner m = Ret rb -> desiredManagerService set_owner m = Ret svc ->
  desiredManagerIngress set_owner rc m = Ret ig ->
  let w := app_workload a in
  (sv_Selector svc = wl_Labels w /\ wl_Selector w = wl_Labels w) /\
  (forall sp, sp ∈ sv_Ports svc -> exists cp, cp ∈ ct_Ports (wl_Container w) /\
     sp_Target sp = cp_Name cp /\ sp_Port sp = cp_Port cp /\
     EnvLit "ADDR" (":" +:+ Strconv.Itoa (cp_Port cp)) ∈ ct_Env (wl_Container w)) /\
  (wl_ServiceAccount w = km_Name (sa_Meta sa) /\
     rb_Subjects rb = [("ServiceAccount", km_Name (sa_Meta sa))] /\
     rb_Ref rb = (rbacGroup, "Role", km_Name (ro_Meta role))) /\
  (forall ip, ip ∈ mi_Paths ig ->
     ip_Service ip = km_Name (sv_Meta svc) /\ ip_Port ip ∈ (sp_Name <$> sv_Ports svc)) /\
  (forall job sp, sp ∈ sv_Ports svc ->
     EnvLit "API" ("http://" +:+ km_Name (sv_Meta svc) +:+ ":" +:+ Strconv.Itoa (sp_Port sp))
     ∈ worker_env rc job (Name m)).
Proof.
  intros Ha Hsa%mown_Ret Hro%mown_Ret Hrb%mown_Ret Hsv%mown_Ret Hig%mown_Ret w. subst.
  unfold desiredManagerDeployment in Ha. destruct (String.eqb _ ""); [done|].
  apply outcome_bind_Ret in Ha as (l & _ & Ha).
  assert (Hw : ct_Ports (wl_Container w) = [mkPort ManagerPort "api" "TCP"]
    /\ ct_Env (wl_Container w) = manager_env m /\ wl_Labels w = {["manager" := Name m]}
    /\ wl_Selector w = {["manager" := Name m]} /\ wl_ServiceAccount w = Name m +:+ "-sa").
  { unfold w. destruct (String.eqb _ Deployment_); [|destruct (String.eqb _ DaemonSet_); [|done]];
      by apply mown_Ret in Ha; simplify_eq. }
  destruct Hw as (-> & -> & -> & -> & ->). split_and!; try done.
  - intros sp Hsp. apply list_elem_of_singleton in Hsp as ->. eexists.
    split; [by apply list_elem_of_singleton|]. split_and!; try done. right. by left.
  - intros ip (p & -> & _)%list_elem_of_fmap. split; [done|by left].
  - intros job sp Hsp. apply list_elem_of_singleton in Hsp as ->. unfold worker_env.
    apply elem_of_app. left. rewrite !elem_of_cons. auto 25.
Qed.

(** ** Witnesses: two managers in an in-memory cluster; the first is reconciled,
    the cache catches up, and the second one is refused. *)
Module ManagerDemo.
Abbreviation child := (mchild (quantity := string)).
Definition manager (n : string) (kind : DeployType) (v : Z) : Manager :=
  mkObject (mkMeta n "ns" v) (mkManagerSpec kind zeroDeployConfig zeroIngressConfig) (mkManagerStatus "").
Definition both : gmap string Manager :=
  {["blue" := manager "blue" "" 1; "green" := manager "green" DaemonSet_ 2]}.
Definition cluster : world child := mkWorld store_empty (mkStore both both 3) ∅.
(** Green while it asked for a deployment. *)
Definition green_before : world child :=
  mkWorld store_empty (mkStore both both 3)
    (w_children (reconcile_manager JobDemo.parse_quantity (fun _ _ => None) JobDemo.rc
      (manager "green" "" 2) cluster).1).
Definition catch_up (k : world child) : world child := set_managers (refresh (w_managers k)) k.
Definition run (req : string) (k : world child) : world child * outcome unit :=
  ManagerReconcile JobDemo.parse_quantity (fun _ _ => None) (fun _ => true) JobDemo.rc req k.

Lemma both_wf : store_wf (mkStore both both 3).
Proof.
  assert (H : forall n o, both !! n = Some o -> Name o = n /\ rv o < 3).
  { unfold both. intros n o [[<- <-]|[_ [<- <-]%lookup_singleton_Some]]%lookup_insert_Some; done. }
  split; simpl; [done|done|]. congruence.
Qed.

(** A cache that has caught up is fresh. *)
Lemma fresh_store (k : world child) :
  store_wf (w_managers k) -> cache (w_managers k) = server (w_managers k) -> fresh k.
Proof.
  intros Hk Hc items Hl m. injection Hl as <-. rewrite Hc. rewrite list_elem_of_fmap. split.
  - intros ([n o] & -> & Hin%elem_of_map_to_list). simpl.
    by destruct (wf_server _ Hk n o Hin) as [-> _].
  - intros Hm. exists (Name m, m). split; [done|]. by apply elem_of_map_to_list.
Qed.

Lemma catch_up_fresh (k : world child) : store_wf (w_managers k) -> fresh (catch_up k).
Proof. intros Hk. apply fresh_store; [by apply refresh_wf|done]. Qed.

Definition after_blue : world child := catch_up (run "blue" cluster).1.
Definition after_green : world child := (run "green" after_blue).1.

Lemma after_green_history :
  history JobDemo.parse_quantity (fun _ _ => None) (fun _ => true) JobDemo.rc cluster after_green.
Proof.
  assert (Hw : store_wf (w_managers (run "blue" cluster).1)).
  { exact (proj1 (ManagerReconcile_stored (K := world child) JobDemo.parse_quantity (fun _ _ => None)
      (fun _ => true) JobDemo.rc "blue" cluster _ _ both_wf (surjective_pairing _))). }
  eapply (history_reconcile _ _ _ _ _ "green" after_blue).
  - eapply (history_other _ _ _ _ _ (run "blue" cluster).1).
    + eapply (history_reconcile _ _ _ _ _ "blue" cluster); [apply history_start| |].
      * apply fresh_store; [apply both_wf|done].
      * apply surjective_pairing.
    + exact (refresh_wf _ Hw).
    + intros n m' Hm Ha. exists m'. exact (conj Hm Ha).
  - exact (catch_up_fresh _ Hw).
  - apply surjective_pairing.
Qed.
End ManagerDemo.

Lemma one_active_manager_witness :
  (ManagerDemo.run "green" ManagerDemo.after_blue).2
    = Err "already have one active manager in this namespace" /\
  forall n m, server (w_managers ManagerDemo.after_green) !! n = Some m -> active m = true -> n = "blue".
Proof.
  split; [vm_compute; reflexivity|]. intros n m Hm Ha.
  destruct (server (w_managers ManagerDemo.after_green) !! "blue") as [b|] eqn:Eb;
    [|vm_compute in Eb; discriminate Eb].
  eapply (one_active_manager (K := world ManagerDemo.child) JobDemo.parse_quantity (fun _ _ => None)
    (fun _ => true) JobDemo.rc ManagerDemo.cluster ManagerDemo.after_green n "blue" m b).
  - exact ManagerDemo.both_wf.
  - intros n' m'. change (ManagerDemo.both !! n' = Some m' -> active m' = false).
    unfold ManagerDemo.both. intros [[_ <-]|[_ [_ <-]%lookup_singleton_Some]]%lookup_insert_Some; reflexivity.
  - exact ManagerDemo.after_green_history.
  - exact Hm.
  - exact Eb.
  - exact Ha.
  - vm_compute in Eb. injection Eb as <-. reflexivity.
Defined.

(** Green ran as a deployment and now asks for a daemon set. *)
Lemma manager_runs_as_one_kind_witness :
  let k' := (reconcile_manager JobDemo.parse_quantity (fun _ _ => None) JobDemo.rc
    (ManagerDemo.manager "green" DaemonSet_ 2) ManagerDemo.green_before).1 in
  is_Some (w_children ManagerDemo.green_before !! ("Deployment", "green")) /\
  is_Some (w_children k' !! ("DaemonSet", "green")) /\ w_children k' !! ("Deployment", "green") = None.
Proof.
  intros k'. split; [by apply (bool_decide_unpack _); vm_compute|].
  split; [|vm_compute; reflexivity].
  assert (Hr : reconcile_manager JobDemo.parse_quantity (fun _ _ => None) JobDemo.rc
    (ManagerDemo.manager "green" DaemonSet_ 2) ManagerDemo.green_before = (k', Ret tt))
    by (vm_compute; reflexivity).
  revert Hr. unfold k'. clear k'.
  generalize (reconcile_manager JobDemo.parse_quantity (fun _ _ => None) JobDemo.rc
    (ManagerDemo.manager "green" DaemonSet_ 2) ManagerDemo.green_before).1. intros k' Hr.
  destruct (desiredManagerDeployment JobDemo.parse_quantity (fun _ _ => None) JobDemo.rc
    (ManagerDemo.manager "green" DaemonSet_ 2)) as [[a|]|e|e] eqn:Ed;
    try (vm_compute in Ed; discriminate Ed).
  destruct (manager_runs_as_one_kind (K := world ManagerDemo.child) JobDemo.parse_quantity
    (fun _ _ => None) JobDemo.rc (ManagerDemo.manager "green" DaemonSet_ 2) a ManagerDemo.green_before k' Ed Hr)
    as (_ & Ha & _).
  assert (Ka : key_of (MApp a) = ("DaemonSet", "green")).
  { vm_compute in Ed. injection Ed as <-. reflexivity. }
  rewrite Ka in Ha. by exists (MApp a).
Defined.

Lemma manager_objects_fit_together_witness :
  exists a svc, desiredManagerDeployment JobDemo.parse_quantity (fun _ _ => None) JobDemo.rc
      (ManagerDemo.manager "blue" "" 1) = Ret (Some a) /\
    desiredManagerService (fun _ _ => None) (ManagerDemo.manager "blue" "" 1) = Ret svc /\
    sv_Selector svc = wl_Labels (app_workload a).
Proof.
  destruct (desiredManagerDeployment JobDemo.parse_quantity (fun _ _ => None) JobDemo.rc
    (ManagerDemo.manager "blue" "" 1)) as [[a|]|e|e] eqn:Ed; try (vm_compute in Ed; discriminate Ed).
  eexists a, _. split; [reflexivity|]. split; [reflexivity|].
  apply (manager_objects_fit_together JobDemo.parse_quantity (fun _ _ => None) JobDemo.rc
    (ManagerDemo.manager "blue" "" 1) a _ _ _ _ _ Ed eq_refl eq_refl eq_refl eq_refl eq_refl).
Defined.
