(* ===== verification/NewsReconcile.v ===== *)
(** * The announcement reconciler (src/internal/controller/announcement_controller.go)

    It stamps an announcement with the time it was first seen and the time of its
    last change.  [t1] and [t2] are the readings of the clock. *)

From S2P Require Import Prelude Types Kube Cluster.

Section news.
Context (IsNotFound : string -> bool).
Context {K : Type} `{!Client K AnnouncementSpec AnnouncementStatus}.

Definition stamp (t1 t2 : Z) (s : AnnouncementStatus) : AnnouncementStatus :=
  mkAnnouncementStatus (if PubTime s =? 0 then t1 else PubTime s) t2.

Definition AnnouncementReconcile (t1 t2 : Z) (req : string) : rec K unit :=
  got ← read (kGet (Sp := AnnouncementSpec) (St := AnnouncementStatus) req);
  match got with
  | Err e | Panic e => if IsNotFound e then mret tt else pure (Err e)
  | Ret news =>
      check (fun k =>
        let '(k', _, e) := kStatusUpdate (with_status news (stamp t1 t2 (Status news))) k in (k', e))
  end.

Context `{!ClientLaws K AnnouncementSpec AnnouncementStatus}.
#[local] Abbreviation nstored := (stored (Sp := AnnouncementSpec) (St := AnnouncementStatus)).
#[local] Abbreviation nwf := (kwf (Sp := AnnouncementSpec) (St := AnnouncementStatus)).

(** A reconciliation stamps what the API server holds, or changes nothing. *)
Lemma AnnouncementReconcile_stored t1 t2 req (k k' : K) r :
  nwf k -> AnnouncementReconcile t1 t2 req k = (k', r) ->
  nwf k' /\ (nstored k' = nstored k
    \/ exists news o', nstored k !! req = Some news /\ nstored k' = <[req := o']> (nstored k)
         /\ Spec o' = Spec news /\ Status o' = stamp t1 t2 (Status news)).
Proof.
  intros Hk. unfold AnnouncementReconcile, read, pure, check.
  cbv beta iota delta [mbind rec_bind mret rec_ret].
  destruct (kGet req k) as [news|e|e] eqn:Eg; cbv beta iota;
    [|destruct (IsNotFound e); intros; simplify_eq; by auto..].
  destruct (kStatusUpdate _ k) as [[k2 o'] [e|]] eqn:Eu; intros; simplify_eq.
  - split; [by eapply update_wf|]. left. by eapply update_err.
  - split; [by eapply update_wf|]. right. exists news, o'.
    destruct (update_after_get k k' req news o' _ Hk Eg Eu) as (H1 & H2 & _ & H3 & H4). done.
Qed.

(** Histories of reconciliations with a clock that does not run backwards, and of
    writers that leave the stamps alone and create announcements without one. *)
Inductive news_history (k0 : K) : Z -> K -> Prop :=
  | news_start t : 0 < t -> news_history k0 t k0
  | news_reconcile t t1 t2 req k k' r :
      news_history k0 t k -> t <= t1 <= t2 ->
      AnnouncementReconcile t1 t2 req k = (k', r) -> news_history k0 t2 k'
  | news_other t k k' :
      news_history k0 t k -> nwf k' ->
      (forall n o', nstored k' !! n = Some o' ->
         Status o' = mkAnnouncementStatus 0 0 \/ exists o, nstored k !! n = Some o /\ Status o' = Status o) ->
      news_history k0 t k'.

(** No announcement was edited before it was published, nor in the future. *)
Definition stamped (t : Z) (s : AnnouncementStatus) : Prop :=
  0 <= PubTime s <= EditTime s /\ EditTime s <= t.

Lemma stamp_stamped t t1 t2 s : 0 < t -> t <= t1 <= t2 -> stamped t s -> stamped t2 (stamp t1 t2 s).
Proof. unfold stamped, stamp. intros Ht Hl Hs. destruct (Z.eqb_spec (PubTime s) 0); simpl; lia. Qed.

Theorem announcements_stay_stamped (k0 k : K) t n o :
  nwf k0 -> (forall n o, nstored k0 !! n = Some o -> Status o = mkAnnouncementStatus 0 0) ->
  news_history k0 t k -> nstored k !! n = Some o -> stamped t (Status o).
Proof.
  intros Hk0 H0 Hh. revert n o.
  enough (0 < t /\ nwf k /\ forall n o, nstored k !! n = Some o -> stamped t (Status o)) by tauto.
  induction Hh as [t Ht|t t1 t2 req k k' r _ (Ht & Hk & IH) Hl Hr|t k k' _ (Ht & Hk & IH) Hk' Ho].
  - split_and!; [done|done|]. intros n o Hn. rewrite (H0 n o Hn). unfold stamped; simpl; lia.
  - destruct (AnnouncementReconcile_stored t1 t2 req k k' r Hk Hr) as [Hk' Hs].
    split_and!; [lia|done|]. intros n o Hn.
    assert (Hold : forall n o, nstored k !! n = Some o -> stamped t2 (Status o)).
    { intros n' o' Hn'. specialize (IH n' o' Hn'). unfold stamped in *. lia. }
    destruct Hs as [Es|(news & o' & H1 & Es & _ & H2)]; rewrite Es in Hn; [eauto|].
    apply lookup_insert_Some in Hn as [[<- <-]|[_ Hn]]; [|eauto].
    rewrite H2. eapply stamp_stamped; eauto.
  - split_and!; [done|done|]. intros n o Hn.
    destruct (Ho n o Hn) as [->|(o1 & H1 & ->)]; [unfold stamped; simpl; lia|eauto].
Qed.
End news.
