(* ===== verification/Watch.v ===== *)
(** * What wakes the controllers (SetupWithManager of
      src/internal/controller/job_controller.go, manager_controller.go and
      announcement_controller.go)

    A controller is woken by events: of its own resources, and of objects of
    certain kinds that carry a reference to such a resource as their controller.
    All three drop updates that leave the generation as it is, and keep creations
    and deletions.  The API server counts generations ([Generations]): a change of
    the specification is counted, an update of the status is not.

    The theorems compose this with the manager's handlers and with the
    reconcilers: which requests of the API wake the controller, and which lost
    objects are brought back. *)

From S2P Require Import Prelude GoLib Types Sizes Kube Cluster Gin ManagerJobs JobDesired.
From S2P Require Import Json JobJson JobReconcile ManagerReconcile NewsReconcile.

(** ** Events *)
Inductive event := Created_ | Updated (oldGeneration newGeneration : Z) | Deleted.

(** The UpdateFunc of the three event filters, and the filters. *)
Definition UpdateFunc (oldGeneration newGeneration : Z) : bool := negb (oldGeneration =? newGeneration).
Definition WithEventFilter (e : event) : bool :=
  match e with Updated old new => UpdateFunc old new | Created_ | Deleted => true end.

(** Where an event comes from: a resource, or an object of a kind with the kind
    and the name of its controller, if it has one. *)
Inductive source :=
  | Resource (kind name : string)
  | Object (kind : string) (owner : option (string * string)).

Record controller := mkController { ct_For : string; ct_Owns : list string }.
Definition JobController : controller :=
  mkController "Job" ["PersistentVolumeClaim"; "Deployment"; "Service"; "Ingress"].
Definition ManagerController : controller :=
  mkController "Manager"
    ["ServiceAccount"; "Role"; "RoleBinding"; "DaemonSet"; "Deployment"; "Service"; "Ingress"].
Definition AnnouncementController : controller := mkController "Announcement" [].

(** The resource an event makes the controller reconcile. *)
Definition wakes (c : controller) (s : source) (e : event) : option string :=
  if WithEventFilter e then
    match s with
    | Resource kind name => if String.eqb kind (ct_For c) then Some name else None
    | Object kind (Some (okind, name)) =>
        if bool_decide (kind ∈ ct_Owns c) && String.eqb okind (ct_For c) then Some name else None
    | Object _ None => None
    end
  else None.

(** ** Generations *)
Class Generations (K Sp St : Type) `{!Client K Sp St, !ClientLaws K Sp St} := {
  generation : K -> string -> Z;
  generation_update : forall (k k' : K) (o o' : object Sp St) e n,
    kStatusUpdate o k = (k', o', e) -> generation k' n = generation k n;
  generation_patch : forall (k k' : K) (o cur o' : object Sp St),
    kPatch o k = (k', None) -> stored k !! Name o = Some cur -> stored k' !! Name o = Some o' ->
    Spec o' <> Spec cur -> generation k' (Name o) <> generation k (Name o);
}.
#[global] Hint Mode Generations + + + - - : typeclass_instances.

Section events.
Context {K Sp St : Type} `{!Client K Sp St, !ClientLaws K Sp St, !Generations K Sp St}.

(** What a write that turns [k] into [k'] tells about the resource [n]. *)
Definition event_of (k k' : K) (n : string) : option event :=
  match stored (Sp := Sp) (St := St) k !! n, stored (Sp := Sp) (St := St) k' !! n with
  | None, None => None
  | None, Some _ => Some Created_
  | Some _, None => Some Deleted
  | Some o, Some o' =>
      if rv o =? rv o' then None
      else Some (Updated (generation (Sp := Sp) (St := St) k n) (generation (Sp := Sp) (St := St) k' n))
  end.

(** A write that creates and deletes nothing and is not counted goes unnoticed. *)
Lemma uncounted_is_unnoticed (k k' : K) n e c kind :
  (is_Some (stored (Sp := Sp) (St := St) k !! n) <-> is_Some (stored (Sp := Sp) (St := St) k' !! n)) ->
  generation (Sp := Sp) (St := St) k' n = generation (Sp := Sp) (St := St) k n ->
  event_of k k' n = Some e -> wakes c (Resource kind n) e = None.
Proof.
  intros Hd Hg. unfold event_of.
  destruct (stored k !! n) as [o|], (stored k' !! n) as [o'|]; try done.
  - destruct (rv o =? rv o'); [done|]. intros [= <-]. rewrite Hg. unfold wakes. cbn.
    unfold UpdateFunc. by rewrite Z.eqb_refl.
  - destruct (proj1 Hd ltac:(by eexists)) as [? [=]].
  - destruct (proj2 Hd ltac:(by eexists)) as [? [=]].
Qed.
End events.

(** ** The manager's API and the job controller *)
Section api.
Context {K : Type} `{!Client K JobSpec JobStatus, !ClientLaws K JobSpec JobStatus,
  !Generations K JobSpec JobStatus}.
Context (now : nat -> Z) (post : string -> ClientCmd -> reply) (fetch_log : string -> reply).
#[local] Abbreviation jobs := (stored (K := K) (Sp := JobSpec) (St := JobStatus)).
#[local] Abbreviation gen := (generation (K := K) (Sp := JobSpec) (St := JobStatus)).

(** The generations are those of [k]. *)
Definition same_generations {A} (k : K) (s : hstate K) (_ : flow A) : Prop :=
  forall n, gen (cluster s) n = gen k n.

Lemma serve_generations r (k : K) cs es t p :
  is_delete r = false -> wp (serve now post fetch_log r) (same_generations k) (mkHS k Free cs es t p).
Proof.
  intros Hd. unfold same_generations.
  destruct r as [id|id|id|id|id|id b|id b|id b|id|id|id b]; simpl; try done.
  - unfold getJob, ManagerJobs.GetJob. job_steps; done.
  - unfold getJobConfig, ManagerJobs.GetJob. job_steps; done.
  - unfold getJobLatestLog. job_steps; done.
  - unfold registerMirror, ManagerJobs.GetJob. job_steps; intros n; cbn; try done; by eapply generation_update.
  - unfold updateSchedule, ManagerJobs.GetJob. job_steps; intros n; cbn; try done; by eapply generation_update.
  - unfold updateJob, ManagerJobs.GetJob. job_steps; intros n; cbn; try done; by eapply generation_update.
  - unfold updateMirrorSize, ManagerJobs.GetJob. job_steps; intros n; cbn; try done; by eapply generation_update.
  - unfold enableJob, ManagerJobs.GetJob. job_steps; intros n; cbn; try done; by eapply generation_update.
  - unfold disableJob, ManagerJobs.GetJob. job_steps; intros n; cbn; try done; by eapply generation_update.
  - unfold handleClientCmd, post_command, ManagerJobs.GetJob. handler_steps.
    destruct (cc_Cmd (bound_value b)) eqn:Hc; job_steps; intros n; cbn; try done; by eapply generation_update.
Qed.

Lemma serve_same_names r (k : K) cs es t p s' fl :
  is_delete r = false -> kwf (Sp := JobSpec) (St := JobStatus) k ->
  serve now post fetch_log r (mkHS k Free cs es t p) = (s', fl) ->
  forall n, is_Some (jobs k !! n) <-> is_Some (jobs (cluster s') !! n).
Proof.
  intros Hd Hwf Hs n.
  pose proof (wp_elim _ _ _ (serve_touches now post fetch_log r k cs es t p
    ltac:(by intros id ->) Hwf)) as He. rewrite Hs in He. cbn [fst snd] in He.
  destruct He as (_ & _ & _ & _ & [->|(cur & o' & Hc & -> & _)]); [done|].
  destruct (decide (n = target r)) as [->|Hn]; [|by rewrite lookup_insert_ne].
  rewrite Hc, lookup_insert_eq. split; by eexists.
Qed.

Lemma serve_unnoticed r (k : K) cs es t p s' fl n e :
  is_delete r = false -> kwf (Sp := JobSpec) (St := JobStatus) k ->
  serve now post fetch_log r (mkHS k Free cs es t p) = (s', fl) ->
  event_of (Sp := JobSpec) (St := JobStatus) k (cluster s') n = Some e ->
  wakes JobController (Resource "Job" n) e = None.
Proof.
  intros Hd Hwf Hs He. eapply uncounted_is_unnoticed; [by eapply serve_same_names| |exact He].
  pose proof (wp_elim _ _ _ (serve_generations r k cs es t p Hd)) as Hg. rewrite Hs in Hg. apply Hg.
Qed.
End api.

(** C22: No report wakes the controller: whatever a worker or a client sends to an
    existing job (registration, status, size, schedule, enable, disable, any
    command), the events it causes are dropped by the filter of the job
    controller, so reports never turn into reconciliations. *)
Theorem reports_never_wake_the_controller {K : Type} `{!Client K JobSpec JobStatus,
    !ClientLaws K JobSpec JobStatus, !Generations K JobSpec JobStatus}
    (now : nat -> Z) (post : string -> ClientCmd -> reply) (fetch_log : string -> reply)
    (r : request) (k : K) cs es t p s' fl n e :
  is_delete r = false -> kwf (Sp := JobSpec) (St := JobStatus) k ->
  serve now post fetch_log r (mkHS k Free cs es t p) = (s', fl) ->
  event_of (Sp := JobSpec) (St := JobStatus) k (cluster s') n = Some e ->
  wakes JobController (Resource "Job" n) e = None.
Proof. apply serve_unnoticed. Qed.

(** C21: Disabling a job through the API takes nothing down: the handler records the
    status and answers that the job is disabled, but no event of it wakes the
    controller, so the deployment and everything else of the job stay. *)
Theorem disabling_takes_nothing_down {quantity K : Type} `{!Client K JobSpec JobStatus,
    !ClientLaws K JobSpec JobStatus, !Generations K JobSpec JobStatus,
    !Children K (jchild (quantity := quantity)), !ChildrenLaws K (jchild (quantity := quantity)),
    !ApartBack K (jchild (quantity := quantity)) JobSpec JobStatus}
    (now : nat -> Z) (id : string) (k : K) cs es t p s' :
  kwf (Sp := JobSpec) (St := JobStatus) k ->
  disableJob now id (mkHS k Free cs es t p) = (s', Next tt) ->
  (exists o', stored (cluster s') !! id = Some (o' : Job) /\ st_Status (Status o') = Disabled) /\
  calls s' = cs ++ [JSON StatusOK (BInfo "disabled")] /\
  children (C := jchild (quantity := quantity)) (cluster s') = children k /\
  (forall n e, event_of (Sp := JobSpec) (St := JobStatus) k (cluster s') n = Some e ->
     wakes JobController (Resource "Job" n) e = None).
Proof.
  intros Hwf Hs.
  enough ((exists o', stored (cluster s') !! id = Some (o' : Job) /\ st_Status (Status o') = Disabled) /\
    calls s' = cs ++ [JSON StatusOK (BInfo "disabled")] /\
    children (C := jchild (quantity := quantity)) (cluster s') = children k) as (H1 & H2 & H3).
  { split_and!; [done..|]. intros n e He.
    eapply (serve_unnoticed now (fun _ _ => Err "") (fun _ => Err "") (RDisable id));
      [reflexivity|exact Hwf|exact Hs|exact He]. }
  assert (Hn : @Next unit tt = Next tt) by done. revert Hn. set (fl := @Next unit tt) in Hs |- * at 1.
  clearbody fl. run_handler Hs.
  unfold disableJob, ManagerJobs.GetJob. job_steps; try done; intros _.
  cbn [cluster set_mutex calls]. split_and!; [|done|].
  - match goal with Hg : kGet id k = Ret ?o, Hu : kStatusUpdate _ _ = (?k', ?j', None) |- _ =>
      destruct (update_after_get k k' id o j' _ Hwf Hg Hu) as (_ & Hk & _ & _ & Hst) end.
    eexists. rewrite Hk, lookup_insert_eq. split; [done|]. by rewrite Hst.
  - match goal with Hu : kStatusUpdate ?o ?k = _ |- _ =>
      pose proof (apart_update k o) as Ha; rewrite Hu in Ha; exact Ha end.
Qed.

(** ** Lost objects of a job *)
Section lost.
Context {quantity : Type} (parse_quantity : string -> option quantity).
Context (json_compact : string -> outcome string) (set_owner : string -> Job -> option string).
Context (IsNotFound : string -> bool) (rc : CConfig).
#[local] Abbreviation child := (jchild (quantity := quantity)).
Context {K : Type} `{!Client K JobSpec JobStatus, !Client K ManagerSpec ManagerStatus, !Children K child,
  !ClientLaws K JobSpec JobStatus, !ChildrenLaws K child, !Apart K child JobSpec JobStatus,
  !ApartBack K child JobSpec JobStatus}.

Definition child_meta (c : child) : KMeta :=
  match c with
  | JClaim c => pvc_Meta c
  | JService s => sv_Meta s
  | JIngress i => ig_Meta i
  | JConfigMap m => cm_Meta m
  | JDeployment d => dp_Meta d
  | JServiceMonitor m => sm_Meta m
  end.

(** The events of an object made for [job]: SetControllerReference names the job. *)
Definition child_source (job : Job) (c : child) : source :=
  Object (key_of c).1 (if km_Owned (child_meta c) then Some ("Job", Name job) else None).

(** The objects no reference ties to the job. *)
Definition unowned (c : child) : bool :=
  match c with JConfigMap _ | JServiceMonitor _ => true | _ => false end.

Lemma wanted_cases job mgr p pvc svc ig cm app c :
  plan_objects parse_quantity json_compact set_owner rc job mgr p pvc svc ig cm app -> c ∈ Cluster.applied p ->
  c = JClaim pvc \/ exists d, app = Some d /\
    (c = JService svc \/ (exists i, ig = Some i /\ c = JIngress i) \/
     (exists m, cm = Some m /\ c = JConfigMap m) \/ c = JDeployment d \/
     (EnableMetric rc = true /\ c = JServiceMonitor (desiredServiceMonitor job))).
Proof.
  intros Ho. rewrite (po_plan _ _ _ _ _ _ _ _ _ _ _ _ Ho). unfold plan_of, Cluster.applied. intros Hc.
  apply list_elem_of_omap in Hc as (a & Ha & Hc).
  assert (Hm : a ∈ (if disableFront (checkRsyncFront rc job) then [Delete ("Ingress", Name job)] else [])
               -> False).
  { destruct (disableFront _); intros Hin; [|by apply elem_of_nil in Hin].
    apply list_elem_of_singleton in Hin as ->. done. }
  rewrite elem_of_cons, elem_of_app in Ha. destruct Ha as [->|[Ha|Ha]]; [by simplify_eq; left| |tauto].
  right. destruct app as [d|].
  - exists d. split; [done|]. rewrite !elem_of_app in Ha.
    destruct Ha as [Ha|[Ha|[Ha|[Ha|Ha]]]].
    + apply list_elem_of_singleton in Ha as ->. simplify_eq. auto.
    + destruct ig as [i|]; [|by apply elem_of_nil in Ha].
      apply list_elem_of_singleton in Ha as ->. simplify_eq. eauto.
    + destruct cm as [m|]; [|by apply elem_of_nil in Ha].
      apply list_elem_of_singleton in Ha as ->. simplify_eq. eauto 6.
    + apply list_elem_of_singleton in Ha as ->. simplify_eq. auto 6.
    + destruct (EnableMetric rc); [|by apply elem_of_nil in Ha].
      apply list_elem_of_singleton in Ha as ->. simplify_eq. auto 6.
  - exfalso. rewrite !elem_of_cons, elem_of_nil in Ha.
    destruct Ha as [->|[->|[->|[]]]]; simplify_eq.
Qed.

Lemma wanted_owned job mgr p pvc svc ig cm app c :
  plan_objects parse_quantity json_compact set_owner rc job mgr p pvc svc ig cm app -> c ∈ Cluster.applied p ->
  km_Owned (child_meta c) = negb (unowned c).
Proof.
  intros Ho Hc. destruct (wanted_cases _ _ _ _ _ _ _ _ _ Ho Hc) as [->|(d & -> & H)].
  { cbn. by rewrite (desiredPVC_meta _ _ _ _ _ (po_pvc _ _ _ _ _ _ _ _ _ _ _ _ Ho)). }
  destruct H as [->|[(i & -> & ->)|[(m & -> & ->)|[->|[_ ->]]]]]; cbn.
  - by rewrite (own_Ret _ _ _ _ _ (po_svc _ _ _ _ _ _ _ _ _ _ _ _ Ho)).
  - destruct (disableFront (checkRsyncFront rc job)) eqn:E.
    + by destruct (po_off _ _ _ _ _ _ _ _ _ _ _ _ Ho E).
    + destruct (po_on _ _ _ _ _ _ _ _ _ _ _ _ Ho E) as (i' & [= <-] & Hi & _).
      by apply own_Ret in Hi as ->.
  - destruct (disableFront (checkRsyncFront rc job)) eqn:E.
    + by destruct (po_off _ _ _ _ _ _ _ _ _ _ _ _ Ho E).
    + destruct (po_on _ _ _ _ _ _ _ _ _ _ _ _ Ho E) as (i' & _ & _ & Hm).
      unfold desiredFrontConfigmap in Hm. apply outcome_bind_Ret in Hm as (x & _ & Hm).
      by destruct (String.eqb x ""); simplify_eq.
  - pose proof (po_app _ _ _ _ _ _ _ _ _ _ _ _ Ho) as Ha.
    apply desiredDeployment_Some in Ha as (w & _ & _ & _ & _ & _ & Hm). by rewrite Hm.
  - done.
Qed.

(** A plan that was carried out leaves each of its objects. *)
Lemma plan_leaves_wanted job mgr p c (k k1 : K) :
  reconcile_plan parse_quantity json_compact set_owner rc job mgr = Ret p -> c ∈ Cluster.applied p ->
  exec p k = (k1, None) -> children k1 !! key_of c = Some c.
Proof.
  intros Hp Hc Hx. destruct (reconcile_plan_Ret _ _ _ _ _ _ _ Hp) as (pvc & svc & ig & cm & app & Ho).
  destruct (wanted_cases _ _ _ _ _ _ _ _ _ Ho Hc) as [->|(d & -> & H)].
  - destruct app as [d|].
    + rewrite (key_claim _ _ _ _ _ _ _ _ _ _ _ _ Ho).
      by destruct (plan_converges _ _ _ _ _ _ _ _ _ _ _ _ _ _ Ho Hx).
    + rewrite (po_plan _ _ _ _ _ _ _ _ _ _ _ _ Ho) in Hx. unfold plan_of in Hx.
      eapply (exec_applied [] (JClaim pvc)); [exact Hx|].
      rewrite (key_claim _ _ _ _ _ _ _ _ _ _ _ _ Ho). destruct (disableFront _); key_apart.
  - destruct (plan_converges _ _ _ _ _ _ _ _ _ _ _ _ _ _ Ho Hx) as (_ & H2 & H3 & H4 & H5 & H6).
    destruct H as [->|[(i & -> & ->)|[(m & -> & ->)|[->|[Em ->]]]]].
    + by rewrite (key_service _ _ _ _ _ _ _ _ _ _ _ _ Ho).
    + rewrite (key_ingress _ _ _ _ _ _ _ _ _ _ _ _ Ho i eq_refl). auto.
    + rewrite (key_config _ _ _ _ _ _ _ _ _ _ _ _ Ho m eq_refl). auto.
    + by rewrite (key_deployment _ _ _ _ _ _ _ _ _ _ _ _ Ho d eq_refl).
    + auto.
Qed.

(** C20: A lost object of a job is brought back exactly if it is owned: the deletion of
    its claim, service, ingress or deployment wakes the controller for this very
    job, and a reconciliation that reports success leaves the object as wanted;
    the config map of the front and the service monitor carry no reference to
    the job, and no event of theirs wakes the controller. *)
Theorem lost_objects_are_brought_back job m p c (k : K) :
  kwf (Sp := JobSpec) (St := JobStatus) k -> kGet (Name job) k = Ret job -> manages k job m ->
  reconcile_plan parse_quantity json_compact set_owner rc job (Name m) = Ret p -> c ∈ Cluster.applied p ->
  (unowned c = false -> wakes JobController (child_source job c) Deleted = Some (Name job) /\
     forall k', Reconcile parse_quantity json_compact set_owner IsNotFound rc (Name job) k = (k', Ret tt) ->
       children k' !! key_of c = Some c) /\
  (unowned c = true -> forall e, wakes JobController (child_source job c) e = None).
Proof.
  intros Hk Hj Hm Hp Hc.
  destruct (reconcile_plan_Ret _ _ _ _ _ _ _ Hp) as (pvc & svc & ig & cm & app & Ho).
  pose proof (wanted_owned _ _ _ _ _ _ _ _ _ Ho Hc) as Hw. unfold child_source. rewrite Hw. split.
  - intros Hu. rewrite Hu. split; [by destruct c; vm_compute|]. intros k' Hr.
    destruct (Reconcile_success _ _ _ _ _ _ _ _ _ _ Hk Hj Hm Hr) as (p' & k1 & Hp' & Hx & ->).
    rewrite Hp in Hp'. injection Hp' as <-. by eapply plan_leaves_wanted.
  - intros Hu e. rewrite Hu. unfold wakes. cbn. by destruct (WithEventFilter e).
Qed.
End lost.

(** ** A new specification wakes the controller *)
(** A change of specification wakes the controller: after a POST to a job that
    ran to its end, an event of this job wakes the controller for it whenever
    the job is new or its specification is another one. *)
Theorem new_specification_wakes_the_controller (kc : kube_codecs) {K : Type} `{!Client K JobSpec JobStatus,
    !ClientLaws K JobSpec JobStatus, !Generations K JobSpec JobStatus}
    id body (k : K) cs es t p s' e :
  kwf (Sp := JobSpec) (St := JobStatus) k ->
  createJob kc id body (mkHS k Free cs es t p) = (s', Next tt) ->
  event_of (Sp := JobSpec) (St := JobStatus) k (cluster s') id = Some e ->
  Spec <$> (stored (cluster s') !! id : option Job) <> Spec <$> (stored k !! id : option Job) ->
  wakes JobController (Resource "Job" id) e = Some id.
Proof.
  intros Hwf Hs He Hsp. destruct (createJob_cases kc id body k cs es t p s' _ Hs) as [[_ Hn]|(sp & e0 & Hp & Hn)]; [done|].
  rewrite (Hn eq_refl) in Hp. clear Hn.
  destruct (patch_ok k _ _ Hwf Hp) as (o' & Ho' & _). change (Name (JobJson.applied id sp)) with id in Ho'.
  assert (El : stored (cluster s') !! id = Some o') by (rewrite Ho'; apply lookup_insert_eq).
  unfold event_of in He. rewrite El in He, Hsp. destruct (stored k !! id) as [cur|] eqn:Ec; [|by simplify_eq].
  destruct (rv cur =? rv o'); [done|]. injection He as <-. unfold wakes. cbn [WithEventFilter].
  unfold UpdateFunc. assert (Hg : generation (Sp := JobSpec) (St := JobStatus) k id
    <> generation (Sp := JobSpec) (St := JobStatus) (cluster s') id).
  { apply not_eq_sym. apply (generation_patch k (cluster s') _ cur o' Hp Ec El). intros E. apply Hsp. cbn. by rewrite E. }
  apply Z.eqb_neq in Hg. by rewrite Hg.
Qed.

(** ** The announcement controller does not wake itself *)

(** Stamping an announcement changes its status alone, so that one change of an
    announcement is stamped once. *)
Lemma stamping_wakes_nothing {K : Type} `{!Client K AnnouncementSpec AnnouncementStatus,
    !ClientLaws K AnnouncementSpec AnnouncementStatus, !Generations K AnnouncementSpec AnnouncementStatus}
    (IsNotFound : string -> bool) t1 t2 req (k k' : K) r n e :
  kwf (Sp := AnnouncementSpec) (St := AnnouncementStatus) k ->
  AnnouncementReconcile IsNotFound t1 t2 req k = (k', r) ->
  event_of (Sp := AnnouncementSpec) (St := AnnouncementStatus) k k' n = Some e ->
  wakes AnnouncementController (Resource "Announcement" n) e = None.
Proof.
  intros Hwf Hr He. eapply uncounted_is_unnoticed; [| |exact He].
  - destruct (AnnouncementReconcile_stored _ _ _ _ _ _ _ Hwf Hr) as [_ [->|(news & o' & Hn & -> & _)]]; [done|].
    destruct (decide (n = req)) as [->|]; [|by rewrite lookup_insert_ne].
    rewrite Hn, lookup_insert_eq. split; by eexists.
  - revert Hr. unfold AnnouncementReconcile, read, pure, check.
    cbv beta iota delta [mbind rec_bind mret rec_ret].
    destruct (kGet req k) as [news|x|x]; cbv beta iota;
      [|destruct (IsNotFound x); intros; by simplify_eq..].
    destruct (kStatusUpdate _ k) as [[k2 o'] [x|]] eqn:Eu; intros; simplify_eq; by eapply generation_update.
Qed.

(** ** A cluster that counts *)
Record counted (K0 : Type) := mkCounted { base : K0; gens : gmap string Z }.
Arguments mkCounted {K0}.
Arguments base {K0}.
Arguments gens {K0}.

Section counted.
Context {K0 Sp St : Type} `{!Client K0 Sp St, !ClientLaws K0 Sp St}.

Definition count (patched : option string) (k0 : K0) (k : counted K0) : counted K0 :=
  mkCounted k0 match patched with
               | Some n => <[n := default 0 (gens k !! n) + 1]> (gens k)
               | None => gens k
               end.
#[export] Instance counted_client : Client (counted K0) Sp St := lens_client base count.
#[export] Instance counted_laws : ClientLaws (counted K0) Sp St := lens_laws base count (fun _ _ _ => eq_refl).
#[export] Program Instance counted_generations : Generations (counted K0) Sp St :=
  {| generation k n := default 0 (gens k !! n) |}.
Next Obligation.
  intros k k' o o' e n Hu. simpl in Hu. destruct (kStatusUpdate o (base k)) as [[k0 o1] e1]. by simplify_eq.
Qed.
Next Obligation.
  intros k k' o cur o' Hp _ _ _. simpl in Hp. destruct (kPatch o (base k)) as [k0 e1]. simplify_eq.
  cbn. rewrite lookup_insert_eq. cbn. lia.
Qed.

Context {C : Type} `{!HasKey C, !Children K0 C, !ChildrenLaws K0 C}.
#[export] Instance counted_children : Children (counted K0) C := {|
  cApply c k := let '(k0, e) := cApply c (base k) in (count None k0 k, e);
  cDelete key k := let '(k0, e) := cDelete (C := C) key (base k) in (count None k0 k, e);
  cGet key k := cGet (C := C) key (base k);
|}.
#[export] Program Instance counted_children_laws : ChildrenLaws (counted K0) C :=
  {| children k := children (base k) |}.
Next Obligation.
  intros k k' c E. simpl in E. destruct (cApply c (base k)) as [k0 e] eqn:Ea. simplify_eq. by apply apply_ok.
Qed.
Next Obligation.
  intros k k' c e E. simpl in E. destruct (cApply c (base k)) as [k0 e'] eqn:Ea. simplify_eq. by eapply apply_err.
Qed.
Next Obligation.
  intros k k' key E. simpl in E. destruct (cDelete key (base k)) as [k0 e] eqn:Ea. simplify_eq. by apply cdelete_ok.
Qed.
Next Obligation.
  intros k k' key e E. simpl in E. destruct (cDelete key (base k)) as [k0 e'] eqn:Ea. simplify_eq.
  by eapply cdelete_err.
Qed.
Next Obligation.
  intros k kind. simpl. pose proof (cdelete_unnamed (C := C) (base k) kind) as Hn.
  by destruct (cDelete (kind, "") (base k)) as [k0 e].
Qed.
#[export] Instance counted_back `{!ApartBack K0 C Sp St} : ApartBack (counted K0) C Sp St.
Proof.
  intros k o. simpl. pose proof (apart_update (C := C) (base k) o) as Ha.
  by destruct (kStatusUpdate o (base k)) as [[k0 o'] e].
Qed.
End counted.

(** A plan was made. *)
Definition is_ret {A} (o : outcome A) : bool := match o with Ret _ => true | _ => false end.

Module WatchDemo.
Abbreviation child := (jchild (quantity := string)).
(** The job of [JobDemo], enabled, with its service. *)
Definition cluster : counted (world child) :=
  mkCounted (ReconcileDemo.cluster JobDemo.job ReconcileDemo.old_kids) {["debian" := 1]}.
Lemma counted_wf : kwf (Sp := JobSpec) (St := JobStatus) cluster.
Proof. exact (ReconcileDemo.cluster_wf JobDemo.job _ eq_refl). Qed.
Definition state : hstate (counted (world child)) := mkHS cluster Free [] [] 0 [].
Definition body : json := JObj [("config", JObj [("upstream", JStr "rsync://elsewhere/debian")])].
End WatchDemo.

Lemma reports_never_wake_the_controller_witness :
  let s' := (serve ManagerJobs.Demo.now ManagerJobs.Demo.post ManagerJobs.Demo.fetch_log
               (RUpdate "debian" (ManagerJobs.Demo.report Success)) WatchDemo.state).1 in
  event_of (Sp := JobSpec) (St := JobStatus) WatchDemo.cluster (cluster s') "debian" = Some (Updated 1 1) /\
  wakes JobController (Resource "Job" "debian") (Updated 1 1) = None.
Proof.
  split; [vm_compute; reflexivity|].
  eapply (reports_never_wake_the_controller ManagerJobs.Demo.now ManagerJobs.Demo.post
    ManagerJobs.Demo.fetch_log (RUpdate "debian" (ManagerJobs.Demo.report Success)) WatchDemo.cluster
    [] [] 0%nat []).
  - reflexivity.
  - exact WatchDemo.counted_wf.
  - apply surjective_pairing.
  - vm_compute. reflexivity.
Defined.

Lemma disabling_takes_nothing_down_witness :
  let s' := (disableJob ManagerJobs.Demo.now "debian" WatchDemo.state).1 in
  children (C := WatchDemo.child) (cluster s') = ReconcileDemo.old_kids.
Proof.
  destruct (disabling_takes_nothing_down (quantity := string) ManagerJobs.Demo.now "debian" WatchDemo.cluster
    [] [] 0%nat [] (disableJob ManagerJobs.Demo.now "debian" WatchDemo.state).1) as (_ & _ & Hc & _).
  - exact WatchDemo.counted_wf.
  - vm_compute. reflexivity.
  - exact Hc.
Defined.

Lemma new_specification_wakes_the_controller_witness :
  wakes JobController (Resource "Job" "debian") (Updated 1 2) = Some "debian".
Proof.
  eapply (new_specification_wakes_the_controller JsonDemo.kc "debian" (Some WatchDemo.body) WatchDemo.cluster
    [] [] 0%nat [] (createJob JsonDemo.kc "debian" (Some WatchDemo.body) WatchDemo.state).1).
  - exact WatchDemo.counted_wf.
  - vm_compute. reflexivity.
  - vm_compute. reflexivity.
  - vm_compute. discriminate.
Defined.

Lemma lost_objects_are_brought_back_witness :
  exists pvc, wakes JobController (child_source JobDemo.job (JClaim pvc : WatchDemo.child)) Deleted = Some "debian" /\
    children (C := WatchDemo.child) (ReconcileDemo.run JobDemo.rc JobDemo.job ∅).1
      !! key_of (JClaim pvc : WatchDemo.child) = Some (JClaim pvc : WatchDemo.child).
Proof.
  assert (Hr : is_ret (reconcile_plan JobDemo.parse_quantity (fun s => Ret s) (fun _ _ => None) JobDemo.rc
    JobDemo.job "mgr") = true) by (vm_compute; reflexivity).
  destruct (reconcile_plan JobDemo.parse_quantity (fun s => Ret s) (fun _ _ => None) JobDemo.rc JobDemo.job "mgr")
    as [p|e|e] eqn:Ep; [|discriminate Hr..].
  destruct (reconcile_plan_Ret _ _ _ _ _ _ _ Ep) as (pvc & svc & ig & cm & app & Ho). exists pvc.
  destruct (lost_objects_are_brought_back (K := world WatchDemo.child) JobDemo.parse_quantity (fun s => Ret s)
    (fun _ _ => None) (fun _ => true) JobDemo.rc JobDemo.job ReconcileDemo.manager p (JClaim pvc)
    (ReconcileDemo.cluster JobDemo.job ∅)) as [Hc _].
  - exact (ReconcileDemo.cluster_wf JobDemo.job _ eq_refl).
  - reflexivity.
  - by apply ReconcileDemo.cluster_manages.
  - exact Ep.
  - rewrite (po_plan _ _ _ _ _ _ _ _ _ _ _ _ Ho). unfold plan_of, Cluster.applied. cbn [omap list_omap].
    apply elem_of_cons. by left.
  - destruct (Hc eq_refl) as [Hw Hb]. split; [exact Hw|]. apply Hb.
    unfold ReconcileDemo.run. rewrite (surjective_pairing (Reconcile _ _ _ _ _ _ _)) at 1. f_equal.
Defined.
