(* ===== verification/Schedule.v ===== *)
(** * The worker's one-slot schedule (src/worker/schedule.go)

    The slot holds at most one job and the second at which it is due.  The
    mutex is modelled, because [AddJob] calls [Remove] while it holds it. *)

From S2P Require Import Prelude GoSync.

Section schedule.
Context {J : Type}.

Record schedule := mkSchedule {
  mu : bool;                (* the embedded sync.Mutex is held *)
  job : option J;           (* *mirrorJob, nil in a fresh schedule *)
  nextScheduled : Z;        (* int64, seconds *)
  sched : bool;
}.

#[global] Instance schedule_mutex : HasMutex schedule := {|
  locked := mu;
  set_locked b q := mkSchedule b (job q) (nextScheduled q) (sched q);
  locked_set _ _ := eq_refl;
|}.

Definition newSchedule : schedule := mkSchedule false None 0 false.

Definition set_sched (b : bool) (q : schedule) : schedule :=
  mkSchedule (mu q) (job q) (nextScheduled q) b.

(** [GetJob] reads without the lock. *)
Definition GetJob : blk schedule Z :=
  q ← get; mret (if sched q then nextScheduled q else 0).

Definition Remove : blk schedule unit :=
  with_lock (modify (set_sched false)).

Definition AddJob (schedTime : Z) (j : J) : blk schedule unit :=
  with_lock (
    q ← get;
    (if sched q then Remove else mret tt) ≫= fun _ =>
    modify (fun q => mkSchedule (mu q) (Some j) schedTime true)).

(** [now] is [time.Now()] in nanoseconds; the slot holds whole seconds. *)
Definition Pop (now : Z) : blk schedule (option J) :=
  with_lock (
    q ← get;
    if negb (sched q) then mret None
    else if nextScheduled q * 1000000000 <? now then
      modify (set_sched false) ≫= fun _ => mret (job q)
    else mret None).

#[local] Arguments AddJob : simpl never.
#[local] Arguments Remove : simpl never.
#[local] Arguments Pop : simpl never.

(** ** Behaviour of each operation *)

Lemma Remove_free q :
  mu q = false -> Remove q = (set_sched false q, Some tt).
Proof.
  intros H. unfold Remove. erewrite with_lock_free; [|done|reflexivity].
  unfold set_sched. simpl. by rewrite H.
Qed.

Lemma AddJob_free t j q :
  mu q = false -> sched q = false ->
  AddJob t j q = (mkSchedule false (Some j) t true, Some tt).
Proof.
  intros Hm Hs. unfold AddJob.
  rewrite (with_lock_free _ q (mkSchedule true (Some j) t true) tt); [done|done|].
  unfold mbind, blk_bind, get. simpl. by rewrite Hs.
Qed.

Lemma AddJob_self_deadlock t j q :
  mu q = false -> sched q = true ->
  AddJob t j q = (set_locked true q, None).
Proof.
  intros Hm Hs. unfold AddJob. apply with_lock_stuck; [done|].
  rewrite (blk_bind_step get _ _ (set_locked true q) (set_locked true q)) by done.
  apply blk_bind_block. change (sched (set_locked true q)) with (sched q).
  rewrite Hs. by apply with_lock_held.
Qed.

Lemma Pop_free now q :
  mu q = false ->
  Pop now q =
    if sched q && (nextScheduled q * 1000000000 <? now)
    then (set_sched false q, Some (job q)) else (q, Some None).
Proof.
  intros Hm. destruct q as [m j n s]; simpl in *; subst. unfold Pop, with_lock.
  unfold mbind, blk_bind, get, Lock. simpl.
  destruct s; simpl; [|done]. by destruct (n * 1000000000 <? now).
Qed.

Lemma blocked_for_ever q :
  mu q = true ->
  (forall t j, AddJob t j q = (q, None)) /\ Remove q = (q, None)
  /\ (forall now, Pop now q = (q, None)).
Proof.
  intros H. unfold AddJob, Remove, Pop. repeat split; intros; by apply with_lock_held.
Qed.

(** ** The contract: a cell that is empty, full, or wedged *)

(** [Wedged t]: some goroutine holds the lock for ever; [GetJob], which does not
    lock, still reads [t]. *)
Inductive cell := Empty | Full (t : Z) (j : J) | Wedged (t : Z).

Inductive op := OAdd (t : Z) (j : J) | OPop (now : Z) | ORemove | OGet.
Inductive result := RUnit | RTime (t : Z) | RJob (j : option J) | RBlocked.

Definition spec_step (o : op) (c : cell) : cell * result :=
  match o, c with
  | OAdd t j, Empty => (Full t j, RUnit)
  | OAdd _ _, (Full t _ | Wedged t) => (Wedged t, RBlocked)
  | OPop now, Full t j =>
      if t * 1000000000 <? now then (Empty, RJob (Some j)) else (c, RJob None)
  | OPop _, Empty => (c, RJob None)
  | ORemove, (Empty | Full _ _) => (Empty, RUnit)
  | (OPop _ | ORemove), Wedged _ => (c, RBlocked)
  | OGet, (Full t _ | Wedged t) => (c, RTime t)
  | OGet, Empty => (c, RTime 0)
  end.

(** The concrete step; a blocked call leaves the state it blocked in. *)
Definition step (o : op) (q : schedule) : schedule * result :=
  let wrap {A} (f : A -> result) (r : schedule * option A) :=
    (r.1, match r.2 with Some a => f a | None => RBlocked end) in
  match o with
  | OAdd t j => wrap (fun _ => RUnit) (AddJob t j q)
  | OPop now => wrap RJob (Pop now q)
  | ORemove => wrap (fun _ => RUnit) (Remove q)
  | OGet => wrap RTime (GetJob q)
  end.

(** Abstraction function. *)
Definition view (q : schedule) : cell :=
  let t := if sched q then nextScheduled q else 0 in
  if mu q then Wedged t
  else if sched q then match job q with Some j => Full t j | None => Wedged t end
  else Empty.

(** A schedule that is full holds a job. *)
Definition wf (q : schedule) : Prop := sched q = true -> job q <> None.

Lemma wf_new : wf newSchedule.
Proof. done. Qed.

Lemma step_wf o q : wf q -> wf (step o q).1.
Proof.
  intros Hwf. destruct (mu q) eqn:Hm.
  - destruct (blocked_for_ever q Hm) as (HA & HR & HP).
    destruct o; simpl; rewrite ?HA, ?HR, ?HP; done.
  - destruct o as [t j|now| |]; simpl.
    + destruct (sched q) eqn:Hs; [rewrite AddJob_self_deadlock by done|by rewrite AddJob_free].
      intros _. by apply Hwf.
    + rewrite Pop_free by done. by destruct (sched q && _).
    + by rewrite Remove_free.
    + done.
Qed.

Lemma step_refines o q :
  wf q ->
  view (step o q).1 = (spec_step o (view q)).1
  /\ (step o q).2 = (spec_step o (view q)).2.
Proof.
  intros Hwf. destruct (mu q) eqn:Hm.
  - destruct (blocked_for_ever q Hm) as (HA & HR & HP).
    unfold view. rewrite Hm. destruct o; unfold step;
      rewrite ?HA, ?HR, ?HP; simpl; by rewrite Hm.
  - destruct (sched q) eqn:Hs.
    + destruct (job q) as [j'|] eqn:Hj; [|by destruct (Hwf Hs)].
      unfold view at 2 3. rewrite Hm, Hs, Hj.
      destruct o as [t j|now| |]; unfold step.
      * rewrite AddJob_self_deadlock by done. unfold view; simpl. by rewrite Hs.
      * rewrite Pop_free, Hs by done. simpl. destruct (_ <? _); unfold view; simpl.
        -- by rewrite Hm, Hj.
        -- by rewrite Hm, Hs, Hj.
      * rewrite Remove_free by done. unfold view; simpl. by rewrite Hm.
      * unfold view; simpl. by rewrite Hm, Hs, Hj.
    + unfold view at 2 3. rewrite Hm, Hs.
      destruct o as [t j|now| |]; unfold step.
      * by rewrite AddJob_free.
      * rewrite Pop_free, Hs by done. unfold view; simpl. by rewrite Hm, Hs.
      * rewrite Remove_free by done. unfold view; simpl. by rewrite Hm.
      * unfold view; simpl. by rewrite Hm, Hs.
Qed.

(** ** Runs of operations *)
Fixpoint run (os : list op) (q : schedule) : schedule * list result :=
  match os with
  | [] => (q, [])
  | o :: os => let '(q', r) := step o q in
               let '(q'', rs) := run os q' in (q'', r :: rs)
  end.

Definition is_pop (r : result) : nat := match r with RJob (Some _) => 1 | _ => 0 end.
Definition is_add (o : op) : nat := match o with OAdd _ _ => 1 | _ => 0 end.
Definition occupied (q : schedule) : nat := if sched q then 1 else 0.

Lemma step_pop_add o q :
  (is_pop (step o q).2 + occupied (step o q).1 <= is_add o + occupied q)%nat.
Proof.
  destruct (mu q) eqn:Hm.
  - destruct (blocked_for_ever q Hm) as (HA & HR & HP).
    destruct o; simpl; rewrite ?HA, ?HR, ?HP; simpl; lia.
  - unfold occupied. destruct o as [t j|now| |]; unfold step.
    + destruct (sched q) eqn:Hs; [rewrite AddJob_self_deadlock by done|rewrite AddJob_free by done];
        simpl; rewrite ?Hs; lia.
    + rewrite Pop_free by done. destruct (sched q) eqn:Hs; simpl; [|rewrite Hs; lia].
      destruct (_ <? _); simpl; [destruct (job q)|rewrite Hs]; simpl; lia.
    + rewrite Remove_free by done. simpl. lia.
    + simpl. lia.
Qed.

Lemma run_pops_le_adds os q :
  (sum_list (map is_pop (run os q).2) + occupied (run os q).1
   <= sum_list (map is_add os) + occupied q)%nat.
Proof.
  revert q; induction os as [|o os IH]; intros q; simpl; [lia|].
  pose proof (step_pop_add o q) as H1. destruct (step o q) as [q' r] eqn:E.
  specialize (IH q'). destruct (run os q') as [q'' rs] eqn:E2. simpl in *. lia.
Qed.

Fixpoint spec_run (os : list op) (c : cell) : cell * list result :=
  match os with
  | [] => (c, [])
  | o :: os => let '(c', r) := spec_step o c in
               let '(c'', rs) := spec_run os c' in (c'', r :: rs)
  end.

Lemma run_refines os q :
  wf q -> view (run os q).1 = (spec_run os (view q)).1
    /\ (run os q).2 = (spec_run os (view q)).2.
Proof.
  revert q; induction os as [|o os IH]; intros q Hwf; simpl; [done|].
  pose proof (step_refines o q Hwf) as [Hv Hr]. pose proof (step_wf o q Hwf) as Hwf'.
  destruct (step o q) as [q' r], (spec_step o (view q)) as [c' r']; simpl in *; subst.
  specialize (IH q' Hwf'). destruct (run os q') as [q'' rs], (spec_run os (view q')) as [c'' rs'].
  simpl in *. destruct IH as [-> ->]. done.
Qed.

End schedule.
Arguments schedule J : clear implicits.

(** ** Properties *)

(** C8: Whatever sequence of AddJob, Pop, Remove and GetJob calls the worker makes
    on a fresh schedule, their results are those of a one-slot cell that is
    empty, full, or, after AddJob on a full slot, wedged for ever. *)
Theorem schedule_refines_cell {J : Type} (os : list (@op J)) :
  (run os newSchedule).2 = (spec_run os Empty).2
  /\ view (run os newSchedule).1 = (spec_run os Empty).1.
Proof. destruct (run_refines os newSchedule wf_new) as [Hv Hr]. done. Qed.

(** AddJob on a schedule that already holds a job blocks its caller for ever,
    because it calls Remove while holding the mutex Remove takes; from then on
    every AddJob, Pop and Remove of any goroutine blocks too. *)
Theorem AddJob_on_full_slot_deadlocks {J : Type} (t : Z) (j : J) (q : schedule J) :
  mu q = false -> sched q = true ->
  (AddJob t j q).2 = None /\
  let q' := (AddJob t j q).1 in
  (forall t' j', (AddJob t' j' q').2 = None) /\ (Remove q').2 = None
  /\ forall now, (Pop now q').2 = None.
Proof.
  intros Hm Hs. rewrite AddJob_self_deadlock by done. split; [done|].
  cbn [fst]. cbv zeta.
  assert (Hl : mu (set_locked true q) = true) by reflexivity.
  destruct (blocked_for_ever _ Hl) as (HA & HR & HP).
  split; [intros; by rewrite HA|]. split; [by rewrite HR|]. intros now; by rewrite HP.
Qed.

Lemma AddJob_on_full_slot_deadlocks_witness :
  let q := (AddJob 100 tt newSchedule).1 in
  (AddJob 200 tt q).2 = None /\ (Pop 999000000000000 (AddJob 200 tt q).1).2 = None.
Proof.
  destruct (AddJob_on_full_slot_deadlocks 200 tt (AddJob 100 tt newSchedule).1
    ltac:(reflexivity) ltac:(reflexivity)) as (H1 & _ & _ & H3).
  split; [exact H1|apply H3].
Defined.

(** A job is popped at most once per AddJob: in every sequence of calls on a
    fresh schedule the successful Pops are no more than the AddJobs. *)
Theorem pops_never_exceed_adds {J : Type} (os : list (@op J)) :
  (sum_list (map is_pop (run os newSchedule).2) <= sum_list (map is_add os))%nat.
Proof. pose proof (run_pops_le_adds os newSchedule) as Hle. unfold occupied in Hle. simpl in Hle. lia. Qed.
