(* ===== verification/Wrapper.v ===== *)
(** * One synchronisation run (runJobWrapper of src/worker/job.go)

    A run is a program over the effects it has on the rest of the worker: sends
    on [managerChan], hook calls, starting, awaiting and terminating the
    provider, reads of the job's state.  The environment answers every effect;
    [wprog] is the tree of all answers, so a statement about the tree is about
    every behaviour of hooks, provider, timer and manager. *)

From S2P Require Import Prelude GoLib Types.

(** ** Data *)
Inductive ctrlAction :=
  | jobStart | jobStop | jobDisable | jobRestart | jobPing | jobHalt | jobForceStart.

#[export] Instance ctrlAction_eq_dec : EqDecision ctrlAction.
Proof. solve_decision. Defined.

Record jobMessage := mkMsg { jm_status : SyncStatus; jm_msg : string; jm_schedule : bool }.

(** The job state is a [uint32]. *)
Definition stateNone : Z := 0.
Definition stateReady : Z := 1.
Definition statePaused : Z := 2.
Definition stateDisabled : Z := 3.
Definition stateHalting : Z := 4.

(** Hook phases, one per method of the [jobHook] interface. *)
Inductive phase := PreJob | PreExec | PostExec | PostSuccess | PostFail.

Definition hookname (p : phase) : string :=
  match p with
  | PreJob => "pre-job" | PreExec => "pre-exec" | PostExec => "post-exec"
  | PostSuccess => "post-success" | PostFail => "post-fail"
  end.

(** How the provider's start is noticed: a token on [started], or its result on
    [syncDone] ([None] is a nil error). *)
Inductive start := Started | DoneFirst (err : option string).

(** The three branches of the select that waits for the provider. *)
Inductive wait := WaitDone (err : option string) | WaitTimeout | WaitKilled.

Section wrapper.
Context {H : Type}.

Inductive wprog :=
  | WRet (err : option string)                 (* return; close(jobDone) is deferred *)
  | WPanic (m : string)
  | WSend (m : jobMessage) (k : wprog)         (* managerChan <- m *)
  | WHook (h : H) (p : phase) (k : option string -> wprog)
  | WStart (k : start -> wprog)                (* go provider.Run; first select *)
  | WWait (pending : option (option string)) (k : wait -> wprog)  (* second select *)
  | WTerminate (k : option string -> wprog)    (* provider.Terminate() *)
  | WState (k : Z -> wprog)                    (* m.State() *)
  | WSetSize (k : wprog).                      (* m.size = provider.DataSize() *)

Context (Hooks : list H) (Retry : Z) (mname timeout_text : string).

(** Run a hook list in order; the first error is reported with schedule set and
    ends the run. *)
Fixpoint runHooks (hs : list H) (p : phase) (k : wprog) : wprog :=
  match hs with
  | [] => k
  | h :: hs =>
      WHook h p (fun e =>
        match e with
        | None => runHooks hs p k
        | Some err =>
            WSend (mkMsg Failed ("error exec hook " +:+ hookname p +:+ ": " +:+ err) true)
              (WRet (Some err))
        end)
  end.

Definition rHooks : list H := rev Hooks.

(** What is left of an attempt once the provider has stopped with [syncErr];
    [next] is the next turn of the retry loop. *)
Definition after_sync (retry : Z) (syncErr : option string) (stopASAP : bool)
    (next : wprog) : wprog :=
  runHooks rHooks PostExec (
    runHooks rHooks (match syncErr with None => PostSuccess | Some _ => PostFail end) (
      match syncErr with
      | None =>
          WSetSize (WState (fun s =>
            WSend (mkMsg Success "" (s =? stateReady)) (WRet None)))
      | Some e =>
          let report sched := WSend (mkMsg Failed e sched) (if stopASAP then WRet None else next) in
          if retry =? Retry - 1 then WState (fun s => report (s =? stateReady))
          else report false
      end)).

(** [if termErr != nil { return termErr }] *)
Definition after_term (retry : Z) (syncErr : string) (stopASAP : bool) (next : wprog) : wprog :=
  WTerminate (fun termErr =>
    match termErr with
    | Some e => WRet (Some e)
    | None => after_sync retry (Some syncErr) stopASAP next
    end).

(** The select that waits for the provider's result, the timer or the kill. *)
Definition await (retry : Z) (next : wprog) (pending : option (option string)) : wprog :=
  WWait pending (fun w =>
    match w with
    | WaitDone err => after_sync retry err false next
    | WaitTimeout => after_term retry (mname +:+ " timeout after " +:+ timeout_text) false next
    | WaitKilled => after_term retry "killed by manager" true next
    end).

(** One turn of [for retry := 0; retry < provider.Retry(); retry++]. *)
Definition attempt (retry : Z) (next : wprog) : wprog :=
  runHooks Hooks PreExec (
    WSend (mkMsg Syncing "" false) (
      WStart (fun st =>
        match st with
        | Started => await retry next None
        | DoneFirst None => WPanic "nil pointer dereference"  (* err.Error() of a nil error *)
        | DoneFirst (Some e) => await retry next (Some (Some e))  (* put back on syncDone *)
        end))).

(** [n] turns are left, the next one is number [retry]. *)
Fixpoint attempts (n : nat) (retry : Z) : wprog :=
  match n with
  | O => WRet None
  | S n => attempt retry (attempts n (retry + 1))
  end.

Definition runJobWrapper : wprog :=
  WSend (mkMsg PreSyncing "" false) (
    runHooks Hooks PreJob (attempts (Z.to_nat Retry) 0)).

(** ** Executing a run against an environment *)
Record oracle := mkOracle {
  o_hook : nat -> option string;
  o_start : nat -> start;
  o_wait : nat -> wait;
  o_term : nat -> option string;
  o_state : nat -> Z;
}.

Inductive event :=
  | ESend (m : jobMessage)
  | EHook (h : H) (p : phase) (e : option string)
  | EStart (s : start)
  | EWait (w : wait)
  | ETerminate (e : option string)
  | EState (s : Z)
  | ESetSize.

Inductive ending := Returned (err : option string) | Crashed (m : string).

(** A result already on [syncDone] is the one the second select receives. *)
Definition settle (pending : option (option string)) (w : wait) : wait :=
  match w, pending with
  | WaitDone _, Some e => WaitDone e
  | _, _ => w
  end.

Fixpoint exec (o : oracle) (n : nat) (p : wprog) : list event * ending :=
  let cons e r := (e :: r.1, r.2) in
  match p with
  | WRet e => ([], Returned e)
  | WPanic m => ([], Crashed m)
  | WSend m k => cons (ESend m) (exec o (S n) k)
  | WHook h ph k => let e := o_hook o n in cons (EHook h ph e) (exec o (S n) (k e))
  | WStart k => let s := o_start o n in cons (EStart s) (exec o (S n) (k s))
  | WWait pd k => let w := settle pd (o_wait o n) in cons (EWait w) (exec o (S n) (k w))
  | WTerminate k => let e := o_term o n in cons (ETerminate e) (exec o (S n) (k e))
  | WState k => let s := o_state o n in cons (EState s) (exec o (S n) (k s))
  | WSetSize k => cons ESetSize (exec o (S n) k)
  end.

(** ** Reasoning about every behaviour at once

    [safe d fin a p]: whatever the environment answers, the messages of [p] drive
    the automaton [d] from [a] without getting stuck and leave it in [fin]. *)
Section safe.
Context {A : Type} (d : A -> jobMessage -> option A) (fin : A -> Prop).

Fixpoint safe (a : A) (p : wprog) : Prop :=
  match p with
  | WRet _ | WPanic _ => fin a
  | WSend m k => match d a m with Some a' => safe a' k | None => False end
  | WHook _ _ k => forall e, safe a (k e)
  | WStart k => forall s, safe a (k s)
  | WWait pd k => forall w, safe a (k (settle pd w))
  | WTerminate k => forall e, safe a (k e)
  | WState k => forall s, safe a (k s)
  | WSetSize k => safe a k
  end.

Fixpoint accepts (a : A) (ms : list jobMessage) : option A :=
  match ms with
  | [] => Some a
  | m :: ms => match d a m with Some a' => accepts a' ms | None => None end
  end.

Definition messages (tr : list event) : list jobMessage :=
  omap (fun e => match e with ESend m => Some m | _ => None end) tr.

Lemma safe_exec o n p a :
  safe a p -> exists a', accepts a (messages (exec o n p).1) = Some a' /\ fin a'.
Proof.
  revert n a; induction p as [e|m|m k IH|h ph k IH|k IH|pd k IH|k IH|k IH|k IH];
    intros n a Hs; simpl in *; eauto.
  - destruct (d a m) as [a'|]; [eauto|done].
Qed.

(** A hook list is safe where the failure report is. *)
Lemma safe_runHooks hs ph k a afail :
  (forall err, d a (mkMsg Failed ("error exec hook " +:+ hookname ph +:+ ": " +:+ err) true)
     = Some afail) ->
  fin afail -> safe a k -> safe a (runHooks hs ph k).
Proof.
  intros Hd Hf Hk. induction hs as [|h hs IH]; [done|].
  intros [err|]; [|done]. cbn [safe]. by rewrite Hd.
Qed.
End safe.

(** ** The status protocol of one run *)
Inductive protocol := PInit | PArmed (left : nat) | PBusy (left : nat) | PDone.

Definition is_status (s : SyncStatus) (m : jobMessage) : bool := String.eqb (jm_status m) s.

(** [PreSyncing] opens; each attempt is [Syncing] and then [Failed] or
    [Success]; a message that asks for rescheduling, and [Success], close. *)
Definition proto (attempts : nat) (p : protocol) (m : jobMessage) : option protocol :=
  match p with
  | PInit => if is_status PreSyncing m && negb (jm_schedule m) then Some (PArmed attempts) else None
  | PArmed n =>
      if is_status Syncing m && negb (jm_schedule m) then
        match n with S n => Some (PBusy n) | O => None end
      else if is_status Failed m && jm_schedule m then Some PDone else None
  | PBusy n =>
      if is_status Success m then Some PDone
      else if is_status Failed m then
        if jm_schedule m then Some PDone else Some (PArmed n)
      else None
  | PDone => None
  end.

Definition any (p : protocol) : Prop := True.

Lemma proto_hook_fail N n ph err :
  (forall p, p = PArmed n \/ p = PBusy n ->
  proto N p (mkMsg Failed ("error exec hook " +:+ hookname ph +:+ ": " +:+ err) true) = Some PDone).
Proof. by intros p [-> | ->]. Qed.

Lemma safe_after_sync N n retry syncErr stop next :
  (retry = Retry - 1 -> safe (proto N) any PDone next) ->
  safe (proto N) any (PArmed n) next ->
  safe (proto N) any (PBusy n) (after_sync retry syncErr stop next).
Proof.
  intros Hlast Hnext. unfold after_sync.
  apply safe_runHooks with (afail := PDone);
    [intros; apply (proto_hook_fail N n); auto|done|].
  apply safe_runHooks with (afail := PDone);
    [intros; apply (proto_hook_fail N n); auto|done|].
  destruct syncErr as [e|]; [|done].
  destruct (Z.eqb_spec retry (Retry - 1)) as [E|Hne]; simpl.
  - intros s. destruct (s =? stateReady); simpl; destruct stop; simpl; auto; done.
  - by destruct stop.
Qed.

Lemma safe_attempt N n retry next :
  (retry = Retry - 1 -> safe (proto N) any PDone next) ->
  safe (proto N) any (PArmed n) next ->
  safe (proto N) any (PArmed (S n)) (attempt retry next).
Proof.
  intros Hlast Hnext. unfold attempt.
  apply safe_runHooks with (afail := PDone);
    [intros; apply (proto_hook_fail N (S n)); auto|done|]. simpl.
  assert (Haw : forall pd, safe (proto N) any (PBusy n) (await retry next pd)).
  { intros pd w. destruct (settle pd w) as [e| |]; [by apply safe_after_sync|..];
      intros [e|]; simpl; try done; by apply safe_after_sync. }
  intros [|[e|]]; [apply Haw|apply Haw|done].
Qed.

Lemma safe_attempts N n retry :
  retry + Z.of_nat n = Z.max retry Retry ->
  safe (proto N) any (PArmed n) (attempts n retry).
Proof.
  revert retry; induction n as [|n IH]; intros retry E; [done|].
  apply safe_attempt.
  - intros ->. replace n with O by lia. done.
  - apply IH. lia.
Qed.

Lemma runJobWrapper_safe :
  safe (proto (Z.to_nat Retry)) any PInit runJobWrapper.
Proof.
  simpl. apply safe_runHooks with (afail := PDone);
    [intros; apply (proto_hook_fail _ (Z.to_nat Retry)); auto|done|].
  apply safe_attempts. lia.
Qed.

(** What acceptance means, message by message. *)
Lemma proto_schedule_closes N p m p' :
  proto N p m = Some p' -> jm_schedule m = true -> p' = PDone.
Proof.
  destruct m as [st msg sc]; simpl; intros Hp ->.
  destruct p as [|[|n]|n|]; unfold proto, is_status in Hp; simpl in Hp;
    rewrite ?andb_false_r in Hp; repeat case_match; by simplify_eq/=.
Qed.

Lemma accepts_done N ms p : accepts (proto N) PDone ms = Some p -> ms = [].
Proof. by destruct ms. Qed.

Lemma accepts_schedule_last N p ms p' :
  accepts (proto N) p ms = Some p' ->
  all_but_last (fun m => jm_schedule m = false) ms.
Proof.
  revert p; induction ms as [|m ms IH]; intros p Ha; simpl in *; [apply all_but_last_nil|].
  destruct (proto N p m) as [q|] eqn:E; [|done].
  apply all_but_last_cons; [|eauto]. intros Hne.
  destruct (jm_schedule m) eqn:Hs; [|done].
  apply (proto_schedule_closes N p) in E as ->; [|done]. by apply accepts_done in Ha.
Qed.

Definition attempts_left (N : nat) (p : protocol) : nat :=
  match p with PInit => N | PArmed n | PBusy n => n | PDone => 0 end.

Definition count_status (s : SyncStatus) (ms : list jobMessage) : nat :=
  length (List.filter (is_status s) ms).

Lemma proto_left N p m p' :
  proto N p m = Some p' ->
  ((if is_status Syncing m then 1 else 0) + attempts_left N p' <= attempts_left N p)%nat.
Proof.
  destruct m as [st msg sc]. unfold proto, is_status; simpl.
  destruct p as [|n|n|]; intros Hp; repeat case_match; simplify_eq/=; try lia;
    repeat match goal with H : _ && _ = true |- _ => apply andb_true_iff in H as [??] end;
    repeat match goal with H : (_ =? _)%string = true |- _ => apply String.eqb_eq in H; subst end;
    try done; lia.
Qed.

Lemma accepts_attempts N p ms p' :
  accepts (proto N) p ms = Some p' ->
  (count_status Syncing ms <= attempts_left N p)%nat.
Proof.
  revert p; induction ms as [|m ms IH]; intros p Ha; simpl in *; [unfold count_status; simpl; lia|].
  destruct (proto N p m) as [q|] eqn:E; [|done]. apply proto_left in E.
  specialize (IH q Ha). unfold count_status in *. simpl.
  destruct (is_status Syncing m); simpl in *; lia.
Qed.

(** ** A run that is not killed asks for its next schedule

    [must_schedule p]: every behaviour of [p] in which the job stays ready, no
    kill arrives and termination works sends a message with schedule set. *)
Fixpoint must_schedule (p : wprog) : Prop :=
  match p with
  | WRet _ => False
  | WPanic _ => True
  | WSend m k => jm_schedule m = true \/ must_schedule k
  | WHook _ _ k => forall e, must_schedule (k e)
  | WStart k => forall s, must_schedule (k s)
  | WWait pd k => forall w, w <> WaitKilled -> must_schedule (k (settle pd w))
  | WTerminate k => must_schedule (k None)
  | WState k => must_schedule (k stateReady)
  | WSetSize k => must_schedule k
  end.

Lemma must_runHooks hs ph k : must_schedule k -> must_schedule (runHooks hs ph k).
Proof.
  intros Hk. induction hs as [|h hs IH]; [done|].
  intros e. destruct e as [err|]; [by left|done].
Qed.

Lemma must_after_sync retry syncErr next :
  (retry = Retry - 1 \/ must_schedule next) ->
  must_schedule (after_sync retry syncErr false next).
Proof.
  intros Hn. do 2 apply must_runHooks. destruct syncErr as [e|]; [|by left].
  destruct (Z.eqb_spec retry (Retry - 1)); [by left|]. right. by destruct Hn.
Qed.

Lemma must_attempt retry next :
  (retry = Retry - 1 \/ must_schedule next) -> must_schedule (attempt retry next).
Proof.
  intros Hn. apply must_runHooks. right.
  assert (Haw : forall pd, must_schedule (await retry next pd)).
  { intros pd w Hw. destruct w as [e| |]; [|by apply must_after_sync|done].
    destruct pd; by apply must_after_sync. }
  intros st. destruct st as [|[e|]]; [apply Haw..|done].
Qed.

Lemma must_attempts n retry :
  retry + Z.of_nat (S n) = Retry -> must_schedule (attempts (S n) retry).
Proof.
  revert retry; induction n as [|n IH]; intros retry E; apply must_attempt; [left; lia|].
  right. apply IH. lia.
Qed.

Lemma runJobWrapper_must_schedule : 1 <= Retry -> must_schedule runJobWrapper.
Proof.
  intros HR. right. apply must_runHooks.
  destruct (Z.to_nat Retry) as [|n] eqn:E; [lia|]. apply must_attempts. lia.
Qed.

(** An environment that keeps the job ready, sends no kill and terminates. *)
Definition friendly (o : oracle) : Prop :=
  (forall n, o_wait o n <> WaitKilled) /\ (forall n, o_term o n = None)
  /\ (forall n, o_state o n = stateReady).

Lemma must_schedule_exec o n p :
  friendly o -> must_schedule p ->
  (exists m, m ∈ messages (exec o n p).1 /\ jm_schedule m = true)
  \/ exists c, (exec o n p).2 = Crashed c.
Proof.
  intros (Hw & Ht & Hs). revert n.
  induction p as [e|m|m k IH|h ph k IH|k IH|pd k IH|k IH|k IH|k IH];
    intros n Hm; simpl in *; try done; eauto.
  - destruct Hm as [Hm|Hm]; [left; exists m; split; [left|done]|].
    destruct (IH (S n) Hm) as [(m' & Hin & Hsch)|Hc]; [|by right].
    left. exists m'. split; [by right|done].
  - rewrite Ht. eauto.
  - rewrite Hs. eauto.
Qed.

(** ** Hooks are bracketed *)
Definition hook_calls (tr : list event) : list (H * phase) :=
  omap (fun e => match e with EHook h p _ => Some (h, p) | _ => None end) tr.

Definition calls (hs : list H) (p : phase) : list (H * phase) := map (fun h => (h, p)) hs.

(** The hook calls of one finished attempt. *)
Definition bracket (ok : bool) : list (H * phase) :=
  calls Hooks PreExec ++ calls rHooks PostExec
  ++ calls rHooks (if ok then PostSuccess else PostFail).

(** Every hook succeeds and termination works. *)
Definition healthy (o : oracle) : Prop :=
  (forall n, o_hook o n = None) /\ (forall n, o_term o n = None).

Lemma exec_runHooks (o : oracle) (Hok : forall n, o_hook o n = None) hs ph k n :
  exec o n (runHooks hs ph k)
  = (map (fun h => EHook h ph None) hs ++ (exec o (n + length hs) k).1,
     (exec o (n + length hs) k).2).
Proof.
  revert n; induction hs as [|h hs IH]; intros n; simpl.
  - rewrite Nat.add_0_r. by destruct (exec o n k).
  - rewrite Hok, IH. simpl. by rewrite Nat.add_succ_r.
Qed.

Lemma messages_hooks hs ph tr :
  messages (map (fun h => EHook h ph None) hs ++ tr) = messages tr.
Proof. by induction hs. Qed.

Section healthy.
Context (o : oracle) (Ho : healthy o).

Lemma hook_calls_app t1 t2 : hook_calls (t1 ++ t2) = hook_calls t1 ++ hook_calls t2.
Proof. apply omap_app. Qed.

Lemma hook_calls_map hs ph :
  hook_calls (map (fun h => EHook h ph None) hs) = calls hs ph.
Proof. induction hs as [|h hs IH]; simpl; [done|]. by f_equal. Qed.

(** The calls after the provider stopped, then those of what runs next. *)
Lemma exec_after_sync n retry syncErr (stop : bool) next :
  exists m : nat,
    let rest : list event * ending :=
      match syncErr with
      | None => ([], Returned None)
      | Some _ => if stop then ([], Returned None) else exec o m next
      end in
    hook_calls (exec o n (after_sync retry syncErr stop next)).1
    = calls rHooks PostExec
      ++ calls rHooks (match syncErr with None => PostSuccess | Some _ => PostFail end)
      ++ hook_calls rest.1
    /\ (exec o n (after_sync retry syncErr stop next)).2 = rest.2.
Proof.
  unfold after_sync. rewrite !(exec_runHooks o (proj1 Ho)). cbn [fst snd].
  set (q := (n + length rHooks + length rHooks)%nat).
  destruct syncErr as [e|].
  - set (m := (if retry =? Retry - 1 then S (S q) else S q)). exists m.
    rewrite !hook_calls_app, !hook_calls_map. subst m.
    destruct (retry =? Retry - 1), stop; simpl; by rewrite ?app_nil_r.
  - exists 0%nat. rewrite !hook_calls_app, !hook_calls_map. done.
Qed.

Lemma exec_attempt n retry next :
  (exists e, (exec o n (attempt retry next)).2 = Returned e) ->
  exists (ok : bool) (m : nat),
    (hook_calls (exec o n (attempt retry next)).1 = bracket ok)
    \/ (ok = false
       /\ hook_calls (exec o n (attempt retry next)).1 = bracket ok ++ hook_calls (exec o m next).1
       /\ (exec o n (attempt retry next)).2 = (exec o m next).2).
Proof.
  unfold attempt. rewrite (exec_runHooks o (proj1 Ho)). cbn [fst snd]. rewrite hook_calls_app, hook_calls_map.
  set (q := (n + length Hooks)%nat).
  assert (Haw : forall pd m0, exists (ok : bool) (m : nat),
    hook_calls (exec o m0 (await retry next pd)).1
      = calls rHooks PostExec ++ calls rHooks (if ok then PostSuccess else PostFail)
    \/ (ok = false
       /\ hook_calls (exec o m0 (await retry next pd)).1
        = (calls rHooks PostExec ++ calls rHooks (if ok then PostSuccess else PostFail))
          ++ hook_calls (exec o m next).1
       /\ (exec o m0 (await retry next pd)).2 = (exec o m next).2)).
  { intros pd m0. simpl. destruct (settle pd (o_wait o m0)) as [[e|]| |]; simpl;
      rewrite ?(proj2 Ho); simpl.
    - destruct (exec_after_sync (S m0) retry (Some e) false next) as (m & -> & ->).
      exists false, m. right. by rewrite <-!app_assoc.
    - destruct (exec_after_sync (S m0) retry None false next) as (m & -> & ->).
      exists true, m. left. simpl. by rewrite !app_nil_r.
    - edestruct (exec_after_sync (S (S m0)) retry) as (m & -> & ->).
      exists false, m. right. by rewrite <-!app_assoc.
    - edestruct (exec_after_sync (S (S m0)) retry) as (m & -> & ->).
      exists false, m. left. simpl. by rewrite !app_nil_r. }
  unfold bracket. cbn [exec fst snd]. intros [e He]. cbn [exec fst snd hook_calls].
  destruct (o_start o (S q)) as [|[e'|]] eqn:Es; [| |done].
  - destruct (Haw None (S (S q))) as (ok & m & Hc). exists ok, m. simpl in Hc |- *.
    destruct Hc as [->|(-> & -> & ->)]; [by left|right]. by rewrite <-!app_assoc.
  - destruct (Haw (Some (Some e')) (S (S q))) as (ok & m & Hc). exists ok, m. simpl in Hc |- *.
    destruct Hc as [->|(-> & -> & ->)]; [by left|right]. by rewrite <-!app_assoc.
Qed.

Lemma exec_attempts k n retry :
  (exists e, (exec o n (attempts k retry)).2 = Returned e) ->
  exists outs, hook_calls (exec o n (attempts k retry)).1 = concat (map bracket outs)
    /\ (length outs <= k)%nat /\ all_but_last (fun ok => ok = false) outs.
Proof.
  revert n retry; induction k as [|k IH]; intros n retry He.
  - exists []. split; [done|]. split; [simpl; lia|apply all_but_last_nil].
  - cbn [attempts] in *. destruct (exec_attempt n retry _ He) as (ok & m & [->|(-> & -> & Hr)]).
    + exists [ok]. simpl. rewrite app_nil_r. split; [done|]. split; [lia|].
      apply all_but_last_cons; [done|apply all_but_last_nil].
    + rewrite Hr in He. destruct (IH m (retry + 1) He) as (outs & -> & Hl & Hal).
      exists (false :: outs). simpl. split; [done|]. split; [lia|].
      by apply all_but_last_cons.
Qed.
End healthy.

(** ** A killed run starts nothing more *)
Fixpoint no_start (p : wprog) : Prop :=
  match p with
  | WRet _ | WPanic _ => True
  | WSend _ k | WSetSize k => no_start k
  | WHook _ _ k => forall e, no_start (k e)
  | WStart _ => False
  | WWait pd k => forall w, no_start (k (settle pd w))
  | WTerminate k => forall e, no_start (k e)
  | WState k => forall s, no_start (k s)
  end.

Fixpoint kill_stops (p : wprog) : Prop :=
  match p with
  | WRet _ | WPanic _ => True
  | WSend _ k | WSetSize k => kill_stops k
  | WHook _ _ k => forall e, kill_stops (k e)
  | WStart k => forall s, kill_stops (k s)
  | WWait pd k => no_start (k WaitKilled) /\ forall w, kill_stops (k (settle pd w))
  | WTerminate k => forall e, kill_stops (k e)
  | WState k => forall s, kill_stops (k s)
  end.

Lemma no_start_runHooks hs ph k : no_start k -> no_start (runHooks hs ph k).
Proof.
  intros Hk. induction hs as [|h hs IH]; [done|]. intros e. by destruct e.
Qed.

Lemma kill_stops_runHooks hs ph k : kill_stops k -> kill_stops (runHooks hs ph k).
Proof.
  intros Hk. induction hs as [|h hs IH]; [done|]. intros e. by destruct e.
Qed.

Lemma kill_stops_after_sync retry e stop next :
  kill_stops next -> kill_stops (after_sync retry e stop next).
Proof.
  intros Hn. do 2 apply kill_stops_runHooks. destruct e as [e|]; simpl; [|done].
  destruct (retry =? Retry - 1), stop; simpl; auto.
Qed.

Lemma no_start_killed retry e next : no_start (after_term retry e true next).
Proof.
  intros [err|]; [done|]. do 2 apply no_start_runHooks. simpl.
  by destruct (retry =? Retry - 1).
Qed.

Lemma kill_stops_attempts n retry : kill_stops (attempts n retry).
Proof.
  revert retry; induction n as [|n IH]; intros retry; [done|].
  apply kill_stops_runHooks. simpl.
  assert (Haw : forall pd, kill_stops (await retry (attempts n (retry + 1)) pd)).
  { intros pd. split; [apply no_start_killed|]. intros w.
    destruct (settle pd w) as [e| |]; [by apply kill_stops_after_sync|..];
      intros [err|]; simpl; try done; by apply kill_stops_after_sync. }
  intros [|[e|]]; [apply Haw..|done].
Qed.

Lemma runJobWrapper_kill_stops : kill_stops runJobWrapper.
Proof. apply kill_stops_runHooks, kill_stops_attempts. Qed.

Definition starts (tr : list event) : nat :=
  length (List.filter (fun e => match e with EStart _ => true | _ => false end) tr).

Lemma no_start_exec o n p : no_start p -> starts (exec o n p).1 = O.
Proof.
  revert n; induction p as [e|m|m k IH|h ph k IH|k IH|pd k IH|k IH|k IH|k IH];
    intros n Hp; unfold starts in *; simpl in *; auto; done.
Qed.

Lemma kill_stops_exec o n p tr1 tr2 :
  kill_stops p -> (exec o n p).1 = tr1 ++ EWait WaitKilled :: tr2 -> starts tr2 = O.
Proof.
  revert n tr1; induction p as [e|m|m k IH|h ph k IH|k IH|pd k IH|k IH|k IH|k IH];
    intros n tr1 Hp E; simpl in *; try (by destruct tr1);
    try (destruct tr1 as [|ev tr1]; simplify_eq/=; by eauto).
  destruct Hp as [Hns Hks]. destruct tr1 as [|ev tr1]; simplify_eq/=; [|by eauto].
  rewrite H0. apply no_start_exec. congruence.
Qed.

(** ** The only crash: the provider's success overtakes its start signal *)
Fixpoint panic_free (p : wprog) : Prop :=
  match p with
  | WRet _ => True
  | WPanic _ => False
  | WSend _ k | WSetSize k => panic_free k
  | WHook _ _ k => forall e, panic_free (k e)
  | WStart k => forall s, s <> DoneFirst None -> panic_free (k s)
  | WWait pd k => forall w, panic_free (k (settle pd w))
  | WTerminate k => forall e, panic_free (k e)
  | WState k => forall s, panic_free (k s)
  end.

Lemma panic_free_runHooks hs ph k : panic_free k -> panic_free (runHooks hs ph k).
Proof.
  intros Hk. induction hs as [|h hs IH]; [done|]. intros e. by destruct e.
Qed.

Lemma panic_free_after_sync retry e stop next :
  panic_free next -> panic_free (after_sync retry e stop next).
Proof.
  intros Hn. do 2 apply panic_free_runHooks. destruct e as [e|]; simpl; [|done].
  destruct (retry =? Retry - 1), stop; simpl; auto.
Qed.

Lemma panic_free_attempts n retry : panic_free (attempts n retry).
Proof.
  revert retry; induction n as [|n IH]; intros retry; [done|].
  apply panic_free_runHooks. simpl.
  assert (Haw : forall pd, panic_free (await retry (attempts n (retry + 1)) pd)).
  { intros pd w. destruct (settle pd w) as [e| |]; [by apply panic_free_after_sync|..];
      intros [err|]; simpl; try done; by apply panic_free_after_sync. }
  intros [|[e|]] Hne; [apply Haw..|done].
Qed.

Lemma runJobWrapper_panic_free : panic_free runJobWrapper.
Proof. apply panic_free_runHooks, panic_free_attempts. Qed.

Lemma panic_free_exec o n p c :
  panic_free p -> (exec o n p).2 = Crashed c -> EStart (DoneFirst None) ∈ (exec o n p).1.
Proof.
  revert n; induction p as [e|m|m k IH|h ph k IH|k IH|pd k IH|k IH|k IH|k IH];
    intros n Hp Hc; simpl in *; try done; try (right; by eauto).
  destruct (o_start o n) as [|[e|]] eqn:E; [right; eapply IH; eauto; by apply Hp..|left].
Qed.

End wrapper.
Arguments wprog H : clear implicits.
Arguments event H : clear implicits.

(** ** Properties *)

(** C4: in every behaviour of hooks, provider, timer and commands, the messages of
    one run follow the status protocol: it opens with pre-syncing, enters syncing
    at most Retry times, and a message that asks for rescheduling is the last. *)
Theorem run_message_protocol {H : Type} (Hooks : list H) (Retry : Z) (name tmo : string)
    (o : oracle) :
  let ms := messages (exec o 0 (runJobWrapper Hooks Retry name tmo)).1 in
  (exists p, accepts (proto (Z.to_nat Retry)) PInit ms = Some p)
  /\ head ms = Some (mkMsg PreSyncing "" false)
  /\ (count_status Syncing ms <= Z.to_nat Retry)%nat
  /\ all_but_last (fun m => jm_schedule m = false) ms.
Proof.
  cbv zeta. destruct (safe_exec (proto (Z.to_nat Retry)) any o 0
    (runJobWrapper Hooks Retry name tmo) PInit) as (p & Ha & _).
  { apply runJobWrapper_safe. }
  split; [eauto|]. split; [done|]. split.
  - by apply accepts_attempts in Ha.
  - by eapply accepts_schedule_last.
Qed.

(** C5: a run of a ready job with at least one attempt, which is not killed and whose
    provider can be terminated, sends a message that asks for the next schedule,
    whatever hooks, provider and timer do, or it crashes the process. *)
Theorem run_asks_for_next_schedule {H : Type} (Hooks : list H) (Retry : Z)
    (name tmo : string) (o : oracle) :
  1 <= Retry -> friendly o ->
  (exists m, m ∈ messages (exec o 0 (runJobWrapper Hooks Retry name tmo)).1
     /\ jm_schedule m = true)
  \/ exists c, (exec o 0 (runJobWrapper Hooks Retry name tmo)).2 = Crashed c.
Proof.
  intros HR Ho. apply must_schedule_exec; [done|]. by apply runJobWrapper_must_schedule.
Qed.

(** An environment in which every attempt fails. *)
Definition failing_sync : oracle :=
  mkOracle (fun _ => None) (fun _ => Started) (fun _ => WaitDone (Some "exit status 23"))
    (fun _ => None) (fun _ => stateReady).

Lemma run_asks_for_next_schedule_witness :
  let r := exec failing_sync 0 (runJobWrapper [0; 1] 2 "debian" "1h0m0s") in
  (exists m, m ∈ messages r.1 /\ jm_schedule m = true) \/ exists c, r.2 = Crashed c.
Proof.
  apply (run_asks_for_next_schedule [0; 1] 2 "debian" "1h0m0s" failing_sync); [lia|].
  split; [done|]. split; done.
Defined.

(** When hooks and termination succeed and the run returns, hook calls are
    bracketed: pre-job in order, then for each of at most Retry attempts pre-exec
    in order, post-exec in reverse and post-success or post-fail in reverse; only
    the last attempt can be the successful one. *)
Theorem run_hooks_bracketed {H : Type} (Hooks : list H) (Retry : Z) (name tmo : string)
    (o : oracle) (e : option string) :
  healthy o -> (exec o 0 (runJobWrapper Hooks Retry name tmo)).2 = Returned e ->
  exists outs : list bool,
    hook_calls (exec o 0 (runJobWrapper Hooks Retry name tmo)).1
      = calls Hooks PreJob ++ concat (map (bracket Hooks) outs)
    /\ (length outs <= Z.to_nat Retry)%nat /\ all_but_last (fun ok => ok = false) outs.
Proof.
  intros Ho He. unfold runJobWrapper in *. cbn [exec fst snd] in *.
  rewrite (exec_runHooks o (proj1 Ho)) in He |- *. cbn [fst snd] in *.
  destruct (exec_attempts Hooks Retry name tmo o Ho (Z.to_nat Retry) (1 + length Hooks) 0)
    as (outs & Hc & Hl & Ha); [eauto|].
  exists outs. split; [|done].
  change (hook_calls (ESend (mkMsg PreSyncing "" false) :: ?t)) with (hook_calls t).
  rewrite <-Hc. cbn [hook_calls omap list_omap].
  fold (hook_calls (H:=H)). rewrite <-(hook_calls_map Hooks PreJob). apply hook_calls_app.
Qed.

Lemma run_hooks_bracketed_witness :
  exists outs : list bool,
    hook_calls (exec failing_sync 0 (runJobWrapper [0; 1] 2 "debian" "1h0m0s")).1
      = calls [0; 1] PreJob ++ concat (map (bracket [0; 1]) outs)
    /\ (length outs <= 2)%nat /\ all_but_last (fun ok => ok = false) outs.
Proof.
  apply (run_hooks_bracketed [0; 1] 2 "debian" "1h0m0s" failing_sync None);
    [by split|reflexivity].
Defined.

(** once the wait of a run has taken the kill branch, the run never starts
    the provider again. *)
Theorem killed_run_starts_nothing {H : Type} (Hooks : list H) (Retry : Z)
    (name tmo : string) (o : oracle) (tr1 tr2 : list (event H)) :
  (exec o 0 (runJobWrapper Hooks Retry name tmo)).1 = tr1 ++ EWait WaitKilled :: tr2 ->
  starts tr2 = O.
Proof. apply kill_stops_exec, runJobWrapper_kill_stops. Qed.

Lemma killed_run_starts_nothing_witness :
  let o := mkOracle (fun _ => None) (fun _ => Started) (fun _ => WaitKilled)
             (fun _ => None) (fun _ => statePaused) in
  let tr := (exec o 0 (runJobWrapper [0] 3 "debian" "1h0m0s")).1 in
  starts (drop 6 tr) = O /\ tr !! 5%nat = Some (EWait WaitKilled).
Proof.
  split; [|reflexivity].
  apply (killed_run_starts_nothing [0] 3 "debian" "1h0m0s"
    (mkOracle (fun _ => None) (fun _ => Started) (fun _ => WaitKilled)
             (fun _ => None) (fun _ => statePaused))
    (take 5 (exec (mkOracle (fun _ => None) (fun _ => Started) (fun _ => WaitKilled)
             (fun _ => None) (fun _ => statePaused)) 0
             (runJobWrapper [0] 3 "debian" "1h0m0s")).1)).
  reflexivity.
Defined.

(** A run crashes the process exactly through the start race: only when the
    provider's nil result is received before its start signal; and then, with
    working hooks, it does crash. *)
Theorem run_crash_is_start_race {H : Type} (Hooks : list H) (Retry : Z) (name tmo : string) :
  (forall o c, (exec o 0 (runJobWrapper Hooks Retry name tmo)).2 = Crashed c ->
     EStart (DoneFirst None) ∈ (exec o 0 (runJobWrapper Hooks Retry name tmo)).1)
  /\ (1 <= Retry -> forall o, healthy o -> (forall n, o_start o n = DoneFirst None) ->
      (exec o 0 (runJobWrapper Hooks Retry name tmo)).2 = Crashed "nil pointer dereference").
Proof.
  split; [intros o c; apply panic_free_exec, runJobWrapper_panic_free|].
  intros HR o Ho Hs. unfold runJobWrapper. cbn [exec fst snd].
  rewrite (exec_runHooks o (proj1 Ho)). cbn [fst snd].
  destruct (Z.to_nat Retry) as [|n] eqn:E; [lia|]. cbn [attempts]. unfold attempt.
  rewrite (exec_runHooks o (proj1 Ho)). cbn [exec fst snd]. by rewrite Hs.
Qed.

Definition instant_success : oracle :=
  mkOracle (fun _ => None) (fun _ => DoneFirst None) (fun _ => WaitDone None)
    (fun _ => None) (fun _ => stateReady).

Lemma run_crash_is_start_race_witness :
  EStart (DoneFirst None) ∈ (exec instant_success 0 (runJobWrapper [0] 2 "debian" "")).1
  /\ (exec instant_success 0 (runJobWrapper [0] 2 "debian" "")).2
     = Crashed "nil pointer dereference".
Proof.
  destruct (run_crash_is_start_race [0] 2 "debian" "") as [H1 H2]. split.
  - by apply (H1 instant_success "nil pointer dereference").
  - apply (H2 ltac:(lia) instant_success); [by split|done].
Defined.

(** When the provider times out and cannot be terminated, the run returns
    after its first attempt without a failure report: the manager only ever saw
    pre-syncing and syncing, and no message asks for rescheduling. *)
Theorem failed_terminate_reports_nothing {H : Type} (Hooks : list H) (Retry : Z)
    (name tmo err : string) (o : oracle) :
  1 <= Retry -> (forall n, o_hook o n = None) -> (forall n, o_start o n = Started) ->
  (forall n, o_wait o n = WaitTimeout) -> (forall n, o_term o n = Some err) ->
  let r := exec o 0 (runJobWrapper Hooks Retry name tmo) in
  r.2 = Returned (Some err)
  /\ messages r.1 = [mkMsg PreSyncing "" false; mkMsg Syncing "" false].
Proof.
  intros HR Hh Hs Hw Ht. cbv zeta.
  unfold runJobWrapper. cbn [exec fst snd]. rewrite (exec_runHooks o Hh). cbn [fst snd].
  destruct (Z.to_nat Retry) as [|n] eqn:E; [lia|]. cbn [attempts]. unfold attempt.
  rewrite (exec_runHooks o Hh). cbn [exec fst snd]. rewrite Hs. cbn [await exec fst snd].
  rewrite Hw. cbn [settle after_term exec fst snd]. rewrite Ht. cbn [exec fst snd].
  split; [done|]. cbn [messages omap list_omap]. fold (messages (H:=H)).
  change (mkMsg PreSyncing "" false :: messages (map (fun h => EHook h PreJob None) Hooks
    ++ map (fun h => EHook h PreExec None) Hooks ++
    [ESend (mkMsg Syncing "" false); EStart Started; EWait WaitTimeout; ETerminate (Some err)])
    = [mkMsg PreSyncing "" false; mkMsg Syncing "" false]).
  by rewrite !messages_hooks.
Qed.

Lemma failed_terminate_reports_nothing_witness :
  let o := mkOracle (fun _ => None) (fun _ => Started) (fun _ => WaitTimeout)
             (fun _ => Some "no such process") (fun _ => stateReady) in
  messages (exec o 0 (runJobWrapper [0] 2 "debian" "1h0m0s")).1
    = [mkMsg PreSyncing "" false; mkMsg Syncing "" false].
Proof.
  apply (failed_terminate_reports_nothing [0] 2 "debian" "1h0m0s" "no such process"); done.
Defined.
