(* ===== verification/Job.v ===== *)
(** * The job's control loop (mirrorJob.Run and runJob of src/worker/job.go)

    A labelled transition system: the loop goroutine ([main_pc]), the [runJob]
    goroutines it has spawned ([gor], each with its own [kill] and [jobDone]
    channels), and the shared objects: the job state, [ctrlChan] (capacity 1),
    [managerChan] (capacity 32), the semaphore and [bypassSemaphore].  [step] is
    executable: a label names who moves and what the environment answers. *)

From S2P Require Import Prelude GoLib Types Wrapper.

Section job.
Context {H : Type} (Hooks : list H) (Retry : Z) (mname timeout_text : string).
(** Capacity of the semaphore, [cfg.Concurrent]. *)
Context (cap : nat).

Definition managerCap : nat := 32.
Definition ctrlCap : nat := 1.

Definition wrapper : wprog H := runJobWrapper Hooks Retry mname timeout_text.

(** Where a [runJob] goroutine is. *)
Inductive gpc :=
  | GSelect                              (* select on semaphore, bypass, kill *)
  | GWrap (p : wprog H) (token : bool)   (* in runJobWrapper; holds a token *)
  | GSendDone                            (* case <-kill: jobDone <- empty{} *)
  | GRelease                             (* deferred <-semaphore *)
  | GDead.

Record gor := mkGor { g_pc : gpc; g_kill : bool; g_done : bool }.

(** What follows [<-jobDone] after [close(kill)]. *)
Inductive join := JIdle | JReturn | JRestart.

Inductive main_pc :=
  | MTop                      (* for { if m.State() == stateReady *)
  | MWait (i : nat)           (* _wait_for_job, for goroutine i *)
  | MJoin (i : nat) (j : join)
  | MIdle                     (* ctrl := <-m.ctrlChan *)
  | MReturned.

(** Objects the worker shares between goroutines. *)
Record shared := mkShared {
  j_state : Z; ctrl : list ctrlAction; mgr : list jobMessage; sem : nat;
}.

(** One activation of [Run]. *)
Record loop := mkLoop { main : main_pc; gs : list gor; bypass : bool }.

Inductive crash := CloseOfClosed | WrapperPanic (m : string).

Record conf := mkConf { sh : shared; lp : loop; crashed : option crash }.

Definition set_state (s : Z) (x : shared) : shared := mkShared s (ctrl x) (mgr x) (sem x).
Definition set_mgr (m : list jobMessage) (x : shared) : shared :=
  mkShared (j_state x) (ctrl x) m (sem x).
Definition set_sem (n : nat) (x : shared) : shared := mkShared (j_state x) (ctrl x) (mgr x) n.
Definition set_ctrl (c : list ctrlAction) (x : shared) : shared :=
  mkShared (j_state x) c (mgr x) (sem x).
Definition set_pc (p : gpc) (g : gor) : gor := mkGor p (g_kill g) (g_done g).

(** What a goroutine's step depends on besides the shared state. *)
Inductive answer :=
  | AAuto | ASem | ABypass | AKill
  | AHook (e : option string) | AStart (s : start) | AWait (w : wait) | ATerm (e : option string).

Inductive gresult :=
  | GStep (x : shared) (byp : bool) (g : gor)
  | GCrash (m : string)
  | GBlocked.

Definition gstep (a : answer) (x : shared) (byp : bool) (g : gor) : gresult :=
  match g_pc g, a with
  | GSelect, ASem =>
      if (sem x <? cap)%nat then GStep (set_sem (S (sem x)) x) byp (set_pc (GWrap wrapper true) g)
      else GBlocked
  | GSelect, ABypass => if byp then GStep x false (set_pc (GWrap wrapper false) g) else GBlocked
  | GSelect, AKill => if g_kill g then GStep x byp (set_pc GSendDone g) else GBlocked
  | GWrap (WSend m k) t, AAuto =>
      if (length (mgr x) <? managerCap)%nat
      then GStep (set_mgr (mgr x ++ [m]) x) byp (set_pc (GWrap k t) g) else GBlocked
  | GWrap (WHook _ _ k) t, AHook e => GStep x byp (set_pc (GWrap (k e) t) g)
  | GWrap (WStart k) t, AStart s => GStep x byp (set_pc (GWrap (k s) t) g)
  | GWrap (WWait pd k) t, AWait w =>
      match settle pd w with
      | WaitKilled => if g_kill g then GStep x byp (set_pc (GWrap (k WaitKilled) t) g) else GBlocked
      | w' => GStep x byp (set_pc (GWrap (k w') t) g)
      end
  | GWrap (WTerminate k) t, ATerm e => GStep x byp (set_pc (GWrap (k e) t) g)
  | GWrap (WState k) t, AAuto => GStep x byp (set_pc (GWrap (k (j_state x)) t) g)
  | GWrap (WSetSize k) t, AAuto => GStep x byp (set_pc (GWrap k t) g)
  | GWrap (WRet _) t, AAuto =>
      GStep x byp (mkGor (if t then GRelease else GDead) (g_kill g) true)
  | GWrap (WPanic m) _, AAuto => GCrash m
  | GRelease, AAuto => GStep (set_sem (pred (sem x)) x) byp (set_pc GDead g)
  | _, _ => GBlocked
  end.

(** [<-jobDone]: the channel is closed, or its sender is waiting. *)
Definition recv_done (g : gor) : option gor :=
  if g_done g then Some g
  else match g_pc g with GSendDone => Some (set_pc GDead g) | _ => None end.

Definition join_next (j : join) : main_pc :=
  match j with JIdle => MIdle | JReturn => MReturned | JRestart => MTop end.

(** The state, the next pc and whether [kill] is closed and bypass filled, for a
    command received while a run is in progress. *)
Inductive reaction := Close (s : option Z) (j : option join) | Stay (s : Z) (byp : bool).

Definition on_wait (a : ctrlAction) : reaction :=
  match a with
  | jobStop => Close (Some statePaused) (Some JIdle)
  | jobDisable => Close (Some stateDisabled) (Some JReturn)
  | jobRestart => Close (Some stateReady) (Some JRestart)
  | jobForceStart => Stay stateReady true
  | jobStart => Stay stateReady false
  | jobHalt => Close (Some stateHalting) (Some JReturn)
  | jobPing => Close None None                       (* default: close(kill); return *)
  end.

(** The same for a command received while idle: [None] is a bare [return]. *)
Definition on_idle (a : ctrlAction) : option Z * main_pc * bool :=
  match a with
  | jobStop => (Some statePaused, MTop, false)
  | jobDisable => (Some stateDisabled, MReturned, false)
  | jobForceStart => (Some stateReady, MTop, true)
  | jobRestart | jobStart => (Some stateReady, MTop, false)
  | jobPing | jobHalt => (None, MReturned, false)
  end.

Definition opt_state (o : option Z) (x : shared) : shared :=
  match o with Some s => set_state s x | None => x end.

Inductive label :=
  | LTop                       (* the test at the head of the loop *)
  | LDone                      (* main receives from jobDone *)
  | LRecv                      (* main receives from ctrlChan *)
  | LGor (i : nat) (a : answer)
  | LSend (a : ctrlAction)     (* somebody sends on ctrlChan *)
  | LTake.                     (* the scheduler receives from managerChan *)

(** [close(kill)] of goroutine [i]; closing twice panics. *)
Definition close_kill (i : nat) (l : list gor) : option (list gor) :=
  match l !! i with
  | Some g => if g_kill g then None else Some (<[i := mkGor (g_pc g) true (g_done g)]> l)
  | None => None
  end.

Definition main_recv (a : ctrlAction) (rest : list ctrlAction) (c : conf) : option conf :=
  let x := set_ctrl rest (sh c) in
  let l := lp c in
  match main l with
  | MWait i =>
      match on_wait a with
      | Stay s b => Some (mkConf (set_state s x) (mkLoop (MWait i) (gs l) (bypass l || b)) None)
      | Close s j =>
          match close_kill i (gs l) with
          | Some gs' =>
              Some (mkConf (opt_state s x)
                     (mkLoop (match j with Some j => MJoin i j | None => MReturned end)
                        gs' (bypass l)) None)
          | None => Some (mkConf x l (Some CloseOfClosed))
          end
      end
  | MIdle =>
      let '(s, pc, b) := on_idle a in
      Some (mkConf (opt_state s x) (mkLoop pc (gs l) (bypass l || b)) None)
  | _ => None
  end.

Definition step (lb : label) (c : conf) : option conf :=
  let x := sh c in
  let l := lp c in
  match crashed c with
  | Some _ => None
  | None =>
      match lb with
      | LTop =>
          match main l with
          | MTop =>
              if j_state x =? stateReady
              then Some (mkConf x (mkLoop (MWait (length (gs l)))
                          (gs l ++ [mkGor GSelect false false]) (bypass l)) None)
              else Some (mkConf x (mkLoop MIdle (gs l) (bypass l)) None)
          | _ => None
          end
      | LDone =>
          match main l with
          | MWait i | MJoin i _ =>
              match gs l !! i ≫= recv_done with
              | Some g =>
                  Some (mkConf x (mkLoop (match main l with MJoin _ j => join_next j | _ => MIdle end)
                          (<[i := g]> (gs l)) (bypass l)) None)
              | None => None
              end
          | _ => None
          end
      | LRecv =>
          match ctrl x with
          | a :: rest => main_recv a rest c
          | [] => None
          end
      | LGor i a =>
          match gs l !! i with
          | Some g =>
              match gstep a x (bypass l) g with
              | GStep x' b g' => Some (mkConf x' (mkLoop (main l) (<[i := g']> (gs l)) b) None)
              | GCrash m => Some (mkConf x l (Some (WrapperPanic m)))
              | GBlocked => None
              end
          | None => None
          end
      | LSend a =>
          if (length (ctrl x) <? ctrlCap)%nat
          then Some (mkConf (set_ctrl (ctrl x ++ [a]) x) l None) else None
      | LTake =>
          match mgr x with
          | _ :: ms => Some (mkConf (set_mgr ms x) l None)
          | [] => None
          end
      end
  end.

Fixpoint steps (ls : list label) (c : conf) : option conf :=
  match ls with
  | [] => Some c
  | lb :: ls => match step lb c with Some c' => steps ls c' | None => None end
  end.

(** A fresh activation of [Run] on a job in state [s]. *)
Definition init (s : Z) : conf :=
  mkConf (mkShared s [] [] 0) (mkLoop MTop [] false) None.

Inductive reachable (s0 : Z) : conf -> Prop :=
  | reach_init : reachable s0 (init s0)
  | reach_step c lb c' : reachable s0 c -> step lb c = Some c' -> reachable s0 c'.

(** ** Invariants *)
Definition finished (g : gor) : bool :=
  match g_pc g with GDead | GRelease => true | _ => false end.

(** Semaphore tokens a goroutine still has to give back. *)
Definition tok (g : gor) : nat :=
  match g_pc g with GWrap _ true | GRelease => 1 | _ => 0 end.
Definition tokens (l : list gor) : nat := sum_of tok l.

(** Every goroutine but number [i] is over. *)
Definition others (i : nat) (l : list gor) : Prop :=
  forall k g, l !! k = Some g -> k <> i -> finished g = true.

(** Goroutine [i] is the current one, its [kill] channel is open or closed. *)
Definition current (i : nat) (killed : bool) (l : list gor) : Prop :=
  others i l /\ exists g, l !! i = Some g /\ g_kill g = killed
    /\ finished g = g_done g.

Definition main_inv (m : main_pc) (l : list gor) : Prop :=
  match m with
  | MTop | MIdle => forall k g, l !! k = Some g -> finished g = true
  | MWait i => current i false l
  | MJoin i _ => current i true l
  | MReturned => exists i, others i l
  end.

Record inv (c : conf) : Prop := {
  inv_main : main_inv (main (lp c)) (gs (lp c));
  inv_tokens : sem (sh c) = tokens (gs (lp c));
  inv_cap : (sem (sh c) <= cap)%nat;
  inv_ctrl : (length (ctrl (sh c)) <= ctrlCap)%nat;
  inv_mgr : (length (mgr (sh c)) <= managerCap)%nat;
  inv_close : crashed c <> Some CloseOfClosed;
}.

Lemma tokens_insert i l g g' :
  l !! i = Some g -> (tokens (<[i := g']> l) + tok g = tokens l + tok g')%nat.
Proof. apply sum_of_insert. Qed.

Lemma tok_le i l g : l !! i = Some g -> (tok g <= tokens l)%nat.
Proof. apply sum_of_elem. Qed.

Lemma tokens_snoc l g : tokens (l ++ [g]) = (tokens l + tok g)%nat.
Proof. apply sum_of_snoc. Qed.

(** What one goroutine step can do. *)
Lemma gstep_spec a x b g x' b' g' :
  gstep a x b g = GStep x' b' g' ->
  g_kill g' = g_kill g
  /\ (finished g = true -> finished g' = true)
  /\ (finished g = g_done g -> finished g' = g_done g')
  /\ ((tok g <= sem x)%nat -> (sem x' + tok g = sem x + tok g')%nat)
  /\ ((sem x <= cap)%nat -> (sem x' <= cap)%nat)
  /\ ctrl x' = ctrl x /\ j_state x' = j_state x
  /\ ((length (mgr x) <= managerCap)%nat -> (length (mgr x') <= managerCap)%nat).
Proof.
  destruct g as [pc k d]. unfold gstep, finished, tok, set_pc; simpl. intros E.
  destruct pc as [|p t| | |]; [|destruct p as [e|m|m kk|h ph kk|kk|pd kk|kk|kk|kk]|..];
    destruct a; simplify_eq/=; try done;
    repeat (case_match; simplify_eq/=); simpl;
    repeat match goal with
      | Hb : (_ <? _)%nat = true |- _ => apply Nat.ltb_lt in Hb
      end;
    rewrite ?length_app; simpl; repeat split; try done; try lia; auto.
Qed.

Lemma others_insert i k l g g' :
  others i l -> l !! k = Some g -> (k = i \/ (finished g = true -> finished g' = true)) ->
  others i (<[k := g']> l).
Proof.
  intros Ho Hk Hf j h Hj Hne. destruct (decide (j = k)) as [->|Hjk].
  - rewrite list_lookup_insert_eq in Hj by (by eapply lookup_lt_Some). simplify_eq.
    destruct Hf as [->|Hf]; [done|]. apply Hf. by eapply Ho.
  - rewrite list_lookup_insert_ne in Hj by done. by eapply Ho.
Qed.

Lemma current_insert i kl k l g g' :
  current i kl l -> l !! k = Some g ->
  g_kill g' = g_kill g -> (finished g = true -> finished g' = true) ->
  (finished g = g_done g -> finished g' = g_done g') ->
  current i kl (<[k := g']> l).
Proof.
  intros [Ho (h & Hh & Hkl & Hd)] Hk Hkill Hf Hd'. split; [eapply others_insert; eauto|].
  destruct (decide (i = k)) as [->|Hne].
  - simplify_eq. exists g'. rewrite list_lookup_insert_eq by (by eapply lookup_lt_Some).
    rewrite Hkill. auto.
  - exists h. by rewrite list_lookup_insert_ne.
Qed.

Lemma main_inv_insert m k l g g' :
  main_inv m l -> l !! k = Some g ->
  g_kill g' = g_kill g -> (finished g = true -> finished g' = true) ->
  (finished g = g_done g -> finished g' = g_done g') ->
  main_inv m (<[k := g']> l).
Proof.
  intros Hm Hk Hkill Hf Hd. assert (Hall : (forall j h, l !! j = Some h -> finished h = true) ->
    forall j h, <[k := g']> l !! j = Some h -> finished h = true).
  { intros Ha j h Hj. destruct (decide (j = k)) as [->|Hjk].
    - rewrite list_lookup_insert_eq in Hj by (by eapply lookup_lt_Some). simplify_eq. eauto.
    - rewrite list_lookup_insert_ne in Hj by done. eauto. }
  destruct m as [|i|i j| |]; simpl in *; eauto using current_insert.
  destruct Hm as [i Ho]. exists i. eapply others_insert; eauto.
Qed.

Lemma recv_done_spec g g' :
  recv_done g = Some g' -> finished g = g_done g -> finished g' = true.
Proof.
  unfold recv_done. destruct g as [pc k d]; simpl. destruct d; [intros; by simplify_eq|].
  destruct pc; intros; by simplify_eq/=.
Qed.

Lemma recv_done_tok g g' : recv_done g = Some g' -> tok g' = tok g.
Proof.
  unfold recv_done, tok. destruct g as [pc k []]; simpl; [by intros; simplify_eq|].
  destruct pc; intros; by simplify_eq/=.
Qed.

Lemma all_finished_insert i l g :
  others i l -> finished g = true ->
  forall k h, <[i := g]> l !! k = Some h -> finished h = true.
Proof.
  intros Ho Hf k h Hk. destruct (decide (k = i)) as [->|Hne].
  - apply list_lookup_insert_Some in Hk as [(_ & <- & _)|[? _]]; done.
  - rewrite list_lookup_insert_ne in Hk by done. by eapply Ho.
Qed.

Lemma current_spawn l :
  (forall k g, l !! k = Some g -> finished g = true) ->
  current (length l) false (l ++ [mkGor GSelect false false]).
Proof.
  intros Hall. split.
  - intros k g Hk Hne. apply lookup_app_Some in Hk as [Hk|[Hle Hk]]; [by eapply Hall|].
    destruct (k - length l)%nat eqn:E; [lia|done].
  - exists (mkGor GSelect false false). rewrite lookup_app_r, Nat.sub_diag by lia. done.
Qed.

Lemma current_close i l l' :
  current i false l -> close_kill i l = Some l' ->
  current i true l' /\ tokens l' = tokens l.
Proof.
  intros [Ho (g & Hg & Hk & Hd)] Hc. unfold close_kill in Hc. rewrite Hg, Hk in Hc.
  simplify_eq. split; [split|].
  - eapply others_insert; eauto.
  - eexists. rewrite list_lookup_insert_eq by (by eapply lookup_lt_Some). done.
  - pose proof (tokens_insert i l g (mkGor (g_pc g) true (g_done g)) Hg) as E.
    change (tok (mkGor (g_pc g) true (g_done g))) with (tok g) in E. lia.
Qed.

Lemma close_kill_current i l : current i false l -> close_kill i l <> None.
Proof. intros [_ (g & Hg & Hk & _)]. unfold close_kill. by rewrite Hg, Hk. Qed.

Lemma main_inv_join j l i : current i true l -> forall g g', l !! i = Some g ->
  recv_done g = Some g' -> main_inv (join_next j) (<[i := g']> l).
Proof.
  intros [Ho (h & Hh & _ & Hd)] g g' Hg Hr. simplify_eq.
  pose proof (recv_done_spec _ _ Hr Hd) as Hf.
  destruct j; simpl; [by apply all_finished_insert| |by apply all_finished_insert].
  exists i. eapply others_insert; eauto.
Qed.

Lemma main_inv_returned i b l : current i b l -> main_inv MReturned l.
Proof. intros [Ho _]. by exists i. Qed.

Lemma inv_init s : inv (init s).
Proof. split; simpl; try done; try lia; unfold managerCap; lia. Qed.

Lemma step_inv_top c c' : inv c -> step LTop c = Some c' -> inv c'.
Proof.
  intros [Hm Ht Hc Hct Hmg Hcl] Hs. unfold step in Hs. destruct c as [x [m l b] cr]; simpl in *.
  destruct cr; [done|]. destruct m; try done.
  destruct (j_state x =? stateReady); simplify_eq; split; simpl; try done.
  - by apply current_spawn.
  - rewrite tokens_snoc. change (tok (mkGor GSelect false false)) with 0%nat. lia.
Qed.

Lemma step_inv_done c c' : inv c -> step LDone c = Some c' -> inv c'.
Proof.
  intros [Hm Ht Hc Hct Hmg Hcl] Hs. unfold step in Hs. destruct c as [x [m l b] cr]; simpl in *.
  destruct cr; [done|].
  assert (Htok : forall i g g', l !! i = Some g -> recv_done g = Some g' ->
    tokens (<[i := g']> l) = tokens l).
  { intros i g g' Hg Hr. pose proof (tokens_insert i l g g' Hg).
    pose proof (recv_done_tok _ _ Hr). lia. }
  destruct m as [|i|i j| |]; try done;
    destruct (l !! i) as [g|] eqn:Hg; simpl in Hs; try done;
    destruct (recv_done g) as [g'|] eqn:Hr; simplify_eq; split; simpl; try done.
  - destruct Hm as [Ho (h & Hh & _ & Hd)]. simplify_eq.
    apply all_finished_insert; [done|]. by eapply recv_done_spec.
  - rewrite (Htok i g g'); done.
  - eapply main_inv_join; eauto.
  - rewrite (Htok i g g'); done.
Qed.

Lemma main_recv_inv a rest c c' :
  inv c -> crashed c = None -> ctrl (sh c) = a :: rest -> main_recv a rest c = Some c' -> inv c'.
Proof.
  intros [Hm Ht Hc Hct Hmg Hcl] Hcr Hctrl Hs. destruct c as [x [m l b] cr]; simpl in *.
  assert (Hrest : (length rest <= ctrlCap)%nat) by (rewrite Hctrl in Hct; simpl in Hct; lia).
  unfold main_recv in Hs; simpl in Hs. destruct m as [|i|i j| |]; try done.
  - destruct (on_wait a) as [s j|s bb] eqn:Ea; simplify_eq; [|by split].
    destruct (close_kill i l) as [l'|] eqn:Ek; [|by apply close_kill_current in Ek].
    destruct (current_close i l l' Hm Ek) as [Hcur Htk]. simplify_eq.
    assert (Hx : sem (opt_state s (set_ctrl rest x)) = tokens l'
       /\ ctrl (opt_state s (set_ctrl rest x)) = rest
       /\ mgr (opt_state s (set_ctrl rest x)) = mgr x) by (by destruct s; simpl; rewrite Ht, Htk).
    destruct Hx as (Hx1 & Hx2 & Hx3).
    split; simpl; rewrite ?Hx1, ?Hx2, ?Hx3; try done; [|lia].
    destruct j; [done|by eapply main_inv_returned].
  - destruct (on_idle a) as [[s pc] bb] eqn:Ea. simplify_eq.
    assert (Hx : sem (opt_state s (set_ctrl rest x)) = sem x
       /\ ctrl (opt_state s (set_ctrl rest x)) = rest
       /\ mgr (opt_state s (set_ctrl rest x)) = mgr x) by (by destruct s).
    destruct Hx as (Hx1 & Hx2 & Hx3).
    split; simpl; rewrite ?Hx1, ?Hx2, ?Hx3; try done.
    destruct a; simplify_eq/=; try done; exists 0%nat; intros k g Hk _; by eapply Hm.
Qed.

Lemma step_inv_gor i a c c' : inv c -> step (LGor i a) c = Some c' -> inv c'.
Proof.
  intros [Hm Ht Hc Hct Hmg Hcl] Hs. unfold step in Hs. destruct c as [x [m l b] cr]; simpl in *.
  destruct cr; [done|]. destruct (l !! i) as [g|] eqn:Hg; [|done].
  destruct (gstep a x b g) as [x' b' g'|e|] eqn:Eg; simplify_eq; [|by split].
  destruct (gstep_spec _ _ _ _ _ _ _ Eg) as (Hk & Hf & Hd & Hs & Hcap & Hctrl & Hst & Hmgr).
  split; simpl; rewrite ?Hctrl; auto.
  - eapply main_inv_insert; eauto.
  - pose proof (tokens_insert i l g g' Hg). pose proof (tok_le i l g Hg).
    specialize (Hs ltac:(lia)). lia.
Qed.

Lemma step_inv lb c c' : inv c -> step lb c = Some c' -> inv c'.
Proof.
  intros Hi Hs. destruct lb.
  - by eapply step_inv_top.
  - by eapply step_inv_done.
  - unfold step in Hs. destruct (crashed c) eqn:Ec; [done|].
    destruct (ctrl (sh c)) as [|a rest] eqn:Ec'; [done|]. by eapply main_recv_inv.
  - by eapply step_inv_gor.
  - destruct Hi. unfold step in Hs. destruct (crashed c) eqn:Ec; [done|].
    destruct (length (ctrl (sh c)) <? ctrlCap)%nat eqn:El; [|done]. simplify_eq.
    apply Nat.ltb_lt in El. split; simpl; try done. rewrite length_app. simpl. lia.
  - destruct Hi. unfold step in Hs. destruct (crashed c) eqn:Ec; [done|].
    destruct (mgr (sh c)) as [|m ms] eqn:Em; [done|]. simplify_eq.
    split; simpl in *; try done. lia.
Qed.

Lemma reachable_inv s c : reachable s c -> inv c.
Proof. induction 1; eauto using inv_init, step_inv. Qed.

(** ** Joining a killed run

    [joins i j s c]: from [c] the loop can pass [<-jobDone] and go on as [j]
    says, with the job state still [s], unless the run crashes the process. *)
Definition joins (i : nat) (j : join) (s : Z) (c : conf) : Prop :=
  exists ls c', steps ls c = Some c' /\ j_state (sh c') = s
    /\ ((main (lp c') = join_next j /\ crashed c' = None)
        \/ exists m, crashed c' = Some (WrapperPanic m)).

Lemma joins_step i j s lb c c' : step lb c = Some c' -> joins i j s c' -> joins i j s c.
Proof.
  intros Hs (ls & c2 & Hls & Hrest). exists (lb :: ls), c2. simpl. by rewrite Hs.
Qed.

Lemma step_gor i a x b m l g x' b' g' :
  l !! i = Some g -> gstep a x b g = GStep x' b' g' ->
  step (LGor i a) (mkConf x (mkLoop m l b) None)
  = Some (mkConf x' (mkLoop m (<[i := g']> l) b') None).
Proof. intros Hg Hs. unfold step; simpl. by rewrite Hg, Hs. Qed.

Lemma joins_done i j s x l b g :
  l !! i = Some g -> (g_done g = true \/ g_pc g = GSendDone) -> j_state x = s ->
  joins i j s (mkConf x (mkLoop (MJoin i j) l b) None).
Proof.
  intros Hg Hd Hs. assert (exists g', recv_done g = Some g') as [g' Hr].
  { unfold recv_done. destruct (g_done g); [eauto|]. destruct Hd as [|E]; [done|].
    rewrite E. eauto. }
  exists [LDone], (mkConf x (mkLoop (join_next j) (<[i := g']> l) b) None).
  split; [|eauto]. cbn [steps]. unfold step. cbn [crashed lp main gs sh bypass].
  rewrite Hg. cbn [mbind option_bind]. by rewrite Hr.
Qed.

(** The current goroutine moves on by itself. *)
Lemma joins_gor i j s a x b l g x' b' pc' :
  l !! i = Some g -> gstep a x b g = GStep x' b' (mkGor pc' (g_kill g) (g_done g)) ->
  (forall l', l' !! i = Some (mkGor pc' (g_kill g) (g_done g)) ->
     joins i j s (mkConf x' (mkLoop (MJoin i j) l' b') None)) ->
  joins i j s (mkConf x (mkLoop (MJoin i j) l b) None).
Proof.
  intros Hg Hs Hn. eapply joins_step; [by eapply step_gor|]. apply Hn.
  apply list_lookup_insert_eq. by eapply lookup_lt_Some.
Qed.

(** With [kill] closed every run ends: hooks answer, the select sees the kill,
    a full [managerChan] is drained by its receiver. *)
Lemma joins_wrap i j p t x b l d :
  l !! i = Some (mkGor (GWrap p t) true d) -> (length (mgr x) <= managerCap)%nat ->
  joins i j (j_state x) (mkConf x (mkLoop (MJoin i j) l b) None).
Proof.
  revert x b l; induction p as [e|m|m k IH|h ph k IH|k IH|pd k IH|k IH|k IH|k IH];
    intros x b l Hg Hm.
  - eapply joins_step; [by eapply (step_gor i AAuto)|].
    eapply joins_done; [apply list_lookup_insert_eq; by eapply lookup_lt_Some|by left|done].
  - exists [LGor i AAuto], (mkConf x (mkLoop (MJoin i j) l b) (Some (WrapperPanic m))).
    split; [|eauto]. cbn [steps]. unfold step. cbn [crashed lp gs sh]. by rewrite Hg.
  - assert (Hsend : forall y, (length (mgr y) < managerCap)%nat -> j_state y = j_state x ->
      joins i j (j_state x) (mkConf y (mkLoop (MJoin i j) l b) None)).
    { intros y Hy Est. eapply (joins_gor i j _ AAuto); [done| |].
      - unfold gstep. cbn [g_pc]. by rewrite (proj2 (Nat.ltb_lt _ _) Hy).
      - intros l' Hl'. rewrite <-Est. apply (IH (set_mgr (mgr y ++ [m]) y)); [done|].
        simpl. rewrite length_app. simpl. lia. }
    destruct (mgr x) as [|m0 ms] eqn:Em; [apply Hsend; [rewrite Em; unfold managerCap; simpl; lia|done]|].
    eapply (joins_step _ _ _ LTake (mkConf x _ None) (mkConf (set_mgr ms x) _ None)).
    { unfold step. cbn [crashed lp sh]. by rewrite Em. }
    apply Hsend; simpl in *; [lia|done].
  - eapply (joins_gor i j _ (AHook None)); eauto.
  - eapply (joins_gor i j _ (AStart Started)); eauto.
  - eapply (joins_gor i j _ (AWait WaitKilled)); eauto.
  - eapply (joins_gor i j _ (ATerm None)); eauto.
  - eapply (joins_gor i j _ AAuto); eauto.
  - eapply (joins_gor i j _ AAuto); eauto.
Qed.

Lemma joins_reachable s0 c i j :
  reachable s0 c -> crashed c = None -> main (lp c) = MJoin i j -> joins i j (j_state (sh c)) c.
Proof.
  intros Hr Hc Hj. apply reachable_inv in Hr as [Hm _ _ _ Hmg _].
  destruct c as [x [m l b] cr]; simpl in *; subst.
  destruct Hm as [_ ([pc k d] & Hg & Hk & Hd)]; simpl in *; subst.
  destruct pc as [|p t| | |].
  - eapply (joins_gor i j _ AKill); [done|done|]. intros l' Hl'.
    eapply joins_done; [done|by right|done].
  - by eapply joins_wrap.
  - eapply joins_done; [done|by right|done].
  - eapply joins_done; [done|by left|done].
  - eapply joins_done; [done|by left|done].
Qed.

(** ** The job state follows the commands *)

(** The state a received command leaves, given whether a run is in progress. *)
Definition cmd_state (running : bool) (a : ctrlAction) (s : Z) : Z :=
  match a with
  | jobStop => statePaused
  | jobDisable => stateDisabled
  | jobStart | jobForceStart | jobRestart => stateReady
  | jobHalt => if running then stateHalting else s
  | jobPing => s
  end.

Definition running (c : conf) : bool :=
  match main (lp c) with MWait _ => true | _ => false end.

Lemma step_state lb c c' :
  inv c -> step lb c = Some c' ->
  j_state (sh c') =
    match lb with
    | LRecv => match ctrl (sh c) with
               | a :: _ => cmd_state (running c) a (j_state (sh c))
               | [] => j_state (sh c)
               end
    | _ => j_state (sh c)
    end.
Proof.
  intros Hi Hs. unfold step in Hs. destruct (crashed c) eqn:Ec; [done|].
  destruct lb.
  - by repeat case_match; simplify_eq.
  - by repeat case_match; simplify_eq.
  - destruct (ctrl (sh c)) as [|a rest]; [done|]. unfold main_recv in Hs. unfold running.
    destruct Hi as [Hm _ _ _ _ _].
    destruct (main (lp c)) as [|i|i j| |] eqn:Em; try done; simpl in Hm.
    + destruct (close_kill i (gs (lp c))) as [l'|] eqn:Ek; [|by apply close_kill_current in Ek].
      by destruct a; simplify_eq/=.
    + by destruct a; simplify_eq/=.
  - destruct (gs (lp c) !! i) as [g|] eqn:Hg; [|done].
    destruct (gstep a (sh c) (bypass (lp c)) g) eqn:Eg; simplify_eq/=; [|done].
    by apply gstep_spec in Eg as (_ & _ & _ & _ & _ & _ & ? & _).
  - by repeat case_match; simplify_eq.
  - by repeat case_match; simplify_eq.
Qed.

(** At most one goroutine of an activation is not over. *)
Lemma inv_no_overlap c k1 k2 g1 g2 :
  inv c -> gs (lp c) !! k1 = Some g1 -> gs (lp c) !! k2 = Some g2 ->
  finished g1 = false -> finished g2 = false -> k1 = k2.
Proof.
  intros [Hm _ _ _ _ _] H1 H2 F1 F2.
  assert (Ho : (exists i, others i (gs (lp c)))).
  { destruct (main (lp c)) as [|i|i j| |]; simpl in Hm.
    - exists 0%nat. intros k g Hk _. by eapply Hm.
    - exists i. by apply Hm.
    - exists i. by apply Hm.
    - exists 0%nat. intros k g Hk _. by eapply Hm.
    - done. }
  destruct Ho as [i Ho]. destruct (decide (k1 = i)) as [->|N1].
  - destruct (decide (k2 = i)) as [->|N2]; [done|]. by rewrite (Ho _ _ H2 N2) in F2.
  - by rewrite (Ho _ _ H1 N1) in F1.
Qed.

(** A step of an activation takes at most the head of [ctrlChan]. *)
Lemma step_ctrl lb c c' :
  inv c -> (match lb with LSend _ | LTake => false | _ => true end) = true ->
  step lb c = Some c' ->
  ctrl (sh c') = ctrl (sh c) \/ exists a, ctrl (sh c) = a :: ctrl (sh c').
Proof.
  intros Hi Hl Hs. unfold step in Hs. destruct (crashed c) eqn:Ec; [done|].
  destruct lb; try done.
  - left. by repeat case_match; simplify_eq.
  - left. by repeat case_match; simplify_eq.
  - destruct (ctrl (sh c)) as [|a rest] eqn:Ea; [done|]. right. exists a.
    unfold main_recv in Hs. by destruct a; repeat (case_match; simplify_eq/=).
  - left. destruct (gs (lp c) !! i) as [g|] eqn:Hg; [|done].
    destruct (gstep a (sh c) (bypass (lp c)) g) eqn:Eg; simplify_eq/=; [|done].
    by apply gstep_spec in Eg as (_ & _ & _ & _ & _ & ? & _).
Qed.
End job.

(** ** Properties *)

Section properties.
Context {H : Type} (Hooks : list H) (Retry : Z) (mname tmo : string) (cap : nat).
Abbreviation reach := (reachable Hooks Retry mname tmo cap).

(** In every reachable configuration at most one runJob goroutine of the loop
    is still between its select and the end of runJobWrapper, so two syncs of
    the job never overlap. *)
Theorem sync_runs_never_overlap (s0 : Z) (c : conf) (k1 k2 : nat) (g1 g2 : gor) :
  reach s0 c -> gs (lp c) !! k1 = Some g1 -> gs (lp c) !! k2 = Some g2 ->
  finished g1 = false -> finished g2 = false -> k1 = k2.
Proof.
  intros Hr. by apply (inv_no_overlap cap), (reachable_inv _ _ _ _ _ _ _ Hr).
Qed.

(** The semaphore holds exactly one token per run that acquired one and has
    not released it, and never more than its capacity. *)
Theorem semaphore_accounts_for_runs (s0 : Z) (c : conf) :
  reach s0 c -> sem (sh c) = tokens (gs (lp c)) /\ (sem (sh c) <= cap)%nat.
Proof. intros Hr. apply reachable_inv in Hr. split; apply Hr. Qed.

(** The loop never closes a kill channel twice: a crash of the process can
    only come from inside runJobWrapper. *)
Theorem kill_is_closed_once (s0 : Z) (c : conf) :
  reach s0 c -> crashed c <> Some CloseOfClosed.
Proof. intros Hr. apply (reachable_inv _ _ _ _ _ _ _ Hr). Qed.

(** Stop, disable, restart and halt never hang: from every reachable
    configuration in which the loop waits for a killed run, some behaviour of the
    run lets it through, in the state the command set, unless the run crashes. *)
Theorem killed_run_can_be_joined (s0 : Z) (c : conf) (i : nat) (j : join) :
  reach s0 c -> crashed c = None -> main (lp c) = MJoin i j ->
  joins Hooks Retry mname tmo cap i j (j_state (sh c)) c.
Proof. apply joins_reachable. Qed.

(** The job state changes only when the loop receives a command, and then to
    what that command means: paused, disabled, ready, or, while a run is in
    progress, halting; an idle loop returns on halt with its state unchanged. *)
Theorem job_state_follows_commands (s0 : Z) (c c' : conf) (lb : label) :
  reach s0 c -> step Hooks Retry mname tmo cap lb c = Some c' ->
  j_state (sh c') =
    match lb, ctrl (sh c) with
    | LRecv, a :: _ => cmd_state (running c) a (j_state (sh c))
    | _, _ => j_state (sh c)
    end.
Proof.
  intros Hr Hs. rewrite (step_state _ _ _ _ _ lb c c' (reachable_inv _ _ _ _ _ _ _ Hr) Hs).
  by destruct lb, (ctrl (sh c)).
Qed.
End properties.

(** *** Witnesses: a job with one hook that is started, begins to sync and is
    then stopped. *)
Definition demo_labels : list label :=
  [LSend jobStart; LTop; LRecv; LTop; LGor 0 ASem; LGor 0 AAuto; LGor 0 (AHook None);
   LGor 0 (AHook None); LGor 0 AAuto; LGor 0 (AStart Started); LSend jobStop; LRecv].
Definition demo_conf : option (conf (H := nat)) :=
  steps [0%nat] 2 "debian" "1h0m0s" 1 demo_labels (init stateNone).

Lemma steps_reachable {H : Type} (Hooks : list H) Retry mname tmo cap s0 ls c c' :
  reachable Hooks Retry mname tmo cap s0 c ->
  steps Hooks Retry mname tmo cap ls c = Some c' ->
  reachable Hooks Retry mname tmo cap s0 c'.
Proof.
  revert c; induction ls as [|lb ls IH]; intros c Hr Hs; simpl in Hs; [by simplify_eq|].
  destruct (step _ _ _ _ _ lb c) as [c1|] eqn:E; [|done].
  eapply IH; [|done]. by eapply reach_step.
Qed.

Definition demo : conf (H := nat) := default (init stateNone) demo_conf.

Lemma demo_reachable : reachable [0%nat] 2 "debian" "1h0m0s" 1 stateNone demo.
Proof. eapply (steps_reachable _ _ _ _ _ _ demo_labels); [constructor|]. reflexivity. Qed.

Lemma sync_runs_never_overlap_witness :
  exists g, gs (lp demo) !! 0%nat = Some g /\ finished g = false /\ (0 = 0)%nat.
Proof.
  eexists. split; [reflexivity|]. split; [reflexivity|].
  apply (sync_runs_never_overlap [0%nat] 2 "debian" "1h0m0s" 1 stateNone demo 0 0 _ _
    demo_reachable eq_refl eq_refl); reflexivity.
Defined.

Lemma semaphore_accounts_for_runs_witness : sem (sh demo) = 1%nat /\ tokens (gs (lp demo)) = 1%nat.
Proof.
  destruct (semaphore_accounts_for_runs [0%nat] 2 "debian" "1h0m0s" 1 stateNone demo
    demo_reachable) as [H1 H2].
  split; [reflexivity|]. rewrite <-H1. reflexivity.
Defined.

Lemma kill_is_closed_once_witness : crashed demo <> Some CloseOfClosed.
Proof. exact (kill_is_closed_once [0%nat] 2 "debian" "1h0m0s" 1 stateNone demo demo_reachable). Defined.

Lemma killed_run_can_be_joined_witness :
  main (lp demo) = MJoin 0 JIdle /\
  joins [0%nat] 2 "debian" "1h0m0s" 1 0 JIdle statePaused demo.
Proof.
  split; [reflexivity|].
  exact (killed_run_can_be_joined [0%nat] 2 "debian" "1h0m0s" 1 stateNone demo 0 JIdle
    demo_reachable eq_refl eq_refl).
Defined.

Lemma job_state_follows_commands_witness :
  exists c', step [0%nat] 2 "debian" "1h0m0s" 1 (LGor 0 (AWait WaitKilled)) demo = Some c'
    /\ j_state (sh c') = statePaused.
Proof.
  eexists. split; [reflexivity|].
  exact (job_state_follows_commands [0%nat] 2 "debian" "1h0m0s" 1 stateNone demo _
    (LGor 0 (AWait WaitKilled)) demo_reachable eq_refl).
Defined.
