(* ===== verification/Worker.v ===== *)
(** * The worker (src/worker/worker.go)

    The worker as a labelled transition system on top of the models of the job
    loop ([Job]) and of the schedule ([Schedule]): the scheduler goroutine
    ([runSchedule]), the goroutines that serve commands and [Halt], and any
    number of activations of [mirrorJob.Run].  They share the mutex [w.L], the
    schedule, the job's state and channels, and the [exit] channel.  [wstep] is
    executable: a label names who moves, and what the clock or the manager
    answers.  Requests to the manager are recorded in [reports]. *)

From S2P Require Import Prelude GoSync Types Sizes Schedule Wrapper Job.

Section worker.
Context {H : Type} (Hooks : list H) (Retry : Z) (mname timeout_text : string).
Context (cap : nat).
(** [provider.Interval()] in seconds. *)
Context (interval : Z).

#[local] Abbreviation jstep := (Job.step Hooks Retry mname timeout_text cap).

(** The scheduler goroutine. *)
Inductive spc :=
  | SInit                  (* before the status of the job is fetched *)
  | SSelect                (* the select of the loop *)
  | SMsg (m : jobMessage)  (* a message was received; first read of the state *)
  | SMsg2 (m : jobMessage) (* second read of the state *)
  | SAdd (m : jobMessage)  (* its status was reported *)
  | SNext                  (* w.schedule.GetJob(), w.updateSchedInfo *)
  | STick                  (* job.ctrlChan <- jobStart *)
  | SFlush                 (* after <-w.exit, holding w.L *)
  | SEnd
  | SWedged.               (* blocked in schedule.AddJob or Pop *)

(** A goroutine that serves a command, or runs [Halt]. *)
Inductive tpc :=
  | TLock (c : option ClientCmd)  (* w.L.Lock(), then BindJSON *)
  | TRemove (c : ClientCmd)    (* w.schedule.Remove() *)
  | TSwitch (c : ClientCmd)    (* if job disabled, start it *)
  | TAct (c : ClientCmd)       (* the second switch *)
  | TSend (a : ctrlAction)     (* w.job.ctrlChan <- a *)
  | TReply (code : Z)          (* c.JSON, then the deferred Unlock *)
  | THaltLock | THaltCheck | THaltSend | THaltWait | THaltClose
  | TOver (code : Z).

Inductive report := RStatus (s : SyncStatus) (msg : string) | RSchedule (next : Z).

Inductive wcrash := JobCrash (c : crash) | CloseOfClosedExit | CloseOfClosedDisabled.

Record wstate := mkW {
  wL : bool;
  wsched : @schedule unit;
  wsh : shared;
  wnew : nat;                  (* go w.job.Run(...) not yet begun *)
  wloops : list (loop (H := H));
  wpc : spc;
  wthreads : list tpc;
  wexit : bool;                (* exit is closed *)
  wdis : bool;                 (* the channel in m.disabled is closed *)
  reports : list report;
  wdead : option wcrash;
}.

Definition w_init : wstate :=
  mkW false newSchedule (mkShared stateNone [] [] 0) 0 [] SInit [] false false [] None.

Inductive wlabel :=
  | WInit (mirror : JobStatus)      (* runSchedule up to the loop *)
  | WTake                           (* case jobMsg := <-w.managerChan *)
  | WCheck                          (* a read of the state, and updateStatus *)
  | WAddJob (now : Z)               (* scheduling, if the message asks for it *)
  | WNext                           (* GetJob reads the slot, updateSchedInfo *)
  | WTick (now : Z)                 (* case <-tick *)
  | WTickSend
  | WExit                           (* case <-w.exit *)
  | WFlush
  | WBegin                          (* a go w.job.Run begins *)
  | WLoop (i : nat) (lb : label)    (* activation i of Run *)
  | WCommand (c : option ClientCmd) (* a request arrives; [None]: undecodable *)
  | WHalt                           (* Halt is called *)
  | WThread (i : nat).              (* thread i moves *)

Definition set_wsh (x : shared) (w : wstate) : wstate :=
  mkW (wL w) (wsched w) x (wnew w) (wloops w) (wpc w) (wthreads w) (wexit w) (wdis w) (reports w) (wdead w).
Definition set_wpc (p : spc) (w : wstate) : wstate :=
  mkW (wL w) (wsched w) (wsh w) (wnew w) (wloops w) p (wthreads w) (wexit w) (wdis w) (reports w) (wdead w).
Definition set_wsched (q : @schedule unit) (w : wstate) : wstate :=
  mkW (wL w) q (wsh w) (wnew w) (wloops w) (wpc w) (wthreads w) (wexit w) (wdis w) (reports w) (wdead w).
Definition set_L (b : bool) (w : wstate) : wstate :=
  mkW b (wsched w) (wsh w) (wnew w) (wloops w) (wpc w) (wthreads w) (wexit w) (wdis w) (reports w) (wdead w).
Definition spawn (w : wstate) : wstate :=
  mkW (wL w) (wsched w) (wsh w) (S (wnew w)) (wloops w) (wpc w) (wthreads w) (wexit w) (wdis w) (reports w)
    (wdead w).
Definition set_thread (i : nat) (t : tpc) (w : wstate) : wstate :=
  mkW (wL w) (wsched w) (wsh w) (wnew w) (wloops w) (wpc w) (<[i := t]> (wthreads w)) (wexit w) (wdis w)
    (reports w) (wdead w).
Definition add_report (r : report) (w : wstate) : wstate :=
  mkW (wL w) (wsched w) (wsh w) (wnew w) (wloops w) (wpc w) (wthreads w) (wexit w) (wdis w)
    (reports w ++ [r]) (wdead w).

(** [Time.Unix] of a time in nanoseconds. *)
Definition Unix (t : Z) : Z := t / 1000000000.

(** [nextScheduled = w.schedule.GetJob(); w.updateSchedInfo(nextScheduled)]: a read
    without any lock, in a step of its own. *)
Definition report_schedule (w : wstate) : wstate :=
  match GetJob (wsched w) with
  | (_, Some t) => add_report (RSchedule t) w
  | (_, None) => w
  end.

(** The start of [runSchedule], under [w.L]. *)
Definition w_start (mirror : JobStatus) (w : wstate) : wstate :=
  if String.eqb (st_Status mirror) Disabled then
    set_wpc SNext (set_wsh (set_state stateDisabled (wsh w)) w)
  else if String.eqb (st_Status mirror) Paused then
    set_wpc SNext (spawn (set_wsh (set_state statePaused (wsh w)) w))
  else
    let w := spawn (set_wsh (set_state stateNone (wsh w)) w) in
    match AddJob (i64 (LastUpdate mirror + interval)) tt (wsched w) with
    | (q, Some _) => set_wpc SNext (set_wsched q w)
    | (q, None) => set_wpc SWedged (set_wsched q w)
    end.

Definition ctrl_free (w : wstate) : bool := (length (ctrl (wsh w)) <? ctrlCap)%nat.
Definition send_ctrl (a : ctrlAction) (w : wstate) : wstate :=
  set_wsh (set_ctrl (ctrl (wsh w) ++ [a]) (wsh w)) w.

(** [jobsDone] counts the activations that have begun and not returned. *)
Definition returned (l : loop (H := H)) : bool :=
  match main l with MReturned => true | _ => false end.
Definition all_done (w : wstate) : bool := forallb returned (wloops w).

(** The action of the second switch of the command handler. *)
Definition command_action (c : ClientCmd) (disabled : bool) : tpc :=
  match cc_Cmd c with
  | CmdStart => TSend (if cc_Force c then jobForceStart else jobStart)
  | CmdRestart => TSend jobRestart
  | CmdStop => if disabled then TReply 200 else TSend jobStop
  | CmdPing => TReply 200
  | CmdUpdate => TReply 406
  end.

Definition kill_process (c : wcrash) (w : wstate) : wstate :=
  mkW (wL w) (wsched w) (wsh w) (wnew w) (wloops w) (wpc w) (wthreads w) (wexit w) (wdis w)
    (reports w) (Some c).

(** One move of a command or [Halt] goroutine. *)
Definition tstep (i : nat) (t : tpc) (w : wstate) : option wstate :=
  let disabled := j_state (wsh w) =? stateDisabled in
  match t with
  | TLock c =>
      if wL w then None
      else Some (set_thread i (match c with Some c => TRemove c | None => TReply 400 end)
                   (set_L true w))
  | TRemove c =>
      match Remove (wsched w) with
      | (q, Some _) => Some (set_thread i (TSwitch c) (set_wsched q w))
      | (_, None) => None
      end
  | TSwitch c =>
      let starts := match cc_Cmd c with CmdStart | CmdRestart => true | _ => false end in
      Some (set_thread i (TAct c) (if starts && disabled then spawn w else w))
  | TAct c => Some (set_thread i (command_action c disabled) w)
  | TSend a => if ctrl_free w then Some (set_thread i (TReply 200) (send_ctrl a w)) else None
  | TReply code => Some (set_thread i (TOver code) (set_L false w))
  | THaltLock => if wL w then None else Some (set_thread i THaltCheck (set_L true w))
  | THaltCheck => Some (set_thread i (if disabled then THaltWait else THaltSend) w)
  | THaltSend => if ctrl_free w then Some (set_thread i THaltWait (send_ctrl jobHalt w)) else None
  | THaltWait => if all_done w then Some (set_thread i THaltClose (set_L false w)) else None
  | THaltClose =>
      Some (if wexit w then kill_process CloseOfClosedExit w
            else mkW (wL w) (wsched w) (wsh w) (wnew w) (wloops w) (wpc w)
                   (<[i := TOver 0]> (wthreads w)) true (wdis w) (reports w) None)
  | TOver _ => None
  end.

(** Labels of [Job] that belong to an activation itself. *)
Definition own_label (lb : label) : bool :=
  match lb with LTop | LDone | LRecv | LGor _ _ => true | LSend _ | LTake => false end.

(** [defer func() { close(m.disabled); jobsDone.Done() }()] runs when an
    activation returns; [m.disabled] is the channel of the activation that began
    last. *)
Definition lstep (i : nat) (lb : label) (w : wstate) : option wstate :=
  if own_label lb then
    match wloops w !! i with
    | Some l =>
        match jstep lb (mkConf (wsh w) l None) with
        | Some c =>
            let returns := returned (lp c) && negb (returned l) in
            let w' := mkW (wL w) (wsched w) (sh c) (wnew w) (<[i := lp c]> (wloops w)) (wpc w)
                        (wthreads w) (wexit w) (wdis w || returns) (reports w)
                        (JobCrash <$> crashed c) in
            Some (if returns && wdis w then kill_process CloseOfClosedDisabled w' else w')
        | None => None
        end
    | None => None
    end
  else None.

(** Signals are handled one at a time. *)
Definition halting (t : tpc) : bool :=
  match t with THaltLock | THaltCheck | THaltSend | THaltWait | THaltClose => true | _ => false end.

Definition add_thread (t : tpc) (w : wstate) : wstate :=
  mkW (wL w) (wsched w) (wsh w) (wnew w) (wloops w) (wpc w) (wthreads w ++ [t]) (wexit w) (wdis w)
    (reports w) (wdead w).

Definition wstep (lb : wlabel) (w : wstate) : option wstate :=
  match wdead w with
  | Some _ => None
  | None =>
  match lb with
  | WInit mirror =>
      match wpc w with
      | SInit => if wL w then None else Some (w_start mirror w)
      | _ => None
      end
  | WTake =>
      match wpc w, mgr (wsh w) with
      | SSelect, m :: ms => Some (set_wpc (SMsg m) (set_wsh (set_mgr ms (wsh w)) w))
      | _, _ => None
      end
  | WCheck =>
      match wpc w with
      | SMsg m =>
          if j_state (wsh w) =? stateReady
          then Some (set_wpc (SAdd m) (add_report (RStatus (jm_status m) (jm_msg m)) w))
          else Some (set_wpc (SMsg2 m) w)
      | SMsg2 m =>
          if j_state (wsh w) =? stateHalting
          then Some (set_wpc (SAdd m) (add_report (RStatus (jm_status m) (jm_msg m)) w))
          else Some (set_wpc SSelect w)
      | _ => None
      end
  | WAddJob now =>
      match wpc w with
      | SAdd m =>
          if jm_schedule m then
            match AddJob (Unix (now + interval * 1000000000)) tt (wsched w) with
            | (q, Some _) => Some (set_wpc SNext (set_wsched q w))
            | (q, None) => Some (set_wpc SWedged (set_wsched q w))
            end
          else Some (set_wpc SNext w)
      | _ => None
      end
  | WNext =>
      match wpc w with
      | SNext => Some (report_schedule (set_wpc SSelect w))
      | _ => None
      end
  | WTick now =>
      match wpc w with
      | SSelect =>
          match Pop now (wsched w) with
          | (q, Some (Some _)) => Some (set_wpc STick (set_wsched q w))
          | (q, Some None) => Some (set_wsched q w)
          | (_, None) => None
          end
      | _ => None
      end
  | WTickSend =>
      match wpc w with
      | STick => if ctrl_free w then Some (set_wpc SSelect (send_ctrl jobStart w)) else None
      | _ => None
      end
  | WExit =>
      match wpc w with
      | SSelect => if wexit w && negb (wL w) then Some (set_wpc SFlush (set_L true w)) else None
      | _ => None
      end
  | WFlush =>
      match wpc w with
      | SFlush =>
          match mgr (wsh w) with
          | [] => Some (set_wpc SEnd (set_L false w))
          | m :: ms =>
              let w := set_wsh (set_mgr ms (wsh w)) w in
              Some (if String.eqb (jm_status m) Failed || String.eqb (jm_status m) Success
                    then add_report (RStatus (jm_status m) (jm_msg m)) w else w)
          end
      | _ => None
      end
  | WBegin =>
      match wnew w with
      | S n => Some (mkW (wL w) (wsched w) (wsh w) n (wloops w ++ [mkLoop MTop [] false]) (wpc w)
                       (wthreads w) (wexit w) false (reports w) (wdead w))
      | O => None
      end
  | WLoop i lb => lstep i lb w
  | WCommand c => Some (add_thread (TLock c) w)
  | WHalt => if existsb halting (wthreads w) then None else Some (add_thread THaltLock w)
  | WThread i =>
      match wthreads w !! i with
      | Some t => tstep i t w
      | None => None
      end
  end
  end.

Fixpoint wsteps (ls : list wlabel) (w : wstate) : option wstate :=
  match ls with
  | [] => Some w
  | lb :: ls => match wstep lb w with Some w' => wsteps ls w' | None => None end
  end.

Inductive wreach : wstate -> Prop :=
  | wreach_init : wreach w_init
  | wreach_step w lb w' : wreach w -> wstep lb w = Some w' -> wreach w'.

Lemma wsteps_reach ls w w' : wreach w -> wsteps ls w = Some w' -> wreach w'.
Proof.
  revert w; induction ls as [|lb ls IH]; intros w Hw E; simplify_eq/=; [done|].
  destruct (wstep lb w) eqn:Es; [|done]. eapply IH; [|exact E]. by eapply wreach_step.
Qed.

(** ** When the scheduler wedges *)

(** The schedule's mutex is held between steps exactly by a wedged scheduler, and
    the slot is empty until the scheduler has fetched the job's status. *)
Definition slot_inv (w : wstate) : Prop :=
  mu (wsched w) = match wpc w with SWedged => true | _ => false end
  /\ (wpc w = SInit -> sched (wsched w) = false).

Lemma report_schedule_parts w :
  wsched (report_schedule w) = wsched w /\ wpc (report_schedule w) = wpc w
  /\ wsh (report_schedule w) = wsh w /\ wnew (report_schedule w) = wnew w
  /\ wloops (report_schedule w) = wloops w /\ wthreads (report_schedule w) = wthreads w.
Proof. unfold report_schedule. by destruct (GetJob (wsched w)) as [? []]. Qed.

(** A command or [Halt] goroutine touches the schedule only by [Remove]. *)
Lemma tstep_slot i t w w' :
  tstep i t w = Some w' ->
  wpc w' = wpc w /\ reports w' = reports w
  /\ (wsched w' = wsched w \/ mu (wsched w) = false /\ wsched w' = set_sched false (wsched w)).
Proof.
  intros E. destruct t; unfold tstep in E; try (by repeat case_match; simplify_eq/=; auto).
  destruct (mu (wsched w)) eqn:Em.
  - apply blocked_for_ever in Em as (_ & Hr & _). rewrite Hr in E. done.
  - rewrite (Remove_free _ Em) in E. simplify_eq/=. auto.
Qed.

Lemma lstep_slot i lb w w' :
  lstep i lb w = Some w' ->
  wpc w' = wpc w /\ reports w' = reports w /\ wsched w' = wsched w /\ wthreads w' = wthreads w.
Proof.
  unfold lstep. intros E. destruct (own_label lb); [|done].
  destruct (wloops w !! i) as [l|]; [|done].
  destruct (jstep lb _) as [c|]; [|done]. simplify_eq. by case_match.
Qed.

(** [AddJob] on a free schedule: it succeeds exactly on an empty slot. *)
Lemma AddJob_cases t (q : @schedule unit) :
  mu q = false ->
  (sched q = false /\ AddJob t tt q = (mkSchedule false (Some tt) t true, Some tt))
  \/ (sched q = true /\ AddJob t tt q = (set_locked true q, None)).
Proof.
  intros Hm. destruct (sched q) eqn:E; [right|left]; split; [done| |done|];
    [by apply AddJob_self_deadlock|by apply AddJob_free].
Qed.

(** The start of [runSchedule] finds the slot empty. *)
Lemma w_start_slot mirror w :
  mu (wsched w) = false -> sched (wsched w) = false ->
  mu (wsched (w_start mirror w)) = false /\ wpc (w_start mirror w) = SNext.
Proof.
  intros Hm Hs. unfold w_start. destruct (String.eqb _ Disabled); [done|].
  destruct (String.eqb _ Paused); [done|].
  cbn [spawn set_wsh wsched]. by rewrite AddJob_free.
Qed.

(** The step that wedges the scheduler. *)
Definition wedging (lb : wlabel) (w : wstate) : Prop :=
  exists now m, lb = WAddJob now /\ wpc w = SAdd m /\ jm_schedule m = true
    /\ sched (wsched w) = true.

(** What every step does to the slot: the invariant is kept, and a scheduler that
    is not wedged becomes so exactly by a wedging step. *)
Definition slot_ok (lb : wlabel) (w w' : wstate) : Prop :=
  slot_inv w' /\ (wpc w <> SWedged -> wpc w' = SWedged <-> wedging lb w).

Definition is_add (lb : wlabel) : bool := match lb with WAddJob _ => true | _ => false end.

(** Steps that leave the scheduler where it is. *)
Lemma slot_ok_same lb w w' :
  slot_inv w -> is_add lb = false -> wpc w' = wpc w -> mu (wsched w') = mu (wsched w) ->
  (sched (wsched w') = sched (wsched w) \/ sched (wsched w') = false) -> slot_ok lb w w'.
Proof.
  intros [Hm Hi] Hl Hp Hmu Hs. unfold slot_ok, slot_inv. rewrite Hp, Hmu. split; [split; [done|]|].
  - intros Ep. destruct Hs as [->|Hs]; auto.
  - intros Hne. split; [done|]. by intros (now & m & -> & _).
Qed.

(** Steps that move the scheduler and release what they lock. *)
Lemma slot_ok_move lb w w' :
  is_add lb = false -> mu (wsched w') = false -> wpc w' <> SInit -> wpc w' <> SWedged ->
  slot_ok lb w w'.
Proof.
  intros Hl Hmu H1 H2. unfold slot_ok, slot_inv. split; [split; [|done]|].
  - rewrite Hmu. by destruct (wpc w').
  - intros Hne. split; [done|]. by intros (now & m & -> & _).
Qed.

Lemma slot_ok_add now m w w' :
  slot_inv w -> wpc w = SAdd m -> wdead w = None -> wstep (WAddJob now) w = Some w' ->
  slot_ok (WAddJob now) w w'.
Proof.
  intros [Hm Hi] Ep Hd E. unfold wstep in E. rewrite Hd, Ep in E. rewrite Ep in Hm.
  assert (Hnw : jm_schedule m = false \/ sched (wsched w) = false -> ~ wedging (WAddJob now) w).
  { intros Hf (now' & m' & _ & Ep' & Hs & Hq). destruct Hf; congruence. }
  assert (Hidle : forall w0, mu (wsched w0) = false -> wpc w0 = SNext ->
    ~ wedging (WAddJob now) w -> slot_ok (WAddJob now) w w0).
  { intros w0 Hmu Hp Hn. unfold slot_ok, slot_inv. by rewrite Hp, Hmu. }
  destruct (jm_schedule m) eqn:Es; [|simplify_eq; apply Hidle; auto].
  destruct (AddJob_cases (Unix (now + interval * 1000000000)) (wsched w) Hm)
    as [[Hq Ea]|[Hq Ea]]; rewrite Ea in E; simplify_eq; [apply Hidle; auto|].
  split; [done|]. intros _. split; [|done]. intros _. exists now, m. auto.
Qed.

Lemma slot_step lb w w' : slot_inv w -> wstep lb w = Some w' -> slot_ok lb w w'.
Proof.
  intros Hinv E. pose proof Hinv as [Hm Hi]. pose proof E as E0.
  unfold wstep in E. destruct (wdead w) eqn:Hd; [done|]. destruct lb.
  1-9: destruct (wpc w) eqn:Ep; try done.
  - destruct (wL w); [done|]. simplify_eq.
    destruct (w_start_slot mirror w Hm (Hi eq_refl)) as [H1 H2].
    by apply slot_ok_move; rewrite ?H2.
  - destruct (mgr (wsh w)); simplify_eq. by apply slot_ok_move.
  - destruct (_ =? _); simplify_eq; by apply slot_ok_move.
  - destruct (_ =? _); simplify_eq; by apply slot_ok_move.
  - by eapply slot_ok_add.
  - simplify_eq. destruct (report_schedule_parts (set_wpc SSelect w)) as (E1 & E2 & _).
    by apply slot_ok_move; rewrite ?E1, ?E2.
  - rewrite (Pop_free now _ Hm) in E.
    destruct (sched (wsched w) && _); [|simplify_eq; by apply slot_ok_same; auto].
    destruct (job (wsched w)); simplify_eq; apply slot_ok_move; simpl; by rewrite ?Ep.
  - destruct (ctrl_free w); simplify_eq. by apply slot_ok_move.
  - destruct (wexit w && _); simplify_eq. by apply slot_ok_move.
  - destruct (mgr (wsh w)); simplify_eq; [by apply slot_ok_move|].
    destruct (String.eqb _ _ || _); apply slot_ok_same; auto.
  - destruct (wnew w); simplify_eq. apply slot_ok_same; auto.
  - apply lstep_slot in E as (? & ? & E & _). apply slot_ok_same; rewrite ?E; auto.
  - simplify_eq. apply slot_ok_same; auto.
  - destruct (existsb _ _); simplify_eq. apply slot_ok_same; auto.
  - destruct (wthreads w !! i); [|done].
    apply tstep_slot in E as (Hp & _ & [Hq|[Hmu Hq]]); apply slot_ok_same; rewrite ?Hq; auto.
Qed.

Lemma wreach_slot w : wreach w -> slot_inv w.
Proof. induction 1 as [|w lb w' _ IH E]; [done|]. by destruct (slot_step lb w w' IH E). Qed.

(** ** A wedged worker *)

(** A command goroutine that has got past [w.schedule.Remove()]. *)
Definition serving (t : tpc) : bool :=
  match t with
  | TSwitch _ | TAct _ | TSend _ => true
  | TReply code | TOver code => (code =? 200) || (code =? 406)
  | _ => false
  end.

(** Every goroutine serving a command in [l'] was already serving it in [l]. *)
Definition no_new_service (l l' : list tpc) : Prop :=
  forall i t', l' !! i = Some t' -> serving t' = true ->
    exists t, l !! i = Some t /\ serving t = true.

Lemma no_new_service_refl l : no_new_service l l.
Proof. intros i t Ht Hs. eauto. Qed.

Lemma no_new_service_trans l1 l2 l3 :
  no_new_service l1 l2 -> no_new_service l2 l3 -> no_new_service l1 l3.
Proof. intros H1 H2 i t Ht Hs. destruct (H2 i t Ht Hs) as (t2 & Ht2 & Hs2). eauto. Qed.

Lemma no_new_service_insert l i t t' :
  l !! i = Some t -> (serving t' = true -> serving t = true) -> no_new_service l (<[i := t']> l).
Proof.
  intros Hi Hs k u Hk Hu. destruct (decide (k = i)) as [->|Hne].
  - apply list_lookup_insert_Some in Hk as [(_ & <- & _)|[? _]]; [eauto|done].
  - rewrite list_lookup_insert_ne in Hk by done. eauto.
Qed.

Lemma no_new_service_snoc l t : serving t = false -> no_new_service l (l ++ [t]).
Proof.
  intros Hs i u Hi Hu. apply lookup_app_Some in Hi as [Hi|[_ Hi]]; [eauto|].
  destruct (i - length l)%nat; simplify_eq/=. congruence.
Qed.

Lemma tstep_service i t w w' :
  mu (wsched w) = true -> wthreads w !! i = Some t -> tstep i t w = Some w' ->
  no_new_service (wthreads w) (wthreads w').
Proof.
  intros Hm Hi E.
  destruct t; unfold tstep in E; repeat (case_match; try done); simplify_eq;
    try (by eapply no_new_service_insert);
    try (by apply no_new_service_refl).
  all: try (apply blocked_for_ever in Hm as (_ & Hr & _); congruence).
Qed.

Record wedged_after (w w' : wstate) : Prop := {
  wedged_pc : wpc w' = SWedged;
  wedged_reports : reports w' = reports w;
  wedged_service : no_new_service (wthreads w) (wthreads w');
}.

Lemma wedged_step lb w w' :
  slot_inv w -> wpc w = SWedged -> wstep lb w = Some w' -> wedged_after w w'.
Proof.
  intros [Hm _] Hp E. rewrite Hp in Hm. unfold wstep in E. rewrite Hp in E.
  destruct (wdead w); [done|].
  destruct lb; try done.
  - destruct (wnew w); simplify_eq. split; [done|done|apply no_new_service_refl].
  - apply lstep_slot in E as (E1 & E2 & E3 & E4). split; [congruence|done|].
    rewrite E4. apply no_new_service_refl.
  - simplify_eq. split; [done|done|by apply no_new_service_snoc].
  - destruct (existsb _ _); simplify_eq. split; [done|done|by apply no_new_service_snoc].
  - destruct (wthreads w !! i) eqn:Et; [|done].
    pose proof (tstep_service i _ w w' Hm Et E). apply tstep_slot in E as (E1 & E2 & _).
    split; [congruence|done|done].
Qed.

Lemma wedged_steps ls w w' :
  slot_inv w -> wpc w = SWedged -> wsteps ls w = Some w' -> wedged_after w w'.
Proof.
  revert w; induction ls as [|lb ls IH]; intros w Hi Hp E; simpl in E.
  { simplify_eq. split; [done|done|apply no_new_service_refl]. }
  destruct (wstep lb w) as [w1|] eqn:E1; [|done].
  destruct (wedged_step lb w w1 Hi Hp E1) as [H1 H2 H3].
  destruct (IH w1 (proj1 (slot_step lb w w1 Hi E1)) H1 E) as [H4 H5 H6].
  split; [done|congruence|by eapply no_new_service_trans].
Qed.

(** ** A job that is not disabled has one loop *)

(** The job is not [Disabled] when the worker fetches its status. *)
Definition starts_enabled (lb : wlabel) : bool :=
  match lb with WInit mirror => negb (String.eqb (st_Status mirror) Disabled) | _ => true end.

Definition sends_disable (t : tpc) : bool :=
  match t with TSend jobDisable => true | _ => false end.

Definition pending_start (p : spc) : nat := match p with SInit => 1 | _ => 0 end.

Definition loops_ok (x : shared) (ls : list (loop (H := H))) : Prop :=
  match ls with
  | [] => sem x = 0%nat
  | [l] => inv cap (mkConf x l None)
  | _ => False
  end.

Record winv (w : wstate) : Prop := {
  winv_state : j_state (wsh w) <> stateDisabled;
  winv_ctrl : jobDisable ∉ ctrl (wsh w);
  winv_clen : (length (ctrl (wsh w)) <= ctrlCap)%nat;
  winv_mlen : (length (mgr (wsh w)) <= managerCap)%nat;
  winv_threads : Forall (fun t => sends_disable t = false) (wthreads w);
  winv_count : (length (wloops w) + wnew w + pending_start (wpc w) <= 1)%nat;
  winv_loops : loops_ok (wsh w) (wloops w);
}.

(** [loops_ok] depends on the shared objects only through the semaphore and the
    channel bounds. *)
Lemma loops_ok_frame x y ls :
  sem y = sem x -> (length (ctrl y) <= ctrlCap)%nat -> (length (mgr y) <= managerCap)%nat ->
  loops_ok x ls -> loops_ok y ls.
Proof.
  intros Hs Hc Hm. destruct ls as [|l [|l' ls]]; simpl; [congruence| |done].
  intros [I1 I2 I3 _ _ I6]. split; simpl in *; congruence || done.
Qed.

(** Steps that only touch the job's state and channels. *)
Lemma winv_shared x w :
  winv w -> j_state x <> stateDisabled -> sem x = sem (wsh w) -> jobDisable ∉ ctrl x ->
  (length (ctrl x) <= ctrlCap)%nat -> (length (mgr x) <= managerCap)%nat ->
  winv (set_wsh x w).
Proof.
  intros [I1 I2 I3 I4 I5 I6 I7] Hj Hs Hc Hl Hm. split; try done. by eapply loops_ok_frame.
Qed.

(** Steps that do not touch the job at all. *)
Lemma winv_frame w w' :
  winv w -> wsh w' = wsh w -> wloops w' = wloops w -> wnew w' = wnew w ->
  (pending_start (wpc w') <= pending_start (wpc w))%nat ->
  (wthreads w' = wthreads w
   \/ exists t, sends_disable t = false
        /\ (wthreads w' = wthreads w ++ [t] \/ exists i, wthreads w' = <[i := t]> (wthreads w))) ->
  winv w'.
Proof.
  intros [I1 I2 I3 I4 I5 I6 I7] Hx Hl Hn Hp Ht. split; rewrite ?Hx, ?Hl, ?Hn; try done; [|lia].
  destruct Ht as [->|(t & Hs & [->|[i ->]])]; [done| |].
  - apply Forall_app. split; [done|]. by apply Forall_singleton.
  - by apply Forall_insert.
Qed.

Lemma winv_report w : winv w -> winv (report_schedule w).
Proof.
  intros Hw. destruct (report_schedule_parts w) as (_ & E2 & E3 & E4 & E5 & E6).
  apply (winv_frame w); rewrite ?E2; auto.
Qed.

Lemma winv_send a w :
  winv w -> a <> jobDisable -> ctrl_free w = true -> winv (send_ctrl a w).
Proof.
  intros Hw Ha Hf. pose proof Hw as [I1 I2 I3 I4 _ _ _]. apply Nat.ltb_lt in Hf.
  apply winv_shared; simpl; try done.
  - rewrite elem_of_app, list_elem_of_singleton. intros [?|?]; congruence.
  - rewrite length_app. simpl. unfold ctrlCap in *. lia.
Qed.

Lemma winv_take m ms w : winv w -> mgr (wsh w) = m :: ms -> winv (set_wsh (set_mgr ms (wsh w)) w).
Proof.
  intros Hw Hm. pose proof Hw as [I1 I2 I3 I4 _ _ _].
  rewrite Hm in I4. apply winv_shared; simpl in *; try done. lia.
Qed.

Lemma winv_start mirror w :
  winv w -> wpc w = SInit -> String.eqb (st_Status mirror) Disabled = false ->
  winv (w_start mirror w).
Proof.
  intros Hw Hp Hs. pose proof Hw as [I1 I2 I3 I4 I5 I6 I7]. rewrite Hp in I6. simpl in I6.
  assert (Hgo : forall s q p, s <> stateDisabled -> pending_start p = 0%nat ->
    winv (set_wpc p (set_wsched q (spawn (set_wsh (set_state s (wsh w)) w))))).
  { intros s q p Hne Hp0. split; simpl; try done; [lia|]. by apply (loops_ok_frame (wsh w)). }
  unfold w_start. rewrite Hs. destruct (String.eqb _ Paused).
  - by apply (Hgo statePaused (wsched w)).
  - destruct (AddJob _ tt _) as [q [u|]]; by apply (Hgo stateNone).
Qed.

Lemma winv_tstep i t w w' :
  winv w -> wthreads w !! i = Some t -> tstep i t w = Some w' -> winv w'.
Proof.
  intros Hw Hi E. pose proof Hw as [I1 _ _ _ I5 _ _].
  assert (Hd : (j_state (wsh w) =? stateDisabled) = false) by (by apply Z.eqb_neq).
  assert (Hset : forall t' v, winv v -> wthreads v = wthreads w -> sends_disable t' = false ->
    winv (set_thread i t' v)).
  { intros t' v Hv Ht Hs. apply (winv_frame v); auto. right. exists t'. split; [done|].
    right. by exists i. }
  assert (Hother : forall t' v, wsh v = wsh w -> wloops v = wloops w -> wnew v = wnew w ->
    wpc v = wpc w -> wthreads v = wthreads w -> sends_disable t' = false ->
    winv (set_thread i t' v)).
  { intros t' v H1 H2 H3 H4 H5 H6. apply Hset; [|done|done].
    apply (winv_frame w); rewrite ?H4; auto. }
  destruct t; unfold tstep in E; rewrite ?Hd, ?andb_false_r in E.
  - destruct (wL w); simplify_eq. by apply Hother; auto; destruct c.
  - destruct (Remove _) as [q [u|]]; simplify_eq. by apply Hother.
  - simplify_eq. by apply Hother.
  - simplify_eq. apply Hother; auto. unfold command_action. by destruct (cc_Cmd c), (cc_Force c).
  - destruct (ctrl_free w) eqn:Hf; simplify_eq. apply Hset; [|done|done].
    apply winv_send; [done| |done]. rewrite Forall_lookup in I5. apply I5 in Hi. by destruct a.
  - simplify_eq. by apply Hother.
  - destruct (wL w); simplify_eq. by apply Hother.
  - simplify_eq. by apply Hother.
  - destruct (ctrl_free w) eqn:Hf; simplify_eq. apply Hset; [|done|done]. by apply winv_send.
  - destruct (all_done w); simplify_eq. by apply Hother.
  - destruct (wexit w); simplify_eq.
    + by apply (winv_frame w); auto.
    + apply (winv_frame w); auto. right. exists (TOver 0). split; [done|]. right. by exists i.
  - done.
Qed.

Lemma winv_lstep i lb w w' : winv w -> lstep i lb w = Some w' -> winv w'.
Proof.
  intros [I1 I2 I3 I4 I5 I6 I7] E. unfold lstep in E. destruct (own_label lb) eqn:Eo; [|done].
  destruct (wloops w !! i) as [l|] eqn:Ei; [|done].
  destruct (jstep lb _) as [c|] eqn:Ej; [|done].
  destruct (wloops w) as [|l0 [|? ?]] eqn:El; [done| |done].
  destruct i; [|done]. simplify_eq/=.
  pose proof (step_inv _ _ _ _ _ _ _ _ I7 Ej) as Hc.
  pose proof (step_state _ _ _ _ _ _ _ _ I7 Ej) as Hst. simpl in Hst.
  assert (Hctrl : ctrl (sh c) = ctrl (wsh w) \/ exists a, ctrl (wsh w) = a :: ctrl (sh c)).
  { eapply (step_ctrl _ _ _ _ _ lb (mkConf (wsh w) l None) c I7); [|exact Ej]. by destruct lb. }
  assert (Hgoal : forall b d o, winv (mkW (wL w) (wsched w) (sh c) (wnew w) [lp c] (wpc w)
    (wthreads w) (wexit w) b d o)).
  { intros b d o. destruct Hc as [C1 C2 C3 C4 C5 C6]. split; simpl; try done.
    - rewrite Hst. destruct lb; try done. destruct (ctrl (wsh w)) as [|a cs]; [done|].
      destruct a; simpl; try done; [by destruct I2; left|by destruct (running _)].
    - destruct Hctrl as [->|[a Ha]]; [done|]. rewrite Ha in I2. intros ?. apply I2. by right. }
  destruct (_ && wdis w); apply Hgoal.
Qed.

Lemma winv_init : winv w_init.
Proof. split; simpl; try done; unfold ctrlCap, managerCap; try lia. apply not_elem_of_nil. Qed.

Lemma winv_step lb w w' :
  winv w -> starts_enabled lb = true -> wstep lb w = Some w' -> winv w'.
Proof.
  intros Hw Hl E. unfold wstep in E. destruct (wdead w) eqn:Hd; [done|]. destruct lb.
  1-9: destruct (wpc w) eqn:Ep; try done.
  - destruct (wL w); [done|]. simplify_eq. apply winv_start; [done|done|].
    by apply negb_true_iff in Hl.
  - destruct (mgr (wsh w)) as [|m ms] eqn:Em; simplify_eq.
    apply (winv_frame _ _ (winv_take m ms w Hw Em)); simpl; auto. by rewrite Ep.
  - destruct (_ =? _); simplify_eq; apply (winv_frame w); simpl; auto; by rewrite Ep.
  - destruct (_ =? _); simplify_eq; apply (winv_frame w); simpl; auto; by rewrite Ep.
  - destruct (jm_schedule m); [destruct (AddJob _ tt _) as [q [u|]]|]; simplify_eq;
      apply (winv_frame w); simpl; auto; by rewrite Ep.
  - simplify_eq. apply winv_report. apply (winv_frame w); simpl; auto. by rewrite Ep.
  - destruct (Pop _ _) as [q [[u|]|]]; simplify_eq; apply (winv_frame w); simpl; auto;
      by rewrite Ep.
  - destruct (ctrl_free w) eqn:Hf; simplify_eq.
    apply (winv_frame (send_ctrl jobStart w)); simpl; auto; [by apply winv_send|by rewrite Ep].
  - destruct (wexit w && _); simplify_eq. apply (winv_frame w); simpl; auto; by rewrite Ep.
  - destruct (mgr (wsh w)) as [|m ms] eqn:Em; simplify_eq.
    + apply (winv_frame w); simpl; auto; by rewrite Ep.
    + destruct (String.eqb _ _ || _); apply (winv_frame _ _ (winv_take m ms w Hw Em)); auto.
  - destruct (wnew w) as [|n] eqn:En; simplify_eq. destruct Hw as [I1 I2 I3 I4 I5 I6 I7].
    rewrite En in I6. split; simpl; try done.
    + rewrite length_app. simpl. lia.
    + destruct (wloops w); [|simpl in I6; lia]. split; simpl in *; try done; lia.
  - by eapply winv_lstep.
  - simplify_eq. apply (winv_frame w); auto. right. exists (TLock c). auto.
  - destruct (existsb _ _); simplify_eq. apply (winv_frame w); auto. right. exists THaltLock. auto.
  - destruct (wthreads w !! i) eqn:Et; [|done]. by eapply winv_tstep.
Qed.

Lemma winv_steps ls w w' :
  winv w -> Forall (fun lb => starts_enabled lb = true) ls -> wsteps ls w = Some w' -> winv w'.
Proof.
  revert w; induction ls as [|lb ls IH]; intros w Hw Hf E; simpl in E; [by simplify_eq|].
  apply Forall_cons in Hf as [Hl Hf]. destruct (wstep lb w) as [w1|] eqn:E1; [|done].
  eapply IH; [|done|done]. by eapply winv_step.
Qed.
End worker.

(** ** Properties *)
Section properties.
Context {H : Type} (Hooks : list H) (Retry : Z) (mname tmo : string) (cap : nat) (interval : Z).
Abbreviation wsteps := (wsteps Hooks Retry mname tmo cap interval).
Abbreviation wstep := (wstep Hooks Retry mname tmo cap interval).
Abbreviation wreach := (wreach Hooks Retry mname tmo cap interval).

(** C1: in a worker whose job is not Disabled when its status is fetched, at most
    one sync is in progress at any time, whatever commands, ticks, signals and
    job results are interleaved, and across every activation of the job loop. *)
Theorem worker_runs_one_sync_at_a_time (ls : list wlabel) (w : wstate (H := H))
    (i1 i2 k1 k2 : nat) (l1 l2 : loop) (g1 g2 : gor) :
  Forall (fun lb => starts_enabled lb = true) ls -> wsteps ls w_init = Some w ->
  wloops w !! i1 = Some l1 -> gs l1 !! k1 = Some g1 -> finished g1 = false ->
  wloops w !! i2 = Some l2 -> gs l2 !! k2 = Some g2 -> finished g2 = false ->
  i1 = i2 /\ k1 = k2.
Proof.
  intros Hf E L1 G1 F1 L2 G2 F2.
  destruct (winv_steps _ _ _ _ _ _ ls _ w (winv_init cap) Hf E) as [_ _ _ _ _ _ Hl].
  destruct (wloops w) as [|l [|? ?]]; try done.
  destruct i1, i2; simplify_eq/=. split; [done|]. by eapply (inv_no_overlap cap (mkConf _ _ None)).
Qed.

(** C2: the scheduler goroutine deadlocks on the mutex of its own schedule exactly when it
    adds the job to a slot that is already full: no other step of the worker brings
    it there, that one always does, and once it is there it stays there and reports
    nothing more, whatever else the worker does. *)
Theorem scheduler_deadlocks_exactly_on_full_slot (lb : wlabel) (w w' : wstate (H := H)) :
  wreach w -> wstep lb w = Some w' -> wpc w <> SWedged ->
  (wpc w' = SWedged <->
   exists now m, lb = WAddJob now /\ wpc w = SAdd m /\ jm_schedule m = true
     /\ sched (wsched w) = true) /\
  (wpc w' = SWedged -> forall ls w2, wsteps ls w' = Some w2 -> wpc w2 = SWedged /\ reports w2 = reports w').
Proof.
  intros Hr E Hn. destruct (slot_step _ _ _ _ _ _ _ _ _ (wreach_slot _ _ _ _ _ _ _ Hr) E) as [Hs Hw].
  split; [by apply Hw|]. intros Hp ls w2 Hls. by destruct (wedged_steps _ _ _ _ _ _ ls w' w2 Hs Hp Hls).
Qed.

(** Once the scheduler is wedged nothing brings it back, not even Halt: no
    status or schedule reaches the manager again, and no command that had not
    yet passed Remove is ever served. *)
Theorem wedged_worker_never_recovers (ls : list wlabel) (w w' : wstate (H := H)) :
  wreach w -> wpc w = SWedged -> wsteps ls w = Some w' ->
  wpc w' = SWedged /\ reports w' = reports w
  /\ no_new_service (wthreads w) (wthreads w').
Proof.
  intros Hr Hp E. by destruct (wedged_steps _ _ _ _ _ _ ls w w' (wreach_slot _ _ _ _ _ _ _ Hr) Hp E).
Qed.
End properties.

(** ** Two runs of the worker *)
Module Demo.
Definition commands (ls : list wlabel) : list (option ClientCmd) :=
  omap (fun lb => match lb with WCommand c => Some c | _ => None end) ls.

(** A failed first attempt, a second attempt under way, and a restart. *)
Definition attempt1 : list wlabel :=
  [WInit zeroJobStatus; WNext; WBegin; WLoop 0 LTop; WTick 86401000000000; WTickSend;
   WLoop 0 LRecv; WLoop 0 LTop; WLoop 0 (LGor 0 ASem); WLoop 0 (LGor 0 AAuto);
   WLoop 0 (LGor 0 AAuto); WLoop 0 (LGor 0 (AStart Started));
   WLoop 0 (LGor 0 (AWait (WaitDone (Some "exit status 10"))));
   WLoop 0 (LGor 0 AAuto); WLoop 0 (LGor 0 AAuto); WLoop 0 (LGor 0 (AStart Started))].
Definition restart : list wlabel :=
  [WCommand (Some (mkClientCmd CmdRestart false));
   WThread 0; WThread 0; WThread 0; WThread 0; WThread 0; WThread 0;
   WLoop 0 LRecv; WLoop 0 (LGor 0 (AWait WaitKilled)); WLoop 0 (LGor 0 (ATerm None));
   WLoop 0 (LGor 0 AAuto); WLoop 0 (LGor 0 AAuto); WLoop 0 (LGor 0 AAuto);
   WLoop 0 LDone; WLoop 0 LTop; WLoop 0 (LGor 0 AAuto)].
(** The scheduler handles the next message at time [now]. *)
Definition handle (now : Z) : list wlabel := [WTake; WCheck; WAddJob now; WNext].
Definition rerun : list wlabel :=
  [WLoop 0 (LGor 1 ASem); WLoop 0 (LGor 1 AAuto); WLoop 0 (LGor 1 AAuto);
   WLoop 0 (LGor 1 (AStart Started)); WLoop 0 (LGor 1 (AWait (WaitDone None)));
   WLoop 0 (LGor 1 AAuto); WLoop 0 (LGor 1 AAuto); WLoop 0 (LGor 1 AAuto)].

Definition killed_labels : list wlabel :=
  attempt1 ++ restart ++ concat (replicate 5 (handle 86500000000000)).
Definition wedged_labels : list wlabel :=
  killed_labels ++ rerun ++ handle 87000000000000 ++ handle 87000000000000 ++
  [WTake; WCheck; WAddJob 87000000000000].

Definition drun (cap : nat) (ls : list wlabel) : option (wstate (H := nat)) :=
  wsteps [] 2 "debian" "1h0m0s" cap 86400 ls w_init.
Definition at_ (cap : nat) (ls : list wlabel) : wstate (H := nat) := default w_init (drun cap ls).

(** Two Start commands reach a Disabled job before its loop has begun. *)
Definition start_cmd : wlabel := WCommand (Some (mkClientCmd CmdStart false)).
Definition double_labels : list wlabel :=
  [WInit (mkJobStatus Disabled 0 0 0 0 "" 0 "" 0 0); WNext; start_cmd; start_cmd;
   WThread 0; WThread 0; WThread 0; WThread 0; WThread 0; WThread 0;
   WThread 1; WThread 1; WThread 1; WThread 1; WBegin; WBegin; WLoop 0 LTop; WLoop 1 LTop;
   WLoop 0 LRecv; WThread 1; WLoop 1 LRecv; WLoop 0 LTop; WLoop 1 LTop;
   WLoop 0 (LGor 0 ASem); WLoop 1 (LGor 0 ASem);
   WLoop 0 (LGor 0 AAuto); WLoop 1 (LGor 0 AAuto);
   WLoop 0 (LGor 0 AAuto); WLoop 1 (LGor 0 AAuto);
   WLoop 0 (LGor 0 (AStart Started)); WLoop 1 (LGor 0 (AStart Started))].

Lemma drun_at cap ls :
  drun cap ls <> None -> wsteps [] 2 "debian" "1h0m0s" cap 86400 ls w_init = Some (at_ cap ls).
Proof. unfold at_. fold (drun cap ls). by destruct (drun cap ls). Qed.

Lemma drun_reach cap ls :
  drun cap ls <> None -> wreach [] 2 "debian" "1h0m0s" cap 86400 (at_ cap ls).
Proof.
  intros Hn. eapply wsteps_reach; [apply wreach_init|]. exact (drun_at cap ls Hn).
Qed.
Definition loop_at (i : nat) (w : wstate (H := nat)) : loop :=
  default (mkLoop MTop [] false) (wloops w !! i).
Definition run_at (i k : nat) (w : wstate (H := nat)) : gor :=
  default (mkGor GDead false false) (gs (loop_at i w) !! k).
End Demo.
Import Demo.

(** A Restart that arrives while the last attempt of a run is under way kills
    the run, whose last message still asks for the next schedule; the restarted
    run then ends, asks again, and the scheduler is wedged: its success is the
    last report the manager receives, and the next schedule is never sent. *)
Theorem restart_in_last_attempt_wedges :
  exists ls w, commands ls = [Some (mkClientCmd CmdRestart false)]
    /\ wsteps (H := nat) [] 2 "debian" "1h0m0s" 1 86400 ls w_init = Some w
    /\ wpc w = SWedged /\ last (reports w) = Some (RStatus Success "").
Proof.
  exists wedged_labels, (at_ 1 wedged_labels).
  split; [reflexivity|]. split; [|split; vm_compute; reflexivity].
  apply (drun_at 1 wedged_labels). vm_compute. discriminate.
Qed.

(** The hypothesis of one sync at a time is needed: two Start commands to a
    Disabled job, the second served before the loop has left that state, begin
    two activations of Run that sync at the same time. *)
Theorem starts_of_a_disabled_job_overlap :
  exists ls w l1 l2 g1 g2, wsteps (H := nat) [] 2 "debian" "1h0m0s" 2 86400 ls w_init = Some w
    /\ wloops w !! 0%nat = Some l1 /\ gs l1 !! 0%nat = Some g1 /\ finished g1 = false
    /\ wloops w !! 1%nat = Some l2 /\ gs l2 !! 0%nat = Some g2 /\ finished g2 = false
    /\ commands ls = [Some (mkClientCmd CmdStart false); Some (mkClientCmd CmdStart false)].
Proof.
  pose proof (drun_at 2 double_labels ltac:(vm_compute; discriminate)) as E.
  exists double_labels, (at_ 2 double_labels), (loop_at 0 (at_ 2 double_labels)),
    (loop_at 1 (at_ 2 double_labels)), (run_at 0 0 (at_ 2 double_labels)),
    (run_at 1 0 (at_ 2 double_labels)). split_and!.
  1: exact E.
  all: vm_compute; reflexivity.
Qed.

(** *** Witnesses: the restarted run of [killed_labels], whose goroutine waits for
    the semaphore, and the wedged worker of [wedged_labels]. *)
Lemma worker_runs_one_sync_at_a_time_witness :
  exists l g, wloops (at_ 1 killed_labels) !! 0%nat = Some l /\ gs l !! 1%nat = Some g
    /\ finished g = false /\ (0 = 0 /\ 1 = 1)%nat.
Proof.
  exists (loop_at 0 (at_ 1 killed_labels)), (mkGor GSelect false false).
  do 3 (split; [vm_compute; reflexivity|]).
  apply (worker_runs_one_sync_at_a_time [] 2 "debian" "1h0m0s" 1 86400 killed_labels
    (at_ 1 killed_labels) 0 0 1 1 (loop_at 0 (at_ 1 killed_labels)) (loop_at 0 (at_ 1 killed_labels))
    (mkGor GSelect false false) (mkGor GSelect false false)).
  1: repeat constructor.
  1: apply drun_at; vm_compute; discriminate.
  all: vm_compute; reflexivity.
Defined.

Lemma scheduler_deadlocks_exactly_on_full_slot_witness :
  sched (wsched (at_ 1 (take (length wedged_labels - 1) wedged_labels))) = true /\
  forall ls w, wsteps [] 2 "debian" "1h0m0s" 1 86400 ls (at_ 1 wedged_labels) = Some w -> wpc w = SWedged.
Proof.
  set (ls := take (length wedged_labels - 1) wedged_labels).
  assert (Hp : wpc (at_ 1 wedged_labels) = SWedged) by (vm_compute; reflexivity).
  destruct (scheduler_deadlocks_exactly_on_full_slot [] 2 "debian" "1h0m0s" 1 86400
    (WAddJob 87000000000000) (at_ 1 ls) (at_ 1 wedged_labels)
    (drun_reach 1 ls ltac:(vm_compute; discriminate))
    ltac:(vm_compute; reflexivity) ltac:(vm_compute; discriminate)) as [Hw Hf].
  split.
  - destruct (proj1 Hw Hp) as (now & m & _ & _ & _ & Hs). exact Hs.
  - intros ls' w Hls. exact (proj1 (Hf Hp ls' w Hls)).
Defined.

(** A Stop command sent to the wedged worker takes [w.L] and hangs in Remove. *)
Definition late_stop : list wlabel :=
  [WCommand (Some (mkClientCmd CmdStop false)); WThread 1; WHalt].
Lemma wedged_worker_never_recovers_witness :
  wthreads (at_ 1 (wedged_labels ++ late_stop)) !! 1%nat = Some (TRemove (mkClientCmd CmdStop false))
  /\ no_new_service (wthreads (at_ 1 wedged_labels)) (wthreads (at_ 1 (wedged_labels ++ late_stop))).
Proof.
  split; [vm_compute; reflexivity|].
  apply (wedged_worker_never_recovers [] 2 "debian" "1h0m0s" 1 86400 late_stop
    (at_ 1 wedged_labels) (at_ 1 (wedged_labels ++ late_stop))).
  - apply drun_reach. vm_compute. discriminate.
  - vm_compute. reflexivity.
  - vm_compute. reflexivity.
Defined.
