(* ===== verification/Startup.v ===== *)
(** * Starting a worker (NewTUNASyncWorker, registerWorker, fetchJobStatus,
      updateStatus of src/worker/worker.go; GetJSON of src/worker/util.go;
      newMirrorJob, SetState and SetProvider of src/worker/job.go)

    A worker is built from its configuration, announces itself to the manager,
    fetches the job's status and begins its schedule from it ([Worker]).  An
    answer of the manager is a transport error, or a status code with a body
    that is JSON or not. *)

From S2P Require Import Prelude GoLib GoSync Types Json Kube Gin ManagerJobs.
From S2P Require Import JobJson Config Context Provider Schedule Wrapper Job Worker.

Definition response : Type := outcome (Z * option json).

(** [GetJSON]: what the variable holds afterwards, and whether an error is
    returned. *)
Definition GetJSON {A} (c : codec A) (resp : response) (obj : A) : A * bool :=
  match resp with
  | Ret (code, body) =>
      if code =? 200 then
        match body with Some j => decode c j obj | None => (obj, true) end
      else (obj, true)
  | Err _ | Panic _ => (obj, true)
  end.

(** The error is only logged. *)
Definition fetchJobStatus (resp : response) : JobStatus := (GetJSON status_codec resp zeroJobStatus).1.

(** [registerWorker]: the numbers of the requests it makes; [head i] is the error
    of request [i].  Any answer of the manager counts as success. *)
Fixpoint register (retry : nat) (head : nat -> option string) (i : nat) : list nat :=
  match retry with
  | O => []
  | S retry => i :: match head i with Some _ => register retry head (S i) | None => [] end
  end.
Definition registerWorker (head : nat -> option string) : list nat := register 10 head 0.

(** The body of [updateStatus]. *)
Definition status_message (m : jobMessage) (upstream : string) (size : Z) : JobStatus :=
  mkJobStatus (jm_status m) 0 0 0 0 upstream size (jm_msg m) 0 0.

(** The job of a worker; its channel and its runs are modelled in [Job]. *)
Record mirrorJob {P : Type} := mkMirrorJob { mj_provider : P; mj_state : Z; mj_size : Z }.
#[global] Arguments mirrorJob : clear implicits.
#[global] Arguments mkMirrorJob {P}.

Definition newMirrorJob {P} (provider : P) : mirrorJob P := mkMirrorJob provider stateNone 0.
Definition SetState {P} (state : Z) (m : mirrorJob P) : mirrorJob P := mkMirrorJob (mj_provider m) state (mj_size m).
Definition SetProvider {P} (provider : P) (m : mirrorJob P) : outcome (mirrorJob P) :=
  let s := mj_state m in
  if negb (s =? stateNone) && negb (s =? stateDisabled)
  then Err ("Provider cannot be switched when job state is " +:+ Strconv.Itoa s)
  else Ret (mkMirrorJob provider s (mj_size m)).

Section new.
Context {regexp : Type} (shlex : string -> outcome (list string)).
Context (Compile : string -> outcome regexp) (formatLogDir : Config -> string -> outcome string).

Definition with_retry (r : Z) (c : Config) : Config :=
  mkConfig (c_Name c) (c_Provider c) (c_Upstream c) (c_LogDir c) (c_MirrorDir c) (c_MirrorPath c)
    (c_Concurrent c) (c_Interval c) r (c_Timeout c) (c_Command c) (c_FailOnMatch c) (c_SizePattern c)
    (c_UseIPv6 c) (c_UseIPv4 c) (c_ExcludeFile c) (c_RsyncNoTimeo c) (c_RsyncTimeout c)
    (c_RsyncOptions c) (c_RsyncOverride c) (c_Stage1Profile c) (c_ExecOnSuccess c) (c_ExecOnFailure c)
    (c_APIBase c) (c_Addr c) (c_ZFSEnable c) (c_Zpool c) (c_BtrfsEnable c) (c_SnapshotPath c)
    (c_Verbose c) (c_Debug c).

Definition initJobs (cfg : Config) : outcome (mirrorJob mirrorProvider) :=
  provider ← newMirrorProvider shlex Compile formatLogDir cfg;
  Ret (newMirrorJob provider).

(** The capacity of the semaphore and the job. *)
Definition NewTUNASyncWorker (cfg : Config) : outcome (nat * mirrorJob mirrorProvider) :=
  let cfg := if c_Retry cfg =? 0 then with_retry defaultMaxRetry cfg else cfg in
  if c_Concurrent cfg <? 0 then Panic "makechan: size out of range"
  else
    job ← initJobs cfg;
    Ret (Z.to_nat (c_Concurrent cfg), job).
End new.

(** ** Registration ends *)
Lemma register_spec retry head i :
  (0 < retry)%nat -> exists n, (0 < n <= retry)%nat /\ register retry head i = seq i n /\
    (forall j, (i <= j < i + n - 1)%nat -> head j <> None) /\
    (n = retry \/ head (i + n - 1)%nat = None).
Proof.
  revert i; induction retry as [|retry IH]; intros i H; [lia|]. simpl.
  destruct (head i) as [e|] eqn:E.
  - destruct retry as [|retry].
    + exists 1%nat. split_and!; [lia|lia|done|lia|by left].
    + destruct (IH (S i)) as (n & Hn & -> & Hf & Hl); [lia|]. exists (S n). split_and!; [lia|lia|done| |].
      * intros j Hj. destruct (decide (j = i)) as [->|]; [congruence|]. apply Hf. lia.
      * destruct Hl as [->|Hl]; [by left|right]. by replace (i + S n - 1)%nat with (S i + n - 1)%nat by lia.
  - exists 1%nat. split_and!; [lia|lia|done|lia|right]. by replace (i + 1 - 1)%nat with i by lia.
Qed.

(** C35: A worker gives up registering after ten requests: it makes at least one and
    at most ten, one after the other, stops after the first that is answered, and
    goes on to run whether or not any was. *)
Theorem registration_ends (head : nat -> option string) :
  exists n, (0 < n <= 10)%nat /\ registerWorker head = seq 0 n /\
    (forall j, (j < n - 1)%nat -> head j <> None) /\ (n = 10%nat \/ head (n - 1)%nat = None).
Proof.
  destruct (register_spec 10 head 0 ltac:(lia)) as (n & Hn & Hr & Hf & Hl).
  exists n. split_and!; [lia|lia|done| |done]. intros j Hj. apply Hf. lia.
Qed.

(** ** The schedule begins where the manager left it *)
Lemma status_wire st :
  cfits status_codec st -> fetchJobStatus (Ret (200, Some (encode status_codec st))) = st.
Proof.
  intros H. unfold fetchJobStatus, GetJSON.
  change zeroJobStatus with (czero status_codec). by rewrite (law_decode _ status_lawful st H).
Qed.

(** What the worker does with the status it starts from. *)
Definition begins (interval : Z) (st : JobStatus) (w : @wstate nat) : Prop :=
  if String.eqb (st_Status st) Disabled
  then j_state (wsh w) = stateDisabled /\ wnew w = 0%nat /\ sched (wsched w) = false
  else if String.eqb (st_Status st) Paused
  then j_state (wsh w) = statePaused /\ wnew w = 1%nat /\ sched (wsched w) = false
  else j_state (wsh w) = stateNone /\ wnew w = 1%nat /\ sched (wsched w) = true
       /\ nextScheduled (wsched w) = i64 (LastUpdate st + interval).

Lemma w_start_begins interval st : begins interval st (w_start interval st w_init).
Proof.
  unfold begins, w_start. destruct (String.eqb (st_Status st) Disabled); [done|].
  destruct (String.eqb (st_Status st) Paused); [done|].
  rewrite AddJob_free by done. done.
Qed.

Section resume.
Context {K : Type} `{!Client K JobSpec JobStatus}.

Lemma getJob_answers (k : K) id (ojb : Job) cs es t ps :
  kGet id k = Ret ojb ->
  Gin.calls (getJob id (mkHS k Free cs es t ps)).1 = cs ++ [JSON StatusOK (BStatus (Status ojb))].
Proof.
  intros Hg. apply (wp_elim (getJob id) (fun s _ => Gin.calls s = _)).
  unfold getJob, ManagerJobs.GetJob. job_steps; cbn; try done.
  - by match goal with H : kGet id k = Ret ?o |- _ => assert (o = ojb) as -> by congruence end.
  - by match goal with H : _ \/ _ |- _ => destruct H; congruence end.
Qed.
End resume.

(** A worker resumes what the manager recorded: when the manager holds the job,
    it answers the worker's request with the job's status, and a worker that
    receives the answer starts in the state Disabled without running anything, in
    the state Paused with its loop running and nothing scheduled, and otherwise
    with its loop running and a sync scheduled one interval after the last
    update. *)
Theorem worker_resumes_recorded_status {K : Type} `{!Client K JobSpec JobStatus} (k : K) (id : string)
    (ojb : Job) (interval : Z) (cs : list call) (es : list string) (t : nat)
    (ps : list (string * Sizes.ClientCmd)) :
  kGet id k = Ret ojb -> cfits status_codec (Status ojb) ->
  exists st, Gin.calls (getJob id (mkHS k Free cs es t ps)).1 = cs ++ [JSON 200 (BStatus st)] /\
    fetchJobStatus (Ret (200, Some (encode status_codec st))) = Status ojb /\
    begins interval (Status ojb)
      (w_start interval (fetchJobStatus (Ret (200, Some (encode status_codec st)))) w_init).
Proof.
  intros Hg Hf. exists (Status ojb). split; [by apply getJob_answers|]. rewrite status_wire by done.
  split; [done|]. apply w_start_begins.
Qed.

(** A worker that cannot fetch its status runs its job: after a transport
    error, an answer that is not 200 or a body that is not JSON, the job starts
    with its loop running and a sync scheduled at the interval after the epoch,
    which is due at once, even if the manager has the job disabled or paused. *)
Theorem failed_fetch_runs_job (resp : response) (interval : Z) (e : string) (code : Z) (body : option json) :
  resp = Err e \/ resp = Ret (code, body) /\ code <> 200 \/ resp = Ret (200, None) ->
  let w := w_start (H := nat) interval (fetchJobStatus resp) w_init in
  j_state (wsh w) = stateNone /\ wnew w = 1%nat /\ sched (wsched w) = true /\
  nextScheduled (wsched w) = i64 interval.
Proof.
  intros Hr. assert (fetchJobStatus resp = zeroJobStatus) as ->.
  { unfold fetchJobStatus, GetJSON.
    destruct Hr as [->|[[-> Hc%Z.eqb_neq]| ->]]; [done|by rewrite Hc|done]. }
  pose proof (w_start_begins interval zeroJobStatus) as H. unfold begins in H.
  change (st_Status zeroJobStatus) with "" in H. exact H.
Qed.

Lemma worker_resumes_recorded_status_witness :
  exists st, fetchJobStatus (Ret (200, Some (encode status_codec st))) = Demo.syncing.
Proof.
  destruct (worker_resumes_recorded_status Demo.one "debian" (Demo.job "debian" 5 Demo.syncing) 86400
    [] [] 0 []) as (st & _ & H & _).
  - vm_compute. reflexivity.
  - repeat (apply Forall_cons_2; [cbn; first [exact I|unfold two63, two64; lia]|]). constructor.
  - by exists st.
Defined.

Lemma failed_fetch_runs_job_witness :
  wnew (w_start (H := nat) 86400 (fetchJobStatus (Err "connection refused")) w_init) = 1%nat.
Proof.
  apply (failed_fetch_runs_job (Err "connection refused") 86400 "connection refused" 0 None).
  by left.
Defined.

(** A worker whose configuration asks for a negative number of concurrent syncs
    dies when it is built, whatever else the configuration says. *)
Lemma negative_concurrency_panics {regexp : Type} (shlex : string -> outcome (list string))
    (Compile : string -> outcome regexp) (formatLogDir : Config -> string -> outcome string)
    (cfg : Config) :
  c_Concurrent cfg < 0 ->
  NewTUNASyncWorker shlex Compile formatLogDir cfg = Panic "makechan: size out of range".
Proof.
  intros Hc. unfold NewTUNASyncWorker.
  assert (Hb : (c_Concurrent (if c_Retry cfg =? 0 then with_retry defaultMaxRetry cfg else cfg) <? 0) = true).
  { apply Z.ltb_lt. by destruct (c_Retry cfg =? 0). }
  by rewrite Hb.
Qed.
