(* ===== verification/Api.v ===== *)
(** * The manager's interface and the calls of a worker on it (the routes of
      GetTUNASyncManager of src/manager/server.go; HandleRequest of
      src/worker/util.go and its callers in src/worker/worker.go)

    [routes] is the table the manager registers, [engine] one request served by
    it: the path is looked up, the body decoded for the handler, the handler
    run.  The router of gin is a parameter: [Router] says no more than that it
    finds the handler of the only registered pattern a path is an instance of.
    The requests of a worker are written as it sends them, so that the worker's
    and the manager's halves of the protocol meet here. *)

From S2P Require Import Prelude GoLib GoSync Types Sizes Json Kube Cluster Gin ManagerJobs.
From S2P Require Import JobJson External ManagerObjects Config Context Provider.
From S2P Require Import Schedule Wrapper Job Worker Startup.

(** ** Routes *)
Inductive Method := GET | HEAD | POST | PATCH | DELETE.
#[export] Instance Method_eq_dec : EqDecision Method.
Proof. solve_decision. Defined.

(** A segment of a pattern: a word, or the parameter :id. *)
Inductive segment := Word (s : string) | Id.

Inductive job_endpoint :=
  | EDelete | EGet | EConfig | ELog | ECreate | ERegister | EUpdate | ESize | ESchedule
  | EEnable | EDisable | ECmd.
Inductive object_endpoint := OCreate | ODelete | OGet.
Inductive endpoint :=
  | EPing | EListJobs | EMirrorZ | EJob (e : job_endpoint)
  | EListNews | ENews (e : object_endpoint)
  | EListFiles | EFile (e : object_endpoint).

Record route := mkRoute { rt_method : Method; rt_path : list segment; rt_endpoint : endpoint }.

(** [engine.Group] *)
Definition Group (prefix : list segment) (rs : list route) : list route :=
  (fun r => mkRoute (rt_method r) (prefix ++ rt_path r) (rt_endpoint r)) <$> rs.

(** Below /job/:id. *)
Definition job_routes : list route :=
  [mkRoute DELETE [] (EJob EDelete);
   mkRoute GET [] (EJob EGet);
   mkRoute GET [Word "config"] (EJob EConfig);
   mkRoute GET [Word "log"] (EJob ELog);
   mkRoute POST [] (EJob ECreate);
   mkRoute HEAD [] (EJob ERegister);
   mkRoute PATCH [] (EJob EUpdate);
   mkRoute POST [Word "size"] (EJob ESize);
   mkRoute POST [Word "schedule"] (EJob ESchedule);
   mkRoute POST [Word "enable"] (EJob EEnable);
   mkRoute POST [Word "disable"] (EJob EDisable);
   mkRoute POST [Word "cmd"] (EJob ECmd)].

Definition routes (mirrorz : bool) : list route :=
  [mkRoute GET [Word "ping"] EPing;
   mkRoute GET [Word "jobs"] EListJobs;
   mkRoute GET [Word "api"; Word "mirrors"] EListJobs] ++
  (if mirrorz then [mkRoute GET [Word "api"; Word "mirrorz.json"] EMirrorZ] else []) ++
  Group [Word "job"; Id] job_routes ++
  [mkRoute GET [Word "announcements"] EListNews;
   mkRoute GET [Word "api"; Word "news"] EListNews] ++
  Group [Word "announcement"; Id]
    [mkRoute POST [] (ENews OCreate);
     mkRoute DELETE [] (ENews ODelete);
     mkRoute GET [] (ENews OGet)] ++
  [mkRoute GET [Word "files"] EListFiles;
   mkRoute GET [Word "api"; Word "files"] EListFiles] ++
  Group [Word "file"; Id]
    [mkRoute POST [] (EFile OCreate);
     mkRoute DELETE [] (EFile ODelete);
     mkRoute GET [] (EFile OGet)].

(** The parameter of an instance of a pattern, empty when it has none. *)
Fixpoint instance (pat : list segment) (segs : list string) : option string :=
  match pat, segs with
  | [], [] => Some ""
  | Word w :: pat, s :: segs => if String.eqb w s then instance pat segs else None
  | Id :: pat, s :: segs =>
      if String.eqb s "" then None
      else match instance pat segs with Some _ => Some s | None => None end
  | _, _ => None
  end.
Definition segments (path : string) : option (list string) :=
  match Strings.Split path "/" with
  | s :: segs => if String.eqb s "" then Some segs else None
  | [] => None
  end.
Definition candidates (rs : list route) (m : Method) (segs : list string) : list (endpoint * string) :=
  omap (fun r => if bool_decide (rt_method r = m)
                 then (fun id => (rt_endpoint r, id)) <$> instance (rt_path r) segs
                 else None) rs.

(** gin's router, as far as the manager relies on it. *)
Class Router := {
  dispatch : list route -> Method -> string -> option (endpoint * string);
  dispatch_one : forall rs m path segs x,
    segments path = Some segs -> candidates rs m segs = [x] -> dispatch rs m path = Some x;
  dispatch_none : forall rs m path segs,
    segments path = Some segs -> candidates rs m segs = [] -> dispatch rs m path = None;
}.

(** A router that takes the first match. *)
#[export] Program Instance first_router : Router := {|
  dispatch rs m path := segs ← segments path; head (candidates rs m segs) |}.
Next Obligation. intros rs m path segs x H1 H2. cbn beta. by rewrite H1; simpl; rewrite H2. Qed.
Next Obligation. intros rs m path segs H1 H2. cbn beta. by rewrite H1; simpl; rewrite H2. Qed.

(** ** Bodies *)
Definition bind {A} (c : codec A) (body : option json) : bound A :=
  match body with
  | None => mkBound (czero c) true
  | Some j => let '(v, e) := decode c j (czero c) in mkBound v e
  end.

(** [MirrorSchedule], and [SizeMsg] of updateMirrorSize. *)
Definition next_schedule : field MirrorSchedule := Field i64_codec "next_schedule" false NextSchedule.
Definition build_schedule : builder MirrorSchedule := fun g => (mkMirrorSchedule, false) <**> g next_schedule.
Definition schedule_codec : codec MirrorSchedule :=
  struct_codec [next_schedule] build_schedule (mkMirrorSchedule 0).
Definition size_field : field Z := Field u64_codec "size" false (fun z => z).
Definition size_codec : codec Z := struct_codec [size_field] (fun g => g size_field) 0.

(** [ClientCmd].  A verb is written as its name.  Its UnmarshalJSON also sees a
    null, which is the empty name; another literal than a string makes it fail
    and ends the decoding at once, an array or an object is skipped. *)
Definition CmdVerb_MarshalJSON (c : CmdVerb) : json := JStr (CmdVerb_String c).
Definition encode_cmd (c : ClientCmd) : json :=
  JObj [("cmd", CmdVerb_MarshalJSON (cc_Cmd c)); ("force", JBool (cc_Force c))].
Fixpoint decode_cmd (l : list (string * json)) (c : ClientCmd) (e : bool) : ClientCmd * bool :=
  match l with
  | [] => (c, e)
  | (k, j) :: l =>
      if same_key k "cmd" then
        match j with
        | JStr s => decode_cmd l (mkClientCmd (NewCmdVerbFromString s) (cc_Force c)) e
        | JNull => decode_cmd l (mkClientCmd (NewCmdVerbFromString "") (cc_Force c)) e
        | JArr _ | JObj _ => decode_cmd l c true
        | JBool _ | JNum _ | JFrac _ => (c, true)
        end
      else if same_key k "force" then
        match j with
        | JBool b => decode_cmd l (mkClientCmd (cc_Cmd c) b) e
        | JNull => decode_cmd l c e
        | _ => decode_cmd l c true
        end
      else decode_cmd l c e
  end.
Definition cmd_codec : codec ClientCmd :=
  let zero := mkClientCmd CmdStart false in
  mkCodec zero (fun _ => false) encode_cmd
    (fun j old => match j with
                  | JObj l => decode_cmd l old false
                  | JNull => (old, false)
                  | _ => (old, true)
                  end)
    (fun c => cc_Cmd c <> CmdUpdate) (fun _ => True).

(** [AnnouncementSpec] *)
Definition ntext (n : string) (omit : bool) (get : AnnouncementSpec -> string)
    : field AnnouncementSpec := Field string_codec n omit get.
Definition news_codec : codec AnnouncementSpec :=
  struct_codec [ntext "title" false Title; ntext "author" true Author; ntext "content" true Content]
    (fun g => (mkAnnouncementSpec, false) <**> g (ntext "title" false Title)
              <**> g (ntext "author" true Author) <**> g (ntext "content" true Content))
    (mkAnnouncementSpec "" "" "").

(** [FileBase].  A Go map is traversed in an order of its own choice. *)
Class MapRange := {
  map_range : gmap string Z -> list (string * Z);
  map_range_perm : forall m, map_range m ≡ₚ map_to_list m;
}.
#[export] Program Instance listed_range : MapRange := {| map_range := map_to_list |}.
Next Obligation. done. Qed.

Fixpoint decode_sizes (l : list (string * json)) (m : gmap string Z) (e : bool) : gmap string Z * bool :=
  match l with
  | [] => (m, e)
  | (k, j) :: l =>
      let '(v, e') := decode u64_codec j 0 in decode_sizes l (<[k := v]> m) (e || e')
  end.
Definition sizes_codec : codec (gmap string Z) :=
  mkCodec ∅ (fun m => bool_decide (m = ∅))
    (fun m => JObj (map (fun kv => (kv.1, JNum kv.2)) (sorted_entries m)))
    (fun j old => match j with
                  | JObj l => decode_sizes l old false
                  | JNull => (∅, false)
                  | _ => (old, true)
                  end)
    (fun _ => True) (fun _ => True).
(** The structure as it is decoded: type, alias, files. *)
Definition file_body : Type := string * string * gmap string Z.
Definition fb_type : field file_body := Field string_codec "type" false (fun b => b.1.1).
Definition fb_alias : field file_body := Field string_codec "alias" false (fun b => b.1.2).
Definition fb_files : field file_body := Field sizes_codec "files" false (fun b => b.2).
Definition file_codec : codec file_body :=
  struct_codec [fb_type; fb_alias; fb_files]
    (fun g => (fun t a f => (t, a, f), false) <**> g fb_type <**> g fb_alias <**> g fb_files)
    ("", "", ∅).
Definition bind_file `{!MapRange} (body : option json) : bound FileBase :=
  let b := bind file_codec body in
  let '(t, a, f) := bound_value b in mkBound (mkFileBase t a (map_range f)) (bind_failed b).

(** ** The engine *)
Record http_request := mkHttp {
  h_method : Method; h_path : string; h_pack : bool; h_body : option json;
}.

(** The request on a job that a call of its endpoint makes; creation is apart. *)
Definition job_request (e : job_endpoint) (id : string) (body : option json) : option request :=
  match e with
  | EDelete => Some (ManagerJobs.RDelete id)
  | EGet => Some (ManagerJobs.RGet id)
  | EConfig => Some (ManagerJobs.RConfig id)
  | ELog => Some (ManagerJobs.RLog id)
  | ECreate => None
  | ERegister => Some (ManagerJobs.RRegister id)
  | EUpdate => Some (ManagerJobs.RUpdate id (bind status_codec body))
  | ESize => Some (ManagerJobs.RSize id (bind size_codec body))
  | ESchedule => Some (ManagerJobs.RSchedule id (bind schedule_codec body))
  | EEnable => Some (ManagerJobs.REnable id)
  | EDisable => Some (ManagerJobs.RDisable id)
  | ECmd => Some (ManagerJobs.RCmd id (bind cmd_codec body))
  end.

Section engine.
Context `{!Router} `{!MapRange} `{!SortSlice} (kc : kube_codecs).
Context {K : Type} `{!Client K JobSpec JobStatus}
  `{!Client K AnnouncementSpec AnnouncementStatus} `{!Client K FileSpec FileStatus}.
Context (now : nat -> Z) (post : string -> ClientCmd -> reply) (fetch_log : string -> reply).
Context (search : string -> outcome (Z * outcome giteaMsg)) (rfc3339 : string -> option Z).
Context (total : string).

(** What the handler of an endpoint does, and the mirrorz document it leaves. *)
Definition handle (e : endpoint) (id : string) (rq : http_request) (doc : option mirrorz.MirrorZ)
    : handler K (option mirrorz.MirrorZ) :=
  match e with
  | EPing => cJSON StatusOK (BInfo "pong");; mret doc
  | EListJobs => listJob search rfc3339;; mret doc
  | EMirrorZ =>
      z ← hderef doc;
      z ← mirrorZ search rfc3339 z total (h_pack rq);
      mret (Some z)
  | EJob e =>
      match job_request e id (h_body rq) with
      | Some r => serve now post fetch_log r
      | None => createJob kc id (h_body rq)
      end;;
      mret doc
  | EListNews => listAnnouncement;; mret doc
  | ENews OCreate =>
      createAnnouncement id (bind news_codec (h_body rq)) (bind map_codec (h_body rq));; mret doc
  | ENews ODelete => deleteAnnouncement id;; mret doc
  | ENews OGet => getAnnouncement id;; mret doc
  | EListFiles => listFile;; mret doc
  | EFile OCreate => updateFile now id (bind_file (h_body rq));; mret doc
  | EFile ODelete => deleteFile id;; mret doc
  | EFile OGet => getFile id;; mret doc
  end.

(** A path that is not routed reaches no handler. *)
Definition engine (doc : option mirrorz.MirrorZ) (rq : http_request) : handler K (option mirrorz.MirrorZ) :=
  match dispatch (routes (match doc with Some _ => true | None => false end)) (h_method rq) (h_path rq) with
  | Some (e, id) => handle e id rq doc
  | None => mret doc
  end.
End engine.

(** ** The worker's calls *)
Section calls.
Context (base name : string).

(** [HandleRequest]: the method, the address and the encoded object. *)
Definition HandleRequest {A} (m : Method) (url : string) (obj : option (codec A * A))
    : Method * string * option json :=
  (m, url, (fun o => encode o.1 o.2) <$> obj).

Definition job_url : string := base +:+ "/job/" +:+ name.
Definition register_call : Method * string * option json :=
  HandleRequest (A := unit) HEAD job_url None.
Definition status_call (m : jobMessage) (upstream : string) (size : Z) : Method * string * option json :=
  HandleRequest PATCH job_url (Some (status_codec, status_message m upstream size)).
Definition schedule_call (next : Z) : Method * string * option json :=
  HandleRequest POST (job_url +:+ "/schedule") (Some (schedule_codec, mkMirrorSchedule next)).
Definition fetch_call : Method * string * option json :=
  HandleRequest (A := unit) GET job_url None.

(** The call as it arrives at the manager that [base] addresses. *)
Definition arrives (c : Method * string * option json) : http_request :=
  let '(m, url, body) := c in mkHttp m (Strings.TrimPrefix url base) false body.
End calls.

(** ** Calls reach their handlers *)
Lemma job_segments name :
  Path.plain_name name = true -> segments ("/job/" +:+ name) = Some ["job"; name].
Proof.
  intros (_ & _ & _ & Hm)%Path.plain_name_spec. unfold segments.
  change ("/job/" +:+ name) with ("/job" +:+ String "/" name). by rewrite Strings.Split_snoc.
Qed.

Lemma job_word_segments name w :
  Path.plain_name name = true -> Strings.mem "/" w = false ->
  segments (("/job/" +:+ name) +:+ String "/" w) = Some ["job"; name; w].
Proof.
  intros (_ & _ & _ & Hm)%Path.plain_name_spec Hw. unfold segments.
  rewrite Strings.Split_snoc by done. change ("/job/" +:+ name) with ("/job" +:+ String "/" name).
  by rewrite Strings.Split_snoc.
Qed.

(** The routes of a job, from its name and the word that follows it. *)
Definition job_route (m : Method) (word : option string) : option job_endpoint :=
  match m, word with
  | DELETE, None => Some EDelete
  | GET, None => Some EGet
  | POST, None => Some ECreate
  | HEAD, None => Some ERegister
  | PATCH, None => Some EUpdate
  | GET, Some w =>
      if String.eqb "config" w then Some EConfig else if String.eqb "log" w then Some ELog else None
  | POST, Some w =>
      if String.eqb "size" w then Some ESize else if String.eqb "schedule" w then Some ESchedule
      else if String.eqb "enable" w then Some EEnable else if String.eqb "disable" w then Some EDisable
      else if String.eqb "cmd" w then Some ECmd else None
  | _, Some _ => None
  end.

Lemma candidates_app rs rs' m segs :
  candidates (rs ++ rs') m segs = candidates rs m segs ++ candidates rs' m segs.
Proof. apply omap_app. Qed.

(** Routes that begin with another word are no candidates. *)
Definition begins_with (w : string) (r : route) : bool :=
  match rt_path r with Word w' :: _ => String.eqb w' w | _ => true end.
Lemma candidates_other rs m w segs :
  forallb (fun r => negb (begins_with w r)) rs = true -> candidates rs m (w :: segs) = [].
Proof.
  unfold begins_with, candidates. induction rs as [|r rs IH]; cbn [forallb omap list_omap]; [done|].
  intros [Hr Hrs]%andb_true_iff. destruct (rt_path r) as [|[w'|] p]; [done| |done].
  apply negb_true_iff in Hr. cbn [instance]. rewrite Hr.
  case_bool_decide; cbn [fmap option_fmap option_map]; by apply IH.
Qed.

Lemma candidates_group w rs m id tail :
  id <> "" ->
  candidates (Group [Word w; Id] rs) m (w :: id :: tail) = (fun x => (x.1, id)) <$> candidates rs m tail.
Proof.
  intros Hid%String.eqb_neq. unfold candidates, Group.
  induction rs as [|r rs IH]; [done|]. cbn [fmap list_fmap omap list_omap rt_method rt_path rt_endpoint].
  cbn [app instance]. rewrite String.eqb_refl, Hid.
  case_bool_decide; [|exact IH].
  destruct (instance (rt_path r) tail); cbn [fmap option_fmap option_map list_fmap]; [|exact IH].
  f_equal. exact IH.
Qed.

Lemma job_routes_tail m word :
  candidates job_routes m (match word with Some w => [w] | None => [] end)
  = match job_route m word with Some e => [(EJob e, "")] | None => [] end.
Proof.
  destruct word as [w|]; [|by destruct m; vm_compute].
  unfold candidates, job_routes, job_route. cbn [omap list_omap rt_method rt_path rt_endpoint instance].
  destruct m;
    repeat match goal with |- context [bool_decide (?a = ?b)] =>
      let v := eval vm_compute in (bool_decide (a = b)) in change (bool_decide (a = b)) with v end;
    cbn iota; try reflexivity;
    repeat match goal with |- context [String.eqb ?a w] =>
      destruct (String.eqb_spec a w) as [<-|]; [reflexivity|] end; reflexivity.
Qed.

Lemma job_candidates mz m name word :
  Path.plain_name name = true ->
  candidates (routes mz) m ("job" :: name :: match word with Some w => [w] | None => [] end)
  = match job_route m word with Some e => [(EJob e, name)] | None => [] end.
Proof.
  intros (Hne & _)%Path.plain_name_spec. unfold routes. rewrite !candidates_app.
  rewrite candidates_group, job_routes_tail by done.
  rewrite (candidates_other (if mz then _ else _)) by (by destruct mz).
  rewrite !candidates_other by reflexivity. by destruct (job_route m word).
Qed.

Lemma bind_encode {A} (c : codec A) v : lawful c -> cfits c v -> bind c (Some (encode c v)) = mkBound v false.
Proof. intros Hc Hv. unfold bind. by rewrite (law_decode _ Hc v Hv). Qed.

Lemma schedule_built : built [next_schedule] build_schedule.
Proof. build_struct. Qed.
Lemma schedule_lawful : lawful schedule_codec.
Proof.
  apply struct_lawful; [apply schedule_built|each_field; apply int_lawful|each_field; reflexivity].
Qed.

Lemma job_url_path base name : Strings.TrimPrefix (job_url base name) base = "/job/" +:+ name.
Proof. unfold job_url. apply Strings.TrimPrefix_app. Qed.
Lemma job_word_path base name w :
  Strings.TrimPrefix (job_url base name +:+ String "/" w) base = ("/job/" +:+ name) +:+ String "/" w.
Proof. unfold job_url. rewrite Strings.app_assoc. apply Strings.TrimPrefix_app. Qed.

Section reach.
Context `{!Router} `{!MapRange} `{!SortSlice} (kc : kube_codecs).
Context {K : Type} `{!Client K JobSpec JobStatus}
  `{!Client K AnnouncementSpec AnnouncementStatus} `{!Client K FileSpec FileStatus}.
Context (now : nat -> Z) (post : string -> ClientCmd -> reply) (fetch_log : string -> reply).
Context (search : string -> outcome (Z * outcome giteaMsg)) (rfc3339 : string -> option Z).
Context (total : string) (doc : option mirrorz.MirrorZ).
#[local] Abbreviation engine := (engine kc (K := K) now post fetch_log search rfc3339 total).
#[local] Abbreviation handle := (handle kc (K := K) now post fetch_log search rfc3339 total).

(** A path below /job/ is routed by its name and the word after it. *)
Definition job_path (name : string) (word : option string) : string :=
  ("/job/" +:+ name) +:+ match word with Some w => String "/" w | None => "" end.

Lemma job_path_segments name word :
  Path.plain_name name = true -> (forall w, word = Some w -> Strings.mem "/" w = false) ->
  segments (job_path name word) = Some ("job" :: name :: match word with Some w => [w] | None => [] end).
Proof.
  intros Hn Hw. unfold job_path. destruct word as [w|]; [by apply job_word_segments; auto|].
  rewrite Strings.app_nil_r. by apply job_segments.
Qed.

Lemma engine_job name word rq :
  Path.plain_name name = true -> (forall w, word = Some w -> Strings.mem "/" w = false) ->
  h_path rq = job_path name word ->
  engine doc rq = match job_route (h_method rq) word with
                  | Some e => handle (EJob e) name rq doc
                  | None => mret doc
                  end.
Proof.
  intros Hn Hw Hp. unfold Api.engine. rewrite Hp.
  pose proof (job_path_segments name word Hn Hw) as Hs.
  set (mz := match doc with Some _ => true | None => false end).
  pose proof (job_candidates mz (h_method rq) name word Hn) as Hc.
  destruct (job_route (h_method rq) word) as [e|].
  - by rewrite (dispatch_one _ _ _ _ _ Hs Hc).
  - by rewrite (dispatch_none _ _ _ _ Hs Hc).
Qed.
End reach.

(** ** Typed statuses *)
Definition in_i64 (z : Z) : Prop := - two63 <= z < two63.
Definition in_u64 (z : Z) : Prop := 0 <= z < two64.

(** Every number of a status is a value of its Go type. *)
Record typed (st : JobStatus) : Prop := {
  ty_update : in_i64 (LastUpdate st);
  ty_started : in_i64 (LastStarted st);
  ty_ended : in_i64 (LastEnded st);
  ty_scheduled : in_i64 (Scheduled st);
  ty_size : in_u64 (st_Size st);
  ty_online : in_i64 (LastOnline st);
  ty_register : in_i64 (LastRegister st);
}.

Lemma zero_i64 : in_i64 0.
Proof. unfold in_i64, two63. lia. Qed.
Lemma zero_u64 : in_u64 0.
Proof. unfold in_u64, two64. lia. Qed.
#[local] Hint Resolve zero_i64 zero_u64 : core.

Lemma zero_typed : typed zeroJobStatus.
Proof. by split. Qed.

Lemma typed_fits st : typed st -> cfits status_codec st.
Proof.
  intros [H1 H2 H3 H4 H5 H6 H7]. cbn [cfits status_codec struct_codec].
  repeat (apply Forall_cons_2; [cbn; first [exact I|assumption]|]). constructor.
Qed.

Lemma status_message_typed m upstream size : in_u64 size -> typed (status_message m upstream size).
Proof. intros. by split. Qed.

(** Decoding keeps what the decoders of the values keep. *)
Lemma decode_field_keeps {R} (l : list (string * json)) (f : field R) (P : f_type f -> Prop) old :
  (forall j v, P v -> P (decode (f_codec f) j v).1) -> P old -> P (decode_field l f old).1.
Proof.
  intros Hd. unfold decode_field. set (e := false). clearbody e. revert old e.
  induction l as [|kv l IH]; intros old e Ho; simpl; [done|].
  destruct (same_key kv.1 (f_name f)); [|by apply IH].
  pose proof (Hd kv.2 old Ho) as Hv. destruct (decode (f_codec f) kv.2 old) as [v e']. by apply IH.
Qed.

Ltac field_keeps :=
  match goal with |- ?P (fst (decode_field ?l ?f ?o)) => apply (decode_field_keeps l f P o) end.

Lemma int_decode_keeps lo hi j v :
  lo <= v < hi -> lo <= (decode (int_codec lo hi) j v).1 < hi.
Proof.
  intros Hv. destruct j; try done. cbn. destruct (_ && _) eqn:E; cbn; [|done].
  apply andb_true_iff in E. rewrite Z.leb_le, Z.ltb_lt in E. lia.
Qed.

Lemma decode_status_typed j old : typed old -> typed (decode status_codec j old).1.
Proof.
  intros Ht. destruct j; try exact Ht. destruct Ht as [H1 H2 H3 H4 H5 H6 H7].
  cbn [decode status_codec struct_codec]. unfold build_status, ap. cbn [fst snd].
  split; cbn [LastUpdate LastStarted LastEnded Scheduled st_Size LastOnline LastRegister];
    (field_keeps; [intros; by apply int_decode_keeps|assumption]).
Qed.
Lemma decode_schedule_typed j : in_i64 (NextSchedule (decode schedule_codec j (mkMirrorSchedule 0)).1).
Proof.
  destruct j; try exact zero_i64. cbn [decode schedule_codec struct_codec].
  unfold build_schedule, ap. cbn [fst snd NextSchedule].
  field_keeps; [intros; by apply int_decode_keeps|exact zero_i64].
Qed.
Lemma decode_size_typed j : in_u64 (decode size_codec j 0).1.
Proof.
  destruct j; try exact zero_u64. cbn [decode size_codec struct_codec].
  field_keeps; [intros; by apply int_decode_keeps|exact zero_u64].
Qed.

Lemma bind_typed {A} (c : codec A) (P : A -> Prop) body :
  P (czero c) -> (forall j, P (decode c j (czero c)).1) -> P (bound_value (bind c body)).
Proof.
  intros Hz Hd. destruct body as [j|]; [|done]. pose proof (Hd j) as H. unfold bind.
  by destruct (decode c j (czero c)).
Qed.

Definition typed_request (r : request) : Prop :=
  match r with
  | RUpdate _ b => typed (bound_value b)
  | RSize _ b => in_u64 (bound_value b)
  | ManagerJobs.RSchedule _ b => in_i64 (NextSchedule (bound_value b))
  | _ => True
  end.

Lemma job_request_typed e id body r : job_request e id body = Some r -> typed_request r.
Proof.
  destruct e; intros [= <-]; try exact I; simpl.
  - apply (bind_typed status_codec); [exact zero_typed|]. intros j. by apply decode_status_typed.
  - apply (bind_typed size_codec); [exact zero_u64|]. intros j. apply decode_size_typed.
  - apply (bind_typed schedule_codec (fun m => in_i64 (NextSchedule m))); [exact zero_i64|].
    intros j. apply decode_schedule_typed.
Qed.

Lemma status_effect_typed now r t old new :
  (forall i, in_i64 (now i)) -> typed_request r -> typed old ->
  status_effect now r t old = Some new -> typed new.
Proof.
  intros Hn Hr [H1 H2 H3 H4 H5 H6 H7] He.
  destruct r as [id|id|id|id|id|id b|id b|id b|id|id|id b]; simpl in He; try (case_match; simplify_eq);
    simplify_eq; try (by split; cbn; eauto).
  destruct Hr as [G1 G2 G3 G4 G5 G6 G7]. unfold merge_status.
  split; cbn [LastUpdate LastStarted LastEnded Scheduled st_Size LastOnline LastRegister]; auto;
    by case_match.
Qed.

Section types.
Context {K : Type} `{!Client K JobSpec JobStatus, !ClientLaws K JobSpec JobStatus}.
Context (now : nat -> Z) (post : string -> ClientCmd -> reply) (fetch_log : string -> reply).
#[local] Abbreviation jobs := (stored (K := K) (Sp := JobSpec) (St := JobStatus)).
#[local] Abbreviation jobs_wf := (kwf (K := K) (Sp := JobSpec) (St := JobStatus)).

Definition all_typed (k : K) : Prop := forall n o, jobs k !! n = Some o -> typed (Status o).

Lemma abs_step_typed t r m m' :
  (forall i, in_i64 (now i)) -> typed_request r -> abs_step now t r m m' ->
  (forall n st, m !! n = Some st -> typed st) -> forall n st, m' !! n = Some st -> typed st.
Proof.
  intros Hnow Hr Ha Hm n st Hn. destruct Ha as [|old new Ho He|id ->]; [by eapply Hm| |].
  - apply lookup_insert_Some in Hn as [[<- <-]|[_ Hn]]; [|by eapply Hm].
    eapply status_effect_typed; eauto.
  - apply lookup_delete_Some in Hn as [_ Hn]. by eapply Hm.
Qed.

Lemma all_typed_map k : all_typed k <-> forall n st, (Status <$> jobs k) !! n = Some st -> typed st.
Proof.
  split; intros Hall n.
  - intros st. rewrite lookup_fmap. destruct (jobs k !! n) as [o|] eqn:E; [|done].
    intros [= <-]. by eapply Hall.
  - intros o Ho. apply (Hall n). by rewrite lookup_fmap, Ho.
Qed.

Lemma serve_typed r k cs es t p s' fl :
  (forall i, in_i64 (now i)) -> typed_request r -> jobs_wf k -> all_typed k ->
  serve now post fetch_log r (mkHS k Free cs es t p) = (s', fl) ->
  jobs_wf (cluster s') /\ all_typed (cluster s').
Proof.
  intros Hnow Hr Hwf Ht Hs.
  destruct (serve_spec _ _ _ _ _ _ _ _ _ _ _ Hwf Hs) as (Ha & _ & Hwf' & _).
  split; [done|]. apply all_typed_map. eapply abs_step_typed; [done|done|exact Ha|by apply all_typed_map].
Qed.
End types.

(** ** A cluster of three kinds *)
Record site := mkSite {
  site_jobs : store JobSpec JobStatus;
  site_news : store AnnouncementSpec AnnouncementStatus;
  site_files : store FileSpec FileStatus;
}.
Definition set_site_jobs (_ : option string) (k : store JobSpec JobStatus) (s : site) : site :=
  mkSite k (site_news s) (site_files s).
Definition set_site_news (_ : option string) (k : store AnnouncementSpec AnnouncementStatus) (s : site)
    : site := mkSite (site_jobs s) k (site_files s).
Definition set_site_files (_ : option string) (k : store FileSpec FileStatus) (s : site) : site :=
  mkSite (site_jobs s) (site_news s) k.
#[export] Instance jobs_of_site : Client site JobSpec JobStatus := lens_client site_jobs set_site_jobs.
#[export] Instance news_of_site : Client site AnnouncementSpec AnnouncementStatus :=
  lens_client site_news set_site_news.
#[export] Instance files_of_site : Client site FileSpec FileStatus :=
  lens_client site_files set_site_files.
#[export] Instance jobs_of_site_laws : ClientLaws site JobSpec JobStatus :=
  lens_laws site_jobs set_site_jobs (fun _ _ _ => eq_refl).
#[export] Instance news_of_site_laws : ClientLaws site AnnouncementSpec AnnouncementStatus :=
  lens_laws site_news set_site_news (fun _ _ _ => eq_refl).
#[export] Instance files_of_site_laws : ClientLaws site FileSpec FileStatus :=
  lens_laws site_files set_site_files (fun _ _ _ => eq_refl).

(** ** Commands on the wire *)
Lemma verb_is_known s : NewCmdVerbFromString s <> CmdUpdate.
Proof. unfold NewCmdVerbFromString. by repeat case_match. Qed.

Lemma decode_cmd_known l c e : cc_Cmd c <> CmdUpdate -> cc_Cmd (decode_cmd l c e).1 <> CmdUpdate.
Proof.
  revert c e; induction l as [|[k j] l IH]; intros c e Hc; cbn [decode_cmd]; [done|].
  destruct (same_key k "cmd"); [destruct j|destruct (same_key k "force"); [destruct j|]];
    try done; apply IH; try done; apply verb_is_known.
Qed.

(** The verb of a decoded command is never [CmdUpdate], so the worker never
    answers that a command is invalid: a body with an unknown verb, or without
    one, is a start. *)
Lemma decoded_command_is_known body :
  cc_Cmd (bound_value (bind cmd_codec body)) <> CmdUpdate.
Proof.
  apply (bind_typed cmd_codec (fun c => cc_Cmd c <> CmdUpdate)); [done|].
  intros [| | | | | |l]; try done. by apply decode_cmd_known.
Qed.

(** A command the manager relays ([PostJSON]) is the command the worker reads. *)
Lemma command_survives_the_wire c :
  cc_Cmd c <> CmdUpdate -> bind cmd_codec (Some (encode cmd_codec c)) = mkBound c false.
Proof. by destruct c as [[] f]. Qed.

(** ** The worker and the manager together *)
Section together.
Context `{!Router} `{!MapRange} `{!SortSlice} (kc : kube_codecs).
Context {K : Type} `{!Client K JobSpec JobStatus}
  `{!Client K AnnouncementSpec AnnouncementStatus} `{!Client K FileSpec FileStatus}.
Context (now : nat -> Z) (post : string -> ClientCmd -> reply) (fetch_log : string -> reply).
Context (search : string -> outcome (Z * outcome giteaMsg)) (rfc3339 : string -> option Z).
Context (total : string) (doc : option mirrorz.MirrorZ) (base name : string).
#[local] Abbreviation engine := (engine kc (K := K) now post fetch_log search rfc3339 total).
#[local] Abbreviation served r := (serve (K := K) now post fetch_log r;; mret doc).

(** A call on the address of the job, with the word after it. *)
Lemma call_reaches m url word body e r :
  Path.plain_name name = true -> (forall w, word = Some w -> Strings.mem "/" w = false) ->
  Strings.TrimPrefix url base = job_path name word -> job_route m word = Some e ->
  job_request e name body = Some r ->
  engine doc (arrives base (m, url, body)) = served r.
Proof.
  intros Hn Hw Hu He Hr. rewrite (engine_job kc now post fetch_log search rfc3339 total doc name word); [|done..].
  cbn [arrives h_method h_body]. rewrite He. cbn [handle h_body]. by rewrite Hr.
Qed.

Lemma plain_path : Strings.TrimPrefix (job_url base name) base = job_path name None.
Proof. rewrite job_url_path. unfold job_path. by rewrite Strings.app_nil_r. Qed.

Lemma register_reaches :
  Path.plain_name name = true ->
  engine doc (arrives base (register_call base name)) = served (RRegister name).
Proof. intros. by eapply (call_reaches HEAD _ None); [done|done|apply plain_path|..]. Qed.

Lemma status_reaches m upstream size :
  Path.plain_name name = true -> in_u64 size ->
  engine doc (arrives base (status_call base name m upstream size))
  = served (RUpdate name (mkBound (status_message m upstream size) false)).
Proof.
  intros Hn Hs. eapply (call_reaches PATCH _ None); [done|done|apply plain_path|done|].
  cbn [job_request]. do 2 f_equal. apply bind_encode; [apply status_lawful|].
  by apply typed_fits, status_message_typed.
Qed.

Lemma schedule_reaches next :
  Path.plain_name name = true -> in_i64 next ->
  engine doc (arrives base (schedule_call base name next))
  = served (ManagerJobs.RSchedule name (mkBound (mkMirrorSchedule next) false)).
Proof.
  intros Hn Hx. eapply (call_reaches POST _ (Some "schedule")); [done|by intros w [= <-]| |done|].
  - apply (job_word_path base name "schedule").
  - cbn [job_request]. do 2 f_equal. apply bind_encode; [apply schedule_lawful|].
    apply Forall_singleton. exact Hx.
Qed.

Lemma fetch_reaches :
  Path.plain_name name = true ->
  engine doc (arrives base (fetch_call base name)) = served (RGet name).
Proof. intros. by eapply (call_reaches GET _ None); [done|done|apply plain_path|..]. Qed.
End together.

(** C14: The worker and the manager speak the same protocol: with any router that
    finds the only pattern of a path, the registration, the status report, the
    schedule report and the status request of a worker each reach the handler
    meant for them, under the name of the job, with exactly the message the
    worker encoded. *)
Theorem worker_calls_reach_their_handlers `{!Router} `{!MapRange} `{!SortSlice} (kc : kube_codecs)
    {K : Type} `{!Client K JobSpec JobStatus} `{!Client K AnnouncementSpec AnnouncementStatus}
    `{!Client K FileSpec FileStatus} (now : nat -> Z) (post : string -> ClientCmd -> reply)
    (fetch_log : string -> reply) (search : string -> outcome (Z * outcome giteaMsg))
    (rfc3339 : string -> option Z) (total : string) (doc : option mirrorz.MirrorZ)
    (base name upstream : string) (m : jobMessage) (size next : Z) :
  Path.plain_name name = true -> in_u64 size -> in_i64 next ->
  let run c := engine kc (K := K) now post fetch_log search rfc3339 total doc (arrives base c) in
  let served r := serve (K := K) now post fetch_log r;; mret doc in
  run (register_call base name) = served (RRegister name) /\
  run (status_call base name m upstream size)
    = served (RUpdate name (mkBound (status_message m upstream size) false)) /\
  run (schedule_call base name next)
    = served (ManagerJobs.RSchedule name (mkBound (mkMirrorSchedule next) false)) /\
  run (fetch_call base name) = served (RGet name).
Proof.
  intros Hn Hs Hx. split_and!;
    [by apply register_reaches|by apply status_reaches|by apply schedule_reaches|by apply fetch_reaches].
Qed.

(** ** A restart after a report *)
Section restart.
Context `{!Router} `{!MapRange} `{!SortSlice} (kc : kube_codecs).
Context {K : Type} `{!Client K JobSpec JobStatus}
  `{!Client K AnnouncementSpec AnnouncementStatus} `{!Client K FileSpec FileStatus}.
Context (now : nat -> Z) (post : string -> ClientCmd -> reply) (fetch_log : string -> reply).
Context (search : string -> outcome (Z * outcome giteaMsg)) (rfc3339 : string -> option Z).
Context (total : string) (doc : option mirrorz.MirrorZ) (base name : string).
#[local] Abbreviation engine := (engine kc (K := K) now post fetch_log search rfc3339 total).

Lemma served_next (h : handler K unit) s s' d :
  (h;; mret doc) s = (s', Next d) -> h s = (s', Next tt).
Proof. unfold mbind, handler_bind. by destruct (h s) as [s1 [[]| |m|]]; intros [= <-]. Qed.
Lemma served_run (h : handler K unit) s s' fl :
  (h;; mret doc) s = (s', fl) -> exists fl', h s = (s', fl').
Proof. unfold mbind, handler_bind. destruct (h s) as [s1 [[]| |m|]]; intros [= <- _]; eauto. Qed.
Lemma served_calls (h : handler K unit) s : Gin.calls ((h;; mret doc) s).1 = Gin.calls (h s).1.
Proof. unfold mbind, handler_bind. by destruct (h s) as [s1 [[]| |m|]]. Qed.

(** What the worker fetches when the manager reads [o]. *)
Lemma fetch_gives (k : K) (o : Job) cs es t p :
  Path.plain_name name = true -> kGet name k = Ret o -> typed (Status o) ->
  exists st, Gin.calls (engine doc (arrives base (fetch_call base name)) (mkHS k Free cs es t p)).1
    = cs ++ [JSON 200 (BStatus st)] /\
    fetchJobStatus (Ret (200, Some (encode status_codec st))) = Status o.
Proof.
  intros Hn Hg Ht. exists (Status o). rewrite fetch_reaches by done. rewrite served_calls.
  split; [by apply getJob_answers|]. by apply status_wire, typed_fits.
Qed.

(** A report that is acknowledged is stored. *)
Lemma report_stored `{!ClientLaws K JobSpec JobStatus} m upstream size (k : K) cs es t p s' d :
  Path.plain_name name = true -> in_u64 size -> kwf (Sp := JobSpec) (St := JobStatus) k ->
  (forall i, in_i64 (now i)) -> all_typed k ->
  engine doc (arrives base (status_call base name m upstream size)) (mkHS k Free cs es t p)
  = (s', Next d) ->
  kwf (Sp := JobSpec) (St := JobStatus) (cluster s') /\ all_typed (cluster s') /\
  exists cur o' : Job, stored k !! name = Some cur /\ stored (cluster s') !! name = Some o' /\
    Status o' = merge_status (now t) (Status cur) (status_message m upstream size).
Proof.
  intros Hn Hs Hwf Hnow Ht He. rewrite status_reaches in He by done. apply served_next in He.
  destruct (serve_typed now post fetch_log _ k cs es t p s' _ Hnow
    (status_message_typed m upstream size Hs : typed_request (RUpdate name (mkBound _ false)))
    Hwf Ht He) as [Hwf' Ht']. split_and!; [done..|].
  destruct (updateJob_acknowledges_what_it_stores now name _ k cs es t p s' _ Hwf He)
    as (a & _ & [(_ & cur & o' & Hc & Hk & Hst & _)|(Hfl & _)]); [|done].
  exists cur, o'. split_and!; [done| |done]. rewrite Hk. apply lookup_insert_eq.
Qed.

(** What can happen to the cluster between the report of a worker and the fetch
    of the worker that takes its place: reports of the schedule and
    registrations, carried out or not, and a cache that moves. *)
Inductive meanwhile `{!ClientLaws K JobSpec JobStatus} (k0 : K) : K -> Prop :=
  | mw_start : meanwhile k0 k0
  | mw_schedule k next cs es t p s' fl :
      meanwhile k0 k -> in_i64 next ->
      engine doc (arrives base (schedule_call base name next)) (mkHS k Free cs es t p) = (s', fl) ->
      meanwhile k0 (cluster s')
  | mw_register k cs es t p s' fl :
      meanwhile k0 k ->
      engine doc (arrives base (register_call base name)) (mkHS k Free cs es t p) = (s', fl) ->
      meanwhile k0 (cluster s')
  | mw_cache k k' :
      meanwhile k0 k -> kwf (Sp := JobSpec) (St := JobStatus) k' ->
      stored (Sp := JobSpec) (St := JobStatus) k' = stored k -> meanwhile k0 k'.

(** Requests that leave what was reported of a run as it was. *)
Definition keeps_run (r : request) : bool :=
  match r with RRegister _ | ManagerJobs.RSchedule _ _ => true | _ => false end.

Lemma serve_keeps_run `{!ClientLaws K JobSpec JobStatus} r (k : K) cs es t p s' fl n (o : Job) :
  keeps_run r = true -> kwf (Sp := JobSpec) (St := JobStatus) k -> stored k !! n = Some o ->
  serve now post fetch_log r (mkHS k Free cs es t p) = (s', fl) ->
  exists o' : Job, stored (cluster s') !! n = Some o' /\
    same_run (Status o) (Status o') /\ st_Status (Status o') = st_Status (Status o) /\
    st_Size (Status o') = st_Size (Status o).
Proof.
  intros Hr Hwf Ho Hs. pose proof (wp_elim _ _ _ (serve_implements now post fetch_log r k cs es t p Hwf)) as Hi.
  rewrite Hs in Hi. cbn [fst snd] in Hi. unfold implements in Hi.
  assert (Hl : (Status <$> stored (Sp := JobSpec) (St := JobStatus) k) !! n = Some (Status o)) by (by rewrite lookup_fmap, Ho).
  enough (exists st', (Status <$> stored (Sp := JobSpec) (St := JobStatus) (cluster s')) !! n = Some st' /\
    same_run (Status o) st' /\ st_Status st' = st_Status (Status o) /\
    st_Size st' = st_Size (Status o)) as (st' & Hst & Hrun).
  { rewrite lookup_fmap in Hst. apply fmap_Some in Hst as (o' & ? & ->). by exists o'. }
  destruct Hi as [_|_ _|old new Hold Hm|Hd]; try (by exists (Status o)); [|by destruct r].
  destruct (decide (target r = n)) as [<-|Hne]; [|exists (Status o); by rewrite lookup_insert_ne].
  rewrite lookup_insert_eq. exists new. split; [done|]. rewrite Hl in Hold. injection Hold as <-.
  destruct r; try done; cbn in Hm; tauto.
Qed.

(** The job is stored with the run of [o0]. *)
Definition holds_run `{!ClientLaws K JobSpec JobStatus} (o0 : Job) (k : K) : Prop :=
  kwf (Sp := JobSpec) (St := JobStatus) k /\ all_typed k /\
  exists o : Job, stored k !! name = Some o /\
    same_run (Status o0) (Status o) /\ st_Status (Status o) = st_Status (Status o0) /\
    st_Size (Status o) = st_Size (Status o0).

Lemma holds_run_serve `{!ClientLaws K JobSpec JobStatus} r (k : K) cs es t p s' fl (o0 : Job) :
  (forall i, in_i64 (now i)) -> keeps_run r = true -> typed_request r -> holds_run o0 k ->
  serve now post fetch_log r (mkHS k Free cs es t p) = (s', fl) -> holds_run o0 (cluster s').
Proof.
  intros Hnow Hr Hty (Hwf & Ht & o & Ho & Hrun & Hst & Hsz) He.
  destruct (serve_typed now post fetch_log r k cs es t p s' fl Hnow Hty Hwf Ht He).
  destruct (serve_keeps_run r k cs es t p s' fl name o Hr Hwf Ho He) as (o' & Ho' & Hrun' & Hst' & Hsz').
  split_and!; [done..|]. exists o'. split_and!; [done| |congruence..].
  unfold same_run in *. intuition congruence.
Qed.

Lemma meanwhile_holds_run `{!ClientLaws K JobSpec JobStatus} (k0 k : K) (o0 : Job) :
  Path.plain_name name = true -> (forall i, in_i64 (now i)) -> holds_run o0 k0 ->
  meanwhile k0 k -> holds_run o0 k.
Proof.
  intros Hn Hnow H0'. induction 1 as [|k next cs es t p s' fl _ IH Hx He
      |k cs es t p s' fl _ IH He|k k' _ (Hwf & Ht & IH) Hwf' Hk]; [done|..].
  - rewrite schedule_reaches in He by done. apply served_run in He as [fl' He].
    by eapply holds_run_serve; [..|exact He].
  - rewrite register_reaches in He by done. apply served_run in He as [fl' He].
    by eapply holds_run_serve; [..|exact He].
  - unfold holds_run, all_typed. rewrite Hk. by split_and!.
Qed.
End restart.

Lemma begins_running interval st (w : @wstate nat) :
  begins interval st w -> st_Status st <> Disabled -> st_Status st <> Paused ->
  sched (wsched w) = true /\ nextScheduled (wsched w) = i64 (LastUpdate st + interval).
Proof.
  unfold begins. intros H Hd%String.eqb_neq Hp%String.eqb_neq. rewrite Hd, Hp in H. tauto.
Qed.

(** C11: A restarted worker continues from its last report.  A status report has
    run to its end at the manager; then come any reports of the schedule and any
    registrations of the worker, carried out or not; then a worker that starts
    fetches the status, while the manager's cache holds the job as stored.  It
    finds the status, the message, the upstream and the times of the run that
    were reported; after a success it schedules the next sync one interval after
    the manager's clock at that report, after a failure one interval after the
    success before it. *)
Theorem restarted_worker_resumes_last_report `{!Router} `{!MapRange} `{!SortSlice} (kc : kube_codecs)
    {K : Type} `{!Client K JobSpec JobStatus, !ClientLaws K JobSpec JobStatus}
    `{!Client K AnnouncementSpec AnnouncementStatus} `{!Client K FileSpec FileStatus}
    (now : nat -> Z) (post : string -> ClientCmd -> reply) (fetch_log : string -> reply)
    (search : string -> outcome (Z * outcome giteaMsg)) (rfc3339 : string -> option Z)
    (total : string) (doc : option mirrorz.MirrorZ) (base name upstream : string)
    (m : jobMessage) (size interval : Z) (k k2 : K) (s' : hstate K) (d : option mirrorz.MirrorZ)
    (o2 : Job) (cs cs2 : list call) (es es2 : list string) (t t2 : nat)
    (p p2 : list (string * ClientCmd)) :
  let run := engine kc (K := K) now post fetch_log search rfc3339 total doc in
  Path.plain_name name = true -> in_u64 size -> (forall i, in_i64 (now i)) ->
  kwf (Sp := JobSpec) (St := JobStatus) k -> all_typed k ->
  run (arrives base (status_call base name m upstream size)) (mkHS k Free cs es t p) = (s', Next d) ->
  meanwhile kc now post fetch_log search rfc3339 total doc base name (cluster s') k2 ->
  kGet name k2 = Ret o2 -> stored k2 !! name = Some o2 ->
  exists (cur : Job) st, stored k !! name = Some cur /\
    Gin.calls (run (arrives base (fetch_call base name)) (mkHS k2 Free cs2 es2 t2 p2)).1
      = cs2 ++ [JSON 200 (BStatus st)] /\
    let fetched := fetchJobStatus (Ret (200, Some (encode status_codec st))) in
    let w := w_start (H := nat) interval fetched w_init in
    st_Status fetched = jm_status m /\ ErrorMsg fetched = jm_msg m /\
    st_Upstream fetched = upstream /\ begins interval fetched w /\
    (jm_status m = Success ->
       LastUpdate fetched = now t /\
       sched (wsched w) = true /\ nextScheduled (wsched w) = i64 (now t + interval)) /\
    (jm_status m = Failed ->
       LastEnded fetched = now t /\
       sched (wsched w) = true /\ nextScheduled (wsched w) = i64 (LastUpdate (Status cur) + interval)).
Proof.
  intros run Hn Hs Hnow Hwf Ht He Hmw Hg Ho2. subst run.
  destruct (report_stored kc now post fetch_log search rfc3339 total doc base name m upstream size
    k cs es t p s' d Hn Hs Hwf Hnow Ht He) as (Hwf' & Ht' & cur & o' & Hc & Ho' & Hst).
  assert (holds_run name o' (cluster s')) as Hh by (by split_and!; [..|exists o']).
  destruct (meanwhile_holds_run kc now post fetch_log search rfc3339 total doc base name
    (cluster s') k2 o' Hn Hnow Hh Hmw) as (_ & Ht2 & o2' & Ho2' & Hrun & Hsame & _).
  rewrite Ho2 in Ho2'. injection Ho2' as <-. rewrite Hst in Hsame, Hrun.
  destruct (fetch_gives kc now post fetch_log search rfc3339 total doc base name k2 o2 cs2 es2 t2 p2
    Hn Hg (Ht2 name o2 Ho2)) as (st & Hcalls & Hf).
  exists cur, st. split; [done|]. split; [exact Hcalls|]. cbv zeta. rewrite Hf.
  pose proof (w_start_begins interval (Status o2)) as Hb.
  destruct (merge_status_reported (now t) (Status cur) (status_message m upstream size))
    as [R1 R2 R3 _ _ _ R4 R5 R6 _ _ _ _ _ _].
  destruct Hrun as (U1 & _ & U2 & U3 & U4). cbn [status_message st_Status ErrorMsg st_Upstream] in *.
  split_and!; try congruence; intros Hm; destruct (begins_running _ _ _ Hb) as [? Hx];
    rewrite ?Hsame, ?R1, ?Hm; try done; rewrite Hx, U1, ?U2.
  - rewrite R4 by done. done.
  - rewrite R5 by (by rewrite Hm). rewrite R6 by auto. done.
Qed.

(** ** An example site *)
Module ApiDemo.
Definition post (_ : string) (_ : ClientCmd) : reply := Ret (200, "OK", None).
Definition fetch_log (_ : string) : reply := Ret (200, "log", None).
Definition search (_ : string) : outcome (Z * outcome giteaMsg) := Err "unreachable".
Definition now (n : nat) : Z := 1700000000.
Definition site0 : site := mkSite ManagerJobs.Demo.one store_empty store_empty.
Definition run (rq : http_request) (k : site) : hstate site * flow (option mirrorz.MirrorZ) :=
  engine JsonDemo.kc now post fetch_log search (fun _ => None) "" None rq (mkHS k Free [] [] 0 []).
Definition base : string := "http://manager:3000".
Definition message (s : SyncStatus) : jobMessage := mkMsg s "" true.
Definition report (s : SyncStatus) : http_request :=
  arrives base (status_call base "debian" (message s) "rsync://up/debian" 4096).
(** The cluster after the report, with a cache that has caught up. *)
Definition caught_up (k : site) : site := mkSite (refresh (site_jobs k)) (site_news k) (site_files k).

(** The schedule is reported after the status; the new worker registers. *)
Definition after_report : site := caught_up (cluster (run (report Success) site0).1).
Definition scheduled : site :=
  cluster (run (arrives base (schedule_call base "debian" 1700086400)) after_report).1.
Definition registered : site :=
  cluster (run (arrives base (register_call base "debian")) (caught_up scheduled)).1.

Lemma now_i64 i : in_i64 (now i).
Proof. unfold now, in_i64, two63. lia. Qed.
Lemma size_u64 : in_u64 4096.
Proof. unfold in_u64, two64. lia. Qed.
Lemma site0_wf : kwf (Sp := JobSpec) (St := JobStatus) site0.
Proof. exact ManagerJobs.Demo.one_wf. Qed.
Lemma site0_typed : all_typed site0.
Proof.
  intros n o H. change ((server ManagerJobs.Demo.one) !! n = Some o) in H.
  unfold ManagerJobs.Demo.one in H. cbn [server] in H.
  apply lookup_singleton_Some in H as [_ <-].
  split; cbn; unfold in_i64, in_u64, two63, two64; lia.
Qed.

Section steps.
Context (total : string) (doc : option mirrorz.MirrorZ).
#[local] Abbreviation serves :=
  (engine JsonDemo.kc (K := site) now post fetch_log search (fun _ => None) total doc).
#[local] Abbreviation meanwhile_ :=
  (meanwhile JsonDemo.kc now post fetch_log search (fun _ => None) total doc base "debian").

(** A catch-up of the cache is a step of [meanwhile]. *)
Lemma catches_up (k0 k : site) :
  kwf (Sp := JobSpec) (St := JobStatus) k -> meanwhile_ k0 k -> meanwhile_ k0 (caught_up k).
Proof.
  intros Hwf Hm. apply mw_cache with k; [done| |done]. exact (refresh_wf (site_jobs k) Hwf).
Qed.

(** A call that reaches a handler below /job/:id keeps the cluster well-formed. *)
Lemma call_wf c r (k : site) :
  serves (arrives base c) = (serve now post fetch_log r;; mret doc) ->
  kwf (Sp := JobSpec) (St := JobStatus) k ->
  kwf (Sp := JobSpec) (St := JobStatus) (cluster (serves (arrives base c) (mkHS k Free [] [] 0 [])).1).
Proof.
  intros -> Hwf. pose proof (serve_spec now post fetch_log r k [] [] 0%nat []) as H.
  unfold mbind, handler_bind.
  destruct (serve now post fetch_log r _) as [s1 fl] eqn:E.
  destruct (H s1 fl Hwf eq_refl) as (_ & _ & Hwf' & _). by destruct fl as [[]| |m|].
Qed.
End steps.

Lemma restarts :
  meanwhile JsonDemo.kc now post fetch_log search (fun _ => None) "" None base "debian"
    (cluster (run (report Success) site0).1) (caught_up registered).
Proof.
  assert (Hr : kwf (Sp := JobSpec) (St := JobStatus) (cluster (run (report Success) site0).1)).
  { eapply call_wf, site0_wf. by apply status_reaches, size_u64. }
  assert (Hx : in_i64 1700086400) by (unfold in_i64, two63; lia).
  assert (Hsc : kwf (Sp := JobSpec) (St := JobStatus) scheduled).
  { eapply call_wf; [by apply schedule_reaches|]. exact (refresh_wf _ Hr). }
  assert (Hrg : kwf (Sp := JobSpec) (St := JobStatus) registered).
  { eapply call_wf; [by apply register_reaches|]. exact (refresh_wf _ Hsc). }
  apply catches_up; [done|]. eapply mw_register; [|apply surjective_pairing].
  apply catches_up; [done|]. eapply mw_schedule; [|exact Hx|apply surjective_pairing].
  apply catches_up; [done|]. apply mw_start.
Qed.
End ApiDemo.

(** Unknown paths and methods reach nothing; a body that is not JSON is refused
    and still stored as the zero report. *)
Example unrouted : ApiDemo.run (mkHttp DELETE "/job/debian/log" false None) ApiDemo.site0
  = (mkHS ApiDemo.site0 Free [] [] 0 [], Next None).
Proof. vm_compute. reflexivity. Qed.
Example unreadable_report :
  Gin.calls (ApiDemo.run (mkHttp PATCH "/job/debian" false None) ApiDemo.site0).1
  = [AbortWithError 400; JSON 200 (BStatus (mkJobStatus "" 900 950 900 0 "" 7 "" 1700000000 800))].
Proof. vm_compute. reflexivity. Qed.

Lemma worker_calls_reach_their_handlers_witness :
  engine JsonDemo.kc (K := site) ApiDemo.now ApiDemo.post ApiDemo.fetch_log ApiDemo.search (fun _ => None)
    "" None (arrives ApiDemo.base (register_call ApiDemo.base "debian"))
  = (serve ApiDemo.now ApiDemo.post ApiDemo.fetch_log (RRegister "debian");; mret None).
Proof.
  exact (proj1 (worker_calls_reach_their_handlers JsonDemo.kc ApiDemo.now ApiDemo.post ApiDemo.fetch_log
    ApiDemo.search (fun _ => None) "" None ApiDemo.base "debian" "" (ApiDemo.message Success) 4096 0
    eq_refl ApiDemo.size_u64 zero_i64)).
Defined.

Lemma restarted_worker_resumes_last_report_witness :
  exists st, st_Status (fetchJobStatus (Ret (200, Some (encode status_codec st)))) = Success /\
    nextScheduled (wsched (w_start (H := nat) 86400
      (fetchJobStatus (Ret (200, Some (encode status_codec st)))) w_init)) = 1700086400.
Proof.
  destruct (restarted_worker_resumes_last_report JsonDemo.kc ApiDemo.now ApiDemo.post ApiDemo.fetch_log
    ApiDemo.search (fun _ => None) "" None ApiDemo.base "debian" "rsync://up/debian"
    (ApiDemo.message Success) 4096 86400 ApiDemo.site0 (ApiDemo.caught_up ApiDemo.registered)
    (ApiDemo.run (ApiDemo.report Success) ApiDemo.site0).1 None
    (default (ManagerJobs.Demo.job "" 0 zeroJobStatus) (server (site_jobs ApiDemo.registered) !! "debian"))
    [] [] [] [] 0 0 [] []) as (cur & st & _ & _ & Hst & _ & _ & _ & Hs & _).
  - reflexivity.
  - exact ApiDemo.size_u64.
  - exact ApiDemo.now_i64.
  - exact ApiDemo.site0_wf.
  - exact ApiDemo.site0_typed.
  - vm_compute. reflexivity.
  - exact ApiDemo.restarts.
  - vm_compute. reflexivity.
  - vm_compute. reflexivity.
  - exists st. split; [exact Hst|]. exact (proj2 (proj2 (Hs eq_refl))).
Defined.
