(* ===== verification/Site.v ===== *)
(** * What the site shows (listJob and mirrorZ of src/manager/server.go after a
      report of updateStatus of src/worker/worker.go)

    A visitor reads the list of the mirrors (GET /jobs, /api/mirrors) or the
    mirrorz document (GET /api/mirrorz.json).  Both are composed here with the
    report of a worker: what the worker says of its sync is what the visitor
    reads, with the times of the manager's clock. *)

From S2P Require Import Prelude GoLib GoSync Types Sizes Json Kube Cluster Gin ManagerJobs.
From S2P Require Import JobJson External ManagerObjects Config Context Provider.
From S2P Require Import Schedule Wrapper Job Worker Startup Api.

Section pages.
Context `{!Router} `{!MapRange} `{!SortSlice} (kc : kube_codecs).
Context {K : Type} `{!Client K JobSpec JobStatus}
  `{!Client K AnnouncementSpec AnnouncementStatus} `{!Client K FileSpec FileStatus}.
Context (now : nat -> Z) (post : string -> ClientCmd -> reply) (fetch_log : string -> reply).
Context (search : string -> outcome (Z * outcome giteaMsg)) (rfc3339 : string -> option Z).
Context (total : string).
#[local] Abbreviation engine := (engine kc (K := K) now post fetch_log search rfc3339 total).

(** The requests of a visitor. *)
Definition list_request (path : string) : http_request := mkHttp GET path false None.
Definition list_path (path : string) : bool := String.eqb path "/jobs" || String.eqb path "/api/mirrors".
Definition mirrorz_request (pack : bool) : http_request := mkHttp GET "/api/mirrorz.json" pack None.

Lemma list_reaches doc path :
  list_path path = true -> engine doc (list_request path) = (listJob search rfc3339;; mret doc).
Proof.
  intros Hp. unfold Api.engine. cbn [list_request h_method h_path].
  assert (dispatch (routes (match doc with Some _ => true | None => false end)) GET path = Some (EListJobs, "")) as ->;
    [|done].
  apply orb_true_iff in Hp as [Hp|Hp]; apply String.eqb_eq in Hp as ->;
    (eapply dispatch_one; [vm_compute; reflexivity|]); by destruct doc.
Qed.

Lemma mirrorz_reaches z pack :
  engine (Some z) (mirrorz_request pack)
  = (z ← mirrorZ search rfc3339 z total pack; mret (Some z)).
Proof.
  unfold Api.engine. cbn [mirrorz_request h_method h_path].
  assert (dispatch (routes true) GET "/api/mirrorz.json" = Some (EMirrorZ, "")) as -> by
    (eapply dispatch_one; vm_compute; reflexivity).
  cbn [handle hderef h_pack mirrorz_request]. done.
Qed.

Lemma mapM_elem {A B} (f : A -> outcome B) l bs a b : mapM f l = Ret bs -> a ∈ l -> f a = Ret b -> b ∈ bs.
Proof.
  revert bs. induction l as [|x l IH]; intros bs Hm Ha Hf; [by apply not_elem_of_nil in Ha|].
  cbn in Hm. apply outcome_bind_Ret in Hm as (y & Hy & Hm). apply outcome_bind_Ret in Hm as (ys & Hys & [= <-]).
  apply elem_of_cons in Ha as [->|Ha]; [|right; by eapply IH]. rewrite Hf in Hy. injection Hy as ->. by left.
Qed.

(** The document a request leaves is the one it answers, and it has the mirror of
    every job that is not external. *)
Lemma mirrorZ_shows z pack (k : K) cs es t p s' z' (items : list Job) :
  mirrorZ search rfc3339 z total pack (mkHS k Free cs es t p) = (s', Next z') ->
  kList k = (items, None) ->
  Gin.calls s' = cs ++ [JSON StatusOK (if pack then BMirrorZPack [z'] else BMirrorZ z')] /\
  forall v : Job, v ∈ items -> jc_Type (js_Config (Spec v)) <> Types.External -> job_mirror v ∈ mirrorz.z_Mirrors z'.
Proof.
  intros Hs Hl. unfold mirrorZ, client_list, get_cluster, mbind, handler_bind, mret, handler_ret in Hs. cbn in Hs.
  destruct (kList k : list File * _) as [files ferr]. cbn in Hs. rewrite Hl in Hs. unfold or_crash in Hs.
  destruct (mapM (job_mirrors search rfc3339) items) as [ms| |] eqn:Em; cbn in Hs; [|done..].
  destruct pack; injection Hs as <- <-; (split; [done|]); intros v Hv Ht; cbn [mirrorz.z_Mirrors];
    rewrite list_elem_of_In; apply in_concat; exists [job_mirror v]; (split; [|by left]);
    apply list_elem_of_In;
    apply (list_elem_of_fmap_2 fst ms ([job_mirror v], st_Size (Status v)));
    (eapply mapM_elem; [exact Em|exact Hv|]); unfold job_mirrors;
    apply String.eqb_neq in Ht; by rewrite Ht.
Qed.

(** The answer to a visitor who asks for the list. *)
Lemma list_shows doc path (k : K) cs es t p s' d (v : Job) :
  list_path path = true -> engine doc (list_request path) (mkHS k Free cs es t p) = (s', Next d) ->
  v ∈ fst (kList k) -> jc_Type (js_Config (Spec v)) <> Types.External ->
  exists ws, Gin.calls s' = cs ++ [JSON StatusOK (BMirrors ws)] /\ job_entry v ∈ ws.
Proof.
  intros Hp Hs Hv Ht. rewrite list_reaches in Hs by done. apply (served_next doc) in Hs.
  destruct (listJob_is_sorted_and_complete search rfc3339 k cs es t p s' _ Hs eq_refl) as (ws & Hc & _ & _ & He).
  exists ws. split; [done|]. by apply He.
Qed.
End pages.

(** The state the mirrorz document shows for a status that still holds the run
    [merge_status] recorded. *)
Lemma shown_state now_t cur (m : jobMessage) upstream size typ st :
  0 < now_t -> String.eqb typ Proxy = false -> nonneg_times st ->
  let merged := merge_status now_t cur (status_message m upstream size) in
  same_run merged st -> st_Status st = st_Status merged ->
  let shown := decode_status (statusZ typ st) in
  (jm_status m = Success -> head shown = Some ("S"%char, Some now_t)) /\
  (jm_status m = Failed -> head shown = Some ("F"%char, Some now_t) /\
     (LastUpdate cur <> 0 -> ("O"%char, Some (LastUpdate cur)) ∈ shown)) /\
  (jm_status m = Syncing -> LastStarted cur <> 0 ->
     head shown = Some ("Y"%char, Some (LastStarted cur)) /\
     (LastUpdate cur <> 0 -> ("O"%char, Some (LastUpdate cur)) ∈ shown)) /\
  (jm_status m = PreSyncing ->
     head shown = Some (if Scheduled st =? 0 then ("U"%char, None) else ("D"%char, Some (Scheduled st)))).
Proof.
  intros Hn Ht Hnn merged (U1 & U2 & U3 & _) Hst shown. subst merged shown.
  rewrite statusZ_decodes by done.
  assert (Hz : (now_t =? 0) = false) by (apply Z.eqb_neq; lia).
  unfold status_events, state_event. rewrite Ht, U1, U2, U3, Hst. unfold merge_status. cbn.
  split_and!; intros Hm; rewrite Hm; cbn; rewrite ?Hz.
  - done.
  - split; [done|]. intros Hu%Z.eqb_neq. rewrite Hu. cbn. rewrite !elem_of_cons, !elem_of_app. set_solver.
  - intros Hs%Z.eqb_neq. rewrite Hs. cbn. split; [done|]. intros Hu%Z.eqb_neq. rewrite Hu.
    cbn. rewrite !elem_of_cons, !elem_of_app. set_solver.
  - by destruct (Scheduled st =? 0).
Qed.

(** C12: What a worker reports is what the site shows.  A status report of the
    worker of a mirror has run to its end at the manager; then come any reports of
    the schedule and registrations of that worker, carried out or not; then a
    visitor is answered from a cache that holds the job as it is stored.  The list
    of mirrors shows the status, the message and the upstream that were reported,
    the size if one was, and the schedule as stored.  The mirrorz document shows
    that size; a reported success or failure at the manager's clock when it was
    reported, and a sync under way since the stored start of the run, each of the
    latter two with the last success there was; and a mirror about to sync by the
    time of its schedule, or as unknown when none is stored, which is the case right
    after every report, since a report overwrites the schedule with zero. *)
Theorem report_reaches_the_site `{!Router} `{!MapRange} `{!SortSlice} (kc : kube_codecs)
    {K : Type} `{!Client K JobSpec JobStatus, !ClientLaws K JobSpec JobStatus}
    `{!Client K AnnouncementSpec AnnouncementStatus} `{!Client K FileSpec FileStatus}
    (now : nat -> Z) (post : string -> ClientCmd -> reply) (fetch_log : string -> reply)
    (search : string -> outcome (Z * outcome giteaMsg)) (rfc3339 : string -> option Z)
    (total : string) (z z3 : mirrorz.MirrorZ) (base name upstream path : string) (pack : bool)
    (m : jobMessage) (size : Z) (k k2 : K) (s' s2 s3 : hstate K) (d d2 : option mirrorz.MirrorZ)
    (items : list Job) (v : Job) (cs cs2 cs3 : list call) (es es2 es3 : list string) (t t2 t3 : nat)
    (p p2 p3 : list (string * ClientCmd)) :
  let run := engine kc (K := K) now post fetch_log search rfc3339 total (Some z) in
  Path.plain_name name = true -> in_u64 size -> 0 < now t -> (forall i, in_i64 (now i)) ->
  kwf (Sp := JobSpec) (St := JobStatus) k -> all_typed k ->
  run (arrives base (status_call base name m upstream size)) (mkHS k Free cs es t p) = (s', Next d) ->
  meanwhile kc now post fetch_log search rfc3339 total (Some z) base name (cluster s') k2 ->
  kList k2 = (items, None) -> v ∈ items -> stored k2 !! name = Some v -> nonneg_times (Status v) ->
  jc_Type (js_Config (Spec v)) = Mirror \/ jc_Type (js_Config (Spec v)) = "" ->
  list_path path = true -> run (list_request path) (mkHS k2 Free cs2 es2 t2 p2) = (s2, Next d2) ->
  run (mirrorz_request pack) (mkHS k2 Free cs3 es3 t3 p3) = (s3, Next (Some z3)) ->
  (exists ws e, Gin.calls s2 = cs2 ++ [JSON 200 (BMirrors ws)] /\ e ∈ ws /\ mi_ID e = name /\
     st_Status (mi_Job e) = jm_status m /\ ErrorMsg (mi_Job e) = jm_msg m /\
     st_Upstream (mi_Job e) = upstream /\ Scheduled (mi_Job e) = Scheduled (Status v) /\
     (size <> 0 -> mi_SizeStr e = ParseSize size)) /\
  (exists mz (cur : Job), Gin.calls s3 = cs3 ++ [JSON 200 (if pack then BMirrorZPack [z3] else BMirrorZ z3)] /\
     mz ∈ mirrorz.z_Mirrors z3 /\ mirrorz.Cname mz = name /\ stored k !! name = Some cur /\
     (size <> 0 -> mirrorz.m_Size mz = ParseSize size) /\
     let shown := decode_status (mirrorz.m_Status mz) in
     (jm_status m = Success -> head shown = Some ("S"%char, Some (now t))) /\
     (jm_status m = Failed -> head shown = Some ("F"%char, Some (now t)) /\
        (LastUpdate (Status cur) <> 0 -> ("O"%char, Some (LastUpdate (Status cur))) ∈ shown)) /\
     (jm_status m = Syncing -> LastStarted (Status cur) <> 0 ->
        head shown = Some ("Y"%char, Some (LastStarted (Status cur))) /\
        (LastUpdate (Status cur) <> 0 -> ("O"%char, Some (LastUpdate (Status cur))) ∈ shown)) /\
     (jm_status m = PreSyncing ->
        head shown = Some (if Scheduled (Status v) =? 0 then ("U"%char, None)
                           else ("D"%char, Some (Scheduled (Status v)))))) /\
  (exists o' : Job, stored (cluster s') !! name = Some o' /\ Scheduled (Status o') = 0).
Proof.
  intros run Hn Hsz Hnow Hi64 Hwf Htyped He Hmw Hk2 Hv Hsv Hnn Hty Hp Hl Hz. subst run.
  destruct (report_stored kc now post fetch_log search rfc3339 total (Some z) base name m upstream size
    k cs es t p s' d Hn Hsz Hwf Hi64 Htyped He) as (Hwf' & Ht' & cur & o' & Hc & Ho' & Hst).
  assert (holds_run name o' (cluster s')) as Hh by (by split_and!; [..|exists o']).
  destruct (meanwhile_holds_run kc now post fetch_log search rfc3339 total (Some z) base name
    (cluster s') k2 o' Hn Hi64 Hh Hmw) as (Hwf2 & _ & v' & Hsv' & Hrun & Hsame & Hsize').
  rewrite Hsv in Hsv'. injection Hsv' as <-. rewrite Hst in Hrun, Hsame, Hsize'.
  assert (Hname : Name v = name) by (by eapply stored_name).
  assert (Hext : jc_Type (js_Config (Spec v)) <> Types.External) by (by destruct Hty as [->| ->]).
  assert (Hsize : size <> 0 -> st_Size (Status v) = size).
  { intros Hne%Z.eqb_neq. rewrite Hsize'. cbn. by rewrite Hne, andb_false_r. }
  split; [|split; [|exists o'; by rewrite Hst]].
  - destruct (list_shows kc now post fetch_log search rfc3339 total (Some z) path k2 cs2 es2 t2 p2 s2 d2 v Hp Hl)
      as (ws & Hcalls & Hin); [by rewrite Hk2|done|].
    destruct Hrun as (_ & _ & _ & U1 & U2). exists ws, (job_entry v).
    split_and!; [done|done|..]; unfold job_entry; destruct Hty as [->| ->]; cbn; try done;
      intros Hne; by rewrite Hsize.
  - rewrite mirrorz_reaches in Hz. unfold mbind at 1, handler_bind at 1 in Hz.
    destruct (mirrorZ search rfc3339 z total pack _) as [s4 [z4| |e|]] eqn:Ez; cbn in Hz; [|discriminate Hz..].
    injection Hz as -> ->.
    destruct (mirrorZ_shows search rfc3339 total z pack k2 cs3 es3 t3 p3 s3 z3 items Ez Hk2) as [Hcalls Hin].
    exists (job_mirror v), cur. split; [done|]. split; [by apply Hin|]. split; [done|]. split; [done|]. split.
    + intros Hne. unfold job_mirror. cbn. by rewrite Hsize.
    + unfold job_mirror. cbn [mirrorz.m_Status].
      apply (shown_state (now t) (Status cur) m upstream size); [done| |done..].
      by destruct Hty as [->| ->].
Qed.

(** *** Witness: a failed sync of the example site, as its visitors see it. *)
Module SiteDemo.
Definition z0 : mirrorz.MirrorZ :=
  mirrorz.mkMirrorZ (Float.Fin 3 (-1)) (mirrorz.mkSite "" "" "" "" "" "" "" "" "" "" "" "" "" false) [] [] "D" [].
Definition run (rq : http_request) (k : site) : hstate site * flow (option mirrorz.MirrorZ) :=
  engine JsonDemo.kc ApiDemo.now ApiDemo.post ApiDemo.fetch_log ApiDemo.search (fun _ => None) "8T" (Some z0) rq
    (mkHS k Free [] [] 0 []).
Definition reported : hstate site := (run (ApiDemo.report Failed) ApiDemo.site0).1.
Definition scheduled : hstate site :=
  (run (arrives ApiDemo.base (schedule_call ApiDemo.base "debian" 1700003600))
    (ApiDemo.caught_up (cluster reported))).1.
Definition later : site := ApiDemo.caught_up (cluster scheduled).
Definition shown_job : Job := default (ManagerJobs.Demo.job "" 0 zeroJobStatus) (server (site_jobs later) !! "debian").
Definition page : hstate site := (run (list_request "/jobs") later).1.
Definition document : hstate site := (run (mirrorz_request false) later).1.
Definition z3 : mirrorz.MirrorZ := match (run (mirrorz_request false) later).2 with Next (Some z) => z | _ => z0 end.

Lemma times_nonneg : nonneg_times (Status shown_job).
Proof. vm_compute. by repeat split. Qed.

Lemma goes_on :
  meanwhile JsonDemo.kc ApiDemo.now ApiDemo.post ApiDemo.fetch_log ApiDemo.search (fun _ => None) "8T"
    (Some z0) ApiDemo.base "debian" (cluster reported) later.
Proof.
  assert (Hr : kwf (Sp := JobSpec) (St := JobStatus) (cluster reported)).
  { eapply ApiDemo.call_wf, ApiDemo.site0_wf. by apply status_reaches, ApiDemo.size_u64. }
  assert (Hx : in_i64 1700003600) by (unfold in_i64, two63; lia).
  assert (Hsc : kwf (Sp := JobSpec) (St := JobStatus) (cluster scheduled)).
  { eapply ApiDemo.call_wf; [by apply schedule_reaches|]. exact (refresh_wf _ Hr). }
  apply ApiDemo.catches_up; [done|]. eapply mw_schedule; [|exact Hx|apply surjective_pairing].
  apply ApiDemo.catches_up; [done|]. apply mw_start.
Qed.
End SiteDemo.

Lemma report_reaches_the_site_witness :
  exists mz, mz ∈ mirrorz.z_Mirrors SiteDemo.z3 /\ mirrorz.Cname mz = "debian" /\ mirrorz.m_Size mz = "4.00K" /\
    head (decode_status (mirrorz.m_Status mz)) = Some ("F"%char, Some 1700000000).
Proof.
  destruct (report_reaches_the_site JsonDemo.kc ApiDemo.now ApiDemo.post ApiDemo.fetch_log ApiDemo.search
    (fun _ => None) "8T" SiteDemo.z0 SiteDemo.z3 ApiDemo.base "debian" "rsync://up/debian" "/jobs" false
    (ApiDemo.message Failed) 4096 ApiDemo.site0 SiteDemo.later SiteDemo.reported SiteDemo.page SiteDemo.document
    (Some SiteDemo.z0) (Some SiteDemo.z0) [SiteDemo.shown_job] SiteDemo.shown_job [] [] [] [] [] [] 0 0 0 [] [] [])
    as [_ [(mz & cur & _ & H1 & H2 & _ & H3 & _ & H4 & _) _]].
  - reflexivity.
  - exact ApiDemo.size_u64.
  - reflexivity.
  - exact ApiDemo.now_i64.
  - exact ApiDemo.site0_wf.
  - exact ApiDemo.site0_typed.
  - vm_compute. reflexivity.
  - exact SiteDemo.goes_on.
  - vm_compute. reflexivity.
  - by left.
  - vm_compute. reflexivity.
  - exact SiteDemo.times_nonneg.
  - right. vm_compute. reflexivity.
  - reflexivity.
  - vm_compute. reflexivity.
  - vm_compute. reflexivity.
  - exists mz. split; [exact H1|]. split; [exact H2|]. split; [exact (H3 ltac:(discriminate))|].
    exact (proj1 (H4 eq_refl)).
Defined.
