(* ===== verification/Relay.v ===== *)
(** * Commands: from the API to the loop of the job (handleClientCmd of
      src/manager/server.go, the POST handler of makeHTTPServer of
      src/worker/worker.go)

    The worker's half: a goroutine serves a command beside all the others, which may
    move between any two of its steps.  [done_by] reads off a run of the worker what
    the steps of that goroutine did to the state they found, and the theorem says
    that it is what the command asks for, in order.

    The manager's half: [command_cases] says what it records, posts and answers, for
    any answer to its post.  The two halves are not composed: the address the
    manager posts to (http://<job>:6000) is a matter of the cluster's names. *)

From S2P Require Import Prelude GoLib GoSync Types Sizes Json Kube Gin ManagerJobs JobJson External.
From S2P Require Import ManagerObjects Schedule Wrapper Job Worker Startup Api.

Section worker.
Context {H : Type} (Hooks : list H) (Retry : Z) (mname timeout_text : string) (cap : nat) (interval : Z).
#[local] Abbreviation step := (wstep Hooks Retry mname timeout_text cap interval).
#[local] Abbreviation steps := (wsteps Hooks Retry mname timeout_text cap interval).
#[local] Abbreviation wstate := (wstate (H := H)).
Implicit Types w : wstate.

(** ** What a command asks of the worker *)
Definition disabled (w : wstate) : bool := j_state (wsh w) =? stateDisabled.
Definition starts (c : ClientCmd) : bool := match cc_Cmd c with CmdStart | CmdRestart => true | _ => false end.
Definition action_of (c : ClientCmd) (dis : bool) : list ctrlAction :=
  match cc_Cmd c with
  | CmdStart => [if cc_Force c then jobForceStart else jobStart]
  | CmdRestart => [jobRestart]
  | CmdStop => if dis then [] else [jobStop]
  | CmdPing | CmdUpdate => []
  end.
Definition answer_to (c : ClientCmd) : Z := match cc_Cmd c with CmdUpdate => 406 | _ => 200 end.

(** ** What a goroutine does in a run *)
Inductive deed :=
  | Flushed                (* the slot of the schedule is empty *)
  | Switched (dis : bool)  (* a loop is begun if the command starts a disabled job *)
  | Chose (dis : bool)     (* the state is read for the action *)
  | Handed (a : ctrlAction)
  | Answered.              (* the lock is given back *)

Definition shows (c : ClientCmd) (d : deed) (w w' : wstate) : Prop :=
  match d with
  | Flushed => sched (wsched w') = false /\ wsh w' = wsh w /\ wnew w' = wnew w
  | Switched dis => disabled w = dis /\ wnew w' = (if starts c && dis then S (wnew w) else wnew w) /\
      wsched w' = wsched w /\ wsh w' = wsh w
  | Chose dis => disabled w = dis /\ wnew w' = wnew w /\ wsched w' = wsched w /\ wsh w' = wsh w
  | Handed a => wsh w' = set_ctrl (ctrl (wsh w) ++ [a]) (wsh w) /\ wnew w' = wnew w /\ wsched w' = wsched w
  | Answered => wL w' = false /\ wnew w' = wnew w /\ wsched w' = wsched w /\ wsh w' = wsh w
  end.

(** The deeds of goroutine [i] in a run; a step of it that is none of them touches
    neither the schedule nor the job. *)
Inductive done_by (c : ClientCmd) (i : nat) : wstate -> list wlabel -> list deed -> wstate -> Prop :=
  | done_nil w : done_by c i w [] [] w
  | done_other w lb w1 ls ds w' :
      lb <> WThread i -> step lb w = Some w1 -> done_by c i w1 ls ds w' -> done_by c i w (lb :: ls) ds w'
  | done_silent w w1 ls ds w' :
      step (WThread i) w = Some w1 -> wsched w1 = wsched w -> wsh w1 = wsh w -> wnew w1 = wnew w ->
      done_by c i w1 ls ds w' -> done_by c i w (WThread i :: ls) ds w'
  | done_deed w d w1 ls ds w' :
      step (WThread i) w = Some w1 -> shows c d w w1 ->
      done_by c i w1 ls ds w' -> done_by c i w (WThread i :: ls) (d :: ds) w'.

(** What is left to do of a command, by the place of its goroutine: [d1] and [d2] are
    what the two reads of the job's state will find. *)
Definition after_choice (t : tpc) : list deed :=
  match t with TSend a => [Handed a; Answered] | TReply _ => [Answered] | _ => [] end.
Definition todo (c : ClientCmd) (d1 d2 : bool) (t : tpc) : list deed :=
  match t with
  | TLock _ | TRemove _ => Flushed :: Switched d1 :: Chose d2 :: after_choice (command_action c d2)
  | TSwitch _ => Switched d1 :: Chose d2 :: after_choice (command_action c d2)
  | TAct _ => Chose d2 :: after_choice (command_action c d2)
  | t => after_choice t
  end.
Definition serves (c : ClientCmd) (t : tpc) : Prop :=
  match t with
  | TLock (Some c') | TRemove c' | TSwitch c' | TAct c' => c' = c
  | TSend _ => answer_to c = 200
  | TReply code | TOver code => code = answer_to c
  | _ => False
  end.

Lemma after_choice_action c d :
  after_choice (command_action c d) = (Handed <$> action_of c d) ++ [Answered].
Proof. unfold command_action, action_of. by destruct (cc_Cmd c), (cc_Force c), d. Qed.
Lemma command_serves c d : serves c (command_action c d).
Proof. unfold command_action, serves, answer_to. destruct (cc_Cmd c) eqn:E, (cc_Force c), d; cbn; by rewrite ?E. Qed.

(** Goroutine [i] is moved by its own steps only. *)
Lemma others_leave i t lb w w1 :
  lb <> WThread i -> wthreads w !! i = Some t -> step lb w = Some w1 -> wthreads w1 !! i = Some t.
Proof.
  intros Hne Ht E. unfold wstep in E. destruct (wdead w); [done|].
  assert (Hrep : forall v : wstate, wthreads v = wthreads w -> wthreads (report_schedule v) !! i = Some t).
  { intros v Hv. destruct (report_schedule_parts v) as (_ & _ & _ & _ & _ & ->). by rewrite Hv. }
  destruct lb as [mirror| | |now| |now| | | | |j lb|c| |j].
  1-9: destruct (wpc w); try done.
  - destruct (wL w); [done|]. injection E as <-. unfold w_start.
    destruct (String.eqb _ Disabled); [done|]. destruct (String.eqb _ Paused); [done|].
    by destruct (AddJob _ tt _) as [q [u|]].
  - destruct (mgr (wsh w)); by simplify_eq.
  - destruct (_ =? _); by simplify_eq.
  - destruct (_ =? _); by simplify_eq.
  - destruct (jm_schedule m); [destruct (AddJob _ tt _) as [q [u|]]|]; by simplify_eq.
  - simplify_eq. by apply Hrep.
  - destruct (Pop _ _) as [q [[u|]|]]; by simplify_eq.
  - destruct (ctrl_free w); by simplify_eq.
  - destruct (wexit w && _); by simplify_eq.
  - destruct (mgr (wsh w)); simplify_eq; [done|]. by destruct (_ || _).
  - destruct (wnew w); by simplify_eq.
  - apply lstep_slot in E as (_ & _ & _ & ->). done.
  - injection E as <-. cbn. by apply lookup_app_l_Some.
  - destruct (existsb _ _); [done|]. injection E as <-. cbn. by apply lookup_app_l_Some.
  - destruct (wthreads w !! j) as [u|] eqn:Eu; [|done]. assert (Hji : j <> i) by (by intros ->).
    destruct u; unfold tstep in E; repeat case_match; simplify_eq; cbn; by rewrite ?list_lookup_insert_ne.
Qed.

(** One step of the goroutine that serves [c]. *)
Lemma serving_step c i t w w1 :
  serves c t -> wthreads w !! i = Some t -> step (WThread i) w = Some w1 ->
  exists t1, wthreads w1 !! i = Some t1 /\ serves c t1 /\
    ((forall d1 d2, todo c d1 d2 t = todo c d1 d2 t1) /\ wsched w1 = wsched w /\ wsh w1 = wsh w /\ wnew w1 = wnew w \/
     exists d, shows c d w w1 /\ forall d1 d2, exists e1 e2, todo c e1 e2 t = d :: todo c d1 d2 t1).
Proof.
  intros Hs Ht E. unfold wstep in E. rewrite Ht in E. destruct (wdead w); [done|].
  assert (Hl : forall t' l, l = wthreads w -> <[i := t']> l !! i = Some t').
  { intros t' l ->. apply list_lookup_insert_eq. by eapply lookup_lt_Some. }
  destruct t as [[c0|]|c0|c0|c0|a|code| | | | | |code]; cbn [serves] in Hs; try done; subst; unfold tstep in E.
  - destruct (wL w); [done|]. injection E as <-. exists (TRemove c). split; [by apply Hl|]. split; [done|]. by left.
  - destruct (mu (wsched w)) eqn:Em.
    { apply blocked_for_ever in Em as (_ & Hr & _). by rewrite Hr in E. }
    rewrite (Remove_free _ Em) in E. injection E as <-. exists (TSwitch c). split; [by apply Hl|]. split; [done|].
    right. exists Flushed. split; [done|]. intros d1 d2. by exists d1, d2.
  - injection E as <-. exists (TAct c). split; [cbn; destruct (_ && _); by apply Hl|]. split; [done|].
    right. exists (Switched (disabled w)). split.
    + unfold shows, disabled, starts. destruct (cc_Cmd c), (_ =? _); done.
    + intros d1 d2. by exists (disabled w), d2.
  - injection E as <-. exists (command_action c (disabled w)). split; [by apply Hl|]. split; [apply command_serves|].
    right. exists (Chose (disabled w)). split; [done|]. intros d1 d2. exists d1, (disabled w). cbn [todo].
    unfold command_action. by destruct (cc_Cmd c), (cc_Force c), (disabled w).
  - destruct (ctrl_free w); [|done]. injection E as <-. exists (TReply 200). split; [by apply Hl|]. split; [done|].
    right. exists (Handed a). split; [done|]. intros d1 d2. by exists d1, d2.
  - injection E as <-. exists (TOver (answer_to c)). split; [by apply Hl|]. split; [done|].
    right. exists Answered. split; [done|]. intros d1 d2. by exists d1, d2.
Qed.

Lemma serving_run c i ls t w w' code :
  serves c t -> wthreads w !! i = Some t -> steps ls w = Some w' -> wthreads w' !! i = Some (TOver code) ->
  code = answer_to c /\ exists d1 d2, done_by c i w ls (todo c d1 d2 t) w'.
Proof.
  revert t w. induction ls as [|lb ls IH]; intros t w Hs Ht E Ho; cbn [wsteps] in E.
  - injection E as <-. rewrite Ht in Ho. injection Ho as ->. split; [done|]. exists true, true. constructor.
  - destruct (step lb w) as [w1|] eqn:E1; [|done].
    assert (Hlb : lb = WThread i \/ lb <> WThread i).
    { destruct lb as [| | | | | | | | | | | | |j]; try (by right).
      destruct (decide (j = i)) as [->|]; [by left|right; congruence]. }
    destruct Hlb as [->|Hne].
    + destruct (serving_step c i t w w1 Hs Ht E1) as (t1 & Ht1 & Hs1 & Hd).
      destruct (IH t1 w1 Hs1 Ht1 E Ho) as (Hc & d1 & d2 & Hr). split; [done|].
      destruct Hd as [(Htd & X1 & X2 & X3)|(d & Hsh & Htd)].
      * exists d1, d2. eapply done_silent; [done..|]. by rewrite Htd.
      * destruct (Htd d1 d2) as (e1 & e2 & He). exists e1, e2. rewrite He. by eapply done_deed.
    + destruct (IH t w1 Hs (others_leave i t lb w w1 Hne Ht E1) E Ho) as (Hc & d1 & d2 & Hr).
      split; [done|]. exists d1, d2. by eapply done_other.
Qed.

(** C13: A command that the worker has answered was carried out, whatever the scheduler,
    the loop of the job and other commands did between the steps of its handler: the
    handler has emptied the slot of the schedule, then begun a loop exactly if the
    command starts a job it found disabled, then handed the action of the command
    to the channel of the loop (none for a ping, none for the stop of a disabled
    job), and then answered 200, in this order and nothing else; only the update
    command, which no body decodes to, is answered 406. *)
Theorem answered_command_is_carried_out (c : ClientCmd) (w w1 w' : wstate) (ls : list wlabel) (code : Z) :
  step (WCommand (Some c)) w = Some w1 -> steps ls w1 = Some w' ->
  wthreads w' !! length (wthreads w) = Some (TOver code) ->
  code = answer_to c /\
  exists dis1 dis2, done_by c (length (wthreads w)) w1 ls
    ([Flushed; Switched dis1; Chose dis2] ++ (Handed <$> action_of c dis2) ++ [Answered]) w'.
Proof.
  intros E Hs Ho. assert (Ht : wthreads w1 !! length (wthreads w) = Some (TLock (Some c))).
  { unfold wstep in E. destruct (wdead w); [done|]. injection E as <-. cbn.
    by rewrite lookup_app_r, Nat.sub_diag by lia. }
  destruct (serving_run c _ ls (TLock (Some c)) w1 w' code eq_refl Ht Hs Ho) as (Hc & d1 & d2 & Hd). split; [done|].
  exists d1, d2. cbn [todo] in Hd. by rewrite after_choice_action in Hd.
Qed.
End worker.

(** ** The manager's half *)
Section relayed.
Context `{!Router} `{!MapRange} `{!SortSlice} (kc : kube_codecs).
Context {K : Type} `{!Client K JobSpec JobStatus, !ClientLaws K JobSpec JobStatus}
  `{!Client K AnnouncementSpec AnnouncementStatus} `{!Client K FileSpec FileStatus}.
Context (now : nat -> Z) (fetch_log : string -> reply).
Context (search : string -> outcome (Z * outcome giteaMsg)) (rfc3339 : string -> option Z).
Context (total : string) (doc : option mirrorz.MirrorZ).
#[local] Abbreviation engine_with post := (engine kc (K := K) now post fetch_log search rfc3339 total).
#[local] Abbreviation jobs := (stored (K := K) (Sp := JobSpec) (St := JobStatus)).

(** The request reaches [handleClientCmd]. *)
Lemma command_reaches post name pack body :
  Path.plain_name name = true ->
  engine_with post doc (mkHttp POST (job_path name (Some "cmd")) pack body) =
  (serve (K := K) now post fetch_log (RCmd name (bind cmd_codec body));; mret doc).
Proof.
  intros Hn. rewrite (engine_job kc now post fetch_log search rfc3339 total doc name (Some "cmd")); [|done| |done].
  - reflexivity.
  - by intros w [= <-].
Qed.

(** The answer of the manager to a command it has relayed. *)
Definition acknowledged (name : string) : call :=
  JSON StatusOK (BInfo ("successfully send command to mirror " +:+ name)).
(** What the manager does with a command, for any answer of the worker. *)
Lemma command_cases post name (b : bound ClientCmd) (k : K) cs es t p s' fl :
  kwf (Sp := JobSpec) (St := JobStatus) k ->
  (serve (K := K) now post fetch_log (RCmd name b);; mret doc) (mkHS k Free cs es t p) = (s', fl) ->
  let c := bound_value b in
  (posts s' = p /\ cc_Cmd c = CmdStop) \/
  (posts s' = p ++ [(name, c)] /\
   (cc_Cmd c = CmdStop -> exists o, jobs (cluster s') !! name = Some o /\ st_Status (Status o) = Paused) /\
   match post name c with
   | Ret (code, _, _) => code = 200 -> last (Gin.calls s') = Some (acknowledged name)
   | Err e | Panic e => last (Gin.calls s') = Some (JSON StatusInternalServerError
       (BError (("post command to mirror " +:+ name +:+ " fail: ") +:+ e)))
   end).
Proof.
  intros Hwf Hs c. run_handler Hs.
  unfold serve, handleClientCmd, post_command, ManagerJobs.GetJob. handler_steps. fold c.
  destruct (cc_Cmd c) eqn:Ec; job_steps; try (by left); right; (split; [done|]); (split; [try done|]);
    try (intros _; cbn [cluster set_mutex];
      match goal with Hg : kGet name k = Ret ?o, Hu : kStatusUpdate _ _ = (?k', ?j', None) |- _ =>
      destruct (update_after_get k k' name o j' _ Hwf Hg Hu) as (_ & -> & _ & _ & Hst) end;
      rewrite lookup_insert_eq; (eexists; split; [done|]; by rewrite Hst));
    cbn [Gin.calls set_mutex]; try (intros ->; done); intros; by rewrite last_snoc.
Qed.

(** A body that is no command starts the job: BindJSON answers 400, its error is
    ignored, and the zero command, a start, is posted to the worker and acknowledged
    when the worker answers 200. *)
Lemma malformed_command_starts_the_job post (name : string) (pack : bool) (k : K) cs es t p s' fl text oe :
  Path.plain_name name = true -> kwf (Sp := JobSpec) (St := JobStatus) k ->
  post name (mkClientCmd CmdStart false) = Ret (200, text, oe) ->
  engine_with post doc (mkHttp POST (job_path name (Some "cmd")) pack None) (mkHS k Free cs es t p) = (s', fl) ->
  Gin.calls s' = cs ++ [AbortWithError StatusBadRequest; acknowledged name] /\
  posts s' = p ++ [(name, mkClientCmd CmdStart false)].
Proof.
  intros Hn Hwf Hr Hs. rewrite command_reaches in Hs by done.
  run_handler Hs. unfold serve, handleClientCmd, post_command. handler_steps.
  cbn [bind bound_value bind_failed czero cmd_codec cc_Cmd]. job_steps; rewrite Hr in Hreply; simplify_eq.
  cbn. by rewrite <- app_assoc.
Qed.
End relayed.

(** *** A stop that arrives while the loop of the job has not yet taken the start of the
    tick: the handler waits for the channel until the loop has taken it. *)
Module RelayDemo.
Definition before : list wlabel := [WInit zeroJobStatus; WNext; WBegin; WTick 86401000000000; WTickSend].
Definition stop : ClientCmd := mkClientCmd CmdStop false.
Definition serving_labels : list wlabel :=
  [WThread 0; WThread 0; WLoop 0 LTop; WThread 0; WThread 0; WLoop 0 LRecv; WThread 0; WThread 0].
Definition w0 : wstate (H := nat) := Demo.at_ 1 before.
Definition w1 : wstate (H := nat) := Demo.at_ 1 (before ++ [WCommand (Some stop)]).
Definition w2 : wstate (H := nat) := Demo.at_ 1 (before ++ [WCommand (Some stop)] ++ serving_labels).
End RelayDemo.

Lemma answered_command_is_carried_out_witness :
  exists dis1 dis2, done_by [] 2 "debian" "1h0m0s" 1 86400 RelayDemo.stop 0 RelayDemo.w1 RelayDemo.serving_labels
    ([Flushed; Switched dis1; Chose dis2] ++ (Handed <$> action_of RelayDemo.stop dis2) ++ [Answered]) RelayDemo.w2.
Proof.
  apply (answered_command_is_carried_out [] 2 "debian" "1h0m0s" 1 86400 RelayDemo.stop RelayDemo.w0 RelayDemo.w1
    RelayDemo.w2 RelayDemo.serving_labels 200); vm_compute; reflexivity.
Defined.
