(* ===== verification/Main.v ===== *)
(** * The three programs (src/cmd/main.go, src/manager/cmd/main.go,
      src/worker/cmd/main.go; GetTUNASyncManager, Start, waitForCache and Run of
      src/manager/server.go; InitLogger of src/worker/logger.go)

    What each program sets up before it runs, when it gives up, and how the
    manager's goroutines and the worker's signal handler live and end.  The calls
    of libraries may fail: which do is an argument.  Flags are arguments too, and
    whether a path is a directory.

    [controller_main] is the sequence of calls of the controller.
    [manager_main] builds the server; its life ([lstep]) is a transition system of
    the main goroutine, the cache's, the one that runs the HTTP server and the
    requests in flight.  [startWorker] builds the worker; its life ([sstep]) is
    the worker's transition system ([Worker]) with the goroutine that waits for
    signals. *)

From S2P Require Import Prelude GoLib GoSync Types Sizes Json Kube Cluster Gin ManagerJobs JobJson Api.
From S2P Require Import Config Context Provider JobDesired ControllerConfig Watch.
From S2P Require Import Schedule Wrapper Job Worker Startup.

(** How a process ends. *)
Inductive ending := Exits (code : Z) | Dies (e : string).

#[export] Instance ending_eq_dec : EqDecision ending.
Proof. solve_decision. Defined.

(** ** The controller *)
Record controller_flags := mkCFlags {
  metricsAddr : string; probeAddr : string; enableLeaderElection : bool;
}.
Definition default_flags : controller_flags := mkCFlags ":8080" ":8081" false.

(** The calls that can fail, with what they are given. *)
Inductive setup :=
  | SchemeMust (api : string)
  | GetConfigOrDie
  | NewManager (f : controller_flags) (LeaderElectionID : string)
  | AddToScheme (api : string)
  | SetupWithManager (c : controller) (config : option CConfig)
  | AddHealthzCheck (name : string)
  | AddReadyzCheck (name : string)
  | StartManager.

(** [init] panics ([utilruntime.Must]); main exits, by [os.Exit] or [log.Fatalf]. *)
Definition gives_up (s : setup) (e : string) : ending :=
  match s with SchemeMust _ => Dies e | _ => Exits 1 end.

(** The calls made, and the end of the program. *)
Fixpoint calls_of (fails : setup -> option string) (ss : list setup) : list setup * ending :=
  match ss with
  | [] => ([], Exits 0)
  | s :: ss =>
      match fails s with
      | Some e => ([s], gives_up s e)
      | None => let '(cs, e) := calls_of fails ss in (s :: cs, e)
      end
  end.

Definition controller_setup (env : environ) (f : controller_flags) : list setup :=
  let config := getConfig env in
  [SchemeMust "client-go"; SchemeMust "mirror"; GetConfigOrDie; NewManager f "fbcb7ae1.redrock.team";
   AddToScheme "monitoring";
   SetupWithManager JobController (Some config);
   SetupWithManager ManagerController (Some config);
   SetupWithManager AnnouncementController None;
   AddHealthzCheck "healthz"; AddReadyzCheck "readyz"; StartManager].
Definition controller_main (env : environ) (f : controller_flags) (fails : setup -> option string)
    : list setup * ending := calls_of fails (controller_setup env f).

(** ** The manager *)
Record Options := mkOptions { o_Address : string; o_MirrorZ : option mirrorz.MirrorZ; o_Total : string }.

(** [m.internal] is the background context, which is never done. *)
Inductive context := Background | SignalHandler.

(** The server; [sv_cache] is false for the nil cache. *)
Record server := mkServer {
  sv_namespace : string; sv_cache : bool; sv_started : bool; sv_internal : context;
  sv_address : string; sv_option : Options; sv_routes : list route;
}.

Inductive library :=
  | MustScheme (api : string) | RestConfig   (* ctrl.GetConfigOrDie *)
  | HTTPClientFor | NewDynamicRESTMapper | NewCache | NewClient.

Section manager.
Context (fails : library -> option string).

(** The error of [cache.New] is overwritten before it is read. *)
Definition GetTUNASyncManager (env : environ) (options : Options) : outcome server :=
  let namespace := Getenv env "NAMESPACE" in
  if String.eqb namespace "" then Err "can't get namespace"
  else match fails HTTPClientFor with Some e => Err e | None =>
       match fails NewDynamicRESTMapper with Some e => Err e | None =>
       let cc := match fails NewCache with Some _ => false | None => true end in
       match fails NewClient with Some e => Err e | None =>
       Ret (mkServer namespace cc false Background (o_Address options) options
              (routes (match o_MirrorZ options with Some _ => true | None => false end)))
       end end end.

(** [init], and [main] up to [mgr.Start]: the flag [addr], if it is given, beats
    ADDR. *)
Context (Unmarshal : string -> option mirrorz.MirrorZ).
Definition manager_options (env : environ) (addr : option string) : Options :=
  let addrEnv := Getenv env "ADDR" in
  let addrEnv := if String.eqb addrEnv "" then ":3000" else addrEnv in
  mkOptions (default addrEnv addr) (Unmarshal (Getenv env "MIRRORZ")) (Getenv env "TOTAL").
Definition manager_main (env : environ) (addr : option string) : server + ending :=
  match fails (MustScheme "client-go") with Some e => inr (Dies e) | None =>
  match fails (MustScheme "mirror") with Some e => inr (Dies e) | None =>
  match fails RestConfig with Some _ => inr (Exits 1) | None =>
  match GetTUNASyncManager env (manager_options env addr) with
  | Ret s => inl s
  | Err _ => inr (Exits 1)
  | Panic e => inr (Dies e)
  end end end end.
End manager.

(** *** The life of the manager *)
Inductive mpc :=
  | MWait      (* Start: waitForCache *)
  | MSync      (* m.cache.WaitForCacheSync(m.internal) *)
  | MServe     (* the cache is synced; go m.Run(m.internal) *)
  | MSelect    (* case <-ctx.Done() *)
  | MMainOver.
Inductive runpc :=
  | RNone | RBegin   (* go func() { httpServer.ListenAndServe() }() *)
  | RSelect          (* case <-ctx.Done() *)
  | RShutdown        (* httpServer.Shutdown *)
  | RRunOver.

Record life := mkLife {
  lf_server : server;
  lf_main : mpc;
  lf_cache : bool;       (* the goroutine of m.cache.Start runs *)
  lf_synced : bool;      (* the caches hold what the API server holds *)
  lf_run : runpc;
  lf_listen : bool;      (* ListenAndServe is called and has not returned *)
  lf_requests : nat;     (* requests being served *)
  lf_signal : bool;      (* the context of SetupSignalHandler is done *)
  lf_end : option ending;
}.

Definition born (s : server) : life := mkLife s MWait false false RNone false 0 false None.

(** [ctx.Done()] can be received from. *)
Definition done (c : context) (p : life) : bool :=
  match c with Background => false | SignalHandler => lf_signal p end.

Definition set_started (s : server) : server :=
  mkServer (sv_namespace s) (sv_cache s) true (sv_internal s) (sv_address s) (sv_option s) (sv_routes s).
Definition set_main (m : mpc) (p : life) : life :=
  mkLife (lf_server p) m (lf_cache p) (lf_synced p) (lf_run p) (lf_listen p) (lf_requests p) (lf_signal p)
    (lf_end p).
Definition set_run (r : runpc) (p : life) : life :=
  mkLife (lf_server p) (lf_main p) (lf_cache p) (lf_synced p) r (lf_listen p) (lf_requests p) (lf_signal p)
    (lf_end p).
Definition set_cache (cache synced : bool) (p : life) : life :=
  mkLife (lf_server p) (lf_main p) cache synced (lf_run p) (lf_listen p) (lf_requests p) (lf_signal p)
    (lf_end p).
Definition set_http (listen : bool) (n : nat) (p : life) : life :=
  mkLife (lf_server p) (lf_main p) (lf_cache p) (lf_synced p) (lf_run p) listen n (lf_signal p) (lf_end p).
Definition set_server (s : server) (p : life) : life :=
  mkLife s (lf_main p) (lf_cache p) (lf_synced p) (lf_run p) (lf_listen p) (lf_requests p) (lf_signal p)
    (lf_end p).
Definition set_signal (p : life) : life :=
  mkLife (lf_server p) (lf_main p) (lf_cache p) (lf_synced p) (lf_run p) (lf_listen p) (lf_requests p) true
    (lf_end p).
Definition set_end (e : ending) (p : life) : life :=
  mkLife (lf_server p) (lf_main p) (lf_cache p) (lf_synced p) (lf_run p) (lf_listen p) (lf_requests p)
    (lf_signal p) (Some e).

Inductive llabel :=
  | LMain | LRun
  | LSynced                  (* the caches have caught up *)
  | LCacheFails (e : string) (* m.cache.Start returns an error *)
  | LListenFails (e : string)
  | LRequest | LAnswered
  | LSignal.

Definition main_step (p : life) : option life :=
  match lf_main p with
  | MWait =>
      if sv_started (lf_server p) then Some (set_main MServe p)
      else if sv_cache (lf_server p) then Some (set_main MSync (set_cache true (lf_synced p) p))
      else Some (set_end (Dies "invalid memory address or nil pointer dereference") p)
  | MSync =>
      if lf_synced p || done (sv_internal (lf_server p)) p
      then Some (set_main MServe (set_server (set_started (lf_server p)) p)) else None
  | MServe => Some (set_main MSelect (set_run RBegin p))
  | MSelect =>
      if done SignalHandler p then Some (set_main MMainOver (set_end (Exits 0) p)) else None
  | MMainOver => None
  end.
Definition run_step (p : life) : option life :=
  match lf_run p with
  | RNone | RRunOver => None
  | RBegin => Some (set_run RSelect (set_http true (lf_requests p) p))
  | RSelect => if done (sv_internal (lf_server p)) p then Some (set_run RShutdown p) else None
  | RShutdown =>
      match lf_requests p with
      | O => Some (set_run RRunOver p)
      | S _ => None
      end
  end.

Definition lstep (lb : llabel) (p : life) : option life :=
  match lf_end p with
  | Some _ => None
  | None =>
  match lb with
  | LMain => main_step p
  | LRun => run_step p
  | LSynced => if lf_cache p then Some (set_cache true true p) else None
  | LCacheFails e => if lf_cache p then Some (set_end (Dies e) p) else None
  | LListenFails e => if lf_listen p then Some (set_end (Dies e) p) else None
  | LRequest =>
      match lf_run p with
      | RSelect => Some (set_http (lf_listen p) (S (lf_requests p)) p)
      | _ => None
      end
  | LAnswered =>
      match lf_requests p with
      | S n => Some (set_http (lf_listen p) n p)
      | O => None
      end
  | LSignal => Some (if lf_signal p then set_end (Exits 1) p else set_signal p)
  end
  end.

Fixpoint lsteps (ls : list llabel) (p : life) : option life :=
  match ls with
  | [] => Some p
  | lb :: ls => match lstep lb p with Some p' => lsteps ls p' | None => None end
  end.

(** ** The worker *)
Inductive level := DEBUG | INFO | NOTICE.
Record logger := mkLogger { lg_format : string; lg_level : level }.
Definition InitLogger (verbose debug : bool) : logger :=
  mkLogger
    (if debug
     then "%{color}[%{time:06-01-02 15:04:05}][%{level:.6s}][%{shortfile}]%{color:reset} %{message}"
     else "%{color}[%{time:06-01-02 15:04:05}][%{level:.6s}]%{color:reset} %{message}")
    (if debug then DEBUG else if verbose then INFO else NOTICE).

Record worker_flags := mkWFlags { fl_verbose : bool; fl_debug : bool; fl_prof_path : string }.

Record worker_program {regexp : Type} := mkProgram {
  wp_config : Config; wp_logger : logger;
  wp_release : bool;          (* gin.SetMode(gin.ReleaseMode) *)
  wp_cap : nat;               (* of the semaphore *)
  wp_provider : mirrorProvider (regexp := regexp);
  wp_profile : option string; (* where the profile is written *)
}.
#[global] Arguments worker_program : clear implicits.
#[global] Arguments mkProgram {regexp}.

Section start.
Context {regexp : Type} (shlex : string -> outcome (list string)).
Context (Compile : string -> outcome regexp) (formatLogDir : Config -> string -> outcome string).
(** [os.Stat]: an error, or whether the path is a directory. *)
Context (Stat : string -> option bool).

Definition startWorker (c : worker_flags) (env : environ) : worker_program regexp + ending :=
  match LoadConfig env with
  | Err _ => inr (Exits 1)
  | Panic e => inr (Dies e)
  | Ret cfg =>
      let debug := fl_debug c || c_Debug cfg in
      let log := InitLogger (fl_verbose c || c_Verbose cfg) debug in
      match NewTUNASyncWorker shlex Compile formatLogDir cfg with
      | Panic e => inr (Dies e)
      | Err _ => inr (Exits 1)
      | Ret (cap, job) =>
          let provider := mj_provider job in
          let cfg := if c_Retry cfg =? 0 then with_retry defaultMaxRetry cfg else cfg in
          let profPath := fl_prof_path c in
          if String.eqb profPath "" then inl (mkProgram cfg log (negb debug) cap provider None)
          else match Stat profPath with
               | Some true => inl (mkProgram cfg log (negb debug) cap provider (Some profPath))
               | Some false | None => inr (Exits 1)
               end
      end
  end.
End start.

(** *** The life of the worker: the goroutine of startWorker that waits for
    signals, beside the worker itself.  A signal that nobody asked for kills the
    process; the channel holds one, the others are dropped. *)
Inductive signal := SIGINT | SIGTERM.
Inductive gpc := GSleep | GNotify (s : signal) | GRange.

Section life.
Context {H : Type} (Hooks : list H) (Retry : Z) (mname timeout_text : string) (cap : nat) (interval : Z).
#[local] Abbreviation step := (wstep Hooks Retry mname timeout_text cap interval).

Record process := mkProcess {
  pr_worker : wstate (H := H); pr_pc : gpc; pr_chan : option signal; pr_end : option ending;
}.
Definition launched : process := mkProcess w_init GSleep None None.

Inductive plabel :=
  | PGoroutine              (* the signal goroutine: Sleep, Notify, Notify, range *)
  | PSignal (s : signal)
  | PWorker (lb : wlabel)   (* a goroutine of the worker *)
  | PListenFails (e : string) (* runHTTPServer: ListenAndServe returns, panic(err) *)
  | PReturn.                (* w.Run() returns *)

Definition asked (pc : gpc) (s : signal) : bool :=
  match pc, s with
  | GSleep, _ | GNotify SIGINT, _ | GNotify SIGTERM, SIGTERM => false
  | GNotify SIGTERM, SIGINT | GRange, _ => true
  end.

Definition with_worker (pc : gpc) (ch : option signal) (w : option wstate) : option process :=
  (fun w => mkProcess w pc ch ((fun _ => Dies "panic") <$> wdead w)) <$> w.

Definition sstep (lb : plabel) (p : process) : option process :=
  match pr_end p with
  | Some _ => None
  | None =>
  let w := pr_worker p in
  match lb with
  | PGoroutine =>
      match pr_pc p, pr_chan p with
      | GSleep, ch => Some (mkProcess w (GNotify SIGINT) ch None)
      | GNotify SIGINT, ch => Some (mkProcess w (GNotify SIGTERM) ch None)
      | GNotify SIGTERM, ch => Some (mkProcess w GRange ch None)
      | GRange, Some _ => with_worker GRange None (step WHalt w)
      | GRange, None => None
      end
  | PSignal s =>
      if asked (pr_pc p) s
      then Some (mkProcess w (pr_pc p) (match pr_chan p with Some s' => Some s' | None => Some s end) None)
      else Some (mkProcess w (pr_pc p) (pr_chan p) (Some (Dies "signal")))
  | PWorker WHalt => None
  | PWorker lb => with_worker (pr_pc p) (pr_chan p) (step lb w)
  | PListenFails e => Some (mkProcess w (pr_pc p) (pr_chan p) (Some (Dies e)))
  | PReturn =>
      match wpc w with
      | SEnd => Some (mkProcess w (pr_pc p) (pr_chan p) (Some (Exits 0)))
      | _ => None
      end
  end
  end.

Fixpoint ssteps (ls : list plabel) (p : process) : option process :=
  match ls with
  | [] => Some p
  | lb :: ls => match sstep lb p with Some p' => ssteps ls p' | None => None end
  end.
End life.

(** ** The controller starts complete or not at all *)
Definition registered (s : setup) : option (controller * option CConfig) :=
  match s with SetupWithManager c cfg => Some (c, cfg) | _ => None end.

(** The calls are made in order up to the first that fails. *)
Lemma calls_of_spec fails ss cs e :
  calls_of fails ss = (cs, e) ->
  (cs = ss /\ e = Exits 0 /\ Forall (fun s => fails s = None) ss) \/
  exists pre s post err, ss = pre ++ s :: post /\ cs = pre ++ [s] /\ Forall (fun s => fails s = None) pre /\
    fails s = Some err /\ e = gives_up s err.
Proof.
  revert cs e. induction ss as [|s ss IH]; intros cs e; cbn [calls_of]; [intros [= <- <-]; by left|].
  destruct (fails s) as [err|] eqn:Ef; [intros [= <- <-]; right; by exists [], s, ss, err|].
  destruct (calls_of fails ss) as [cs' e'] eqn:Ec. intros [= <- <-].
  destruct (IH _ _ eq_refl) as [(-> & -> & Hall)|(pre & s' & post & err & -> & -> & Hall & Hs & ->)].
  - left. split_and!; [done..|]. by constructor.
  - right. exists (s :: pre), s', post, err. split_and!; [done..| |done|done]. by constructor.
Qed.

(** When the last call is reached. *)
Lemma calls_of_last fails init x cs e :
  x ∉ init -> calls_of fails (init ++ [x]) = (cs, e) ->
  (x ∈ cs <-> Forall (fun s => fails s = None) init) /\ (x ∈ cs -> cs = init ++ [x]).
Proof.
  intros Hx [(-> & _ & Hall)|(pre & s & post & err & Es & -> & Hpre & Hs & _)]%calls_of_spec.
  { apply Forall_app in Hall as [Hall _]. set_solver. }
  destruct post as [|y post _] using rev_ind.
  - apply app_inj_2 in Es as [-> [= <-]]; [|done]. set_solver.
  - rewrite (app_assoc pre (s :: post) [y] : pre ++ s :: post ++ [y] = _) in Es.
    apply app_inj_2 in Es as [-> [= <-]]; [|done]. rewrite Forall_app, Forall_cons.
    split; [split; [set_solver|intros (_ & Hf & _); congruence]|set_solver].
Qed.

(** The controller starts complete or not at all: it exits with 0 exactly when
    no call fails; and when it starts its manager, every call before has succeeded
    and the three controllers are registered, the first two with the one
    configuration read from the environment. *)
Theorem controller_starts_complete (env : environ) (f : controller_flags) (fails : setup -> option string) :
  let '(cs, e) := controller_main env f fails in
  (e = Exits 0 <-> Forall (fun s => fails s = None) (controller_setup env f)) /\
  (StartManager ∈ cs <->
     Forall (fun s => fails s = None) (removelast (controller_setup env f))) /\
  (StartManager ∈ cs -> omap registered cs =
     [(JobController, Some (getConfig env)); (ManagerController, Some (getConfig env));
      (AnnouncementController, None)]).
Proof.
  destruct (controller_main env f fails) as [cs e] eqn:Em. unfold controller_main in Em.
  set (init := removelast (controller_setup env f)).
  assert (Hi : controller_setup env f = init ++ [StartManager]) by reflexivity.
  assert (Hn : StartManager ∉ init).
  { unfold init, controller_setup. cbn [removelast]. rewrite !not_elem_of_cons.
    split_and!; [discriminate..|apply not_elem_of_nil]. }
  pose proof Em as Hl. rewrite Hi in Hl. apply calls_of_last in Hl as [Hl1 Hl2]; [|done].
  split_and!; [|done|intros Hin; by rewrite (Hl2 Hin)].
  destruct (calls_of_spec _ _ _ _ Em) as [(_ & -> & Hall)|(pre & s & post & err & Es & _ & _ & Hs & ->)]; [done|].
  rewrite Es, Forall_app, Forall_cons. split; [by destruct s|intros (_ & Hf & _); congruence].
Qed.

(** ** The manager serves what it has read *)

(** What a server is made of. *)
Lemma manager_main_spec fails Unmarshal env addr s :
  manager_main fails Unmarshal env addr = inl s ->
  sv_namespace s = Getenv env "NAMESPACE" /\ sv_namespace s <> "" /\
  sv_internal s = Background /\ sv_started s = false /\
  sv_cache s = match fails NewCache with Some _ => false | None => true end.
Proof.
  unfold manager_main, GetTUNASyncManager. intros Hm. split_matches; (split_and!; [done| |done..]); by apply String.eqb_neq.
Qed.

Lemma lsteps_app ls1 ls2 p : lsteps (ls1 ++ ls2) p = lsteps ls1 p ≫= lsteps ls2.
Proof.
  revert p. induction ls1 as [|lb ls1 IH]; intros p; [done|]. cbn.
  by destruct (lstep lb p) as [p'|]; [apply IH|].
Qed.

(** The main goroutine is past its wait for the cache, the server is begun, and
    it is shut down. *)
Definition ready (m : mpc) : bool := match m with MWait | MSync => false | _ => true end.
Definition serves (m : mpc) : bool := match m with MSelect | MMainOver => true | _ => false end.
Definition shut (r : runpc) : bool := match r with RShutdown | RRunOver => true | _ => false end.

(** What every life of a manager keeps. *)
Record alive (p : life) : Prop := {
  al_internal : sv_internal (lf_server p) = Background;
  al_wait : lf_main p = MWait -> sv_started (lf_server p) = false;
  al_ready : ready (lf_main p) = true -> lf_synced p = true /\ sv_started (lf_server p) = true;
  al_run : shut (lf_run p) = false;
  al_serve : lf_run p <> RNone -> serves (lf_main p) = true;
  al_http : lf_listen p = true \/ (0 < lf_requests p)%nat -> lf_run p = RSelect;
}.

Lemma alive_born s : sv_internal s = Background -> sv_started s = false -> alive (born s).
Proof. intros Hi Hs. split; cbn; try done. intros [?|?]; [done|lia]. Qed.

(** Steps of neither goroutine. *)
Lemma alive_frame p p' :
  alive p -> lf_server p' = lf_server p -> lf_main p' = lf_main p -> lf_run p' = lf_run p ->
  (lf_synced p = true -> lf_synced p' = true) ->
  (lf_listen p' = true \/ (0 < lf_requests p')%nat -> lf_run p = RSelect) -> alive p'.
Proof.
  intros [Hi Hw Hr Hrun Hs Hh] E1 E2 E3 E4 E5.
  split; rewrite ?E1, ?E2, ?E3; try done. intros H. destruct (Hr H). auto.
Qed.

Lemma alive_main p p' : alive p -> main_step p = Some p' -> alive p'.
Proof.
  intros [Hi Hw Hr Hrun Hs Hh]. unfold main_step. rewrite Hi. cbn [done]. rewrite orb_false_r. intros Hm.
  destruct (lf_main p) eqn:Em; simplify_eq/=; split_matches; split; cbn; rewrite ?Em; try done; auto.
  - specialize (Hw eq_refl). congruence.
  - intros Hl%Hh. rewrite Hl in Hs. by discriminate Hs.
Qed.

Lemma alive_run p p' : alive p -> run_step p = Some p' -> alive p'.
Proof.
  intros [Hi Hw Hr Hrun Hs Hh]. unfold run_step. rewrite Hi. cbn [done]. intros Hm.
  destruct (lf_run p) eqn:Em; simplify_eq/=. split; cbn; try done. by intros _; apply Hs.
Qed.

Lemma alive_step p lb p' : alive p -> lstep lb p = Some p' -> alive p'.
Proof.
  intros Ha. unfold lstep. destruct (lf_end p) eqn:Ee; [done|]. pose proof (al_http _ Ha) as Hh.
  destruct lb; [by apply alive_main|by apply alive_run|..]; intros Hl; split_matches; simplify_eq/=;
    eapply alive_frame; try exact Ha; cbn; auto.
  intros _. apply Hh. right. lia.
Qed.

Lemma alive_steps ls p p' : alive p -> lsteps ls p = Some p' -> alive p'.
Proof.
  revert p. induction ls as [|lb ls IH]; intros p Hp Hl; cbn in Hl; [by simplify_eq|].
  destruct (lstep lb p) as [q|] eqn:Eq; [|done]. eapply IH; [|done]. by eapply alive_step.
Qed.

(** How a life ends. *)
Definition ends_by (s : server) (ls : list llabel) (p : life) : Prop :=
  sv_cache (lf_server p) = sv_cache s /\ (lf_signal p = true -> LSignal ∈ ls) /\
  match lf_end p with
  | None => True
  | Some (Exits c) => LSignal ∈ ls /\ (c = 0 \/ c = 1)
  | Some (Dies e) => LCacheFails e ∈ ls \/ LListenFails e ∈ ls \/ sv_cache s = false
  end.

Lemma ends_by_step s ls p lb p' : ends_by s ls p -> lstep lb p = Some p' -> ends_by s (ls ++ [lb]) p'.
Proof.
  intros (Hc & Hs & _). unfold lstep, main_step, run_step. destruct (lf_end p) eqn:Ee; [done|].
  assert (Hin : forall x, x ∈ ls -> x ∈ ls ++ [lb]) by (intros x; rewrite elem_of_app; auto).
  assert (Hlb : lb ∈ ls ++ [lb]) by (rewrite elem_of_app, list_elem_of_singleton; auto).
  unfold ends_by. intros Hl.
  destruct lb; split_matches; simplify_eq/=; rewrite ?Ee; split_and!; auto; try (right; right; by rewrite <- Hc); congruence.
Qed.

Lemma ends_by_steps s ls0 ls p p' : ends_by s ls0 p -> lsteps ls p = Some p' -> ends_by s (ls0 ++ ls) p'.
Proof.
  revert ls0 p. induction ls as [|lb ls IH]; intros ls0 p Hp Hl; cbn in Hl; [by simplify_eq; rewrite app_nil_r|].
  destruct (lstep lb p) as [q|] eqn:Eq; [|done].
  change (lb :: ls) with ([lb] ++ ls). rewrite app_assoc. eapply IH; [|done]. by eapply ends_by_step.
Qed.

(** C36: The manager serves only what it has read, until the process ends: while its
    HTTP server listens or serves a request the caches are synced; the server is
    never shut down in order; the process exits only on a signal and otherwise
    dies only of an error of the cache or of the listener, or because it was built
    without a cache. *)
Theorem manager_serves_only_synced (fails : library -> option string)
    (Unmarshal : string -> option mirrorz.MirrorZ) (env : environ) (addr : option string) (s : server)
    (ls : list llabel) (p : life) :
  manager_main fails Unmarshal env addr = inl s -> lsteps ls (born s) = Some p ->
  (lf_listen p = true \/ (0 < lf_requests p)%nat ->
     lf_synced p = true /\ sv_started (lf_server p) = true) /\
  shut (lf_run p) = false /\
  (forall c, lf_end p = Some (Exits c) -> LSignal ∈ ls /\ (c = 0 \/ c = 1)) /\
  (forall e, lf_end p = Some (Dies e) ->
     LCacheFails e ∈ ls \/ LListenFails e ∈ ls \/ exists e', fails NewCache = Some e').
Proof.
  intros (_ & _ & Hi & Hst & Hc)%manager_main_spec Hl.
  pose proof (alive_steps _ _ _ (alive_born _ Hi Hst) Hl) as [_ _ Hr Hrun Hs Hh].
  assert (He : ends_by s [] (born s)) by done.
  destruct (ends_by_steps _ _ _ _ _ He Hl) as (_ & _ & Hend). cbn [app] in Hend.
  split_and!; [|done| |].
  - intros Hb. apply Hr. rewrite (Hh Hb) in Hs. specialize (Hs ltac:(discriminate)). by destruct (lf_main p).
  - intros c Hx. by rewrite Hx in Hend.
  - intros e Hx. rewrite Hx, Hc in Hend. destruct (fails NewCache) as [e'|]; naive_solver.
Qed.

(** The manager comes up, serves any number of requests at once, and a signal then
    ends the process with 0 while they are still being served. *)
Lemma signal_cuts_requests (s : server) (n : nat) :
  sv_internal s = Background -> sv_started s = false -> sv_cache s = true ->
  exists p, lsteps ([LMain; LSynced; LMain; LMain; LRun] ++ replicate n LRequest ++ [LSignal; LMain])
      (born s) = Some p /\ lf_requests p = n /\ lf_end p = Some (Exits 0).
Proof.
  intros Hi Hs Hc. rewrite lsteps_app.
  assert (Hup : lsteps [LMain; LSynced; LMain; LMain; LRun] (born s) =
    Some (mkLife (set_started s) MSelect true true RSelect true 0 false None)).
  { cbn. unfold main_step. cbn. by rewrite Hs, Hc. }
  rewrite Hup. cbn [mbind option_bind]. rewrite lsteps_app.
  assert (Hreq : forall m, lsteps (replicate n LRequest)
      (mkLife (set_started s) MSelect true true RSelect true m false None) =
    Some (mkLife (set_started s) MSelect true true RSelect true (n + m) false None)).
  { clear Hup. induction n as [|k IH]; intros m; [done|].
    etransitivity; [apply (IH (S m))|]. do 2 f_equal. lia. }
  rewrite Hreq. cbn. eexists. split_and!; [reflexivity|cbn; lia|done].
Qed.

(** A first signal does not end a manager that waits for its caches. *)
Lemma waiting_manager_ignores_signal (s : server) (ls : list llabel) (p : life) :
  sv_internal s = Background -> sv_started s = false -> lsteps ls (born s) = Some p ->
  lf_end p = None -> lf_main p = MSync -> lf_synced p = false -> lstep LMain p = None.
Proof.
  intros Hi Hst Hl He Hm Hs. pose proof (alive_steps _ _ _ (alive_born _ Hi Hst) Hl) as [Hi' _ _ _ _ _].
  unfold lstep, main_step. by rewrite He, Hm, Hs, Hi'.
Qed.

(** An error of [cache.New] is lost: the manager is built without a cache and dies
    of a nil pointer in its first step. *)
Lemma lost_cache_error_kills fails Unmarshal env addr e :
  Getenv env "NAMESPACE" <> "" -> fails NewCache = Some e -> (forall l, l <> NewCache -> fails l = None) ->
  exists s, manager_main fails Unmarshal env addr = inl s /\
    forall lb p, lstep lb (born s) = Some p -> lb <> LSignal ->
      lf_end p = Some (Dies "invalid memory address or nil pointer dereference").
Proof.
  intros Hn Hc Ho. unfold manager_main, GetTUNASyncManager. rewrite Hc, !Ho by done.
  apply String.eqb_neq in Hn. rewrite Hn. eexists. split; [reflexivity|].
  intros lb p Hl Hne. destruct lb; cbn in Hl; by simplify_eq.
Qed.

(** ** The worker runs until it is told to end *)
Section worker_life.
Context {H : Type} (Hooks : list H) (Retry : Z) (mname timeout_text : string) (cap : nat) (interval : Z).
#[local] Abbreviation step := (wstep Hooks Retry mname timeout_text cap interval).
#[local] Abbreviation steps := (ssteps Hooks Retry mname timeout_text cap interval).

(** Nothing has asked the worker to end. *)
Record quiet (w : wstate (H := H)) : Prop := {
  q_exit : wexit w = false;
  q_halt : existsb halting (wthreads w) = false;
  q_pc : wpc w <> SFlush /\ wpc w <> SEnd;
}.

Lemma halting_lookup ts i t : existsb halting ts = false -> ts !! i = Some t -> halting t = false.
Proof.
  revert i. induction ts as [|u ts IH]; intros [|i] He Hi; simplify_eq/=.
  - by apply orb_false_iff in He as [? _].
  - apply orb_false_iff in He as [_ He]. eauto.
Qed.
Lemma halting_insert ts i t :
  existsb halting ts = false -> halting t = false -> existsb halting (<[i := t]> ts) = false.
Proof.
  revert i. induction ts as [|u ts IH]; intros [|i] He Ht; simplify_eq/=; [done..| |].
  - rewrite Ht. by apply orb_false_iff in He as [_ ->].
  - apply orb_false_iff in He as [-> He]. cbn. by apply IH.
Qed.

Lemma quiet_report w : quiet w -> quiet (report_schedule w).
Proof. intros [H1 H2 H3]. unfold report_schedule. destruct (GetJob _) as [? [?|]]; by split. Qed.

Lemma quiet_start mirror w : quiet w -> quiet (w_start interval mirror w).
Proof.
  intros [H1 H2 H3]. unfold w_start. split_matches; try apply quiet_report; by split.
Qed.

Lemma quiet_thread i t w w' : quiet w -> wthreads w !! i = Some t -> tstep i t w = Some w' -> quiet w'.
Proof.
  intros [H1 H2 H3] Ht Hs. pose proof (halting_lookup _ _ _ H2 Ht) as Hh.
  unfold tstep in Hs. destruct t; try discriminate Hh; simplify_eq/=; split_matches;
    split; cbn; try done; apply halting_insert; try done; unfold command_action; by split_matches.
Qed.

Lemma quiet_step lb w w' : quiet w -> lb <> WHalt -> step lb w = Some w' -> quiet w'.
Proof.
  intros Hq Hne. unfold wstep. destruct (wdead w); [done|]. pose proof Hq as [H1 H2 [H3 H4]].
  destruct lb; try done; intros Hs; try (simplify_eq/=; split_matches; try apply quiet_report;
    by (split; cbn; [done|done|split; congruence])).
  - split_matches. by apply quiet_start.
  - rewrite H1 in Hs. by destruct (wpc w).
  - unfold Worker.lstep in Hs. cbn zeta in Hs. split_matches; by split.
  - simplify_eq/=. split; cbn; try done. by rewrite existsb_app, H2.
  - destruct (wthreads w !! i) as [t|] eqn:Et; [|done]. by eapply quiet_thread.
Qed.

Definition is_signal (lb : plabel) : bool := match lb with PSignal _ => true | _ => false end.

(** The signal goroutine has nothing to hand over. *)
Record unasked (p : process (H := H)) : Prop := {
  un_worker : quiet (pr_worker p);
  un_chan : pr_chan p = None;
  un_end : forall c, pr_end p <> Some (Exits c);
}.

Lemma unasked_step lb p p' :
  unasked p -> is_signal lb = false -> sstep Hooks Retry mname timeout_text cap interval lb p = Some p' ->
  unasked p'.
Proof.
  intros [Hq Hc He] Hn. unfold sstep. destruct (pr_end p); [done|]. rewrite Hc. destruct lb as [|s|lb|e|].
  - intros Hs. split_matches; by split.
  - done.
  - intros Hs. assert (Hl : lb <> WHalt) by (by intros ->).
    assert (Hw : with_worker (pr_pc p) None (step lb (pr_worker p)) = Some p') by (by destruct lb).
    unfold with_worker in Hw. destruct (step lb (pr_worker p)) as [w'|] eqn:Ew; [|done].
    injection Hw as <-. split; cbn; [by eapply quiet_step|done|]. intros c. by destruct (wdead w').
  - intros [= <-]. by split.
  - destruct Hq as [_ _ [_ Hpc]]. intros Hs. split_matches.
Qed.

Lemma unasked_steps ls p p' :
  unasked p -> existsb is_signal ls = false -> steps ls p = Some p' -> unasked p'.
Proof.
  revert p. induction ls as [|lb ls IH]; intros p Hp Hn Hs; cbn in Hs, Hn; [by simplify_eq|].
  apply orb_false_iff in Hn as [Hn Hn'].
  destruct (sstep _ _ _ _ _ _ lb p) as [q|] eqn:Eq; [|done].
  eapply IH; [|done..]. by eapply unasked_step.
Qed.

(** The process exits with no other code than 0. *)
Definition clean (p : process (H := H)) : Prop := forall c, pr_end p = Some (Exits c) -> c = 0.
Lemma clean_step lb p p' :
  sstep Hooks Retry mname timeout_text cap interval lb p = Some p' -> clean p'.
Proof.
  unfold sstep, with_worker. intros Hs c.
  destruct (pr_end p); [done|]. destruct lb as [|s|lb|e|].
  - destruct (pr_pc p) as [|[]|], (pr_chan p); simplify_eq/=; try done.
    destruct (step WHalt (pr_worker p)) as [w'|]; simplify_eq/=. by destruct (wdead w').
  - destruct (asked _ _); by simplify_eq/=.
  - assert (Hw : with_worker (pr_pc p) (pr_chan p) (step lb (pr_worker p)) = Some p') by (by destruct lb).
    unfold with_worker in Hw. destruct (step lb (pr_worker p)) as [w'|]; simplify_eq/=. by destruct (wdead w').
  - by simplify_eq/=.
  - destruct (wpc _); simplify_eq/=. by intros [= <-].
Qed.
Lemma clean_steps ls p p' : clean p -> steps ls p = Some p' -> clean p'.
Proof.
  revert p. induction ls as [|lb ls IH]; intros p Hp Hs; cbn in Hs; [by simplify_eq|].
  destruct (sstep _ _ _ _ _ _ lb p) as [q|] eqn:Eq; [|done]. eapply IH; [|done]. by eapply clean_step.
Qed.
End worker_life.

(** Whatever its goroutines do, a launched worker exits (and does not crash) only if it
    has been sent SIGINT or SIGTERM, and then with 0. *)
Lemma launched_runs_until_signalled {H : Type} (Hooks : list H) (Retry : Z) (mname timeout_text : string)
    (cap : nat) (interval : Z) (ls : list plabel) (p : process) (c : Z) :
  ssteps Hooks Retry mname timeout_text cap interval ls launched = Some p -> pr_end p = Some (Exits c) ->
  c = 0 /\ existsb is_signal ls = true.
Proof.
  intros Hs He. split; [by eapply clean_steps, He; [|exact Hs]|]. destruct (existsb is_signal ls) eqn:Hn; [done|]. exfalso.
  assert (Hu : unasked (H := H) launched) by (by split).
  by destruct (unasked_steps _ _ _ _ _ _ _ _ _ Hu Hn Hs) as [_ _ Hx]; destruct (Hx c).
Qed.

(** ** What a worker starts from *)

Lemma newMirrorProvider_no_error {regexp : Type} shlex (Compile : string -> outcome regexp) formatLogDir cfg e :
  newMirrorProvider shlex Compile formatLogDir cfg <> Err e.
Proof.
  assert (Hp : forall A (o : outcome A) e, or_panic o <> Err e) by (by intros A []).
  assert (Hx : forall b cmds p e, add_exec_hooks (regexp := regexp) shlex b cmds p <> Err e).
  { intros b cmds. induction cmds as [|c cmds IH]; intros p e'; [done|]. cbn [add_exec_hooks].
    pose proof (Hp _ (newExecPostHook shlex b c) e') as Hc.
    destruct (or_panic (newExecPostHook shlex b c)); cbn; [apply IH|congruence|done]. }
  assert (Hb : forall d e, bare_provider shlex Compile cfg d <> Err e).
  { assert (Hf : forall A B (f : A -> B) (o : outcome A) e, f <$> or_panic o <> Err e) by (by intros A B f []).
    intros d e'. unfold bare_provider. split_matches; apply Hf. }
  unfold newMirrorProvider.
  pose proof (Hp _ (formatLogDir cfg (c_LogDir cfg)) e) as Hf.
  destruct (or_panic (formatLogDir cfg (c_LogDir cfg))) as [d| |]; cbn; [|congruence|done].
  destruct (bare_provider shlex Compile cfg d) as [q|e'|] eqn:Eb; cbn; [|by destruct (Hb d e')|done].
  match goal with |- context [add_exec_hooks shlex execOnSuccess ?l ?p] =>
    destruct (add_exec_hooks shlex execOnSuccess l p) as [q'|e'|] eqn:Ex; cbn; [apply Hx|by destruct (Hx _ _ _ _ Ex)|done] end.
Qed.

(** The verdict of [startWorker]: it exits with 1 without a name or an upstream, or
    for a profiling path that is no directory; it dies of a configuration no worker
    can be built from; otherwise it runs, logging at the level asked for by its
    flags or by the job. *)
Lemma startWorker_verdict {regexp : Type} shlex (Compile : string -> outcome regexp) formatLogDir Stat c env :
  match LoadConfig env with
  | Ret cfg =>
      match NewTUNASyncWorker shlex Compile formatLogDir cfg with
      | Ret (cap, job) =>
          if String.eqb (fl_prof_path c) "" || bool_decide (Stat (fl_prof_path c) = Some true)
          then exists wp, startWorker shlex Compile formatLogDir Stat c env = inl wp /\
                 wp_cap wp = cap /\ wp_provider wp = mj_provider job /\ wp_release wp = negb (fl_debug c || c_Debug cfg) /\
                 (lg_level (wp_logger wp) = DEBUG <-> fl_debug c || c_Debug cfg = true)
          else startWorker shlex Compile formatLogDir Stat c env = inr (Exits 1)
      | Panic e => startWorker shlex Compile formatLogDir Stat c env = inr (Dies e)
      | Err e => False
      end
  | _ => startWorker shlex Compile formatLogDir Stat c env = inr (Exits 1) /\
         (GetStringEnv env "NAME" "" = "" \/ GetStringEnv env "UPSTREAM" "" = "")
  end.
Proof.
  unfold startWorker. destruct (LoadConfig env) as [cfg|e|e] eqn:El.
  - destruct (NewTUNASyncWorker shlex Compile formatLogDir cfg) as [[cap job]|e|e] eqn:En; [|exfalso|done].
    + destruct (String.eqb (fl_prof_path c) ""); cbn [orb];
        [|case_bool_decide as Hst; [rewrite Hst|by destruct (Stat (fl_prof_path c)) as [[]|]]];
        (eexists; split_and!; [reflexivity|done..|]; cbn; split_matches).
    + revert En. unfold NewTUNASyncWorker, initJobs. destruct (_ <? 0); [done|].
      destruct (newMirrorProvider _ _ _ _) as [q|e'|] eqn:Eq; cbn; [done| |done].
      by destruct (newMirrorProvider_no_error _ _ _ _ _ Eq).
  - unfold LoadConfig in El. destruct (_ || _) eqn:Eb; [|done]. split; [done|].
    rewrite !orb_true_iff, !String.eqb_eq in Eb. destruct Eb as [[?|Hp]|?]; [by left| |by right].
    exfalso. unfold GetStringEnv in Hp. split_matches.
  - unfold LoadConfig in El. by destruct (_ || _).
Qed.

(** The whole program: [startWorker], and the life of the worker it has built.
    [String] writes a duration. *)
Section program.
Context {regexp : Type} (shlex : string -> outcome (list string)).
Context (Compile : string -> outcome regexp) (formatLogDir : Config -> string -> outcome string).
Context (Stat : string -> option bool) (String_ : Z -> string).

(** A run of the worker that was built, from its provider. *)
Definition worker_run (wp : worker_program regexp) (ls : list plabel) : option process :=
  let b := provider_base (wp_provider wp) in
  ssteps (bp_hooks b) (bp_retry b) (bp_name b) (String_ (bp_timeout b)) (wp_cap wp)
    (bp_interval b / 1000000000) ls launched.
Definition worker_main (c : worker_flags) (env : environ) (ls : list plabel) : option ending :=
  match startWorker shlex Compile formatLogDir Stat c env with
  | inr e => Some e
  | inl wp => worker_run wp ls ≫= pr_end
  end.

(** C37: The worker program exits in two ways only: with 1 before it has run anything,
    when the environment gives the job no name or no upstream or when the profiling path is
    no directory; and with 0 after it has been sent SIGINT or SIGTERM, whatever its
    goroutines did before.  (A panic, the one of the HTTP server that cannot listen
    included, is not an exit.) *)
Theorem worker_program_exits (c : worker_flags) (env : environ) (ls : list plabel) (code : Z) :
  worker_main c env ls = Some (Exits code) ->
  (code = 1 /\ (GetStringEnv env "NAME" "" = "" \/ GetStringEnv env "UPSTREAM" "" = "" \/
     fl_prof_path c <> "" /\ Stat (fl_prof_path c) <> Some true)) \/
  (code = 0 /\ existsb is_signal ls = true).
Proof.
  unfold worker_main. intros Hs.
  pose proof (startWorker_verdict shlex Compile formatLogDir Stat c env) as Hv.
  destruct (LoadConfig env) as [cfg|e|e].
  - destruct (NewTUNASyncWorker shlex Compile formatLogDir cfg) as [[cap job]|e|e]; [|done|by rewrite Hv in Hs].
    destruct (String.eqb (fl_prof_path c) "" || _) eqn:Eb.
    + destruct Hv as (wp & Hw & _). rewrite Hw in Hs. right. unfold worker_run in Hs.
      destruct (ssteps _ _ _ _ _ _ ls launched) as [p|] eqn:Ep; [|done].
      by eapply launched_runs_until_signalled.
    + rewrite Hv in Hs. injection Hs as <-. left. split; [done|]. right; right.
      apply orb_false_iff in Eb as [E1 E2]. apply String.eqb_neq in E1. by apply bool_decide_eq_false in E2.
  - destruct Hv as [Hv Hn]. rewrite Hv in Hs. injection Hs as <-. left. split; [done|]. tauto.
  - destruct Hv as [Hv Hn]. rewrite Hv in Hs. injection Hs as <-. left. split; [done|]. tauto.
Qed.
End program.

(** *** A worker of a paused job that is told to end: the signal goroutine takes the
    signal, Halt stops the loop and the process exits.  A second signal that
    arrives before the process has exited calls Halt again, which closes a closed
    channel. *)
Module ProgramDemo.
Definition paused : JobStatus := mkJobStatus Paused 0 0 0 0 "" 0 "" 0 0.
Definition run (ls : list plabel) : option (process (H := nat)) := ssteps [] 2 "debian" "" 1 3600 ls launched.
Definition armed : list plabel := [PWorker (WInit paused); PWorker WNext; PWorker WBegin; PWorker (WLoop 0 LTop);
  PGoroutine; PGoroutine; PGoroutine].
Definition halt (i : nat) : list plabel := [PSignal SIGTERM; PGoroutine;
  PWorker (WThread i); PWorker (WThread i); PWorker (WThread i)].
Definition loop_ends : list plabel := [PWorker (WLoop 0 LRecv)].
Definition wait_close (i : nat) : list plabel := [PWorker (WThread i); PWorker (WThread i)].
Definition leave : list plabel := [PWorker WExit; PWorker WFlush; PReturn].
Definition env : environ := {["NAMESPACE" := "mirror"]}.
Definition demo_env : environ :=
  list_to_map [("NAME", "debian"); ("UPSTREAM", "rsync://up/debian/"); ("PROVIDER", "rsync")].
Definition words (s : string) : outcome (list string) := Ret [s].
Definition server0 : server :=
  mkServer "mirror" true false Background ":3000" (mkOptions ":3000" None "") (routes false).
End ProgramDemo.

Lemma second_signal_panics :
  exists p, ProgramDemo.run (ProgramDemo.armed ++ ProgramDemo.halt 0 ++ ProgramDemo.loop_ends ++
      ProgramDemo.wait_close 0 ++ ProgramDemo.halt 1 ++ ProgramDemo.wait_close 1) = Some p /\
    wdead (pr_worker p) = Some CloseOfClosedExit /\ pr_end p = Some (Dies "panic").
Proof. eexists. vm_compute. done. Qed.

(** The worker of [demo_env], which is halted while it waits for its first sync. *)
Lemma worker_program_exits_witness :
  worker_main ProgramDemo.words (fun _ => Ret tt) (fun _ d => Ret d) (fun _ => None) (fun _ => "")
    (mkWFlags false false "") ProgramDemo.demo_env
    (ProgramDemo.armed ++ ProgramDemo.halt 0 ++ ProgramDemo.loop_ends ++ ProgramDemo.wait_close 0 ++ ProgramDemo.leave)
  = Some (Exits 0) /\
  existsb is_signal (ProgramDemo.armed ++ ProgramDemo.halt 0 ++ ProgramDemo.loop_ends ++
    ProgramDemo.wait_close 0 ++ ProgramDemo.leave) = true.
Proof.
  assert (E : worker_main ProgramDemo.words (fun _ => Ret tt) (fun _ d => Ret d) (fun _ => None) (fun _ => "")
    (mkWFlags false false "") ProgramDemo.demo_env
    (ProgramDemo.armed ++ ProgramDemo.halt 0 ++ ProgramDemo.loop_ends ++ ProgramDemo.wait_close 0 ++ ProgramDemo.leave)
    = Some (Exits 0)) by (vm_compute; reflexivity).
  split; [exact E|].
  destruct (worker_program_exits ProgramDemo.words (fun _ => Ret tt) (fun _ d => Ret d) (fun _ => None) (fun _ => "")
    (mkWFlags false false "") ProgramDemo.demo_env _ 0 E) as [[H _]|[_ H]]; [discriminate H|exact H].
Defined.

Lemma manager_serves_only_synced_witness :
  exists p, manager_main (fun _ => None) (fun _ => None) ProgramDemo.env None = inl ProgramDemo.server0 /\
    lsteps [LMain; LSynced; LMain; LMain; LRun; LRequest] (born ProgramDemo.server0) = Some p /\
    lf_listen p = true /\ lf_synced p = true.
Proof.
  destruct (lsteps [LMain; LSynced; LMain; LMain; LRun; LRequest] (born ProgramDemo.server0)) as [p|] eqn:Ep;
    [|vm_compute in Ep; discriminate Ep].
  exists p. split; [vm_compute; reflexivity|]. split; [reflexivity|].
  assert (Hl : lf_listen p = true) by (vm_compute in Ep; by injection Ep as <-).
  split; [exact Hl|].
  apply (manager_serves_only_synced (fun _ => None) (fun _ => None) ProgramDemo.env None ProgramDemo.server0
    [LMain; LSynced; LMain; LMain; LRun; LRequest] p).
  - vm_compute. reflexivity.
  - exact Ep.
  - left. exact Hl.
Defined.
