(* ===== verification/Halt.v ===== *)
(** * Ending a worker (Halt and runSchedule of src/worker/worker.go, Run and
      runJobWrapper of src/worker/job.go, the signal goroutine of
      src/worker/cmd/main.go)

    Whatever a worker is doing when a signal arrives, it can still end in order:
    the job's loop takes what waits for it, the sync in progress is killed and
    joined, Halt closes the exit channel, the scheduler reports what is left and
    the process exits.  The runs of the job's loop ([Job.steps]) are lifted into
    the worker ([Worker.wsteps]) and these into the process ([Main.ssteps]).

    A killed run sends at most three more messages, so it never waits for the
    scheduler, which may itself be waiting for the lock that Halt holds. *)

From S2P Require Import Prelude GoLib GoSync Types Sizes Schedule Wrapper Job Worker Main.

(** ** The messages of a killed run *)
Section quick.
Context {H : Type}.
Implicit Types p k : wprog H.

(** With every hook and Terminate succeeding, and killed when it waits, [p]
    returns after at most [n] messages. *)
Fixpoint quick (n : nat) (p : wprog H) : Prop :=
  match p with
  | WRet _ => True
  | WPanic _ => False
  | WSend _ k => match n with O => False | S n => quick n k end
  | WHook _ _ k => quick n (k None)
  | WStart k => quick n (k Started)
  | WWait _ k => quick n (k WaitKilled)
  | WTerminate k => quick n (k None)
  | WState k => forall s, quick n (k s)
  | WSetSize k => quick n k
  end.

(** The sync has returned nil before its start was noticed: the next step of [p] is
    the nil pointer dereference. *)
Definition panics p : bool := match p with WPanic _ => true | _ => false end.

(** Everything [p] can become is [quick], or panics at once. *)
Fixpoint everywhere (n : nat) (p : wprog H) : Prop :=
  match p with
  | WRet _ | WPanic _ => True
  | WSend _ k | WSetSize k => quick n p /\ everywhere n k
  | WHook _ _ k | WTerminate k => quick n p /\ forall e, everywhere n (k e)
  | WStart k => quick n p /\ forall s, everywhere n (k s)
  | WWait _ k => quick n p /\ forall w, everywhere n (k w)
  | WState k => quick n p /\ forall s, everywhere n (k s)
  end.

Lemma everywhere_quick n p : everywhere n p -> panics p = false -> quick n p.
Proof. destruct p; cbn [everywhere panics]; naive_solver. Qed.

Lemma quick_mono n m p : (n <= m)%nat -> quick n p -> quick m p.
Proof.
  revert n m. induction p; intros n m' Hn Hq; cbn in *; eauto.
  destruct n, m'; [done..|lia|]. eapply IHp; [|done]. lia.
Qed.

Lemma quick_runHooks n hs ph k : quick n (runHooks hs ph k) <-> quick n k.
Proof. by induction hs. Qed.
Lemma everywhere_runHooks n hs ph k :
  (1 <= n)%nat -> quick n k -> everywhere n k -> everywhere n (runHooks hs ph k).
Proof.
  intros Hn Hq Hk. induction hs as [|h hs IH]; [done|]. cbn [runHooks everywhere].
  split; [by apply (quick_runHooks n (h :: hs))|]. intros [e|]; [|exact IH].
  cbn. by destruct n; [lia|].
Qed.
End quick.

Section wrapper.
Context {H : Type} (Hooks : list H) (Retry : Z) (mname tmo : string).

Lemma quick_after_sync n retry e stop next :
  (stop = true \/ quick n next) -> quick (S n) (after_sync Hooks Retry retry e stop next).
Proof.
  intros Hs. unfold after_sync. rewrite !quick_runHooks. destruct e as [e|]; [|done].
  assert (Hr : forall b, quick (S n) (WSend (mkMsg Failed e b) (if stop then WRet None else next))).
  { intros b. cbn. by destruct stop, Hs. }
  destruct (retry =? Retry - 1); [intros s|]; apply Hr.
Qed.

Lemma everywhere_after_sync retry e stop next :
  quick 2 next -> everywhere 3 next -> everywhere 3 (after_sync Hooks Retry retry e stop next).
Proof.
  intros Hq He. pose proof (quick_after_sync 2 retry e stop next (or_intror Hq)) as Ha.
  unfold after_sync in *. rewrite !quick_runHooks in Ha.
  do 2 (apply everywhere_runHooks; [lia|by rewrite ?quick_runHooks|]).
  destruct e as [e|]; [|by cbn].
  assert (Hr : forall b, everywhere 3 (WSend (mkMsg Failed e b) (if stop then WRet None else next))).
  { intros b. cbn. by destruct stop. }
  destruct (retry =? Retry - 1); [|apply Hr]. cbn [everywhere]. by split; [|intros s; apply Hr].
Qed.

Lemma quick_await n retry next pd : quick (S n) (await Hooks Retry mname tmo retry next pd).
Proof. cbn. apply quick_after_sync. by left. Qed.

Lemma everywhere_await retry next pd :
  quick 2 next -> everywhere 3 next -> everywhere 3 (await Hooks Retry mname tmo retry next pd).
Proof.
  intros Hq He. unfold await, after_term. cbn [everywhere]. split; [by apply quick_await|].
  intros [e| |]; [by apply everywhere_after_sync|..]; cbn [everywhere];
    (split; [apply quick_after_sync; first [by left|by right]|]);
    (intros [e|]; [by cbn|by apply everywhere_after_sync]).
Qed.

Lemma quick_attempt retry next : quick 2 (attempt Hooks Retry mname tmo retry next).
Proof. unfold attempt. apply quick_runHooks. apply (quick_await 0). Qed.

Lemma everywhere_attempt retry next :
  quick 2 next -> everywhere 3 next -> everywhere 3 (attempt Hooks Retry mname tmo retry next).
Proof.
  intros Hq He. unfold attempt. apply everywhere_runHooks; [lia|apply (quick_await 1)|]. cbn [everywhere].
  split; [apply (quick_await 1)|]. split; [apply (quick_await 2)|].
  intros [|[e|]]; [by apply everywhere_await|by apply everywhere_await|done].
Qed.

Lemma attempts_quick n retry :
  quick 2 (attempts Hooks Retry mname tmo n retry) /\ everywhere 3 (attempts Hooks Retry mname tmo n retry).
Proof.
  revert retry. induction n as [|n IH]; intros retry; [done|].
  destruct (IH (retry + 1)) as [Hq He]. split; [apply quick_attempt|by apply everywhere_attempt].
Qed.

Lemma wrapper_quick : everywhere 3 (wrapper Hooks Retry mname tmo).
Proof.
  destruct (attempts_quick (Z.to_nat Retry) 0) as [Hq He]. unfold wrapper, runJobWrapper. cbn [everywhere].
  split; [by apply (quick_runHooks 2)|]. apply everywhere_runHooks; [lia| |done]. by eapply quick_mono, Hq; lia.
Qed.
End wrapper.

(** ** The loop of a job that is not told to return *)
Section job.
Context {H : Type} (Hooks : list H) (Retry : Z) (mname tmo : string) (cap : nat).
#[local] Abbreviation step := (Job.step Hooks Retry mname tmo cap).
#[local] Abbreviation steps := (Job.steps Hooks Retry mname tmo cap).
#[local] Abbreviation loop := (loop (H := H)).
#[local] Abbreviation conf := (conf (H := H)).

(** The goroutine is in a run whose rest is [quick]. *)
Definition run_ok (g : gor (H := H)) : Prop := match g_pc g with GWrap p _ => everywhere 3 p | _ => True end.
Definition runs_ok (l : loop) : Prop := Forall run_ok (gs l).

(** Commands that do not make the loop return, and a loop that is not returning. *)
Definition obedient (a : ctrlAction) : bool :=
  match a with jobStart | jobForceStart | jobStop | jobRestart => true | _ => false end.
Definition stays (l : loop) : bool :=
  match main l with MReturned | MJoin _ JReturn => false | _ => true end.

Lemma gstep_run_ok a x b g x' b' g' :
  run_ok g -> gstep Hooks Retry mname tmo cap a x b g = GStep x' b' g' -> run_ok g'.
Proof.
  destruct g as [pc kl d]. unfold run_ok, gstep. cbn [g_pc]. intros Hg E.
  destruct pc as [|p t| | |]; [|destruct p; cbn [everywhere] in Hg; try apply proj2 in Hg|..];
    destruct a; simplify_eq/=; split_matches; simplify_eq/=; auto; try apply wrapper_quick.
Qed.

Lemma recv_done_ok (g g' : gor (H := H)) : run_ok g -> recv_done g = Some g' -> run_ok g'.
Proof.
  unfold recv_done. intros Hg. destruct (g_done g); [by intros [= <-]|].
  destruct (g_pc g); try done. by intros [= <-].
Qed.

Lemma step_runs_ok lb c c' : runs_ok (lp c) -> step lb c = Some c' -> runs_ok (lp c').
Proof.
  unfold runs_ok, Job.step. intros Hr E. pose proof Hr as Hr'. rewrite Forall_lookup in Hr'.
  destruct (crashed c); [done|]. destruct lb as [| | |i a|a|].
  - destruct (main (lp c)); try done. destruct (_ =? _); simplify_eq/=; [|done].
    apply Forall_app. by split; [|apply Forall_singleton].
  - destruct (main (lp c)); try done;
      (destruct (gs (lp c) !! i) as [g0|] eqn:E0; [|done]); cbn [mbind option_bind] in E;
      (destruct (recv_done g0) as [g|] eqn:Eg; [|done]); simplify_eq/=;
      (apply Forall_insert; [done|]); eapply recv_done_ok, Eg; by eapply Hr'.
  - destruct (ctrl (sh c)) as [|a rest]; [done|]. unfold main_recv, close_kill in E.
    destruct (main (lp c)); try done; [|by destruct (on_idle a) as [[? ?] ?]; simplify_eq/=].
    destruct (on_wait a); [|by simplify_eq/=].
    destruct (gs (lp c) !! i) as [g|] eqn:Eg; [|by simplify_eq/=]. destruct (g_kill g); simplify_eq/=; [done|].
    apply Forall_insert; [done|]. exact (Hr' i g Eg).
  - destruct (gs (lp c) !! i) as [g|] eqn:Eg; [|done].
    destruct (gstep _ _ _ _ _ _ _ _ _) as [x' b' g'|m|] eqn:Es; simplify_eq/=; [|done].
    apply Forall_insert; [done|]. eapply gstep_run_ok, Es. by eapply Hr'.
  - destruct (_ <? _)%nat; by simplify_eq/=.
  - destruct (mgr (sh c)); by simplify_eq/=.
Qed.

(** What a run of the loop by itself keeps: at most [n] messages are added. *)
Record moved (n : nat) (c c' : conf) : Prop := {
  mv_mgr : (length (mgr (sh c')) <= length (mgr (sh c)) + n)%nat;
  mv_ctrl : ctrl (sh c') = ctrl (sh c);
}.

Lemma moved_trans n m k c1 c2 c3 : moved n c1 c2 -> moved m c2 c3 -> (n + m <= k)%nat -> moved k c1 c3.
Proof. intros [H1 H2] [H3 H4] Hk. split; [lia|congruence]. Qed.
Lemma moved_same n (c c' : conf) : sh c' = sh c -> moved n c c'.
Proof. intros E. split; rewrite E; [lia|done]. Qed.

(** What every step keeps. *)
Record good (c : conf) : Prop := {
  gd_inv : inv cap c; gd_runs : runs_ok (lp c); gd_alive : crashed c = None;
}.

(** By steps of its own the loop can get from [c] to where [P] holds. *)
Definition can (c : conf) (P : conf -> Prop) : Prop :=
  exists ls c', Forall (fun lb => own_label lb = true) ls /\ steps ls c = Some c' /\ good c' /\ P c'.

Lemma can_here (c : conf) (P : conf -> Prop) : good c -> P c -> can c P.
Proof. intros Hc HP. by exists [], c. Qed.

Lemma can_step lb (c c' : conf) P :
  good c -> own_label lb = true -> step lb c = Some c' -> crashed c' = None -> (good c' -> can c' P) -> can c P.
Proof.
  intros [Hi Hr Ha] Ho Hs Hc Hn.
  destruct Hn as (ls & c2 & Hl & Hls & Hg); [split; [by eapply step_inv|by eapply step_runs_ok|done]|].
  exists (lb :: ls), c2. split_and!; [by constructor| |by apply Hg..]. cbn. by rewrite Hs.
Qed.

Lemma steps_app ls1 ls2 c : steps (ls1 ++ ls2) c = steps ls1 c ≫= steps ls2.
Proof.
  revert c. induction ls1 as [|lb ls1 IH]; intros c; [done|]. cbn. destruct (step lb c); [apply IH|done].
Qed.

Lemma can_bind c P Q : can c P -> (forall c', good c' -> P c' -> can c' Q) -> can c Q.
Proof.
  intros (ls & c1 & Hl & Hls & Hc & HP) HQ. destruct (HQ c1 Hc HP) as (ls2 & c2 & Hl2 & Hls2 & Hc2).
  exists (ls ++ ls2), c2. split_and!; [by apply Forall_app|by rewrite steps_app, Hls|by apply Hc2..].
Qed.

(** *** Joining a killed run without anybody taking its messages *)
Definition joined (n : nat) (j : join) (c c' : conf) : Prop := main (lp c') = join_next j /\ moved n c c'.

Lemma done_joins n i j x l b g :
  good (mkConf x (mkLoop (MJoin i j) l b) None) -> l !! i = Some g -> (g_done g = true \/ g_pc g = GSendDone) ->
  can (mkConf x (mkLoop (MJoin i j) l b) None) (joined n j (mkConf x (mkLoop (MJoin i j) l b) None)).
Proof.
  intros Hc Hg Hd. assert (exists g', recv_done g = Some g') as [g' Hr].
  { unfold recv_done. destruct (g_done g); [eauto|]. destruct Hd as [|E]; [done|]. rewrite E. eauto. }
  eapply (can_step LDone); [done|done| | |].
  - unfold Job.step. cbn [crashed lp main gs sh bypass]. rewrite Hg. cbn [mbind option_bind]. by rewrite Hr.
  - done.
  - intros Hc'. apply can_here; [done|]. split; [done|by apply moved_same].
Qed.

(** The goroutine moves, adding [m] messages. *)
Lemma gor_joins m n k i j a x b l g x' b' g' :
  good (mkConf x (mkLoop (MJoin i j) l b) None) -> l !! i = Some g ->
  gstep Hooks Retry mname tmo cap a x b g = GStep x' b' g' ->
  (length (mgr x') <= length (mgr x) + m)%nat -> (m + n <= k)%nat ->
  (forall l', good (mkConf x' (mkLoop (MJoin i j) l' b') None) -> l' !! i = Some g' ->
     can (mkConf x' (mkLoop (MJoin i j) l' b') None) (joined n j (mkConf x' (mkLoop (MJoin i j) l' b') None))) ->
  can (mkConf x (mkLoop (MJoin i j) l b) None) (joined k j (mkConf x (mkLoop (MJoin i j) l b) None)).
Proof.
  intros Hc Hg Hs Hm Hk Hn. eapply (can_step (LGor i a)); [done|done|by eapply step_gor|done|].
  intros Hc'. eapply can_bind.
  - apply Hn; [done|]. apply list_lookup_insert_eq. by eapply lookup_lt_Some.
  - intros c2 Hc2 [E Hmv]. apply can_here; [done|]. split; [done|].
    eapply (moved_trans m n); [|exact Hmv|done]. split; cbn; [done|].
    by apply gstep_spec in Hs as (_ & _ & _ & _ & _ & ? & _).
Qed.

Lemma wrap_joins n i j p t x b l d :
  good (mkConf x (mkLoop (MJoin i j) l b) None) -> l !! i = Some (mkGor (GWrap p t) true d) ->
  quick n p -> (length (mgr x) + n <= managerCap)%nat ->
  can (mkConf x (mkLoop (MJoin i j) l b) None) (joined n j (mkConf x (mkLoop (MJoin i j) l b) None)).
Proof.
  revert n x b l; induction p as [e|m|m k IH|h ph k IH|k IH|pd k IH|k IH|k IH|k IH];
    intros n x b l Hc Hg Hq Hm; cbn [quick] in Hq.
  - eapply (gor_joins 0 n _ i j AAuto); [done|done|reflexivity|lia|lia|]. intros l' Hc' Hl'.
    by eapply done_joins; [|done|left].
  - done.
  - destruct n as [|n]; [done|]. eapply (gor_joins 1 n _ i j AAuto); [done|done| | |lia|].
    + assert (Hlt : (length (mgr x) < managerCap)%nat) by lia. apply Nat.ltb_lt in Hlt.
      unfold gstep. cbn [g_pc]. by rewrite Hlt.
    + cbn. rewrite length_app. cbn. lia.
    + intros l' Hc' Hl'. eapply IH; [done|done|done|]. cbn. rewrite length_app. cbn. lia.
  - eapply (gor_joins 0 n _ i j (AHook None)); eauto; lia.
  - eapply (gor_joins 0 n _ i j (AStart Started)); eauto; lia.
  - eapply (gor_joins 0 n _ i j (AWait WaitKilled)); eauto; lia.
  - eapply (gor_joins 0 n _ i j (ATerm None)); eauto; lia.
  - eapply (gor_joins 0 n _ i j AAuto); eauto; lia.
  - eapply (gor_joins 0 n _ i j AAuto); eauto; lia.
Qed.

(** No sync has returned nil before its start was noticed. *)
Definition doomed (g : gor (H := H)) : bool := match g_pc g with GWrap p _ => panics p | _ => false end.
Definition calm (l : loop) : Prop := Forall (fun g => doomed g = false) (gs l).

Lemma calm_finished (l : loop) : (forall k g, gs l !! k = Some g -> finished g = true) -> calm l.
Proof.
  intros Hf. apply Forall_lookup. intros k g Hg. specialize (Hf k g Hg). revert Hf.
  unfold finished, doomed. by destruct (g_pc g).
Qed.

Lemma killed_joins (c : conf) i j :
  good c -> main (lp c) = MJoin i j -> calm (lp c) -> (length (mgr (sh c)) + 3 <= managerCap)%nat ->
  can c (joined 3 j c).
Proof.
  destruct c as [x [m l b] cr]. intros Hc Hj Hn Hm. pose proof Hc as [Hi Hr Ha]. cbn in Ha, Hj. subst.
  destruct Hi as [Hi _ _ _ _ _]. cbn in Hi. destruct Hi as [_ ([pc k d] & Hg & Hk & Hd)]. cbn in Hk. subst k.
  unfold calm, runs_ok in Hn, Hr. rewrite Forall_lookup in Hn, Hr. specialize (Hn i _ Hg). specialize (Hr i _ Hg).
  destruct pc as [|p t| | |].
  - eapply (gor_joins 0 3 _ i j AKill); [done|done|reflexivity|lia|lia|]. intros l' Hc' Hl'.
    by eapply done_joins; [|done|right].
  - eapply wrap_joins; [done|done| |done]. by apply everywhere_quick.
  - by eapply done_joins; [|done|right].
  - by eapply done_joins; [|done|left].
  - by eapply done_joins; [|done|left].
Qed.

(** The loop receives commands. *)
Definition receives (c : conf) : Prop := main (lp c) = MIdle \/ exists i, main (lp c) = Job.MWait i.
Definition is_ready (n : nat) (c c' : conf) : Prop := receives c' /\ calm (lp c') /\ moved n c c'.

Lemma top_ready (c : conf) : good c -> main (lp c) = MTop -> can c (is_ready 0 c).
Proof.
  intros Hc Hm. pose proof Hc as [[Hi _ _ _ _ _] _ Ha]. rewrite Hm in Hi. cbn in Hi. apply calm_finished in Hi.
  destruct (j_state (sh c) =? stateReady) eqn:Er.
  - eapply (can_step LTop); [done|done|unfold Job.step; by rewrite Ha, Hm, Er|done|].
    intros Hc'. apply can_here; [done|]. split_and!; [right; by eexists| |by apply moved_same].
    apply Forall_app. split; [done|]. by apply Forall_singleton.
  - eapply (can_step LTop); [done|done|unfold Job.step; by rewrite Ha, Hm, Er|done|].
    intros Hc'. apply can_here; [done|]. split_and!; [by left|done|by apply moved_same].
Qed.

Lemma gets_ready (c : conf) :
  good c -> stays (lp c) = true -> calm (lp c) -> (length (mgr (sh c)) + 3 <= managerCap)%nat ->
  can c (is_ready 3 c).
Proof.
  intros Hc Hs Hn Hm. unfold stays in Hs. destruct (main (lp c)) as [|i|i j| |] eqn:Em; [| | | |done].
  - eapply can_bind; [by apply top_ready|]. intros c1 Hc1 (Hr & Hn1 & Hmv). apply can_here; [done|].
    split_and!; [done|done|]. eapply (moved_trans 0 3); [exact Hmv|by apply moved_same|lia].
  - apply can_here; [done|]. split_and!; [right; by eexists|done|by apply moved_same].
  - eapply can_bind; [by eapply killed_joins|]. intros c1 Hc1 [E1 Hmv]. destruct j; [|done|].
    + apply can_here; [done|]. split_and!; [by left| |done].
      apply calm_finished. pose proof Hc1 as [[Hi _ _ _ _ _] _ _]. by rewrite E1 in Hi.
    + eapply can_bind; [by apply top_ready|]. intros c2 Hc2 (Hr & Hn1 & Hmv2). apply can_here; [done|].
      split_and!; [done|done|]. eapply (moved_trans 3 0); [exact Hmv|exact Hmv2|lia].
  - apply can_here; [done|]. split_and!; [by left|done|by apply moved_same].
Qed.

(** A command is received. *)
Lemma receive (c : conf) a :
  good c -> receives c -> calm (lp c) -> ctrl (sh c) = [a] ->
  exists c', step LRecv c = Some c' /\ crashed c' = None /\ ctrl (sh c') = [] /\ mgr (sh c') = mgr (sh c) /\
    calm (lp c') /\ (obedient a = true -> stays (lp c') = true) /\
    (a = jobHalt -> main (lp c') = MReturned \/ exists i, main (lp c') = MJoin i JReturn).
Proof.
  intros [[Hi _ _ _ _ _] _ Ha] Hr Hn Hc. unfold Job.step. rewrite Ha, Hc. unfold main_recv.
  destruct Hr as [Hm|[i Hm]]; rewrite Hm in *.
  - destruct (on_idle a) as [[s pc] b] eqn:Ea. eexists. split; [reflexivity|]. cbn.
    assert (Hx : forall o, ctrl (opt_state o (set_ctrl [] (sh c))) = [] /\
      mgr (opt_state o (set_ctrl [] (sh c))) = mgr (sh c)) by (by intros []).
    split_and!; [done|by apply Hx|by apply Hx|done|..]; destruct a; simplify_eq/=; try done; auto.
  - assert (Hk : exists g, close_kill i (gs (lp c)) = Some (<[i := mkGor (g_pc g) true (g_done g)]> (gs (lp c))) /\
      gs (lp c) !! i = Some g).
    { destruct Hi as [_ (g & Hg & Hk & _)]. exists g. unfold close_kill. by rewrite Hg, Hk. }
    destruct Hk as (g & -> & Hg).
    assert (Hn' : Forall (fun g => doomed g = false) (<[i := mkGor (g_pc g) true (g_done g)]> (gs (lp c)))).
    { apply Forall_insert; [done|]. unfold calm in Hn. rewrite Forall_lookup in Hn. exact (Hn i g Hg). }
    destruct a; (eexists; split; [reflexivity|]; cbn; split_and!; try done; eauto).
Qed.

(** What waits for the loop is taken. *)
Lemma drains (c : conf) :
  good c -> stays (lp c) = true -> calm (lp c) -> Forall (fun a => obedient a = true) (ctrl (sh c)) ->
  (length (mgr (sh c)) + 3 <= managerCap)%nat ->
  can c (fun c' => stays (lp c') = true /\ calm (lp c') /\ ctrl (sh c') = [] /\
    (length (mgr (sh c')) <= length (mgr (sh c)) + 3)%nat).
Proof.
  intros Hc Hs Hn Ho Hm. destruct (ctrl (sh c)) as [|a [|? ?]] eqn:Ec.
  - apply can_here; [done|]. split_and!; [done..|lia].
  - eapply can_bind; [by apply gets_ready|]. intros c1 Hc1 (Hr & Hn1 & [M1 M2]). rewrite Ec in M2.
    destruct (receive c1 a Hc1 Hr Hn1 M2) as (c2 & Hs2 & Ha2 & Hc2 & Hm2 & Hn2 & Hst & _).
    eapply (can_step LRecv); [done|done|exact Hs2|done|]. intros Hg2. apply can_here; [done|].
    rewrite Forall_singleton in Ho. split_and!; [auto|done|done|]. rewrite Hm2. lia.
  - pose proof Hc as [[_ _ _ Hl _ _] _ _]. rewrite Ec in Hl. cbn in Hl. unfold ctrlCap in Hl. lia.
Qed.

(** The loop is told to return, and does. *)
Lemma halts (c : conf) :
  good c -> stays (lp c) = true -> calm (lp c) -> ctrl (sh c) = [jobHalt] ->
  (length (mgr (sh c)) + 6 <= managerCap)%nat -> can c (fun c' => main (lp c') = MReturned).
Proof.
  intros Hc Hs Hn Ho Hm. eapply can_bind; [apply gets_ready; [done|done|done|lia]|].
  intros c1 Hc1 (Hr & Hn1 & [M1 M2]). rewrite Ho in M2.
  destruct (receive c1 _ Hc1 Hr Hn1 M2) as (c2 & Hs2 & Ha2 & Hc2 & Hm2 & Hn2 & _ & Hh).
  eapply (can_step LRecv); [done|done|exact Hs2|done|]. intros Hg2.
  destruct (Hh eq_refl) as [E|[i E]]; [by apply can_here|].
  eapply can_bind; [eapply killed_joins; [done|done|done|rewrite Hm2; lia]|].
  intros c3 Hc3 [E3 _]. by apply can_here.
Qed.

(** Without jobHalt, jobDisable or jobPing the loop never returns. *)
Lemma step_stays lb c c' :
  own_label lb = true -> stays (lp c) = true -> Forall (fun a => obedient a = true) (ctrl (sh c)) ->
  step lb c = Some c' -> stays (lp c') = true /\ Forall (fun a => obedient a = true) (ctrl (sh c')).
Proof.
  unfold Job.step, stays. intros Ho Hs Hc E. destruct (crashed c); [done|]. destruct lb as [| | |i a|a|]; try done.
  - destruct (main (lp c)); try done. by destruct (_ =? _); simplify_eq/=.
  - destruct (main (lp c)) as [| |i [| |]| |]; try done;
      (destruct (gs (lp c) !! i ≫= recv_done); by simplify_eq/=).
  - destruct (ctrl (sh c)) as [|a rest]; [done|]. apply Forall_cons in Hc as [Ha Hc]. unfold main_recv in E.
    destruct (main (lp c)) as [|i| | |] eqn:Em; try done.
    + destruct a; try done; cbn in E; try (by simplify_eq/=);
        (destruct (close_kill i (gs (lp c))); simplify_eq/=; by rewrite ?Em).
    + by destruct a; simplify_eq/=.
  - destruct (gs (lp c) !! i) as [g|]; [|done].
    destruct (gstep _ _ _ _ _ _ _ _ _) as [x' b' g'|m|] eqn:Es; simplify_eq/=; [|done].
    by apply gstep_spec in Es as (_ & _ & _ & _ & _ & -> & _).
Qed.
End job.

(** ** The worker that nobody has told to end *)
Section worker.
Context {H : Type} (Hooks : list H) (Retry : Z) (mname tmo : string) (cap : nat) (interval : Z).
#[local] Abbreviation wstep := (Worker.wstep Hooks Retry mname tmo cap interval).
#[local] Abbreviation wsteps := (Worker.wsteps Hooks Retry mname tmo cap interval).
#[local] Abbreviation wstate := (wstate (H := H)).
#[local] Abbreviation jsteps := (Job.steps Hooks Retry mname tmo cap).

Definition patient (t : tpc) : bool := match t with TSend a => obedient a | _ => true end.

(** There is one activation of Run, or there is going to be; it is not returning,
    and nothing that is sent to it makes it return. *)
Record awake (w : wstate) : Prop := {
  aw_count : (length (wloops w) + wnew w + pending_start (wpc w) = 1)%nat;
  aw_loops : Forall (fun l => stays l = true /\ runs_ok l) (wloops w);
  aw_ctrl : Forall (fun a => obedient a = true) (ctrl (wsh w));
  aw_threads : Forall (fun t => patient t = true) (wthreads w);
  aw_dis : wdis w = false;
}.

(** A goroutine that serves a command and holds [w.L]. *)
Definition holds (t : tpc) : nat :=
  match t with TRemove _ | TSwitch _ | TAct _ | TSend _ | TReply _ => 1 | _ => 0 end.
Definition held (w : wstate) : Prop := sum_of holds (wthreads w) = if wL w then 1%nat else 0%nat.

Record fit (w : wstate) : Prop := {
  ft_winv : winv cap w; ft_quiet : quiet w; ft_slot : slot_inv w; ft_awake : awake w; ft_held : held w;
}.

Lemma awake_frame (w w' : wstate) :
  awake w -> wloops w' = wloops w ->
  (wnew w' + pending_start (wpc w') = wnew w + pending_start (wpc w))%nat ->
  Forall (fun a => obedient a = true) (ctrl (wsh w')) -> Forall (fun t => patient t = true) (wthreads w') ->
  wdis w' = wdis w -> awake w'.
Proof. intros [A1 A2 A3 A4 A5] Hl Hn Hc Ht Hd. split; rewrite ?Hl, ?Hd; try done. lia. Qed.

Lemma report_schedule_more (w : wstate) :
  wL (report_schedule w) = wL w /\ wdis (report_schedule w) = wdis w.
Proof. unfold report_schedule. by destruct (GetJob (wsched w)) as [? []]. Qed.

Lemma awake_report (w : wstate) : awake w -> awake (report_schedule w).
Proof.
  intros Ha. destruct (report_schedule_parts w) as (_ & E2 & E3 & E4 & E5 & E6).
  destruct (report_schedule_more w) as [_ E7].
  apply (awake_frame w); rewrite ?E2, ?E3, ?E4, ?E6; try done; apply Ha.
Qed.

Lemma awake_start mirror (w : wstate) :
  awake w -> wpc w = SInit -> String.eqb (st_Status mirror) Disabled = false ->
  awake (w_start interval mirror w).
Proof.
  intros Ha Hp Hs. unfold w_start. rewrite Hs.
  destruct (String.eqb _ Paused); [|destruct (AddJob _ tt _) as [q [u|]]];
    (apply (awake_frame w); cbn; rewrite ?Hp; cbn; first [done|lia|apply Ha]).
Qed.

Lemma patient_insert (ts : list tpc) i t :
  Forall (fun t => patient t = true) ts -> patient t = true -> Forall (fun t => patient t = true) (<[i := t]> ts).
Proof. intros Hf Ht. by apply Forall_insert. Qed.

Lemma command_patient c d : patient (command_action c d) = true.
Proof. unfold command_action. by destruct (cc_Cmd c), (cc_Force c), d. Qed.
Lemma command_holds c d : holds (command_action c d) = 1%nat.
Proof. unfold command_action. by destruct (cc_Cmd c), (cc_Force c), d. Qed.

(** What a command's goroutine does. *)
Lemma tstep_parts i t (w w' : wstate) :
  winv cap w -> halting t = false -> tstep i t w = Some w' ->
  wloops w' = wloops w /\ wnew w' = wnew w /\ wpc w' = wpc w /\ wdis w' = wdis w /\ wexit w' = wexit w /\
  wdead w' = wdead w /\ mgr (wsh w') = mgr (wsh w) /\
  exists t', wthreads w' = <[i := t']> (wthreads w) /\ patient t' = true /\
    ((if wL w' then 1 else 0) + holds t = (if wL w then 1 else 0) + holds t' \/ holds t = 1 /\ wL w = false)%nat /\
    (ctrl (wsh w') = ctrl (wsh w) \/ exists a, t = TSend a /\ ctrl (wsh w') = ctrl (wsh w) ++ [a]).
Proof.
  intros [I1 _ _ _ _ _ _] Hh E. apply Z.eqb_neq in I1.
  destruct t; try discriminate Hh; unfold tstep in E; rewrite ?I1, ?andb_false_r in E.
  - destruct (wL w) eqn:EL; simplify_eq. split_and!; try done. exists (match c with Some c => TRemove c | None => TReply 400 end).
    split_and!; [done|by destruct c|left; by destruct c|by left].
  - destruct (Remove _) as [q [u|]]; simplify_eq. split_and!; try done. exists (TSwitch c). cbn.
    split_and!; auto.
  - simplify_eq. split_and!; try done. exists (TAct c). cbn. split_and!; auto.
  - simplify_eq. split_and!; try done. exists (command_action c false). cbn [set_thread wL wsh wthreads].
    rewrite command_holds, command_patient. split_and!; auto.
  - destruct (ctrl_free w); simplify_eq. split_and!; try done. exists (TReply 200). cbn. split_and!; eauto.
  - simplify_eq. split_and!; try done. exists (TOver code). cbn. destruct (wL w); split_and!; auto.
  - done.
Qed.

Lemma tstep_awake i t (w w' : wstate) :
  winv cap w -> awake w -> held w -> wthreads w !! i = Some t -> halting t = false -> tstep i t w = Some w' ->
  awake w' /\ held w'.
Proof.
  intros Hw Ha Hd Hi Hh E.
  destruct (tstep_parts i t w w' Hw Hh E) as (E1 & E2 & E3 & E4 & _ & _ & _ & t' & E5 & Hp & HL & Hc).
  pose proof Ha as [_ _ A3 A4 _]. split.
  - apply (awake_frame w); rewrite ?E2, ?E3, ?E5; try done; [|by apply patient_insert].
    destruct Hc as [->|(a & -> & ->)]; [done|]. apply Forall_app. split; [done|]. apply Forall_singleton.
    rewrite Forall_lookup in A4. exact (A4 i _ Hi).
  - unfold held in *. rewrite E5. pose proof (sum_of_insert holds i _ t t' Hi). pose proof (sum_of_elem holds i _ t Hi).
    destruct HL as [HL|[Ht HL]]; [lia|]. rewrite HL in Hd. lia.
Qed.

Lemma lstep_awake i lb (w w' : wstate) :
  winv cap w -> awake w -> Worker.lstep Hooks Retry mname tmo cap i lb w = Some w' ->
  awake w' /\ wL w' = wL w /\ wthreads w' = wthreads w.
Proof.
  intros Hw [A1 A2 A3 A4 A5] E. unfold Worker.lstep in E. destruct (own_label lb) eqn:Eo; [|done].
  destruct (wloops w !! i) as [l|] eqn:El; [|done].
  destruct (Job.step _ _ _ _ _ lb _) as [c|] eqn:Es; [|done]. cbn zeta in E. rewrite A5, andb_false_r in E.
  rewrite Forall_lookup in A2. destruct (A2 i l El) as [Hs Hr].
  destruct (step_stays _ _ _ _ _ lb (mkConf (wsh w) l None) c Eo Hs A3 Es) as [Hs' Hc'].
  pose proof (step_runs_ok _ _ _ _ _ lb (mkConf (wsh w) l None) c Hr Es) as Hr'.
  assert (Hret : returned (lp c) = false) by (unfold returned, stays in *; by destruct (main (lp c))).
  rewrite Hret in E. injection E as <-. split; [|done]. split; cbn; try done.
  - by rewrite length_insert.
  - apply Forall_insert; [|done]. by apply Forall_lookup.
Qed.

Lemma held_frame (w w' : wstate) : held w -> wL w' = wL w -> wthreads w' = wthreads w -> held w'.
Proof. unfold held. by intros Hd -> ->. Qed.
Lemma held_report (w : wstate) : held w -> held (report_schedule w).
Proof.
  intros Hd. apply (held_frame w); [done|apply report_schedule_more|].
  by destruct (report_schedule_parts w) as (_ & _ & _ & _ & _ & ->).
Qed.
Lemma held_start mirror (w : wstate) : held w -> held (w_start interval mirror w).
Proof. intros Hd. unfold w_start. split_matches; by apply (held_frame w). Qed.

Lemma awake_step lb (w w' : wstate) :
  fit w -> lb <> WHalt -> starts_enabled lb = true -> wstep lb w = Some w' -> awake w' /\ held w'.
Proof.
  intros [Hw Hq Hsl Ha Hd] Hne Hl E. pose proof Ha as [A1 A2 A3 A4 A5]. pose proof Hq as [Q1 Q2 [Q3 Q4]].
  assert (Hsame : forall v, wL v = wL w -> wthreads v = wthreads w -> wloops v = wloops w ->
    (wnew v + pending_start (wpc v) = wnew w + pending_start (wpc w))%nat -> ctrl (wsh v) = ctrl (wsh w) ->
    wdis v = wdis w -> awake v /\ held v).
  { intros v V1 V2 V3 V4 V5 V6. split; [|by apply (held_frame w)]. by apply (awake_frame w); rewrite ?V5, ?V2. }
  assert (Hrep : forall v, awake v /\ held v -> awake (report_schedule v) /\ held (report_schedule v)).
  { intros v [V1 V2]. split; [by apply awake_report|by apply held_report]. }
  unfold Worker.wstep in E. destruct (wdead w); [done|]. destruct lb as [mirror| | |now| |now| | | | |i lb|c| |i]; try done.
  1-9: destruct (wpc w) eqn:Ep; try done.
  - destruct (wL w) eqn:EL; [done|]. injection E as <-. split; [|by apply held_start].
    apply awake_start; try done. by apply negb_true_iff.
  - destruct (mgr (wsh w)); simplify_eq. by apply Hsame; rewrite ?Ep.
  - destruct (_ =? _); simplify_eq; by apply Hsame; rewrite ?Ep.
  - destruct (_ =? _); simplify_eq; by apply Hsame; rewrite ?Ep.
  - destruct (jm_schedule m); [destruct (AddJob _ tt _) as [q [u|]]|]; simplify_eq;
      by apply Hsame; rewrite ?Ep.
  - simplify_eq. apply Hrep. by apply Hsame; rewrite ?Ep.
  - destruct (Pop _ _) as [q [[u|]|]]; simplify_eq; by apply Hsame; cbn; rewrite ?Ep.
  - destruct (ctrl_free w); simplify_eq. split; [|by apply (held_frame w)].
    apply (awake_frame w); cbn; rewrite ?Ep; try done. apply Forall_app. split; [done|]. by apply Forall_singleton.
  - rewrite Q1 in E. done.
  - destruct (wnew w) as [|n] eqn:En; simplify_eq. split; [|by apply (held_frame w)]. split; cbn; try done.
    + rewrite length_app. cbn. lia.
    + apply Forall_app. split; [done|]. apply Forall_singleton. split; [done|apply Forall_nil_2].
  - apply lstep_awake in E as (E1 & E2 & E3); try done. split; [done|]. by apply (held_frame w).
  - simplify_eq. split.
    + apply (awake_frame w); try done. apply Forall_app. split; [done|]. by apply Forall_singleton.
    + unfold held in *. cbn [add_thread wthreads wL]. rewrite sum_of_snoc, Hd. cbn. lia.
  - destruct (wthreads w !! i) as [t|] eqn:Et; [|done]. eapply tstep_awake; try done. by eapply halting_lookup.
Qed.

Lemma fit_step lb (w w' : wstate) :
  fit w -> lb <> WHalt -> starts_enabled lb = true -> wstep lb w = Some w' -> fit w'.
Proof.
  intros Hf Hne Hl E. destruct (awake_step lb w w' Hf Hne Hl E) as [Ha Hd]. destruct Hf as [Hw Hq Hsl _ _].
  split; [by eapply winv_step|by eapply quiet_step|by eapply slot_step|done|done].
Qed.

Lemma fit_steps ls (w w' : wstate) :
  fit w -> Forall (fun lb => lb <> WHalt /\ starts_enabled lb = true) ls -> wsteps ls w = Some w' -> fit w'.
Proof.
  revert w. induction ls as [|lb ls IH]; intros w Hw Hl E; cbn in E; [by simplify_eq|].
  apply Forall_cons in Hl as [[H1 H2] Hl]. destruct (wstep lb w) as [w1|] eqn:E1; [|done].
  eapply IH; [|done..]. by eapply fit_step.
Qed.

Lemma fit_init : fit w_init.
Proof. split; [apply winv_init|by split|by split|by split|done]. Qed.

(** *** The loop's own steps are steps of the worker *)
Definition put (c : conf (H := H)) (w : wstate) : wstate :=
  mkW (wL w) (wsched w) (sh c) (wnew w) [lp c] (wpc w) (wthreads w) (wexit w) (returned (lp c)) (reports w) None.

Lemma jsteps_alive ls (c c' : conf (H := H)) : jsteps ls c = Some c' -> crashed c' = None -> crashed c = None.
Proof.
  destruct ls as [|lb ls]; cbn; [by intros [= ->]|]. unfold Job.step at 1. by destruct (crashed c).
Qed.

Lemma step_returned lb (c c' : conf (H := H)) :
  Job.step Hooks Retry mname tmo cap lb c = Some c' -> returned (lp c) = true -> returned (lp c') = true.
Proof.
  unfold Job.step, returned. intros E Hr. destruct (crashed c); [done|].
  destruct (main (lp c)) eqn:Em; try done. destruct lb; try done.
  - destruct (ctrl (sh c)); [done|]. unfold main_recv in E. by rewrite Em in E.
  - destruct (gs (lp c) !! i); [|done]. destruct (gstep _ _ _ _ _ _ _ _ _); simplify_eq/=; by rewrite ?Em.
  - destruct (_ <? _)%nat; simplify_eq/=; by rewrite Em.
  - destruct (mgr (sh c)); simplify_eq/=; by rewrite Em.
Qed.

Lemma loop_step lb (w : wstate) l c :
  wloops w = [l] -> wdead w = None -> wdis w = returned l -> own_label lb = true ->
  Job.step Hooks Retry mname tmo cap lb (mkConf (wsh w) l None) = Some c -> crashed c = None ->
  wstep (WLoop 0 lb) w = Some (put c w).
Proof.
  intros Hl Hd Hr Ho Hs Hc. unfold Worker.wstep, Worker.lstep. rewrite Hd, Ho, Hl. cbn [lookup list_lookup].
  rewrite Hs, Hc, Hr. cbn zeta. pose proof (step_returned lb _ c Hs) as Hk. cbn [lp] in Hk.
  unfold put. destruct (returned l) eqn:El, (returned (lp c)) eqn:Er; cbn; try done.
  by specialize (Hk eq_refl).
Qed.

Lemma loop_steps ls (w : wstate) l c :
  wloops w = [l] -> wdead w = None -> wdis w = returned l -> Forall (fun lb => own_label lb = true) ls ->
  jsteps ls (mkConf (wsh w) l None) = Some c -> crashed c = None ->
  wsteps (WLoop 0 <$> ls) w = Some (put c w).
Proof.
  revert w l. induction ls as [|lb ls IH]; intros w l Hl Hd Hr Ho Hs Hc.
  - cbn in *. simplify_eq. unfold put. cbn. rewrite <-Hl, <-Hr, <-Hd. by destruct w.
  - apply Forall_cons in Ho as [Ho Hos]. cbn [Job.steps] in Hs. destruct (Job.step Hooks _ _ _ _ lb _) as [c1|] eqn:E1; [|done].
    pose proof (jsteps_alive _ _ _ Hs Hc) as Hc1. change (WLoop 0 <$> lb :: ls) with (WLoop 0 lb :: (WLoop 0 <$> ls)).
    cbn [Worker.wsteps]. rewrite (loop_step lb w l c1) by done.
    rewrite (IH (put c1 w) (lp c1)); try done.
    cbn [put wsh]. rewrite <-Hc1. by destruct c1.
Qed.

(** *** Getting ready to end *)

(** Moves of the goroutines that serve commands and of the loop. *)
Definition inner (lb : wlabel) : bool := match lb with WBegin | WLoop _ _ | WThread _ => true | _ => false end.

Definition wcan (w : wstate) (P : wstate -> Prop) : Prop :=
  exists ls w', Forall (fun lb => inner lb = true) ls /\ wsteps ls w = Some w' /\ fit w' /\ wdead w' = None /\ P w'.

Lemma wsteps_app ls1 ls2 (w : wstate) : wsteps (ls1 ++ ls2) w = wsteps ls1 w ≫= wsteps ls2.
Proof.
  revert w. induction ls1 as [|lb ls1 IH]; intros w; [done|]. cbn. destruct (wstep lb w); [apply IH|done].
Qed.

Lemma wcan_here (w : wstate) (P : wstate -> Prop) : fit w -> wdead w = None -> P w -> wcan w P.
Proof. intros Hf Hd HP. by exists [], w. Qed.

Lemma inner_fine ls :
  Forall (fun lb => inner lb = true) ls -> Forall (fun lb => lb <> WHalt /\ starts_enabled lb = true) ls.
Proof. intros Hf. eapply Forall_impl; [exact Hf|]. by intros []. Qed.

Lemma wcan_steps ls (w w' : wstate) P :
  fit w -> Forall (fun lb => inner lb = true) ls -> wsteps ls w = Some w' -> (fit w' -> wcan w' P) -> wcan w P.
Proof.
  intros Hf Hl Hs Hn. assert (Hf' : fit w') by (eapply fit_steps, Hs; [done|by apply inner_fine]).
  destruct (Hn Hf') as (ls2 & w2 & Hl2 & Hs2 & Hr).
  exists (ls ++ ls2), w2. split_and!; [by apply Forall_app|by rewrite wsteps_app, Hs|apply Hr..].
Qed.

Lemma wcan_bind (w : wstate) P Q :
  wcan w P -> (forall w', fit w' -> wdead w' = None -> P w' -> wcan w' Q) -> wcan w Q.
Proof.
  intros (ls & w1 & Hl & Hls & Hf & Hd & HP) HQ. destruct (HQ w1 Hf Hd HP) as (ls2 & w2 & Hl2 & Hls2 & Hr).
  exists (ls ++ ls2), w2. split_and!; [by apply Forall_app|by rewrite wsteps_app, Hls|apply Hr..].
Qed.

(** Where the scheduler waits, with one loop that is not about to panic. *)
Record apt (n : nat) (w w' : wstate) : Prop := {
  ap_pc : wpc w' = SSelect;
  ap_loop : exists l, wloops w' = [l] /\ calm l;
  ap_mgr : (length (mgr (wsh w')) <= length (mgr (wsh w)) + n)%nat;
}.

Lemma apt_trans n m k w1 w2 w3 : apt n w1 w2 -> apt m w2 w3 -> (n + m <= k)%nat -> apt k w1 w3.
Proof. intros [A1 A2 A3] [B1 B2 B3] Hk. split; [done|done|lia]. Qed.

Lemma begins (w : wstate) :
  fit w -> wdead w = None -> wpc w = SSelect -> Forall calm (wloops w) -> wcan w (apt 0 w).
Proof.
  intros Hf Hd Hp Hc. pose proof Hf as [_ _ _ [A1 _ _ _ _] _]. rewrite Hp in A1. cbn in A1.
  destruct (wloops w) as [|l [|? ?]] eqn:El; cbn in A1; [| |lia].
  - destruct (wnew w) as [|n] eqn:En; [lia|].
    eapply (wcan_steps [WBegin]); [done|by constructor| |].
    { cbn [Worker.wsteps]. unfold Worker.wstep. by rewrite Hd, En, El. }
    intros Hf'. apply wcan_here; [done|done|]. split; [done| |cbn; lia].
    eexists. split; [reflexivity|]. apply Forall_nil_2.
  - apply wcan_here; [done|done|]. split; [done| |lia]. exists l. split; [done|]. by rewrite Forall_singleton in Hc.
Qed.

Lemma fit_good (w : wstate) l : fit w -> wloops w = [l] -> good cap (mkConf (wsh w) l None).
Proof.
  intros [Hw _ _ [_ A2 _ _ _] _] El. destruct Hw as [_ _ _ _ _ _ Hl]. rewrite El in *. cbn in Hl.
  rewrite Forall_singleton in A2; destruct A2 as [_ Hr]. by split.
Qed.

(** The loop takes what waits for it. *)
Lemma worker_drains (w : wstate) :
  fit w -> wdead w = None -> apt 0 w w -> (length (mgr (wsh w)) + 3 <= managerCap)%nat ->
  wcan w (fun w' => apt 3 w w' /\ ctrl (wsh w') = [] /\ wL w' = wL w /\ wthreads w' = wthreads w).
Proof.
  intros Hf Hd [P1 (l & El & Hn) _] Hm. pose proof (fit_good w l Hf El) as Hg.
  pose proof Hf as [_ _ _ [_ A2 A3 _ A5] _]. rewrite El in A2. rewrite Forall_singleton in A2; destruct A2 as [Hs _].
  destruct (drains Hooks Retry mname tmo cap _ Hg Hs Hn A3 Hm) as (ls & c & Ho & Hls & Hg' & Hs' & Hn' & Hc' & Hm').
  assert (Hr : returned l = false) by (unfold returned, stays in *; by destruct (main l)).
  pose proof (loop_steps ls w l c El Hd ltac:(by rewrite A5, Hr) Ho Hls (gd_alive _ _ Hg')) as E.
  eapply wcan_steps; [done| |exact E|].
  - apply Forall_fmap. by apply Forall_true.
  - intros Hf'. apply wcan_here; [done|done|]. split_and!; try done. split; [done| |done]. by exists (lp c).
Qed.

(** How far a goroutine that holds the lock is from releasing it. *)
Definition rank (t : tpc) : nat :=
  match t with TRemove _ => 5 | TSwitch _ => 4 | TAct _ => 3 | TSend _ => 2 | _ => 1 end.

Lemma holder_moves i t (w : wstate) :
  fit w -> wpc w = SSelect -> holds t = 1%nat -> (1 < rank t)%nat -> ctrl (wsh w) = [] -> wthreads w !! i = Some t ->
  exists w' t', tstep i t w = Some w' /\ wthreads w' = <[i := t']> (wthreads w) /\ holds t' = 1%nat /\
    (rank t' < rank t)%nat /\ wL w' = wL w /\ (ctrl (wsh w') = [] \/ rank t' = 1%nat).
Proof.
  intros [Hw _ [Hmu _] _ _] Hp Hh Hr Hc Ht. destruct Hw as [I1 _ _ _ _ _ _]. apply Z.eqb_neq in I1. rewrite Hp in Hmu.
  destruct t; cbn in Hh, Hr; try lia; unfold tstep; rewrite ?I1, ?andb_false_r.
  - rewrite (Remove_free _ Hmu). eexists _, (TSwitch c). split; [reflexivity|]. cbn. split_and!; auto; lia.
  - eexists _, (TAct c). split; [reflexivity|]. cbn. split_and!; auto; lia.
  - eexists _, (command_action c false). split; [reflexivity|]. rewrite command_holds. split_and!; auto.
    unfold command_action. destruct (cc_Cmd c), (cc_Force c); cbn; lia.
  - unfold ctrl_free. rewrite Hc. cbn. eexists _, (TReply 200). split; [reflexivity|]. cbn. split_and!; auto; lia.
Qed.

Lemma thread_step i t (w : wstate) :
  wdead w = None -> wthreads w !! i = Some t -> wstep (WThread i) w = tstep i t w.
Proof. intros Hd Ht. unfold Worker.wstep. by rewrite Hd, Ht. Qed.

Lemma unlocks n i t (w : wstate) :
  (rank t <= n)%nat -> fit w -> wdead w = None -> apt 0 w w -> holds t = 1%nat ->
  (ctrl (wsh w) = [] \/ rank t = 1%nat) -> wthreads w !! i = Some t ->
  wcan w (fun w' => apt 0 w w' /\ wL w' = false).
Proof.
  revert t w. induction n as [|n IH]; intros t w Hn Hf Hd Ha Hh Hc Ht; [destruct t; cbn in Hn; lia|].
  pose proof (halting_lookup _ _ _ (q_halt _ (ft_quiet _ Hf)) Ht) as Hq. pose proof Ha as [P1 P2 _].
  assert (Hgo : forall w1, tstep i t w = Some w1 -> wsteps [WThread i] w = Some w1 /\ apt 0 w w1 /\ wdead w1 = None).
  { intros w1 E. split; [cbn [Worker.wsteps]; by rewrite (thread_step i t w Hd Ht), E|].
    destruct (tstep_parts i t w w1 (ft_winv _ Hf) Hq E) as (E1 & _ & E3 & _ & _ & E4 & E5 & _).
    split; [split; rewrite ?E1, ?E3, ?E5; [done|done|lia]|congruence]. }
  destruct (decide (rank t = 1%nat)) as [Hr|Hr].
  - assert (exists code, t = TReply code) as [code ->] by (destruct t; try done; by eexists).
    destruct (Hgo _ eq_refl) as (E & Ha' & Hd').
    eapply (wcan_steps [WThread i]); [done|by constructor|exact E|]. intros Hf'. by apply wcan_here.
  - destruct Hc as [Hc|]; [|done]. assert (H1 : (1 < rank t)%nat) by (destruct t; cbn in *; lia).
    destruct (holder_moves i t w Hf P1 Hh H1 Hc Ht) as (w1 & t1 & E & Et & Hh1 & Hr1 & _ & Hc1).
    destruct (Hgo w1 E) as (E' & Ha' & Hd').
    eapply (wcan_steps [WThread i]); [done|by constructor|exact E'|]. intros Hf'. eapply wcan_bind.
    + apply (IH t1); [lia|done|done| |done|done|].
      * destruct Ha' as [B1 B2 _]. split; [done|done|lia].
      * rewrite Et. apply list_lookup_insert_eq. by eapply lookup_lt_Some.
    + intros w2 Hf2 Hd2 [Ha2 HL2]. apply wcan_here; [done|done|]. split; [|done]. by eapply apt_trans.
Qed.

(** The lock is free and nothing waits for the loop. *)
Lemma worker_settles (w : wstate) :
  fit w -> wdead w = None -> wpc w = SSelect -> Forall calm (wloops w) ->
  (length (mgr (wsh w)) + 6 <= managerCap)%nat ->
  wcan w (fun w' => apt 6 w w' /\ ctrl (wsh w') = [] /\ wL w' = false).
Proof.
  intros Hf Hd Hp Hc Hm. eapply wcan_bind; [by apply begins|]. intros w1 Hf1 Hd1 Ha1.
  assert (Hre : forall n v v', apt n v v' -> apt 0 v' v') by (intros n v v' [B1 B2 _]; split; [done|done|lia]).
  eapply wcan_bind; [eapply worker_drains; [done|done|by eapply Hre|destruct Ha1; lia]|].
  intros w2 Hf2 Hd2 (Ha2 & Hc2 & _). pose proof (apt_trans 0 3 3 _ _ _ Ha1 Ha2 ltac:(lia)) as A2.
  destruct (wL w2) eqn:EL.
  - pose proof (ft_held _ Hf2) as Hh. unfold held in Hh. rewrite EL in Hh.
    destruct (sum_of_pos holds (wthreads w2) ltac:(lia)) as (i & t & Hi & Ht).
    assert (Ht1 : holds t = 1%nat) by (destruct t; cbn in *; lia).
    eapply wcan_bind; [eapply (unlocks (rank t) i t); [lia|done|done|by eapply Hre|done|by left|done]|].
    intros w3 Hf3 Hd3 [Ha3 HL3]. pose proof (apt_trans 3 0 3 _ _ _ A2 Ha3 ltac:(lia)) as A3.
    eapply wcan_bind; [eapply worker_drains; [done|done|by eapply Hre|destruct A3; lia]|].
    intros w4 Hf4 Hd4 (Ha4 & Hc4 & HL4 & _). apply wcan_here; [done|done|].
    split_and!; [by eapply (apt_trans 3 3)|done|congruence].
  - apply wcan_here; [done|done|]. split_and!; [|done|done]. destruct A2 as [B1 B2 B3]. split; [done|done|lia].
Qed.

(** *** Halt *)
Lemma insert_last {A} (l : list A) x y : <[length l := y]> (l ++ [x]) = l ++ [y].
Proof. by rewrite insert_app_r_alt, Nat.sub_diag by lia. Qed.
Lemma lookup_last_snoc {A} (l : list A) x : (l ++ [x]) !! length l = Some x.
Proof. by rewrite lookup_app_r, Nat.sub_diag by lia. Qed.

(** Halt waits until all activations of Run have returned. *)
Definition waiting (w : wstate) : wstate :=
  mkW true (wsched w) (set_ctrl [jobHalt] (wsh w)) (wnew w) (wloops w) (wpc w) (wthreads w ++ [THaltWait]) (wexit w)
    (wdis w) (reports w) (wdead w).

Lemma halt_sends (w : wstate) :
  fit w -> wdead w = None -> ctrl (wsh w) = [] -> wL w = false ->
  wsteps (WHalt :: replicate 3 (WThread (length (wthreads w)))) w = Some (waiting w).
Proof.
  intros Hf Hd Hc HL. pose proof (q_halt _ (ft_quiet _ Hf)) as Hq.
  pose proof (winv_state _ _ (ft_winv _ Hf)) as Hs. apply Z.eqb_neq in Hs. unfold waiting.
  destruct w as [L q x nw ls pc ts ex dis rp dd]. cbn [wdead wsh wL wthreads] in Hd, Hc, HL, Hq, Hs. subst.
  cbn [replicate]. do 4 (cbn [Worker.wsteps]; unfold Worker.wstep at 1;
    cbn [wdead wthreads add_thread]; rewrite ?Hq, ?lookup_last_snoc; unfold tstep;
    cbn [wL wsh set_thread set_L]; rewrite ?Hs; unfold ctrl_free; cbn [wsh]; rewrite ?Hc;
    unfold add_thread, set_thread, set_L, send_ctrl, set_wsh;
    cbn -[existsb lookup insert app Z.eqb Worker.wsteps Worker.wstep]; rewrite ?insert_last).
  by rewrite Hc.
Qed.

(** The scheduler reports what is left and returns. *)
Lemma flushes (w : wstate) :
  wdead w = None -> wpc w = SFlush ->
  exists n w', wsteps (replicate n WFlush) w = Some w' /\ wpc w' = SEnd /\ wdead w' = None /\ wloops w' = wloops w.
Proof.
  intros Hd Hp. remember (mgr (wsh w)) as ms eqn:Em. revert w Hd Hp Em. induction ms as [|m ms IH]; intros w Hd Hp Em.
  - exists 1%nat. eexists. split; [|split].
    + cbn [replicate Worker.wsteps]. unfold Worker.wstep. by rewrite Hd, Hp, <-Em.
    + done.
    + done.
  - assert (exists w1, wstep WFlush w = Some w1 /\ wdead w1 = None /\ wpc w1 = SFlush /\ mgr (wsh w1) = ms /\
      wloops w1 = wloops w) as (w1 & E & Hd1 & Hp1 & Em1 & El1).
    { unfold Worker.wstep. rewrite Hd, Hp, <-Em. destruct (_ || _); eexists; (split; [reflexivity|]); done. }
    destruct (IH w1 Hd1 Hp1 (eq_sym Em1)) as (n & w' & Hs & Hr). rewrite El1 in Hr. exists (S n), w'. split; [|done].
    cbn [replicate Worker.wsteps]. by rewrite E.
Qed.

(** Once the loop has returned, Halt ends and so does the scheduler. *)
Lemma halt_ends ts (w : wstate) :
  wdead w = None -> wpc w = SSelect -> wexit w = false -> wthreads w = ts ++ [THaltWait] -> all_done w = true ->
  exists ls w', Forall (fun lb => lb <> WHalt) ls /\ wsteps ls w = Some w' /\ wpc w' = SEnd /\ wdead w' = None /\
    all_done w' = true.
Proof.
  intros Hd Hp He Ht Ha. set (n := length ts).
  set (w1 := mkW true (wsched w) (wsh w) (wnew w) (wloops w) SFlush (ts ++ [TOver 0]) true (wdis w) (reports w) None).
  assert (E : wsteps [WThread n; WThread n; WExit] w = Some w1).
  { destruct w as [L q x nw ls pc ts' ex dis rp dd]. unfold all_done in Ha.
    cbn [wdead wpc wexit wthreads wloops] in Hd, Hp, He, Ht, Ha. subst. unfold n, w1.
    do 2 (cbn [Worker.wsteps]; unfold Worker.wstep at 1; cbn [wdead wthreads]; rewrite lookup_last_snoc;
      unfold tstep, all_done; cbn [wloops wexit]; rewrite ?Ha; unfold set_thread, set_L;
      cbn [wL wsched wsh wnew wloops wpc wthreads wexit wdis reports wdead]; rewrite insert_last). done. }
  destruct (flushes w1 eq_refl eq_refl) as (k & w' & Hs & Hp' & Hd' & Hl').
  exists ([WThread n; WThread n; WExit] ++ replicate k WFlush), w'.
  split_and!; [|by rewrite wsteps_app, E|done|done|unfold all_done; by rewrite Hl'].
  apply Forall_app. split; [|by apply Forall_replicate]. by rewrite !Forall_cons, Forall_nil.
Qed.

Lemma worker_halts (w : wstate) :
  fit w -> wdead w = None -> apt 0 w w -> ctrl (wsh w) = [] -> wL w = false ->
  (length (mgr (wsh w)) + 6 <= managerCap)%nat ->
  exists ls w', Forall (fun lb => lb <> WHalt) ls /\ wsteps (WHalt :: ls) w = Some w' /\
    wpc w' = SEnd /\ wdead w' = None /\ all_done w' = true.
Proof.
  intros Hf Hd [P1 (l & El & Hn) _] Hc HL Hm. pose proof (halt_sends w Hf Hd Hc HL) as E.
  pose proof (fit_good w l Hf El) as [[G1 G2 G3 G4 G5 G6] Gr _].
  pose proof Hf as [_ Hq _ [_ A2 _ _ A5] _]. rewrite El in A2. rewrite Forall_singleton in A2. destruct A2 as [Hs _].
  assert (Hg : good cap (mkConf (set_ctrl [jobHalt] (wsh w)) l None)) by (split; [by split|done|done]).
  destruct (halts Hooks Retry mname tmo cap _ Hg Hs Hn eq_refl Hm) as (ls & c & Ho & Hls & Hg' & Hr).
  assert (Hrl : returned l = false) by (unfold returned, stays in *; by destruct (main l)).
  pose proof (loop_steps ls (waiting w) l c El Hd ltac:(by cbn; rewrite A5, Hrl) Ho Hls (gd_alive _ _ Hg')) as E2.
  destruct (halt_ends (wthreads w) (put c (waiting w))) as (ls3 & w' & Hl3 & Hs3 & Hp & Hd' & Ha'); try done.
  { apply Hq. }
  { unfold all_done, returned. cbn. by rewrite Hr. }
  exists (replicate 3 (WThread (length (wthreads w))) ++ (WLoop 0 <$> ls) ++ ls3), w'. split_and!; [| |done..].
  - rewrite !Forall_app. split_and!; [by apply Forall_replicate| |done]. apply Forall_fmap. by apply Forall_true.
  - rewrite app_comm_cons, wsteps_app, E. cbn [mbind option_bind]. by rewrite wsteps_app, E2.
Qed.
End worker.

(** ** The process *)
Section process.
Context {H : Type} (Hooks : list H) (Retry : Z) (mname tmo : string) (cap : nat) (interval : Z).
#[local] Abbreviation wstep := (Worker.wstep Hooks Retry mname tmo cap interval).
#[local] Abbreviation wsteps := (Worker.wsteps Hooks Retry mname tmo cap interval).
#[local] Abbreviation psteps := (ssteps Hooks Retry mname tmo cap interval).

(** The job is not Disabled when the worker fetches its status. *)
Definition begins_enabled (lb : plabel) : bool := match lb with PWorker lb => starts_enabled lb | _ => true end.

Record unhalted (p : process (H := H)) : Prop := {
  uh_fit : fit cap (pr_worker p); uh_chan : pr_chan p = None; uh_dead : pr_end p = None -> wdead (pr_worker p) = None;
}.

Lemma unhalted_step lb p p' :
  unhalted p -> is_signal lb = false -> begins_enabled lb = true ->
  sstep Hooks Retry mname tmo cap interval lb p = Some p' -> unhalted p'.
Proof.
  intros [Hf Hc Hd] Hn Hb. unfold sstep. destruct (pr_end p); [done|]. rewrite Hc. destruct lb as [|s|lb|e|].
  - specialize (Hd eq_refl). intros Hs. destruct (pr_pc p) as [|[]|]; simplify_eq; by split.
  - done.
  - intros Hs. assert (Hl : lb <> WHalt) by (by intros ->).
    assert (Hw : with_worker (pr_pc p) None (wstep lb (pr_worker p)) = Some p') by (by destruct lb).
    unfold with_worker in Hw. destruct (wstep lb (pr_worker p)) as [w'|] eqn:Ew; [|done].
    injection Hw as <-. split; cbn; [by eapply fit_step|done|]. by destruct (wdead w').
  - intros [= <-]. by split.
  - intros Hs. destruct (wpc (pr_worker p)); simplify_eq. by split.
Qed.

Lemma unhalted_steps ls p p' :
  unhalted p -> Forall (fun lb => is_signal lb = false /\ begins_enabled lb = true) ls -> psteps ls p = Some p' ->
  unhalted p'.
Proof.
  revert p. induction ls as [|lb ls IH]; intros p Hp Hl Hs; cbn [ssteps] in Hs; [by simplify_eq|].
  apply Forall_cons in Hl as [[H1 H2] Hl]. destruct (sstep _ _ _ _ _ _ lb p) as [q|] eqn:Eq; [|done].
  eapply IH; [|done..]. by eapply unhalted_step.
Qed.

Lemma ssteps_app ls1 ls2 p : psteps (ls1 ++ ls2) p = psteps ls1 p ≫= psteps ls2.
Proof.
  revert p. induction ls1 as [|lb ls1 IH]; intros p; [done|]. cbn [ssteps app].
  destruct (sstep _ _ _ _ _ _ lb p); [apply IH|done].
Qed.

(** The worker's goroutines move while the signal goroutine waits. *)
Lemma worker_moves ls w w' pc ch :
  Forall (fun lb => lb <> WHalt) ls -> wsteps ls w = Some w' -> wdead w' = None ->
  psteps (PWorker <$> ls) (mkProcess w pc ch None) = Some (mkProcess w' pc ch None).
Proof.
  revert w. induction ls as [|lb ls IH]; intros w Hl Hs Hd; [by cbn in *; simplify_eq|].
  apply Forall_cons in Hl as [H1 Hl]. cbn [Worker.wsteps] in Hs. destruct (wstep lb w) as [w1|] eqn:E1; [|done].
  assert (Hd1 : wdead w1 = None).
  { destruct ls; cbn [Worker.wsteps] in Hs; [congruence|]. revert Hs. unfold Worker.wstep at 1. by destruct (wdead w1). }
  change (PWorker <$> lb :: ls) with (PWorker lb :: (PWorker <$> ls)). cbn [ssteps].
  assert (E : sstep Hooks Retry mname tmo cap interval (PWorker lb) (mkProcess w pc ch None) = Some (mkProcess w1 pc ch None)).
  { unfold sstep. cbn [pr_end pr_worker pr_pc pr_chan]. rewrite E1. cbn. rewrite Hd1. by destruct lb. }
  rewrite E. by apply IH.
Qed.

Lemma no_signals ls : existsb is_signal (PWorker <$> ls) = false.
Proof. by induction ls. Qed.

(** Some sync of the worker has returned nil before its start was noticed. *)
Definition about_to_panic (w : wstate (H := H)) : bool := existsb (fun l => existsb doomed (gs l)) (wloops w).

Lemma existsb_Forall {A} (f : A -> bool) l : existsb f l = false <-> Forall (fun x => f x = false) l.
Proof. induction l as [|x l IH]; cbn; [done|]. by rewrite orb_false_iff, Forall_cons, IH. Qed.

Lemma about_to_panic_calm w : about_to_panic w = false -> Forall calm (wloops w).
Proof.
  intros Hb. apply existsb_Forall in Hb. eapply Forall_impl; [exact Hb|]. intros l Hl. by apply existsb_Forall.
Qed.

Lemma signal_ends s p :
  unhalted p -> pr_end p = None -> pr_pc p = GRange -> wpc (pr_worker p) = SSelect ->
  about_to_panic (pr_worker p) = false -> (length (mgr (wsh (pr_worker p))) <= 20)%nat ->
  exists ls p', existsb is_signal ls = false /\ psteps (PSignal s :: ls) p = Some p' /\
    pr_end p' = Some (Exits 0) /\ all_done (pr_worker p') = true.
Proof.
  destruct p as [w pc ch en]. cbn. intros [Hf Hch Hd] -> -> Hp Hb Hm. cbn in Hf, Hch, Hd. subst. specialize (Hd eq_refl).
  apply about_to_panic_calm in Hb.
  destruct (worker_settles Hooks Retry mname tmo cap interval w Hf Hd Hp Hb) as
    (ls1 & w1 & Hl1 & Hs1 & Hf1 & Hd1 & [Q1 Q2 Q3] & Hc1 & HL1); [unfold managerCap; lia|].
  destruct (worker_halts Hooks Retry mname tmo cap interval w1) as (ls2 & w2 & Hl2 & Hs2 & Hp2 & Hd2 & Ha2); try done;
    [split; [done|done|lia]|unfold managerCap; lia|].
  cbn [Worker.wsteps] in Hs2. destruct (wstep WHalt w1) as [wh|] eqn:Eh; [|done].
  assert (Hdh : wdead wh = None).
  { revert Eh. unfold Worker.wstep. rewrite Hd1. destruct (existsb _ _); [done|]. by intros [= <-]. }
  exists ((PWorker <$> ls1) ++ PGoroutine :: (PWorker <$> ls2) ++ [PReturn]).
  exists (mkProcess w2 GRange None (Some (Exits 0))). split_and!; [| |done|done].
  - rewrite existsb_app. cbn [existsb is_signal orb]. rewrite existsb_app. by rewrite !no_signals.
  - cbn [ssteps]. unfold sstep at 1. cbn [pr_end asked pr_pc pr_worker pr_chan]. rewrite ssteps_app.
    rewrite (worker_moves ls1 w w1) by first [done|eapply Forall_impl; [exact Hl1|]; by intros []].
    cbn [mbind option_bind ssteps]. unfold sstep at 1. cbn [pr_end pr_pc pr_chan pr_worker]. rewrite Eh. cbn.
    rewrite Hdh. cbn. rewrite ssteps_app, (worker_moves ls2 wh w2) by done. cbn. by rewrite Hp2.
Qed.
End process.


(** *** Witness: a signal arrives while the second attempt of a sync is under way. *)
Module HaltDemo.
Definition history : list plabel := (PWorker <$> Demo.attempt1) ++ [PGoroutine; PGoroutine; PGoroutine].
Definition at_signal : process (H := nat) :=
  default launched (ssteps [] 2 "debian" "1h0m0s" 1 86400 history launched).
End HaltDemo.

