(* ===== verification/Runner.v ===== *)
(** * Running and terminating the sync process (Run, Start, Wait and Terminate of
      src/worker/base_provider.go, rsync_provider.go, cmd_provider.go,
      two_stage_rsync_provider.go, and src/worker/runner.go)

    A transition system of one provider: any number of goroutines in [Run] (a
    killed run may still be waiting for its process when the next one begins) and
    in [Terminate], the provider's mutex, [isRunning], the current [cmd] and the
    processes.  [Single] is the shape of the rsync and command providers,
    [TwoStage] that of the two-stage provider, which runs two processes in turn
    and gives up the mutex while it waits for each. *)

From S2P Require Import Prelude.

Inductive shape := Single | TwoStage.

(** A process: running (has it been signalled?), exited but not waited for, gone. *)
Inductive proc := Live (signalled : bool) | Zombie | Reaped.

(** How [Terminate] ends: nothing was running, the signal was sent, or an error
    (the process was never started, is gone, or could not be signalled). *)
Inductive tres := Idle | Sent | Failed.
#[export] Instance tres_eq_dec : EqDecision tres.
Proof. solve_decision. Defined.

Inductive rpc :=
  | RLock                                   (* p.Lock() *)
  | RCheck                                  (* if p.IsRunning() *)
  | RSpawn (stage : nat)                    (* newCmdJob, prepareLogFile, cmd.Start *)
  | RMark (stage : nat)                     (* p.isRunning.Store(true) *)
  | RUnlock (stage : nat)                   (* p.Unlock() *)
  | RWait (stage : nat)                     (* p.cmd.Wait() is called *)
  | RWaiting (stage pid : nat)              (* ... and blocks on that process *)
  | RClear (stage : nat) (failed : bool)    (* deferred p.isRunning.Store(false) *)
  | RRelock (stage : nat) (failed : bool)   (* p.Lock() after a stage *)
  | RRefused                                (* deferred p.Unlock(), then an error *)
  | RFinish                                 (* deferred p.Unlock(), then the result *)
  | RDone
  | TLock                                   (* Terminate: p.Lock() *)
  | TCheck                                  (* if !p.IsRunning() *)
  | TKill                                   (* p.cmd.Terminate(): SIGTERM *)
  | TGrace (pid : nat)                      (* up to 2 s for the process to finish *)
  | TUnlock (res : tres)                    (* deferred p.Unlock() *)
  | TDone (res : tres).

(** [p_cmd]: the process of [p.cmd], [None] while it is nil or not started. *)
Record pstate := mkP {
  p_lock : bool; p_running : bool; p_cmd : option nat; p_procs : list proc; p_threads : list rpc;
}.

Inductive rlabel :=
  | NewRun | NewTerminate
  | Move (i : nat) (ok : bool)   (* thread i; [ok]: the operating system agrees *)
  | Exit (pid : nat).            (* the process exits *)

Definition set_at (i : nat) (t : rpc) (s : pstate) : pstate :=
  mkP (p_lock s) (p_running s) (p_cmd s) (p_procs s) (<[i := t]> (p_threads s)).
Definition set_lock (b : bool) (s : pstate) : pstate :=
  mkP b (p_running s) (p_cmd s) (p_procs s) (p_threads s).
Definition set_running (b : bool) (s : pstate) : pstate :=
  mkP (p_lock s) b (p_cmd s) (p_procs s) (p_threads s).
Definition set_proc (pid : nat) (q : proc) (s : pstate) : pstate :=
  mkP (p_lock s) (p_running s) (p_cmd s) (<[pid := q]> (p_procs s)) (p_threads s).
Definition new_cmd (s : pstate) : pstate :=
  mkP (p_lock s) (p_running s) None (p_procs s) (p_threads s).
Definition spawn_proc (s : pstate) : pstate :=
  mkP (p_lock s) (p_running s) (Some (length (p_procs s))) (p_procs s ++ [Live false]) (p_threads s).

(** Where a run goes when a stage has ended. *)
Definition after_wait (sh : shape) (stage : nat) (failed : bool) : rpc :=
  match sh with Single => RDone | TwoStage => RRelock stage failed end.
Definition after_stage (stage : nat) (failed : bool) : rpc :=
  if failed || negb (stage =? 1)%nat then RFinish else RSpawn 2.

Section provider.
Context (sh : shape).

Definition move (i : nat) (ok : bool) (t : rpc) (s : pstate) : option pstate :=
  match t with
  | RLock => if p_lock s then None else Some (set_at i RCheck (set_lock true s))
  | RCheck => Some (set_at i (if p_running s then RRefused else RSpawn 1) s)
  | RSpawn n =>
      Some (if ok then set_at i (RMark n) (spawn_proc s) else set_at i RFinish (new_cmd s))
  | RMark n => Some (set_at i (RUnlock n) (set_running true s))
  | RUnlock n => Some (set_at i (RWait n) (set_lock false s))
  | RWait n =>
      match p_cmd s with
      | Some pid => Some (set_at i (RWaiting n pid) s)
      | None => Some (set_at i (RClear n true) s)             (* not started *)
      end
  | RWaiting n pid =>
      match p_procs s !! pid with
      | Some Zombie => Some (set_at i (RClear n (negb ok)) (set_proc pid Reaped s))
      | Some Reaped => Some (set_at i (RClear n true) s)      (* Wait was already called *)
      | _ => None
      end
  | RClear n failed => Some (set_at i (after_wait sh n failed) (set_running false s))
  | RRelock n failed =>
      if p_lock s then None else Some (set_at i (after_stage n failed) (set_lock true s))
  | RRefused | RFinish => Some (set_at i RDone (set_lock false s))
  | TLock => if p_lock s then None else Some (set_at i TCheck (set_lock true s))
  | TCheck => Some (set_at i (if p_running s then TKill else TUnlock Idle) s)
  | TKill =>
      match p_cmd s ≫= fun pid => p_procs s !! pid ≫= fun q => Some (pid, q) with
      | Some (pid, Live _) =>
          Some (if ok then set_at i (TGrace pid) (set_proc pid (Live true) s)
                else set_at i (TUnlock Failed) s)              (* unix.Kill returns an error *)
      | Some (pid, Zombie) => Some (set_at i (if ok then TGrace pid else TUnlock Failed) s)
      | Some (_, Reaped) | None => Some (set_at i (TUnlock Failed) s)
      end
  | TGrace pid => Some (set_at i (TUnlock Sent) s)
  | TUnlock b => Some (set_at i (TDone b) (set_lock false s))
  | RDone | TDone _ => None
  end.

Definition pstep (l : rlabel) (s : pstate) : option pstate :=
  match l with
  | NewRun => Some (mkP (p_lock s) (p_running s) (p_cmd s) (p_procs s) (p_threads s ++ [RLock]))
  | NewTerminate => Some (mkP (p_lock s) (p_running s) (p_cmd s) (p_procs s) (p_threads s ++ [TLock]))
  | Move i ok => match p_threads s !! i with Some t => move i ok t s | None => None end
  | Exit pid => match p_procs s !! pid with
                | Some (Live _) => Some (set_proc pid Zombie s)
                | _ => None
                end
  end.

Definition p_init : pstate := mkP false false None [] [].

Fixpoint psteps (ls : list rlabel) (s : pstate) : option pstate :=
  match ls with
  | [] => Some s
  | l :: ls => match pstep l s with Some s' => psteps ls s' | None => None end
  end.

Inductive preach : pstate -> Prop :=
  | preach_init : preach p_init
  | preach_step s l s' : preach s -> pstep l s = Some s' -> preach s'.

Lemma psteps_reach ls s s' : preach s -> psteps ls s = Some s' -> preach s'.
Proof.
  revert s; induction ls as [|l ls IH]; intros s Hr E; simplify_eq/=; [done|].
  destruct (pstep l s) as [s1|] eqn:E1; [|done]. eapply IH; [|done]. by eapply preach_step.
Qed.
End provider.

(** ** The single-process providers *)

(** Threads that hold the mutex, that own [isRunning], and that have a process
    which has not been waited for. *)
Definition hold (t : rpc) : nat :=
  match t with
  | RCheck | RSpawn _ | RMark _ | RUnlock _ | RRefused | RFinish
  | TCheck | TKill | TGrace _ | TUnlock _ => 1
  | _ => 0
  end.
Definition own (t : rpc) : nat :=
  match t with RUnlock _ | RWait _ | RWaiting _ _ | RClear _ _ => 1 | _ => 0 end.
Definition keep (t : rpc) : nat :=
  match t with RMark _ | RUnlock _ | RWait _ | RWaiting _ _ => 1 | _ => 0 end.
Definition starting (t : rpc) : bool :=
  match t with RSpawn _ | RMark _ => true | _ => false end.
Definition unreaped (q : proc) : nat := match q with Reaped => 0 | _ => 1 end.
Definition b2n (b : bool) : nat := if b then 1 else 0.

(** What a thread with a process knows about it. *)
Definition holds_proc (s : pstate) (t : rpc) : Prop :=
  exists pid q, p_cmd s = Some pid /\ p_procs s !! pid = Some q /\ unreaped q = 1%nat
    /\ match t with RWaiting _ pid' => pid' = pid | _ => True end.

Record pinv (s : pstate) : Prop := {
  pinv_lock : sum_of hold (p_threads s) = b2n (p_lock s);
  pinv_own : sum_of own (p_threads s) = b2n (p_running s);
  pinv_start : forall i t, p_threads s !! i = Some t -> starting t = true -> p_running s = false;
  pinv_keep : sum_of keep (p_threads s) = sum_of unreaped (p_procs s);
  pinv_proc : forall i t, p_threads s !! i = Some t -> keep t = 1%nat -> holds_proc s t;
  pinv_single : forall i t, p_threads s !! i = Some t ->
    match t with RRelock _ _ => False | _ => True end;
}.

Lemma pinv_init : pinv p_init.
Proof. split; simpl; done. Qed.

Lemma lookup_set_at {A} (i k : nat) (t t' : A) (l : list A) :
  <[i := t']> l !! k = Some t -> (k = i /\ t = t') \/ (k <> i /\ l !! k = Some t).
Proof.
  intros Hk. destruct (decide (k = i)) as [->|Hne].
  - apply list_lookup_insert_Some in Hk as [(_ & ? & _)|[? _]]; [left; split; congruence|done].
  - right. split; [done|]. by rewrite list_lookup_insert_ne in Hk.
Qed.

(** The threads of a state in which thread [i] moved from [t] to [t']. *)
Lemma pinv_move i t t' s lk rn cm ps :
  pinv s -> p_threads s !! i = Some t ->
  (b2n lk + hold t = b2n (p_lock s) + hold t')%nat ->
  (b2n rn + own t = b2n (p_running s) + own t')%nat ->
  (sum_of unreaped ps + keep t = sum_of unreaped (p_procs s) + keep t')%nat ->
  (starting t' = true -> rn = false) ->
  (forall k u, k <> i -> p_threads s !! k = Some u -> starting u = true -> rn = false) ->
  (keep t' = 1%nat -> holds_proc (mkP lk rn cm ps []) t') ->
  (forall k u, k <> i -> p_threads s !! k = Some u -> keep u = 1%nat ->
     holds_proc (mkP lk rn cm ps []) u) ->
  match t' with RRelock _ _ => False | _ => True end ->
  pinv (mkP lk rn cm ps (<[i := t']> (p_threads s))).
Proof.
  intros [J1 J2 J3 J4 J5 J6] Hi H1 H2 H4 H3 H3' H5 H5' H6.
  pose proof (sum_of_insert hold i _ t t' Hi). pose proof (sum_of_insert own i _ t t' Hi).
  pose proof (sum_of_insert keep i _ t t' Hi). split; cbn [p_lock p_running p_procs p_threads].
  - lia.
  - lia.
  - intros k u [[-> ->]|[Hne Hk]]%lookup_set_at; eauto.
  - lia.
  - intros k u [[-> ->]|[Hne Hk]]%lookup_set_at Hu; [by apply H5|by eapply H5'].
  - intros k u [[-> ->]|[Hne Hk]]%lookup_set_at; [exact H6|exact (J6 k u Hk)].
Qed.

(** At most one thread holds the mutex, and at most one has a process. *)
Lemma one_holder s i k t u :
  pinv s -> k <> i -> p_threads s !! i = Some t -> p_threads s !! k = Some u ->
  hold t = 1%nat -> hold u = 0%nat.
Proof.
  intros [J1 _ _ _ _ _] Hne Hi Hk Ht. pose proof (sum_of_two hold k i _ u t Hne Hk Hi).
  destruct (p_lock s); simpl in *; lia.
Qed.

Lemma one_keeper s i k t u :
  pinv s -> k <> i -> p_threads s !! i = Some t -> p_threads s !! k = Some u ->
  keep t = 1%nat -> keep u = 0%nat.
Proof.
  intros Hs Hne Hi Hk Ht. pose proof Hs as [J1 J2 J3 _ _ _].
  pose proof (sum_of_two own k i _ u t Hne Hk Hi). pose proof (sum_of_two hold k i _ u t Hne Hk Hi).
  pose proof (J3 i t Hi). pose proof (J3 k u Hk).
  destruct t, u; simpl in *; try done; destruct (p_running s), (p_lock s); simpl in *; try lia;
    try (by discriminate (H1 eq_refl)); try (by discriminate (H2 eq_refl)).
Qed.

(** Moves that leave the processes alone. *)
Lemma pinv_stay i t t' s lk rn :
  pinv s -> p_threads s !! i = Some t -> keep t = keep t' ->
  (b2n lk + hold t = b2n (p_lock s) + hold t')%nat ->
  (b2n rn + own t = b2n (p_running s) + own t')%nat ->
  (starting t' = true -> rn = false) ->
  (rn = p_running s \/ rn = false \/ hold t = 1%nat) ->
  (keep t' = 1%nat -> match t' with RWaiting _ pid => p_cmd s = Some pid | _ => True end) ->
  match t' with RRelock _ _ => False | _ => True end ->
  pinv (mkP lk rn (p_cmd s) (p_procs s) (<[i := t']> (p_threads s))).
Proof.
  intros Hs Hi Hk Hl Ho Hst Hrn Hw Hr. pose proof Hs as [J1 J2 J3 J4 J5 J6].
  apply pinv_move with (t := t); auto; try lia.
  - intros k u Hne Hu Hsu. destruct Hrn as [->|[->|Hh]]; [eauto|done|].
    pose proof (one_holder s i k t u Hs Hne Hi Hu Hh). by destruct u.
  - intros Hk'. rewrite <-Hk in Hk'. destruct (J5 i t Hi Hk') as (pid & q & H1 & H2 & H3 & _).
    exists pid, q. split_and!; try done. rewrite Hk in Hk'. specialize (Hw Hk').
    destruct t'; try done. congruence.
  - intros k u Hne Hu Hku. exact (J5 k u Hu Hku).
Qed.

(** The process table changes without anybody being waited for. *)
Lemma pinv_procs pid q q' s :
  pinv s -> p_procs s !! pid = Some q -> unreaped q = unreaped q' -> pinv (set_proc pid q' s).
Proof.
  intros [J1 J2 J3 J4 J5 J6] Hp Hq. pose proof (sum_of_insert unreaped pid _ q q' Hp) as E.
  split; try done; cbn [set_proc p_threads p_procs].
  - lia.
  - intros i t Hi Ht. destruct (J5 i t Hi Ht) as (pid0 & q0 & H1 & H2 & H3 & H4).
    destruct (decide (pid0 = pid)) as [->|Hne].
    + exists pid, q'. cbn. split_and!; try done; [|congruence].
      rewrite list_lookup_insert_eq; [done|by eapply lookup_lt_Some].
    + exists pid0, q0. cbn. split_and!; try done. by rewrite list_lookup_insert_ne.
Qed.

Lemma pinv_spawn i n s :
  pinv s -> p_threads s !! i = Some (RSpawn n) -> pinv (set_at i (RMark n) (spawn_proc s)).
Proof.
  intros Hs Hi. pose proof Hs as [J1 J2 J3 J4 J5 J6].
  pose proof (J3 i _ Hi eq_refl) as Hrun.
  apply (pinv_move i (RSpawn n) (RMark n) s); auto; cbn [hold own keep]; try lia.
  - cbn [spawn_proc p_procs]. rewrite sum_of_snoc. cbn. lia.
  - intros _. exists (length (p_procs s)), (Live false). cbn. split_and!; try done.
    rewrite lookup_app_r, Nat.sub_diag by lia. done.
  - intros k u Hne Hu Hk. pose proof (one_holder s i k _ u Hs Hne Hi Hu eq_refl) as Hh.
    pose proof (sum_of_elem own k _ u Hu) as Hown. rewrite J2, Hrun in Hown.
    destruct u; simpl in *; try done; lia.
Qed.

(** The thread that waits reaps its own process. *)
Lemma pinv_reap i n pid failed s :
  pinv s -> p_threads s !! i = Some (RWaiting n pid) -> p_procs s !! pid = Some Zombie ->
  pinv (set_at i (RClear n failed) (set_proc pid Reaped s)).
Proof.
  intros Hs Hi Hp. pose proof Hs as [J1 J2 J3 J4 J5 J6].
  pose proof (sum_of_insert unreaped pid _ Zombie Reaped Hp) as E. cbn in E.
  apply (pinv_move i (RWaiting n pid) (RClear n failed) s); auto; cbn [hold own keep]; try lia; try done.
  - intros k u Hne Hu. eauto.
  - intros k u Hne Hu Hk. pose proof (one_keeper s i k _ u Hs Hne Hi Hu eq_refl). congruence.
Qed.

Lemma pinv_new t s :
  pinv s -> hold t = 0%nat -> own t = 0%nat -> keep t = 0%nat -> starting t = false ->
  match t with RRelock _ _ => False | _ => True end ->
  pinv (mkP (p_lock s) (p_running s) (p_cmd s) (p_procs s) (p_threads s ++ [t])).
Proof.
  intros [J1 J2 J3 J4 J5 J6] H1 H2 H3 H4 H5.
  assert (Hnew : forall i u, (p_threads s ++ [t]) !! i = Some u -> p_threads s !! i = Some u \/ u = t).
  { intros i u [Hi|[_ Hi]]%lookup_app_Some; [auto|].
    destruct (i - length (p_threads s))%nat; by simplify_eq/=; auto. }
  split; cbn [p_lock p_running p_threads p_procs]; rewrite ?sum_of_snoc; try lia.
  - intros i u [Hi| ->]%Hnew Hu; [eauto|congruence].
  - intros i u [Hi| ->]%Hnew Hu; [exact (J5 i u Hi Hu)|lia].
  - intros i u [Hi| ->]%Hnew; [exact (J6 i u Hi)|done].
Qed.

(** A move that leaves the processes alone, its side conditions computed. *)
Ltac stay :=
  match goal with
  | Hs : pinv ?s |- _ => eapply (pinv_stay _ _ _ s); [exact Hs|eassumption|reflexivity|..]; simpl;
      auto; try done
  end.

Lemma move_pinv i ok t s s' :
  pinv s -> p_threads s !! i = Some t -> move Single i ok t s = Some s' -> pinv s'.
Proof.
  intros Hs Hi E. pose proof Hs as [J1 J2 J3 J4 J5 J6].
  pose proof (sum_of_elem own i _ t Hi) as Ho. rewrite J2 in Ho.
  pose proof (sum_of_elem hold i _ t Hi) as Hh. rewrite J1 in Hh.
  destruct t; unfold move in E.
  - destruct (p_lock s) eqn:El; simplify_eq. stay; rewrite ?El; auto.
  - simplify_eq. destruct (p_running s) eqn:Er; stay; rewrite ?Er; auto.
  - destruct ok; simplify_eq; [by apply pinv_spawn|].
    apply (pinv_move i (RSpawn stage) RFinish s); auto; simpl; try lia; try done.
    + intros k u Hne Hu. eauto.
    + intros k u Hne Hu Hk. pose proof (one_holder s i k _ u Hs Hne Hi Hu eq_refl) as Hz.
      pose proof (sum_of_elem own k _ u Hu) as Hown. rewrite J2, (J3 i _ Hi eq_refl) in Hown.
      destruct u; simpl in *; try done; lia.
  - simplify_eq. pose proof (J3 i _ Hi eq_refl) as Er. stay; rewrite ?Er; auto.
  - simplify_eq. destruct (p_lock s) eqn:El; simpl in Hh; [|lia]. stay; rewrite ?El; auto.
  - destruct (J5 i _ Hi eq_refl) as (pid & q & Hc & _). rewrite Hc in E. simplify_eq. stay.
  - destruct (J5 i _ Hi eq_refl) as (pid' & q & Hc & Hp & Hq & ->). rewrite Hp in E.
    destruct q; simplify_eq. by apply pinv_reap.
  - simplify_eq. destruct (p_running s) eqn:Er; simpl in Ho; [|lia]. stay; rewrite ?Er; auto.
  - by destruct (J6 i _ Hi).
  - simplify_eq. destruct (p_lock s) eqn:El; simpl in Hh; [|lia]. stay; rewrite ?El; auto.
  - simplify_eq. destruct (p_lock s) eqn:El; simpl in Hh; [|lia]. stay; rewrite ?El; auto.
  - done.
  - destruct (p_lock s) eqn:El; simplify_eq. stay; rewrite ?El; auto.
  - simplify_eq. destruct (p_running s) eqn:Er; stay; rewrite ?Er; auto.
  - destruct (p_cmd s) as [pid|] eqn:Ec; simpl in E.
    + destruct (p_procs s !! pid) as [q|] eqn:Ep; simpl in E.
      * destruct q as [b| |], ok; simplify_eq; try stay.
        assert (Hs' : pinv (set_proc pid (Live true) s)) by (by eapply pinv_procs).
        eapply (pinv_stay i TKill (TGrace pid) (set_proc pid (Live true) s)); simpl; eauto.
      * simplify_eq. stay.
    + simplify_eq. stay.
  - simplify_eq. stay.
  - simplify_eq. destruct (p_lock s) eqn:El; simpl in Hh; [|lia]. stay; rewrite ?El; auto.
  - done.
Qed.

Lemma pstep_pinv l s s' : pinv s -> pstep Single l s = Some s' -> pinv s'.
Proof.
  intros Hs E. destruct l as [| |i ok|pid]; simpl in E.
  - simplify_eq. by apply pinv_new.
  - simplify_eq. by apply pinv_new.
  - destruct (p_threads s !! i) as [t|] eqn:Et; [|done]. by eapply move_pinv.
  - destruct (p_procs s !! pid) as [[b| |]|] eqn:Ep; simplify_eq. by eapply pinv_procs.
Qed.

Lemma preach_pinv s : preach Single s -> pinv s.
Proof. induction 1; eauto using pinv_init, pstep_pinv. Qed.

(** A process that has not been waited for is the current one, and some thread
    has it. *)
Lemma unreaped_is_current s pid q :
  pinv s -> p_procs s !! pid = Some q -> unreaped q = 1%nat ->
  p_cmd s = Some pid /\ exists k t, p_threads s !! k = Some t /\ keep t = 1%nat.
Proof.
  intros Hs Hp Hq. pose proof (sum_of_elem unreaped pid _ q Hp) as H1.
  assert (Hle : (sum_of keep (p_threads s) <= 1)%nat).
  { apply sum_of_exclusive; [by intros []; simpl; lia|]. intros i k t u Hne Hi Hk.
    by apply (one_keeper s i k t u Hs Hne Hi Hk). }
  destruct (sum_of_pos keep (p_threads s)) as (k & t & Hk & Ht); [rewrite (pinv_keep s Hs); lia|].
  assert (Ht1 : keep t = 1%nat) by (pose proof (sum_of_elem keep k _ t Hk); lia).
  destruct (pinv_proc s Hs k t Hk Ht1) as (pid0 & q0 & Hc & Hp0 & Hq0 & _). split; [|eauto].
  destruct (decide (pid = pid0)) as [->|Hne]; [done|].
  pose proof (sum_of_two unreaped _ _ _ _ _ Hne Hp Hp0). rewrite (pinv_keep s Hs) in Hle. lia.
Qed.

(** A Terminate that has found nothing running, or has sent its signal, and still
    holds the mutex: no process runs unsignalled. *)
Definition settled (t : rpc) : bool :=
  match t with TGrace _ | TUnlock Idle | TUnlock Sent => true | _ => false end.
Definition all_signalled (s : pstate) : Prop := forall pid, p_procs s !! pid <> Some (Live false).
Definition tinv (s : pstate) : Prop :=
  forall i t, p_threads s !! i = Some t -> settled t = true -> all_signalled s.

(** Nothing running is found only when no process runs. *)
Lemma idle_signalled s i : pinv s -> p_threads s !! i = Some TCheck -> p_running s = false -> all_signalled s.
Proof.
  intros Hs Ht Er pid Hp.
  destruct (unreaped_is_current s pid _ Hs Hp eq_refl) as [_ (k & t & Hk & Hkt)].
  pose proof (sum_of_elem own k _ t Hk) as Ho. rewrite (pinv_own s Hs), Er in Ho.
  assert (Hne : k <> i) by (intros ->; rewrite Ht in Hk; by simplify_eq/=).
  pose proof (one_holder s i k _ t Hs Hne Ht Hk eq_refl). destruct t; simpl in *; try done; lia.
Qed.

(** The signal goes to the only process that can be running. *)
Lemma kill_signals s pid : pinv s -> p_cmd s = Some pid -> all_signalled (set_proc pid (Live true) s).
Proof.
  intros Hs Hc pid' Hp. cbn in Hp. apply lookup_set_at in Hp as [[_ ?]|[Hne Hp]]; [done|].
  destruct (unreaped_is_current s pid' _ Hs Hp eq_refl) as [E1 _]. congruence.
Qed.
Lemma zombie_signalled s pid :
  pinv s -> p_cmd s = Some pid -> p_procs s !! pid = Some Zombie -> all_signalled s.
Proof.
  intros Hs Hc Hz pid' Hp. destruct (unreaped_is_current s pid' _ Hs Hp eq_refl) as [E1 _]. congruence.
Qed.

Lemma settled_holds t : settled t = true -> hold t = 1%nat.
Proof. by destruct t. Qed.

(** Thread [i] moves to [t'] and the processes to [ps]. *)
Lemma tinv_move i t' s lk rn cm ps :
  tinv s ->
  (forall k u, k <> i -> p_threads s !! k = Some u -> settled u = true ->
     all_signalled s -> forall pid, ps !! pid <> Some (Live false)) ->
  (settled t' = true -> forall pid, ps !! pid <> Some (Live false)) ->
  tinv (mkP lk rn cm ps (<[i := t']> (p_threads s))).
Proof.
  intros Hs Ho Hn k u [[-> ->]|[Hne Hk]]%lookup_set_at Hu; [exact (Hn Hu)|].
  exact (Ho k u Hne Hk Hu (Hs k u Hk Hu)).
Qed.
Lemma tinv_stay i t t' s lk rn cm :
  tinv s -> p_threads s !! i = Some t -> (settled t' = true -> settled t = true) ->
  tinv (mkP lk rn cm (p_procs s) (<[i := t']> (p_threads s))).
Proof. intros Hs Hi Ht. apply (tinv_move _ _ s); [done|by intros|]. intros Hu. exact (Hs i t Hi (Ht Hu)). Qed.

(** A process that is signalled, exits or is reaped is not left unsignalled. *)
Lemma signalled_set_proc s pid q : q <> Live false -> all_signalled s -> all_signalled (set_proc pid q s).
Proof. intros Hq Hs pid' Hp. cbn in Hp. apply lookup_set_at in Hp as [[_ ?]|[_ Hp]]; [congruence|by eapply Hs]. Qed.

Lemma move_tinv i ok t s s' :
  pinv s -> tinv s -> p_threads s !! i = Some t -> move Single i ok t s = Some s' -> tinv s'.
Proof.
  intros Hs Ht Hi E. destruct t; unfold move in E;
    try (by repeat case_match; simplify_eq; eapply (tinv_stay _ _ _ s)).
  - destruct ok; simplify_eq; [|by eapply (tinv_stay _ _ _ s)]. apply (tinv_move _ _ s); [done| |done].
    intros k u Hne Hu Hst _. pose proof (one_holder s i k _ u Hs Hne Hi Hu eq_refl).
    apply settled_holds in Hst. lia.
  - destruct (p_procs s !! pid) as [[]|] eqn:Ep; simplify_eq; [|by eapply (tinv_stay _ _ _ s)].
    apply (tinv_move _ _ s); [done| |done]. intros k u _ _ _ Ha. by apply (signalled_set_proc s pid Reaped).
  - by destruct (pinv_single s Hs i _ Hi).
  - simplify_eq. apply (tinv_move _ _ s); [done|by intros|]. destruct (p_running s) eqn:Er; [done|].
    intros _. by eapply idle_signalled.
  - destruct (p_cmd s) as [pid|] eqn:Ec; simpl in E; [|simplify_eq; by eapply (tinv_stay _ _ _ s)].
    destruct (p_procs s !! pid) as [[b| |]|] eqn:Ep, ok; simpl in E; simplify_eq; try (by eapply (tinv_stay _ _ _ s));
      (apply (tinv_move _ _ s); [done| |]); try done.
    + intros k u _ _ _ Ha. by apply (signalled_set_proc s pid (Live true)).
    + intros _. by apply (kill_signals s pid Hs Ec).
    + intros _. by eapply zombie_signalled.
Qed.

Lemma pstep_tinv l s s' : pinv s -> tinv s -> pstep Single l s = Some s' -> tinv s'.
Proof.
  intros Hs Ht E. destruct l as [| |i ok|pid]; simpl in E.
  1,2: simplify_eq; intros k u [Hk|[_ Hk]]%lookup_app_Some Hu; [exact (Ht k u Hk Hu)|];
    destruct (k - length (p_threads s))%nat; by simplify_eq/=.
  - destruct (p_threads s !! i) as [t|] eqn:Et; [|done]. by eapply move_tinv.
  - destruct (p_procs s !! pid) as [[b| |]|] eqn:Ep; simplify_eq. intros k u Hk Hu.
    apply signalled_set_proc; [done|]. exact (Ht k u Hk Hu).
Qed.

Lemma preach_tinv s : preach Single s -> tinv s.
Proof.
  induction 1 as [|s l s' Hr IH E]; [done|]. eapply pstep_tinv; [by apply preach_pinv|done|done].
Qed.

(** ** Properties *)

(** C6: The rsync and command providers have at most one process that is running or
    has exited without having been waited for, however runs begin, are
    terminated and end: a run that begins while an earlier process is still there
    is refused. *)
Theorem one_process_at_a_time (s : pstate) (pid1 pid2 : nat) (q1 q2 : proc) :
  preach Single s -> p_procs s !! pid1 = Some q1 -> p_procs s !! pid2 = Some q2 ->
  q1 <> Reaped -> q2 <> Reaped -> pid1 = pid2.
Proof.
  intros Hr H1 H2 L1 L2. pose proof (preach_pinv s Hr) as Hs.
  destruct (unreaped_is_current s pid1 q1 Hs H1) as [E1 _]; [by destruct q1|].
  destruct (unreaped_is_current s pid2 q2 Hs H2) as [E2 _]; [by destruct q2|]. congruence.
Qed.

(** C7: When Terminate of an rsync or command provider returns without an error, no
    process of the provider is running that has not been sent a signal; the error
    of a signal that could not be sent is returned. *)
Theorem terminate_leaves_no_process_unsignalled (s s' : pstate) (i : nat) (ok : bool) (res : tres) :
  preach Single s -> pstep Single (Move i ok) s = Some s' -> p_threads s' !! i = Some (TDone res) ->
  res <> Failed -> forall pid, p_procs s' !! pid <> Some (Live false).
Proof.
  intros Hr E Hd Hne. pose proof (preach_tinv s Hr) as Ht. simpl in E.
  destruct (p_threads s !! i) as [t|] eqn:Et; [|done].
  assert (Hres : t = TUnlock res /\ p_procs s' = p_procs s).
  { destruct t; unfold move in E; repeat case_match; simplify_eq; cbn in Hd;
      rewrite list_lookup_insert_eq in Hd by (by eapply lookup_lt_Some);
      unfold after_stage in Hd; repeat case_match; by simplify_eq/=. }
  destruct Hres as [-> ->]. apply (Ht i _ Et). by destruct res.
Qed.

(** ** The two-stage provider *)

(** One run up to the gap between its stages: the first process is over and
    [isRunning] is false, the mutex not yet taken again. *)
Definition to_the_gap : list rlabel :=
  [NewRun; Move 0 true; Move 0 true; Move 0 true; Move 0 true; Move 0 true; Move 0 true;
   Exit 0; Move 0 true; Move 0 true].

(** Terminate can be lost between the two stages: it finds nothing running and
    reports success, and then the same run starts its second process. *)
Theorem terminate_between_stages_is_lost :
  exists ls s, psteps TwoStage ls p_init = Some s /\ length (p_threads s) = 2%nat
    /\ p_threads s !! 1%nat = Some (TDone Idle) /\ p_procs s !! 1%nat = Some (Live false).
Proof.
  eexists (to_the_gap ++ [NewTerminate; Move 1 true; Move 1 true; Move 1 true; Move 0 true; Move 0 true]), _.
  split; [vm_compute; reflexivity|]. done.
Qed.

(** With the two-stage provider two sync processes of one mirror can run at
    once: a run that begins in the gap between the stages of an earlier one is
    not refused. *)
Theorem two_stage_processes_can_overlap :
  exists ls s, psteps TwoStage ls p_init = Some s
    /\ p_procs s !! 1%nat = Some (Live false) /\ p_procs s !! 2%nat = Some (Live false).
Proof.
  eexists (to_the_gap ++ [NewRun; Move 1 true; Move 1 true; Move 1 true; Move 1 true; Move 1 true;
    Move 0 true; Move 0 true]), _.
  split; [vm_compute; reflexivity|]. done.
Qed.

(** *** Witnesses: a run that is terminated while its process runs; the process exits
    and is not yet waited for when Terminate returns. *)
Definition single_labels : list rlabel :=
  [NewRun; Move 0 true; Move 0 true; Move 0 true; Move 0 true; Move 0 true;
   NewTerminate; Move 1 true; Move 1 true; Move 1 true; Exit 0; Move 1 true].
Definition single : pstate := default p_init (psteps Single single_labels p_init).

Lemma single_reach : preach Single single.
Proof. eapply (psteps_reach _ single_labels); [constructor|]. vm_compute. reflexivity. Qed.

Lemma one_process_at_a_time_witness :
  p_procs single !! 0%nat = Some Zombie /\ (0 = 0)%nat.
Proof.
  split; [reflexivity|].
  apply (one_process_at_a_time single 0 0 Zombie Zombie single_reach); [reflexivity|reflexivity|discriminate..].
Defined.

Lemma terminate_leaves_no_process_unsignalled_witness :
  exists s', pstep Single (Move 1 true) single = Some s' /\ p_threads s' !! 1%nat = Some (TDone Sent) /\
    p_procs s' !! 0%nat <> Some (Live false).
Proof.
  eexists. split; [reflexivity|]. split; [reflexivity|].
  apply (terminate_leaves_no_process_unsignalled single _ 1 true Sent single_reach eq_refl eq_refl).
  discriminate.
Defined.
