(* ===== verification/SyncResult.v ===== *)
(** * What a sync reports (Run of src/worker/cmd_provider.go, rsync_provider.go,
      two_stage_rsync_provider.go; the log and size helpers of src/worker/util.go;
      newEnviron of src/worker/runner.go; prepareLogFile and closeLogFile of
      src/worker/base_provider.go)

    Once its process has ended, a provider looks at its log: a command can be
    failed by a pattern, the size of the mirror is read from the log or summed
    over the files.  A compiled regular expression of the configuration is its
    [FindAllSubmatch]; the one pattern the code itself writes is a definition. *)

From S2P Require Import Prelude GoLib Float Sizes.

(** The submatches of every match: the match itself, then its groups. *)
Definition regexp : Type := string -> list (list string).

Section logs.
(** [os.ReadFile], and the conversion of floats no [uint64] represents. *)
Context (file : string -> option string) (ov : float -> Z).

(** The read error is lost in the inner scope. *)
Definition FindAllSubmatchInFile (fileName : string) (re : regexp)
    : list (list string) * option string :=
  if String.eqb fileName "/dev/null" then ([], Some "Invalid log file")
  else match file fileName with Some content => (re content, None) | None => ([], None) end.

(** The first group of the last match. *)
Definition ExtractSizeFromLog (logFile : string) (re : regexp) : outcome Z :=
  match last (FindAllSubmatchInFile logFile re).1 with
  | None => Ret 0
  | Some groups => g ← index groups 1; Ret (ParseSizeStr ov g)
  end.
End logs.

(** ** (?m)^Total file size: ([0-9\.]+[KMGTP]?) bytes *)
Definition number_byte (c : ascii) : bool :=
  Ascii.eqb c "." || match Strconv.digit_val c with Some _ => true | None => false end.
Definition unit_byte (c : ascii) : bool :=
  existsb (Ascii.eqb c) ["K"; "M"; "G"; "T"; "P"]%char.

Fixpoint take_number (s : string) : string * string :=
  match s with
  | String c s' => if number_byte c then let '(n, r) := take_number s' in (String c n, r) else ("", s)
  | EmptyString => ("", "")
  end.

(** The captured size of a line that the pattern matches.  The three parts begin
    with different bytes, so the greedy match is the only one. *)
Definition size_of_line (line : string) : option string :=
  let lead := "Total file size: " in
  if Strings.HasPrefix line lead then
    let '(n, rest) := take_number (Strings.drop (String.length lead) line) in
    if String.eqb n "" then None
    else
      let '(u, rest) :=
        match rest with
        | String c r => if unit_byte c then (String c "", r) else ("", rest)
        | EmptyString => ("", "")
        end in
      if Strings.HasPrefix rest " bytes" then Some (n +:+ u) else None
  else None.

(** Matches lie within lines and there is at most one on a line. *)
Definition rsync_size_re : regexp := fun content =>
  omap (fun line => (fun g => ["Total file size: " +:+ g +:+ " bytes"; g]) <$> size_of_line line)
    (Strings.Split content "010").

Definition ExtractSizeFromRsyncLog (file : string -> option string) (ov : float -> Z)
    (logFile : string) : outcome Z :=
  ExtractSizeFromLog file ov logFile rsync_size_re.

(** ** ExtractSizeFromWalk

    The walk sends the sizes of the files over a channel, the receiver adds them
    up in an [int64]. *)
Record walked := mkWalked { w_err : bool; w_dir : bool; w_size : Z }.

Definition ExtractSizeFromWalk (entries : list walked) : Z :=
  let sizes := omap (fun e => if w_err e || w_dir e then None else Some (w_size e)) entries in
  u64 (fold_left (fun used s => i64 (used + s)) sizes 0).

(** [ExtractSizeFromFileSystem]: [uint64] arithmetic. *)
Definition ExtractSizeFromFileSystem (stat : option (Z * Z * Z)) : Z :=
  match stat with
  | Some (blocks, bfree, bsize) => u64 (u64 (blocks - bfree) * u64 bsize)
  | None => 0
  end.

(** ** Exit codes of rsync *)
Definition rsyncExitValues (code : Z) : option string :=
  snd <$> List.find (fun p => fst p =? code)
    [(0, "Success"); (1, "Syntax or usage error"); (2, "Protocol incompatibility");
     (3, "Errors selecting input/output files, dirs");
     (4, "Requested action not supported: an attempt was made to manipulate 64-bit files on a platform that cannot support them; or an option was specified that is supported by the client and not by the server.");
     (5, "Error starting client-server protocol"); (6, "Daemon unable to append to log-file");
     (10, "Error in socket I/O"); (11, "Error in file I/O");
     (12, "Error in rsync protocol data stream"); (13, "Errors with program diagnostics");
     (14, "Error in IPC code"); (20, "Received SIGUSR1 or SIGINT");
     (21, "Some error returned by waitpid()"); (22, "Error allocating core memory buffers");
     (23, "Partial transfer due to error"); (24, "Partial transfer due to vanished source files");
     (25, "The --max-delete limit stopped deletions"); (30, "Timeout in data send/receive");
     (35, "Timeout waiting for daemon connection")].

(** How a process ends: with its error, and the exit code if it ran to an end. *)
Record exit_error := mkExit { x_text : string; x_code : option Z }.

Definition TranslateRsyncErrorCode (e : exit_error) : Z * string :=
  match x_code e with
  | None => (0, "")
  | Some code =>
      (code, match rsyncExitValues code with Some m => "rsync error: " +:+ m | None => "" end)
  end.

(** ** The result of Run

    [started] and [waited] are the errors of Start and Wait; [content] is what the
    process wrote to the log. *)
Record result := mkResult { r_err : option string; r_size : Z; r_log : string }.

Section run.
Context (ov : float -> Z) (logFile : string).

(** The log as [os.ReadFile] sees it. *)
Definition log_file (content : string) (n : string) : option string :=
  if String.eqb n logFile then Some content else None.

Definition cmd_run (failOnMatch sizePattern : option regexp) (walk : list walked)
    (started waited : option string) (content : string) : outcome result :=
  match started, waited with
  | Some e, _ | None, Some e => Ret (mkResult (Some e) 0 content)
  | None, None =>
      let fail :=
        match failOnMatch with
        | None => None
        | Some re =>
            let '(matches, err) := FindAllSubmatchInFile (log_file content) logFile re in
            match err with
            | Some e => Some e
            | None =>
                if (length matches =? 0)%nat then None
                else Some ("Fail-on-match regexp found "
                           +:+ Strconv.Itoa (Z.of_nat (length matches)) +:+ " matches")
            end
        end in
      match fail with
      | Some e => Ret (mkResult (Some e) 0 content)
      | None =>
          size ← match sizePattern with
                 | Some re => ExtractSizeFromLog (log_file content) ov logFile re
                 | None => Ret (ExtractSizeFromWalk walk)
                 end;
          Ret (mkResult None size content)
      end
  end.

(** The line a failed rsync adds to its log, if the log is open. *)
Definition note_failure (e : exit_error) (open : bool) (content : string) : string :=
  let '(code, msg) := TranslateRsyncErrorCode e in
  if negb (code =? 0) && open then content +:+ msg +:+ String "010" "" else content.

Definition rsync_run (started : option string) (waited : option exit_error) (open : bool)
    (content : string) : outcome result :=
  match started, waited with
  | Some e, _ => Ret (mkResult (Some e) 0 content)
  | None, Some e => Ret (mkResult (Some (x_text e)) 0 (note_failure e open content))
  | None, None =>
      size ← ExtractSizeFromRsyncLog (log_file content) ov logFile;
      Ret (mkResult None size content)
  end.

(** Two stages that write to the same log, the second one after the first. *)
Definition two_stage_run (started1 : option string) (waited1 : option exit_error)
    (started2 : option string) (waited2 : option exit_error) (open : bool)
    (content1 content2 : string) : outcome result :=
  match started1, waited1 with
  | Some e, _ => Ret (mkResult (Some e) 0 content1)
  | None, Some e => Ret (mkResult (Some (x_text e)) 0 (note_failure e open content1))
  | None, None => rsync_run started2 waited2 open (content1 +:+ content2)
  end.
End run.

(** ** The environment of a command *)

(** [newEnviron]: the inherited lines whose key is not set again, then the new
    ones; the order of a map is not specified, [entries] is one of them. *)
Definition env_key (line : string) : string := default "" (head (Strings.Split line "=")).
Definition newEnviron (environ : list string) (entries : list (string * string)) (inherit : bool)
    : list string :=
  (if inherit
   then List.filter (fun line => negb (existsb (String.eqb (env_key line)) entries.*1)) environ else [])
  ++ map (fun kv => kv.1 +:+ "=" +:+ kv.2) entries.

(** ** Descriptors of the log file *)
Record fds := mkFds { f_open : list nat; f_next : nat; f_log : option nat }.

Definition prepareLogFile (s : fds) : fds :=
  mkFds (f_next s :: f_open s) (S (f_next s)) (Some (f_next s)).
Definition closeLogFile (s : fds) : fds :=
  match f_log s with
  | None => s
  | Some fd => mkFds (List.filter (fun x => negb (x =? fd)%nat) (f_open s)) (f_next s) None
  end.

(** [Run] of the rsync and command providers: the deferred close runs also when
    [Start] refuses because a sync is running. *)
Definition single_run_fds (running : bool) (s : fds) : fds :=
  closeLogFile (if running then s else prepareLogFile s).
(** [Run] of the two-stage provider: one open and one deferred close per stage. *)
Definition two_stage_run_fds (stages : nat) (s : fds) : fds :=
  Nat.iter stages closeLogFile (Nat.iter stages prepareLogFile s).

(** ** Sizes in the log *)

(** A string of digits and points. *)
Fixpoint all_number (s : string) : bool :=
  match s with EmptyString => true | String c s => number_byte c && all_number s end.

Lemma all_number_app s t : all_number (s +:+ t) = all_number s && all_number t.
Proof. induction s as [|c s IH]; simpl; [done|]. by rewrite IH, andb_assoc. Qed.

Lemma number_byte_neq c d : number_byte c = true -> number_byte d = false -> Ascii.eqb c d = false.
Proof. intros Hc Hd. apply Ascii.eqb_neq. intros ->. congruence. Qed.

Lemma digits_number s : all_digits s -> all_number s = true.
Proof.
  induction s as [|c s IH]; simpl; [done|]. intros [Hc Hs]. rewrite IH by done. unfold number_byte.
  destruct (Strconv.digit_val c); [|done]. by rewrite orb_true_r.
Qed.

Lemma take_number_app n c r :
  all_number n = true -> number_byte c = false -> take_number (n +:+ String c r) = (n, String c r).
Proof.
  intros Hn Hc. induction n as [|d n IH]; simpl in *; [by rewrite Hc|].
  apply andb_true_iff in Hn as [-> Hn]. by rewrite IH.
Qed.

Lemma drop_lead r : Strings.drop (String.length "Total file size: ") ("Total file size: " +:+ r) = r.
Proof. reflexivity. Qed.

(** The line rsync prints. *)
Lemma size_of_line_plain n rest :
  all_number n = true -> n <> "" ->
  size_of_line ("Total file size: " +:+ n +:+ " bytes" +:+ rest) = Some n.
Proof.
  intros Hn Hne. unfold size_of_line. rewrite Strings.HasPrefix_app, drop_lead.
  change (" bytes" +:+ rest) with (String " " ("bytes" +:+ rest)).
  rewrite take_number_app by done. apply String.eqb_neq in Hne. rewrite Hne. cbn [unit_byte existsb].
  change (String " " ("bytes" +:+ rest)) with (" bytes" +:+ rest).
  simpl. by rewrite Strings.app_nil_r.
Qed.

Lemma size_of_line_unit n u rest :
  all_number n = true -> n <> "" -> unit_byte u = true -> number_byte u = false ->
  size_of_line ("Total file size: " +:+ n +:+ String u (" bytes" +:+ rest)) = Some (n +:+ String u "").
Proof.
  intros Hn Hne Hu Hun. unfold size_of_line. rewrite Strings.HasPrefix_app, drop_lead.
  rewrite take_number_app by done. apply String.eqb_neq in Hne. rewrite Hne, Hu. done.
Qed.

Lemma Split_app_sep a b c :
  Strings.Split (a +:+ String c b) c = (Strings.Split a c ++ Strings.Split b c)%list.
Proof.
  induction a as [|x a IH]; simpl; [by rewrite Ascii.eqb_refl|].
  rewrite IH. destruct (Ascii.eqb x c); [done|].
  by destruct (Strings.Split_cons a c) as (w & ws & ->).
Qed.

(** The last line that states a size decides. *)
Lemma rsync_log_last ov logFile pre line post g :
  logFile <> "/dev/null" -> Strings.mem "010" line = false -> size_of_line line = Some g ->
  Forall (fun l => size_of_line l = None) (Strings.Split post "010") ->
  ExtractSizeFromRsyncLog (log_file logFile (pre +:+ String "010" (line +:+ String "010" post))) ov logFile
  = Ret (ParseSizeStr ov g).
Proof.
  intros Hl Hm Hg Hp. unfold ExtractSizeFromRsyncLog, ExtractSizeFromLog, FindAllSubmatchInFile.
  apply String.eqb_neq in Hl. rewrite Hl. unfold log_file. rewrite String.eqb_refl. cbn [fst].
  unfold rsync_size_re. rewrite Split_app_sep, Strings.Split_app by done.
  rewrite omap_app. cbn [omap list_omap]. rewrite Hg. cbn [fmap option_fmap option_map].
  set (f := fun line => _ <$> size_of_line line).
  assert (Hnil : forall ls, Forall (fun l => size_of_line l = None) ls -> omap f ls = []).
  { induction 1 as [|l ls Hl' _ IH]; [done|]. cbn [omap list_omap]. unfold f at 1. rewrite Hl'. exact IH. }
  change (list_omap _ _ f (Strings.Split post "010")) with (omap f (Strings.Split post "010")).
  rewrite (Hnil _ Hp). by rewrite last_snoc.
Qed.

(** A size in P is not understood. *)
Lemma scan_mant_P s a :
  all_number s = true -> exists r a', scan_mant (s +:+ "P") a = (a', r +:+ "P") /\ all_number r = true.
Proof.
  revert a; induction s as [|c s IH]; intros a Hs; [by exists "", a|].
  cbn [all_number] in Hs. apply andb_true_iff in Hs as [Hc Hs]. simpl.
  destruct (Ascii.eqb_spec c ".") as [->|Hd].
  - destruct (mt_dot a); [|by apply IH]. exists (String "." s), a. by simpl.
  - unfold number_byte in Hc. apply Ascii.eqb_neq in Hd. rewrite Hd in Hc.
    destruct (Strconv.digit_val c) eqn:E; [|done]. by apply IH.
Qed.

Lemma scan_exp_P r : all_number r = true -> scan_exp (r +:+ "P") = None.
Proof.
  destruct r as [|c r]; [done|]. simpl. intros [Hc _]%andb_true_iff.
  rewrite (number_byte_neq c "e"), (number_byte_neq c "E") by done. done.
Qed.

Lemma ToUpper_number s : all_number s = true -> Strings.ToUpper s = s.
Proof.
  induction s as [|c s IH]; [done|]. cbn [all_number]. intros [Hc Hs]%andb_true_iff.
  change (Strings.ToUpper (String c s)) with (String (Strings.upper c) (Strings.ToUpper s)).
  rewrite IH by done. f_equal. destruct c as [[] [] [] [] [] [] [] []]; by try discriminate Hc.
Qed.

Lemma RemoveAll_number s c :
  number_byte c = false -> all_number s = true -> Strings.RemoveAll s c = s.
Proof.
  intros Hc. induction s as [|d s IH]; simpl; [done|]. intros [Hd Hs]%andb_true_iff.
  rewrite (number_byte_neq d c) by done. by rewrite IH.
Qed.

Lemma ParseFloat_P s : all_number s = true -> ParseFloat (s +:+ "P") = None.
Proof.
  intros Hs. assert (Hu : Strings.ToUpper (s +:+ "P") = s +:+ "P").
  { by rewrite ToUpper_app, ToUpper_number. }
  assert (Hp : parse_unsigned (s +:+ "P") = None).
  { unfold parse_unsigned. rewrite Hu. rewrite bool_decide_false.
    - destruct (scan_mant_P s (mkMant 0 0 false false) Hs) as (r & a & -> & Hr).
      rewrite scan_exp_P by done. by destruct (mt_any a).
    - destruct s as [|c s]; [by intros [|]|]. simpl. apply andb_true_iff in Hs as [Hc _].
      intros [[= -> _]|[= -> _]]; done. }
  unfold ParseFloat. rewrite Hu. rewrite bool_decide_false.
  - destruct s as [|c s]; [done|]. simpl in *. apply andb_true_iff in Hs as [Hc _].
    destruct c as [[] [] [] [] [] [] [] []]; try exact Hp; discriminate Hc.
  - destruct s as [|c s]; [done|]. simpl in *. apply andb_true_iff in Hs as [Hc _].
    by intros [= -> _].
Qed.

Lemma ParseSizeStr_P ov s : all_number s = true -> s <> "" -> ParseSizeStr ov (s +:+ "P") = 0.
Proof.
  intros Hs Hne. unfold ParseSizeStr. destruct (negb _ && negb _); [|done].
  assert (clean_size (s +:+ "P") = (s +:+ "P", false)) as ->.
  { unfold clean_size. rewrite !RemoveAll_app, !(RemoveAll_number s) by done.
    change (Strings.RemoveAll (Strings.RemoveAll "P" " ") "010") with "P".
    assert (Hb : Strings.HasSuffix (s +:+ "P") "b" = false) by (by rewrite HasSuffix_last).
    assert (HB : Strings.TrimSuffix (s +:+ "P") "B" = s +:+ "P") by (by rewrite TrimSuffix_last).
    assert (Hi : Strings.TrimSuffix (s +:+ "P") "i" = s +:+ "P") by (by rewrite TrimSuffix_last).
    by rewrite Hb, HB, Hi, ToUpper_app, ToUpper_number. }
  destruct (s +:+ "P") as [|c t] eqn:E; [done|].
  rewrite (unsnoc_app _ _ _ _ E). unfold size_value. destruct (ParseFloat s); [|done].
  simpl (Ascii.eqb "P" _). rewrite <-E, ParseFloat_P by done. done.
Qed.

Lemma number_mem c s : number_byte c = false -> all_number s = true -> Strings.mem c s = false.
Proof.
  intros Hc. induction s as [|d s IH]; simpl; [done|]. intros [Hd Hs]%andb_true_iff.
  rewrite (number_byte_neq d c) by done. by apply IH.
Qed.

(** The line with the total, whatever follows it. *)
Definition total_line (size rest : string) : string :=
  "Total file size: " +:+ size +:+ " bytes" +:+ rest.

Lemma total_line_size n u rest :
  all_number n = true -> n <> "" -> u ∈ [""; "K"; "M"; "G"; "T"; "P"] ->
  size_of_line (total_line (n +:+ u) rest) = Some (n +:+ u).
Proof.
  intros Hn Hne Hu. unfold total_line.
  repeat (apply elem_of_cons in Hu as [->|Hu]); [..|by apply elem_of_nil in Hu];
    rewrite ?Strings.app_nil_r, ?Strings.app_assoc;
    first [by apply size_of_line_plain|by apply size_of_line_unit].
Qed.

Lemma total_line_mem size rest :
  Strings.mem "010" size = false -> Strings.mem "010" rest = false ->
  Strings.mem "010" (total_line size rest) = false.
Proof. intros Hs Hr. unfold total_line. by rewrite !Strings.mem_app, Hs, Hr. Qed.

(** A log whose last statement of a size is this one. *)
Definition log_with (pre size rest post : string) : string :=
  pre +:+ String "010" (total_line size rest +:+ String "010" post).
Definition states_no_size (post : string) : Prop :=
  Forall (fun l => size_of_line l = None) (Strings.Split post "010").

Lemma log_with_size ov logFile n u pre rest post :
  logFile <> "/dev/null" -> all_number n = true -> n <> "" -> u ∈ [""; "K"; "M"; "G"; "T"; "P"] ->
  Strings.mem "010" rest = false -> states_no_size post ->
  ExtractSizeFromRsyncLog (log_file logFile (log_with pre (n +:+ u) rest post)) ov logFile
  = Ret (ParseSizeStr ov (n +:+ u)).
Proof.
  intros Hl Hn Hne Hu Hr Hp. apply rsync_log_last; [done| |by apply total_line_size|done].
  apply total_line_mem; [|done]. rewrite Strings.mem_app, (number_mem _ n) by done.
  by repeat (apply elem_of_cons in Hu as [->|Hu]; [done|]); apply elem_of_nil in Hu.
Qed.

(** ** Sizes with two decimals, as rsync prints them *)

(** [c] hundredths. *)
Definition two_decimals (c : Z) : string := Strconv.Itoa (c / 100) +:+ "." +:+ pad2 (c mod 100).

Lemma parse_digits_shift s a b v :
  Strconv.parse_digits s b = Some v ->
  Strconv.parse_digits s (a + b) = Some (a * 10 ^ Z.of_nat (String.length s) + v).
Proof.
  revert a b; induction s as [|c s IH]; intros a b Hv; cbn [Strconv.parse_digits String.length] in *.
  - simplify_eq. f_equal. lia.
  - destruct (Strconv.digit_val c) as [d|]; [|done].
    replace ((a + b) * 10 + d) with (a * 10 + (b * 10 + d)) by lia. rewrite (IH _ _ Hv). f_equal.
    rewrite Nat2Z.inj_succ, Z.pow_succ_r by lia. lia.
Qed.

Lemma pad2_digits d :
  0 <= d < 100 -> all_digits (pad2 d) /\ String.length (pad2 d) = 2%nat /\
    Strconv.parse_digits (pad2 d) 0 = Some d.
Proof.
  intros Hd. assert (E : d = Z.of_nat (Z.to_nat d)) by lia.
  assert (Hn : (Z.to_nat d < 100)%nat) by lia. revert E Hn. generalize (Z.to_nat d). intros n -> Hn.
  do 100 (destruct n as [|n];
    [split; [vm_compute; repeat split; discriminate|split; vm_compute; reflexivity]|]). lia.
Qed.

(** Digits before more of the mantissa. *)
Lemma scan_mant_app s t a v :
  all_digits s -> Strconv.parse_digits s (mt_val a) = Some v ->
  scan_mant (s +:+ t) a = scan_mant t (mkMant v
    (if mt_dot a then mt_frac a + Z.of_nat (String.length s) else mt_frac a) (mt_dot a)
    (mt_any a || negb (String.eqb s ""))).
Proof.
  revert a v; induction s as [|c s IH]; intros [va fa da aa] v Hs Hv; cbn in Hv |- *.
  - simplify_eq. rewrite orb_false_r. by destruct da; rewrite ?Z.add_0_r.
  - destruct Hs as [Hc Hs]. apply digit_val_inv in Hc as Hr.
    destruct (Ascii.eqb_spec c ".") as [->|_]; [simpl in Hr; lia|].
    destruct (Strconv.digit_val c) as [d|] eqn:E; [|done].
    rewrite (IH (mkMant (va * 10 + d) (if da then fa + 1 else fa) da true) v Hs Hv).
    cbn [mt_val mt_frac mt_dot mt_any orb]. rewrite orb_true_r. do 2 f_equal. destruct da; [|done]. lia.
Qed.

Lemma two_decimals_number c : 0 <= c -> all_number (two_decimals c) = true /\ two_decimals c <> "".
Proof.
  intros Hc. pose proof (Z.div_pos c 100 Hc ltac:(lia)) as Hq.
  destruct (pad2_digits (c mod 100)) as [Hd _]; [by apply Z.mod_pos_bound|]. unfold two_decimals. split.
  - rewrite !all_number_app, (digits_number (pad2 _)) by done.
    by rewrite (digits_number _ (Itoa_all_digits _ Hq)).
  - pose proof (Itoa_nonempty _ Hq) as Hne. by destruct (Strconv.Itoa (c / 100)).
Qed.

Lemma ParseFloat_two_decimals c : 0 <= c -> ParseFloat (two_decimals c) = round_pos c 100.
Proof.
  intros Hc. pose proof (Z.div_pos c 100 Hc ltac:(lia)) as Hq.
  destruct (two_decimals_number c Hc) as [Hnum Hne].
  assert (Hp : parse_unsigned (two_decimals c) = round_pos c 100).
  { unfold parse_unsigned. rewrite ToUpper_number by done.
    rewrite bool_decide_false by (intros [E|E]; by rewrite E in Hnum).
    destruct (pad2_digits (c mod 100)) as (Hd & Hl & Hv); [by apply Z.mod_pos_bound|].
    unfold two_decimals. rewrite (scan_mant_app _ _ _ (c / 100))
      by (by apply Itoa_all_digits || by apply Itoa_parse).
    cbn [scan_mant mt_dot mt_val mt_frac mt_any String.append Ascii.eqb Bool.eqb].
    rewrite <-(Strings.app_nil_r (pad2 (c mod 100))).
    apply (parse_digits_shift _ (c / 100) 0) in Hv. rewrite Z.add_0_r, Hl in Hv.
    change (10 ^ Z.of_nat 2) with 100 in Hv.
    rewrite (scan_mant_app _ _ _ (c / 100 * 100 + c mod 100)) by done.
    cbn [scan_mant mt_dot mt_val mt_frac mt_any scan_exp]. rewrite Hl.
    assert (c / 100 * 100 + c mod 100 = c) as ->.
    { pose proof (Z.div_mod c 100 ltac:(lia)). lia. }
    pose proof (proj2 (String.eqb_neq _ _) (Itoa_nonempty _ Hq)) as Hq0. by rewrite Hq0. }
  unfold ParseFloat. rewrite ToUpper_number by done.
  rewrite bool_decide_false by (intros E; by rewrite E in Hnum).
  destruct (two_decimals c) as [|d t]; [done|]. cbn [all_number] in Hnum.
  apply andb_true_iff in Hnum as [Hd _].
  destruct d as [[] [] [] [] [] [] [] []]; try exact Hp; discriminate Hd.
Qed.

(** The nearest float to some hundredths, and what is left of it in whole units. *)
Lemma round_hundredths c :
  0 < c < 2 ^ 17 -> exists m e, round_pos c 100 = Some (Fin m e) /\ -60 <= e <= -42 /\
    0 <= m < 2 ^ 80 /\ 2 * Z.abs (m * 100 - c * 2 ^ (- e)) <= 100.
Proof.
  intros Hc. assert (Hlog : 0 <= Z.log2 c <= 16).
  { split; [apply Z.log2_nonneg|]. assert (Z.log2 c < 17); [|lia]. apply Z.log2_lt_pow2; lia. }
  assert (He : -60 <= lsb_exp c 100 <= -42).
  { unfold lsb_exp. change (Z.log2 100) with 6. destruct (scale_num c _ <? _); lia. }
  unfold round_pos. destruct (Z.eqb_spec c 0); [lia|]. set (e := lsb_exp c 100) in *.
  assert (scale_num c e = c * 2 ^ (- e)) as -> by (unfold scale_num; destruct (Z.ltb_spec e 0); lia).
  assert (scale_den 100 e = 100) as -> by (unfold scale_den; destruct (Z.ltb_spec e 0); lia).
  assert (Hp : 0 < 2 ^ (- e) <= 2 ^ 60).
  { split; [apply Z.pow_pos_nonneg; lia|apply Z.pow_le_mono_r; lia]. }
  pose proof (rne_error (c * 2 ^ (- e)) 100 ltac:(lia)) as Herr.
  pose proof (rne_nonneg (c * 2 ^ (- e)) 100 ltac:(nia) ltac:(lia)) as Hnn.
  set (m := rne (c * 2 ^ (- e)) 100) in *.
  assert (Hm : m < 2 ^ 80).
  { assert (c * 2 ^ (- e) < 2 ^ 17 * 2 ^ 60) by nia.
    change (2 ^ 80) with (8 * (2 ^ 17 * 2 ^ 60)). lia. }
  assert (2 ^ 80 < 2 ^ 1024) by reflexivity.
  destruct (Z.ltb_spec e 0); [|lia]. destruct (Z.leb_spec (2 ^ 1024) m); [lia|].
  exists m, e. split; [done|]. split; [exact He|]. by split.
Qed.

Lemma hundredths_in_unit c k :
  0 <= c < 2 ^ 17 -> 10 <= k <= 40 ->
  exists f z, round_pos c 100 = Some f /\ trunc (mul_pow2 f k) = Some z /\ 0 <= z < two64 /\
    -113 < 100 * z - c * 2 ^ k < 13.
Proof.
  intros Hc Hk. assert (Hkp : 0 < 2 ^ k <= 2 ^ 40).
  { split; [apply Z.pow_pos_nonneg; lia|apply Z.pow_le_mono_r; lia]. }
  destruct (Z.eq_dec c 0) as [->|Hne].
  { exists (Fin 0 0), 0. assert (E : (0 + k <? 0) = false) by (apply Z.ltb_ge; lia).
    split; [done|]. unfold mul_pow2. rewrite E. change (Z.abs 0) with 0. rewrite Z.mul_0_l.
    change (2 ^ 1024 <=? 0) with false. cbv iota. unfold trunc. rewrite E, Z.mul_0_l.
    split; [done|]. unfold two64. lia. }
  destruct (round_hundredths c ltac:(lia)) as (m & e & -> & He & Hm & Herr).
  set (D := 2 ^ (- (e + k))). assert (HD : 4 <= D).
  { unfold D. change 4 with (2 ^ 2). apply Z.pow_le_mono_r; lia. }
  assert (Hsplit : 2 ^ (- e) = D * 2 ^ k).
  { unfold D. rewrite <-Z.pow_add_r by lia. f_equal. lia. }
  rewrite Hsplit in Herr. exists (Fin m e), (m / D). split; [done|].
  unfold mul_pow2. destruct (Z.ltb_spec (e + k) 0); [|lia]. rewrite Z.abs_eq by lia.
  assert (2 ^ 80 < 2 ^ 1024) by reflexivity. destruct (Z.leb_spec (2 ^ 1024) m); [lia|].
  unfold trunc. destruct (Z.ltb_spec (e + k) 0); [|lia]. fold D.
  rewrite Z.quot_div_nonneg by lia. pose proof (Z.div_mod m D ltac:(lia)) as Hdm.
  pose proof (Z.mod_pos_bound m D ltac:(lia)) as Hmod. pose proof (Z.div_pos m D ltac:(lia) ltac:(lia)) as Hz.
  set (z := m / D) in *. set (r := m mod D) in *. set (X := c * 2 ^ k) in *.
  assert (HX : 0 <= X < 2 ^ 57).
  { unfold X. change (2 ^ 57) with (2 ^ 17 * 2 ^ 40). nia. }
  assert (Herr' : - 50 <= 100 * m - X * D <= 50) by (unfold X; lia).
  assert (100 * z - X < 13) by nia. assert (-113 < 100 * z - X) by nia.
  split; [done|]. unfold two64. lia.
Qed.

Definition rsync_units : list (string * Z) := [("K", 10); ("M", 20); ("G", 30); ("T", 40)].

Lemma ParseSizeStr_two_decimals ov c u k :
  0 <= c < 2 ^ 17 -> (u, k) ∈ rsync_units ->
  -113 < 100 * ParseSizeStr ov (two_decimals c +:+ u) - c * 2 ^ k < 13.
Proof.
  intros Hc Hu. destruct (two_decimals_number c ltac:(lia)) as [Hnum Hne].
  assert (Hk : 10 <= k <= 40 /\ exists l, u = String l "" /\ Strings.upper l = l /\
    Ascii.eqb l " " = false /\ Ascii.eqb l "010" = false /\ Ascii.eqb l "b" = false /\
    Ascii.eqb l "B" = false /\ Ascii.eqb l "i" = false /\
    forall (f : float) str, (if Ascii.eqb l "T" then Some (mul_pow2 f 40)
      else if Ascii.eqb l "G" then Some (mul_pow2 f 30) else if Ascii.eqb l "M" then Some (mul_pow2 f 20)
      else if Ascii.eqb l "K" then Some (mul_pow2 f 10) else str) = Some (mul_pow2 f k)).
  { unfold rsync_units in Hu. repeat (apply elem_of_cons in Hu as [[= -> ->]|Hu];
      [split; [lia|]; eexists; split; [reflexivity|by split_and!]|]). by apply elem_of_nil in Hu. }
  destruct Hk as (Hk & l & -> & Hup & H1 & H2 & H3 & H4 & H5 & Hval).
  destruct (hundredths_in_unit c k Hc Hk) as (f & z & Hf & Hz & Hr & Hb).
  enough (ParseSizeStr ov (two_decimals c +:+ String l "") = z) as -> by done.
  unfold ParseSizeStr. assert (negb (String.eqb (two_decimals c +:+ String l "") "")
    && negb (String.eqb (two_decimals c +:+ String l "") "unknown") = true) as ->.
  { destruct (two_decimals c) as [|d t]; [done|]. cbn [all_number] in Hnum.
    apply andb_true_iff in Hnum as [Hd _]. simpl. by rewrite (number_byte_neq d "u"). }
  assert (clean_size (two_decimals c +:+ String l "") = (two_decimals c +:+ String l "", false)) as ->.
  { unfold clean_size. rewrite !RemoveAll_app, !(RemoveAll_number (two_decimals c)) by done. simpl Strings.RemoveAll.
    rewrite H1. simpl Strings.RemoveAll. rewrite H2.
    rewrite HasSuffix_last, H3, !TrimSuffix_last, H4, TrimSuffix_last, H5, ToUpper_app, ToUpper_number by done.
    unfold Strings.ToUpper at 1. simpl. by rewrite Hup. }
  destruct (two_decimals c +:+ String l "") as [|d t] eqn:E; [by destruct (two_decimals c)|].
  rewrite (unsnoc_app _ _ _ _ E). unfold size_value. rewrite ParseFloat_two_decimals, Hf, Hval by lia.
  by apply to_u64_trunc.
Qed.

(** [stated text num den]: [text] is a way rsync states a size of [num / den] bytes:
    a number of bytes, which is misread below ten, or a whole number or hundredths of
    a unit of 1024, 1024^2, 1024^3 or 1024^4 bytes. *)
Inductive stated : string -> Z -> Z -> Prop :=
  | stated_bytes n : 10 <= n < 2 ^ 53 -> stated (Strconv.Itoa n) n 1
  | stated_units n u k :
      0 <= n < 2 ^ 53 -> (u, k) ∈ rsync_units -> in_u64 (n * 2 ^ k) ->
      stated (Strconv.Itoa n +:+ u) (n * 2 ^ k) 1
  | stated_hundredths c u k :
      0 <= c < 2 ^ 17 -> (u, k) ∈ rsync_units -> stated (two_decimals c +:+ u) (c * 2 ^ k) 100.

(** The text is a number with a unit or none, and its value is read back. *)
Lemma stated_reads ov text num den :
  stated text num den ->
  (exists n u, text = n +:+ u /\ all_number n = true /\ n <> "" /\ u ∈ [""; "K"; "M"; "G"; "T"; "P"]) /\
  (den = 1 -> ParseSizeStr ov text = num) /\
  Z.abs (den * ParseSizeStr ov text - num) < 2 * den.
Proof.
  assert (Hunit : forall u k, (u, k) ∈ rsync_units ->
    u ∈ [""; "K"; "M"; "G"; "T"; "P"] /\ (u, k) ∈ unit_spellings).
  { intros u k Hu. unfold rsync_units, unit_spellings in *. clear -Hu. set_solver. }
  intros [n Hn|n u k Hn Hu Hr|c u k Hc Hu].
  - rewrite ParseSizeStr_Itoa by lia. destruct (Z.ltb_spec n 10); [lia|]. split; [|split; [done|lia]].
    exists (Strconv.Itoa n), "". rewrite Strings.app_nil_r. split_and!; [done|..].
    + apply digits_number, Itoa_all_digits. lia.
    + apply Itoa_nonempty. lia.
    + set_solver.
  - destruct (Hunit u k Hu) as [H1 H2]. rewrite ParseSizeStr_with_unit with (k := k) by done.
    split; [|split; [done|lia]]. exists (Strconv.Itoa n), u. split_and!; [done| | |done].
    + apply digits_number, Itoa_all_digits. lia.
    + apply Itoa_nonempty. lia.
  - destruct (two_decimals_number c ltac:(lia)) as [H1 H2].
    pose proof (ParseSizeStr_two_decimals ov c u k Hc Hu). split; [|split; [done|lia]].
    exists (two_decimals c), u. split_and!; [done..|]. by eapply Hunit.
Qed.


(** A mirror of a petabyte or more is reported with size 0: the pattern for
    rsync's log accepts the unit P, which the reader of sizes does not know. *)
Theorem petabytes_are_lost (ov : float -> Z) (logFile pre rest post n : string) (open : bool) :
  logFile <> "/dev/null" -> all_number n = true -> n <> "" -> Strings.mem "010" rest = false ->
  states_no_size post ->
  let log := log_with pre (n +:+ "P") rest post in
  rsync_run ov logFile None None open log = Ret (mkResult None 0 log).
Proof.
  intros Hl Hn Hne Hr Hp log. unfold rsync_run, log.
  rewrite log_with_size by (done || set_solver). by rewrite ParseSizeStr_P.
Qed.


Lemma petabytes_are_lost_witness :
  rsync_run (fun _ => 0) "/log/l" None None true (log_with "" ("1.50" +:+ "P") "" "")
  = Ret (mkResult None 0 (log_with "" ("1.50" +:+ "P") "" "")).
Proof.
  apply (petabytes_are_lost (fun _ => 0) "/log/l" "" "" "" "1.50" true); try done.
  by repeat constructor.
Defined.

(** ** The verdict on a command *)

(** A command counts as successful exactly when it started, exited without an
    error and its log does not match the configured pattern; a failed one reports
    size 0. *)
Theorem command_verdict (ov : float -> Z) (logFile : string) (failOnMatch sizePattern : option regexp)
    (walk : list walked) (started waited : option string) (content : string) (r : result) :
  logFile <> "/dev/null" ->
  cmd_run ov logFile failOnMatch sizePattern walk started waited content = Ret r ->
  (r_err r = None <-> started = None /\ waited = None /\
     forall re, failOnMatch = Some re -> re content = []) /\
  (r_err r <> None -> r_size r = 0).
Proof.
  intros Hl E. unfold cmd_run, FindAllSubmatchInFile, log_file in E.
  apply String.eqb_neq in Hl. rewrite Hl, String.eqb_refl in E.
  destruct started as [e|]; [injection E as <-; split; [|done]; split; [done|by intros [? _]]|].
  destruct waited as [e|]; [injection E as <-; split; [|done]; split; [done|by intros (_ & ? & _)]|].
  destruct failOnMatch as [re|].
  - destruct (re content) as [|m ms] eqn:Em; simpl in E.
    + apply outcome_bind_Ret in E as (size & _ & [= <-]). split; [|done].
      split; [|done]. intros _. split_and!; try done. by intros re' [= <-].
    + injection E as <-. split; [|done]. split; [done|]. intros (_ & _ & H).
      specialize (H re eq_refl). congruence.
  - simpl in E. apply outcome_bind_Ret in E as (size & _ & [= <-]). split; [|done].
    split; [|done]. intros _. by split_and!.
Qed.

Lemma command_verdict_witness :
  let re : regexp := fun s => if Strings.Contains s "error" then [[ "error" ]] else [] in
  cmd_run (fun _ => 0) "/log/l" (Some re) None [] None None "an error"
    = Ret (mkResult (Some "Fail-on-match regexp found 1 matches") 0 "an error") /\
  ~ (forall re', Some re = Some re' -> re' "an error" = []).
Proof.
  set (re := (fun s => if Strings.Contains s "error" then [["error"]] else []) : regexp).
  split; [vm_compute; reflexivity|].
  intros H. destruct (command_verdict (fun _ => 0) "/log/l" (Some re) None [] None None "an error"
    (mkResult (Some "Fail-on-match regexp found 1 matches") 0 "an error")
    ltac:(discriminate) ltac:(vm_compute; reflexivity)) as [[_ H'] _].
  discriminate (H' (conj eq_refl (conj eq_refl H))).
Defined.

(** A size pattern without a group brings the worker down: after a successful
    command whose log matches it, the first group of the match is indexed and the
    provider's goroutine panics. *)
Theorem size_pattern_without_group_panics (ov : float -> Z) (logFile : string) (re : regexp)
    (walk : list walked) (content m : string) :
  logFile <> "/dev/null" -> last (re content) = Some [m] ->
  cmd_run ov logFile None (Some re) walk None None content = Panic "index out of range".
Proof.
  intros Hl Hm. unfold cmd_run, ExtractSizeFromLog, FindAllSubmatchInFile, log_file.
  apply String.eqb_neq in Hl. rewrite Hl, String.eqb_refl. cbn [fst]. by rewrite Hm.
Qed.

Lemma size_pattern_without_group_panics_witness :
  cmd_run (fun _ => 0) "/log/l" None (Some (fun s => [[s]])) [] None None "size 12G"
  = Panic "index out of range".
Proof.
  apply (size_pattern_without_group_panics (fun _ => 0) "/log/l" (fun s => [[s]]) [] "size 12G" "size 12G");
    [discriminate|reflexivity].
Defined.

(** ** Walking *)
Lemma u64_i64 z : u64 (i64 z) = u64 z.
Proof.
  unfold u64, i64. replace ((z + two63) mod two64 - two63) with
    ((z + two63) mod two64 + - two63) by lia.
  rewrite Zplus_mod_idemp_l. f_equal. lia.
Qed.
Lemma u64_add_l a b : u64 (u64 a + b) = u64 (a + b).
Proof. apply Zplus_mod_idemp_l. Qed.

(** The size summed over a walk is the sum of the sizes of all regular entries
    modulo 2^64: what the intermediate int64 total does on overflow cancels out. *)
Theorem walk_size_is_sum (entries : list walked) :
  ExtractSizeFromWalk entries
  = u64 (fold_right Z.add 0
      (map w_size (List.filter (fun e => negb (w_err e || w_dir e)) entries))).
Proof.
  unfold ExtractSizeFromWalk.
  assert (H : forall used, u64 (fold_left (fun used s => i64 (used + s))
      (omap (fun e => if w_err e || w_dir e then None else Some (w_size e)) entries) used)
    = u64 (used + fold_right Z.add 0
        (map w_size (List.filter (fun e => negb (w_err e || w_dir e)) entries)))).
  { induction entries as [|e es IH]; intros used; simpl; [by rewrite Z.add_0_r|].
    destruct (w_err e || w_dir e); simpl; [apply IH|].
    change (list_omap _ _ ?f es) with (omap f es). rewrite IH.
    rewrite <-u64_add_l, u64_i64, u64_add_l. f_equal. lia. }
  apply (H 0).
Qed.

(** ** Environments *)
Lemma env_key_line k v : Strings.mem "=" k = false -> env_key (k +:+ "=" +:+ v) = k.
Proof.
  intros Hk. unfold env_key. change (k +:+ "=" +:+ v) with (k +:+ String "=" v).
  by rewrite Strings.Split_app.
Qed.

(** A command's environment has each variable the provider sets exactly once,
    with the provider's value, and every other variable as it was inherited. *)
Theorem environ_overrides (environ : list string) (entries : list (string * string)) (k : string) :
  NoDup entries.*1 -> Forall (fun k => Strings.mem "=" k = false) entries.*1 ->
  List.filter (fun line => String.eqb (env_key line) k) (newEnviron environ entries true)
  = match (list_to_map entries : gmap string string) !! k with
    | Some v => [k +:+ "=" +:+ v]
    | None => List.filter (fun line => String.eqb (env_key line) k) environ
    end.
Proof.
  intros Hn Hk. unfold newEnviron. rewrite List.filter_app.
  assert (Hnew : List.filter (fun line => String.eqb (env_key line) k)
      (map (fun kv => kv.1 +:+ "=" +:+ kv.2) entries)
    = match (list_to_map entries : gmap string string) !! k with
      | Some v => [k +:+ "=" +:+ v] | None => [] end).
  { induction entries as [|[k' v] es IH]; [done|]. simpl in Hn, Hk.
    apply NoDup_cons in Hn as [Hn1 Hn2]. apply Forall_cons in Hk as [Hk1 Hk2]. cbn [map List.filter fst snd].
    rewrite env_key_line by done. specialize (IH Hn2 Hk2). rewrite list_to_map_cons.
    destruct (String.eqb_spec k' k) as [->|Hne].
    - rewrite lookup_insert_eq, IH, not_elem_of_list_to_map_1 by done. done.
    - rewrite lookup_insert_ne by done. exact IH. }
  rewrite Hnew. clear Hnew.
  destruct ((list_to_map entries : gmap string string) !! k) as [v|] eqn:E.
  - apply elem_of_list_to_map_2 in E.
    assert (Hin : existsb (String.eqb k) entries.*1 = true).
    { apply existsb_exists. exists k. split; [|apply String.eqb_refl].
      apply list_elem_of_In, list_elem_of_fmap. by exists (k, v). }
    induction environ as [|l ls IH]; [done|]. simpl.
    destruct (existsb (String.eqb (env_key l)) entries.*1) eqn:El; simpl; [exact IH|].
    destruct (String.eqb_spec (env_key l) k) as [<-|]; [congruence|exact IH].
  - rewrite app_nil_r. apply not_elem_of_list_to_map in E.
    assert (Hin : existsb (String.eqb k) entries.*1 = false).
    { apply not_true_iff_false. intros (k' & Hk' & ->%String.eqb_eq)%existsb_exists.
      by apply E, list_elem_of_In. }
    induction environ as [|l ls IH]; [done|]. simpl.
    destruct (String.eqb_spec (env_key l) k) as [Hek|Hek].
    + rewrite Hek, Hin. simpl. rewrite Hek, String.eqb_refl. by f_equal.
    + destruct (existsb (String.eqb (env_key l)) entries.*1); simpl; [exact IH|].
      apply String.eqb_neq in Hek. rewrite Hek. exact IH.
Qed.

Lemma environ_overrides_witness :
  List.filter (fun line => String.eqb (env_key line) "A")
    (newEnviron ["A=1"; "B=x=y"; "A=3"] [("A", "2"); ("C", "")] true) = ["A=2"].
Proof.
  rewrite (environ_overrides ["A=1"; "B=x=y"; "A=3"] [("A", "2"); ("C", "")] "A").
  - vm_compute. reflexivity.
  - apply (bool_decide_unpack _). vm_compute. exact I.
  - by repeat constructor.
Defined.

(** ** Descriptors *)
Definition fds_ok (s : fds) : Prop := Forall (fun fd => (fd < f_next s)%nat) (f_open s).

Lemma filter_fresh fd l : Forall (fun x => (x < fd)%nat) l -> List.filter (fun x => negb (x =? fd)%nat) l = l.
Proof.
  induction 1 as [|x l Hx _ IH]; simpl; [done|]. destruct (Nat.eqb_spec x fd); [lia|]. simpl. by rewrite IH.
Qed.

(** Each complete two-stage sync leaks a descriptor of its log: both stages
    open the log, the deferred closes close the second one only, so the first
    stage's descriptor stays open; a sync of the other providers leaves the open
    descriptors as they were. *)
Theorem two_stage_leaks_descriptor (s : fds) :
  fds_ok s -> f_log s = None ->
  f_open (two_stage_run_fds 2 s) = f_next s :: f_open s /\
  f_open (single_run_fds false s) = f_open s.
Proof.
  intros Hs Hl. split.
  - cbn. rewrite Nat.eqb_refl. cbn. destruct (Nat.eqb_spec (f_next s) (S (f_next s))); [lia|]. cbn.
    f_equal. apply filter_fresh. eapply Forall_impl; [exact Hs|]. simpl. lia.
  - cbn. rewrite Nat.eqb_refl. cbn. by apply filter_fresh.
Qed.

Lemma two_stage_leaks_descriptor_witness :
  f_open (two_stage_run_fds 2 (mkFds [] 3 None)) = [3%nat].
Proof.
  apply (two_stage_leaks_descriptor (mkFds [] 3 None)); [constructor|reflexivity].
Defined.

(** A run that is refused because another is in progress closes that one's log. *)
Lemma refused_run_closes_log s fd :
  f_log s = Some fd -> fd ∉ f_open (single_run_fds true s).
Proof.
  intros Hl. unfold single_run_fds, closeLogFile. rewrite Hl. cbn.
  rewrite list_elem_of_In, filter_In. intros [_ H]. by rewrite Nat.eqb_refl in H.
Qed.
