(* ===== verification/Hooks.v ===== *)
(** * The hooks (src/worker/loglimit_hook.go, exec_post_hook.go, zfs_hook.go,
      btrfs_snapshot_hook.go)

    The log directory is a map from names to files and symbolic links with their
    modification times; the calls of the operating system that can fail get their
    answers as arguments.  A hook is called with a phase, as [runHooks] does; the
    calls of an attempt and their order are those of [Wrapper]. *)

From stdpp Require Import sorting.
From S2P Require Import Prelude GoLib Config Context Provider Wrapper.

(** ** The log directory *)
Inductive dentry := DFile (mtime : Z) (data : string) | DLink (mtime : Z) (target : string).
Definition ModTime (e : dentry) : Z := match e with DFile t _ | DLink t _ => t end.
Abbreviation ldir := (gmap string dentry).

(** Opening a name follows a symbolic link. *)
Definition resolve (d : ldir) (n : string) : option dentry :=
  match d !! n with Some (DLink _ t) => d !! t | e => e end.

Record lstate := mkL { l_dir : ldir; l_ctx : pctx }.

Section limiter.
Context `{!SortSlice}.
(** [os.Remove] of a name succeeds. *)
Context (removable : string -> bool).
Context (name : string).

Definition remove_file (d : ldir) (n : string) : ldir := if removable n then delete n d else d.

(** The logs of this mirror, the newest first. *)
Definition matchedFiles (d : ldir) : list (string * dentry) :=
  Slice (fun a b => ModTime b.2 <? ModTime a.2)
    (List.filter (fun f => Strings.HasPrefix f.1 name) (map_to_list d)).

(** [None] of [read_err]: the directory was read, or it did not exist and was made. *)
Definition preExec (stamp : string) (now : Z) (read_err : option string) (s : lstate)
    : outcome lstate :=
  logFile ← LogFile (l_ctx s);
  if String.eqb logFile "/dev/null" then Ret s
  else
    logDir ← LogDir (l_ctx s);
    match read_err with
    | Some e => Err e
    | None =>
        let old := drop 9 (matchedFiles (l_dir s)) in
        let d := fold_left remove_file old.*1 (l_dir s) in
        let logFileName := name +:+ "_" +:+ stamp +:+ ".log" in
        let d := remove_file d "latest" in
        let d := match d !! "latest" with
                 | None => <["latest" := DLink now logFileName]> d
                 | Some _ => d
                 end in
        ctx ← EnterContext (l_ctx s);
        ctx ← ctxSet ctx LogFileKey (Path.Join [logDir; logFileName]);
        Ret (mkL d ctx)
    end.

Definition postSuccess (s : lstate) : outcome lstate :=
  ctx ← ExitContext (l_ctx s); Ret (mkL (l_dir s) ctx).

(** [os.Rename]: a move within the log directory; a file elsewhere is not part of it. *)
Definition rename (d : ldir) (a b : string) : ldir :=
  match d !! a with Some e => <[b := e]> (delete a d) | None => d end.

Definition postFail (now : Z) (s : lstate) : outcome lstate :=
  logFile ← LogFile (l_ctx s);
  logDir ← LogDir (l_ctx s);
  let logFileFail := logFile +:+ ".fail" in
  let d := if String.eqb (Path.Join [logDir; Path.Base logFile]) logFile
           then rename (l_dir s) (Path.Base logFile) (Path.Base logFileFail) else l_dir s in
  let d := remove_file d "latest" in
  let d := match d !! "latest" with
           | None => <["latest" := DLink now (Path.Base logFileFail)]> d
           | Some _ => d
           end in
  ctx ← ExitContext (l_ctx s);
  Ret (mkL d ctx).
End limiter.

(** ** The btrfs package

    [tree] is what a path holds; the operations report an error or change the
    file system. *)
Class Btrfs (F T : Type) := {
  tree : F -> string -> option T;
  IsSubVolume : string -> F -> outcome bool;
  CreateSubVolume : string -> F -> option string * F;
  DeleteSubVolume : string -> F -> option string * F;
  SnapshotSubVolume : string -> string -> F -> option string * F;
}.

(** Neither path is the other or lies below it. *)
Definition outside (p q : string) : Prop :=
  p <> q /\ Strings.HasPrefix p (q +:+ "/") = false /\ Strings.HasPrefix q (p +:+ "/") = false.

(** [os.Stat] does not answer that the path is missing. *)
Definition path_exists {F T} `{!Btrfs F T} (f : F) (p : string) : bool :=
  match tree f p with Some _ => true | None => false end.

Class BtrfsLaws (F T : Type) `{!Btrfs F T} : Prop := {
  failed_delete : forall p f e f', DeleteSubVolume p f = (Some e, f') -> f' = f;
  deleted : forall p f f', DeleteSubVolume p f = (None, f') -> tree f' p = None;
  delete_frame : forall p q f r f', DeleteSubVolume p f = (r, f') -> outside q p ->
    tree f' q = tree f q;
  failed_snapshot : forall a b f e f', SnapshotSubVolume a b f = (Some e, f') -> f' = f;
  snapshot_taken : forall a b f f', SnapshotSubVolume a b f = (None, f') -> tree f' b = tree f a;
  snapshot_frame : forall a b q f r f', SnapshotSubVolume a b f = (r, f') -> outside q b ->
    tree f' q = tree f q;
}.

(** ** A hook is called *)
Section hooks.
Context `{!SortSlice} {F T : Type} `{!Btrfs F T}.

(** The answers of the operating system during one phase. *)
Record answers := mkAns {
  a_removable : string -> bool;
  a_stamp : string;                                           (* time.Now() in the log's name *)
  a_now : Z;
  a_read_err : option string;
  a_mounted : option string;                                  (* mountpoint -q *)
  a_run : gmap string string -> list string -> option string; (* a hook's command *)
}.
Record hstate := mkH {
  h_log : lstate; h_fs : F; h_ran : list (gmap string string * list string);
}.

Context (name upstream : string) (a : answers).

Definition with_log (f : lstate -> outcome lstate) (s : hstate) : hstate * outcome unit :=
  match f (h_log s) with
  | Ret l => (mkH l (h_fs s) (h_ran s), Ret tt)
  | Err e => (s, Err e)
  | Panic m => (s, Panic m)
  end.

(** [execPostHook.Do] *)
Definition exec_env (on_success : bool) (ctx : pctx) : outcome (gmap string string) :=
  wd ← WorkingDir ctx; ld ← LogDir ctx; lf ← LogFile ctx;
  Ret (list_to_map [("TUNASYNC_MIRROR_NAME", name); ("TUNASYNC_WORKING_DIR", wd);
    ("TUNASYNC_UPSTREAM_URL", upstream); ("TUNASYNC_LOG_DIR", ld); ("TUNASYNC_LOG_FILE", lf);
    ("TUNASYNC_JOB_EXIT_STATUS", if on_success then "success" else "failure")]).

Definition Do (on_success : bool) (command : list string) (s : hstate) : hstate * outcome unit :=
  match exec_env on_success (l_ctx (h_log s)) with
  | Ret env =>
      match command with
      | [] => (s, Err "Invalid Command")
      | _ => (mkH (h_log s) (h_fs s) (h_ran s ++ [(env, command)]),
              match a_run a env command with None => Ret tt | Some e => Err e end)
      end
  | Err e => (s, Err e)
  | Panic m => (s, Panic m)
  end.

Definition with_dir (f : string -> hstate -> hstate * outcome unit) (s : hstate)
    : hstate * outcome unit :=
  match WorkingDir (l_ctx (h_log s)) with
  | Ret wd => f wd s
  | Err e => (s, Err e)
  | Panic m => (s, Panic m)
  end.

Definition zfs_preJob : hstate -> hstate * outcome unit :=
  with_dir (fun wd s =>
    if negb (path_exists (h_fs s) wd) then (s, Err ("stat " +:+ wd +:+ ": no such file or directory"))
    else match a_mounted a with Some e => (s, Err e) | None => (s, Ret tt) end).

Definition on_fs (f : F -> option string * F) (s : hstate) : hstate * outcome unit :=
  let '(e, fs) := f (h_fs s) in
  (mkH (h_log s) fs (h_ran s), match e with None => Ret tt | Some e => Err e end).

Definition btrfs_preJob : hstate -> hstate * outcome unit :=
  with_dir (fun path s =>
    if negb (path_exists (h_fs s) path) then on_fs (CreateSubVolume path) s
    else match IsSubVolume path (h_fs s) with
         | Ret true => (s, Ret tt)
         | Ret false => (s, Err ("path " +:+ path +:+ " exists but isn't a Btrfs subvolume"))
         | Err e => (s, Err e)
         | Panic m => (s, Panic m)
         end).

(** Delete the old snapshot if there is one, then take a new one. *)
Definition btrfs_take (snapshot : string) (s : hstate) : hstate * outcome unit :=
  with_dir (fun wd => on_fs (SnapshotSubVolume wd snapshot)) s.
Definition btrfs_postSuccess (snapshot : string) (s : hstate) : hstate * outcome unit :=
  if path_exists (h_fs s) snapshot then
    match IsSubVolume snapshot (h_fs s) with
    | Ret true =>
        match on_fs (DeleteSubVolume snapshot) s with
        | (s, Ret _) => btrfs_take snapshot s
        | r => r
        end
    | Ret false => (s, Err ("path " +:+ snapshot +:+ " exists and isn't a Btrfs snapshot"))
    | Err e => (s, Err e)
    | Panic m => (s, Panic m)
    end
  else btrfs_take snapshot s.

(** [postSuccess] and [postFail] of an exec hook. *)
Definition exec_postSuccess (on_success : bool) (command : list string) (s : hstate) : hstate * outcome unit :=
  if on_success then Do on_success command s else (s, Ret tt).
Definition exec_postFail (on_success : bool) (command : list string) (s : hstate) : hstate * outcome unit :=
  if on_success then (s, Ret tt) else Do on_success command s.

(** The methods of the [jobHook] interface; the others do nothing. *)
Definition call (h : hook) (p : phase) (s : hstate) : hstate * outcome unit :=
  match h, p with
  | HLog, PreExec =>
      with_log (preExec (a_removable a) name (a_stamp a) (a_now a) (a_read_err a)) s
  | HLog, PostSuccess => with_log postSuccess s
  | HLog, PostFail => with_log (postFail (a_removable a) (a_now a)) s
  | HZfs _, PreJob => zfs_preJob s
  | HBtrfs _, PreJob => btrfs_preJob s
  | HBtrfs snapshot, PostSuccess => btrfs_postSuccess snapshot s
  | HExec on_success command, PostSuccess => exec_postSuccess on_success command s
  | HExec on_success command, PostFail => exec_postFail on_success command s
  | _, _ => (s, Ret tt)
  end.

(** Calls in order; the first error ends them. *)
Fixpoint run_calls (cs : list (hook * phase)) (s : hstate) : hstate * outcome unit :=
  match cs with
  | [] => (s, Ret tt)
  | (h, p) :: cs =>
      match call h p s with
      | (s, Ret _) => run_calls cs s
      | r => r
      end
  end.
End hooks.

(** ** What the log limiter keeps *)
Section keeps.
Context `{!SortSlice} (removable : string -> bool) (name : string).

Lemma matchedFiles_perm d :
  matchedFiles name d ≡ₚ List.filter (fun f => Strings.HasPrefix f.1 name) (map_to_list d).
Proof. apply Slice_perm. Qed.

Lemma elem_matchedFiles d n e :
  (n, e) ∈ matchedFiles name d <-> d !! n = Some e /\ Strings.HasPrefix n name = true.
Proof.
  rewrite matchedFiles_perm, list_elem_of_In, filter_In, <-list_elem_of_In, elem_of_map_to_list.
  done.
Qed.

Lemma NoDup_matchedFiles d : NoDup (matchedFiles name d).*1.
Proof.
  rewrite matchedFiles_perm. pose proof (NoDup_fst_map_to_list d) as Hd.
  induction (map_to_list d) as [|[n e] l IH]; simpl in *; [constructor|].
  apply NoDup_cons in Hd as [Hn Hd]. destruct (Strings.HasPrefix n name); [|by apply IH].
  simpl. constructor; [|by apply IH]. intros Hin. apply Hn.
  apply list_elem_of_fmap in Hin as ([n' e'] & -> & Hin).
  apply list_elem_of_In, filter_In in Hin as [Hin _]. apply list_elem_of_fmap.
  exists (n', e'). split; [done|]. by apply list_elem_of_In.
Qed.

(** The first nine are not older than the rest. *)
Lemma matchedFiles_split d x y k :
  x ∈ take k (matchedFiles name d) -> y ∈ drop k (matchedFiles name d) ->
  ModTime y.2 <= ModTime x.2.
Proof.
  intros Hx Hy.
  assert (Hs : StronglySorted (not_after (fun a b => ModTime b.2 <? ModTime a.2))
    (matchedFiles name d)).
  { apply Slice_sorted; [intros u v|intros u v w]; unfold not_after; rewrite !Z.ltb_ge; lia. }
  rewrite <-(take_drop k (matchedFiles name d)) in Hs.
  pose proof (StronglySorted_app_1_elem_of _ _ _ x y Hs Hx Hy) as H1.
  unfold not_after in H1. apply Z.ltb_ge in H1. lia.
Qed.

Lemma fold_remove_lookup ns d n :
  fold_left (remove_file removable) ns d !! n
  = if bool_decide (n ∈ ns /\ removable n = true) then None else d !! n.
Proof.
  revert d; induction ns as [|m ns IH]; intros d; cbn [fold_left].
  - rewrite bool_decide_false; [done|]. intros [Hin _]. by apply elem_of_nil in Hin.
  - rewrite IH. unfold remove_file.
    case_bool_decide as H1; case_bool_decide as H2; try done.
    + destruct H2. rewrite elem_of_cons. tauto.
    + destruct H2 as [H2 Hr]. apply elem_of_cons in H2 as [->|H2]; [|tauto].
      rewrite Hr. apply lookup_delete_eq.
    + destruct (removable m) eqn:Hm; [|done]. apply lookup_delete_ne.
      intros ->. apply H2. rewrite elem_of_cons. tauto.
Qed.

(** The directory after [preExec], link aside. *)
Definition pruned (d : ldir) : ldir :=
  fold_left (remove_file removable) (drop 9 (matchedFiles name d)).*1 d.

Lemma preExec_dir stamp now s s' logFile :
  LogFile (l_ctx s) = Ret logFile -> logFile <> "/dev/null" ->
  preExec removable name stamp now None s = Ret s' ->
  forall n, n <> "latest" -> l_dir s' !! n = pruned (l_dir s) !! n.
Proof.
  intros Hl Hne E n Hn. unfold preExec in E. rewrite Hl in E. cbn in E.
  apply String.eqb_neq in Hne. rewrite Hne in E.
  destruct (LogDir (l_ctx s)) as [ld| |]; simplify_eq/=.
  destruct (EnterContext (l_ctx s)) as [c1| |]; simplify_eq/=.
  destruct (ctxSet c1 _ _) as [c2| |]; simplify_eq/=.
  fold (pruned (l_dir s)). generalize (pruned (l_dir s)). intros d. unfold remove_file.
  destruct (removable "latest").
  - rewrite lookup_delete_eq, lookup_insert_ne by done. by apply lookup_delete_ne.
  - destruct (d !! "latest"); [done|]. by apply lookup_insert_ne.
Qed.

Lemma pruned_matched d n e :
  (forall n, removable n = true) -> pruned d !! n = Some e -> Strings.HasPrefix n name = true ->
  (n, e) ∈ take 9 (matchedFiles name d).
Proof.
  intros Hr E Hn. unfold pruned in E. rewrite fold_remove_lookup in E.
  case_bool_decide as Hb; [done|].
  assert (Hin : (n, e) ∈ matchedFiles name d) by (by apply elem_matchedFiles).
  rewrite <-(take_drop 9 (matchedFiles name d)), elem_of_app in Hin.
  destruct Hin as [Hin|Hin]; [done|]. destruct Hb. split; [|done].
  apply list_elem_of_fmap. by exists (n, e).
Qed.

Lemma pruned_lost d n e :
  d !! n = Some e -> pruned d !! n = None -> (n, e) ∈ drop 9 (matchedFiles name d).
Proof.
  intros E Hn. unfold pruned in Hn. rewrite fold_remove_lookup in Hn.
  case_bool_decide as Hb; [|congruence]. destruct Hb as [Hin _].
  apply list_elem_of_fmap in Hin as ([n' e'] & -> & Hin).
  assert (H' : (n', e') ∈ matchedFiles name d).
  { rewrite <-(take_drop 9 (matchedFiles name d)). apply elem_of_app. by right. }
  apply elem_matchedFiles in H' as [H' _]. simpl in *. by simplify_eq.
Qed.

Lemma pruned_subset d n e : pruned d !! n = Some e -> d !! n = Some e.
Proof. unfold pruned. rewrite fold_remove_lookup. by case_bool_decide. Qed.
End keeps.

(** When removals succeed, the logs after [preExec] are the first nine. *)
Lemma preExec_kept `{!SortSlice} (removable : string -> bool) (name stamp : string) (now : Z)
    (s s' : lstate) (logFile : string) :
  (forall n, removable n = true) -> Strings.HasPrefix "latest" name = false ->
  LogFile (l_ctx s) = Ret logFile -> logFile <> "/dev/null" ->
  preExec removable name stamp now None s = Ret s' ->
  matchedFiles name (l_dir s') ≡ₚ take 9 (matchedFiles name (l_dir s)).
Proof.
  intros Hr Hlat Hl Hne E. pose proof (preExec_dir _ _ _ _ _ _ _ Hl Hne E) as Hd.
  pose proof (NoDup_matchedFiles name (l_dir s)) as Hnd.
  apply NoDup_Permutation.
  - eapply NoDup_fmap_1, NoDup_matchedFiles.
  - eapply sublist_NoDup; [by eapply NoDup_fmap_1|apply sublist_take].
  - intros [n e]. rewrite elem_matchedFiles. split.
    + intros [Hn Hp]. rewrite Hd in Hn by congruence. by eapply pruned_matched.
    + intros Hin. assert (Hm : (n, e) ∈ matchedFiles name (l_dir s)).
      { eapply elem_of_sublist; [exact Hin|apply sublist_take]. }
      apply elem_matchedFiles in Hm as [Hn Hp]. split; [|done]. rewrite Hd by congruence.
      unfold pruned. rewrite fold_remove_lookup, bool_decide_false; [done|]. intros [Hold _].
      rewrite <-(take_drop 9 (matchedFiles name (l_dir s))), fmap_app, NoDup_app in Hnd.
      destruct Hnd as (_ & Hdis & _). apply (Hdis n); [|done].
      exact (list_elem_of_fmap_2 fst _ _ Hin).
Qed.


(** Eleven logs of one mirror, one of another, and the link. *)
Module LimiterDemo.
Definition dir : ldir :=
  list_to_map (("latest", DLink 0 "x") :: ("ubuntu_1.log", DFile 1 "")
    :: ((fun t => ("debian_" +:+ Strconv.Itoa t +:+ ".log", DFile t "")) <$>
        [10; 11; 12; 13; 14; 15; 16; 17; 18; 19; 20])).
Definition s : lstate := mkL dir (provider_context "/d" "/log" "/log/l").
End LimiterDemo.


(** ** The log of one attempt *)
Section attempt.
Context `{!SortSlice} (removable : string -> bool) (name stamp : string).

Definition log_name : string := name +:+ "_" +:+ stamp +:+ ".log".

Lemma log_name_plain :
  Strings.mem "/" name = false -> Strings.mem "/" stamp = false -> Path.plain_name log_name = true.
Proof.
  intros Hn Hs. assert (Hu : Strings.mem "_" log_name = true).
  { unfold log_name. rewrite Strings.mem_app. by rewrite orb_true_r. }
  apply Path.plain_name_spec. split_and!; try (by intros E; rewrite E in Hu).
  unfold log_name. by rewrite !Strings.mem_app, Hn, Hs.
Qed.

Lemma log_name_fresh : log_name <> "latest" /\ log_name +:+ ".fail" <> "latest".
Proof.
  assert (Hu : Strings.mem "_" log_name = true).
  { unfold log_name. rewrite Strings.mem_app. by rewrite orb_true_r. }
  split; intros E; [by rewrite E in Hu|].
  apply (f_equal (Strings.mem "_")) in E. rewrite Strings.mem_app, Hu in E. done.
Qed.

(** What the sync writes to its log file. *)
Definition write_log (t : Z) (data : string) (s : lstate) : lstate :=
  mkL (<[log_name := DFile t data]> (l_dir s)) (l_ctx s).

Context (st : list (gmap string string)) (ld lf : string) (s : lstate).
Hypothesis (Hrepr : repr (l_ctx s) st).
Hypothesis (Hld : LogDir (l_ctx s) = Ret ld).
Hypothesis (Hlf : LogFile (l_ctx s) = Ret lf).
Hypothesis (Hlog : lf <> "/dev/null").
Hypothesis (Hlatest : removable "latest" = true).
Hypothesis (Hname : Strings.mem "/" name = false).
Hypothesis (Hstamp : Strings.mem "/" stamp = false).

Definition log_path : string := Path.Join [ld; log_name].

(** [preExec] opens a layer in which the log file is the attempt's, and points the
    link at it. *)
Lemma preExec_opens now :
  exists s1, preExec removable name stamp now None s = Ret s1 /\
    repr (l_ctx s1) (<[LogFileKey := log_path]> ∅ :: st) /\
    l_dir s1 !! "latest" = Some (DLink now log_name).
Proof.
  destruct (stack_not_nil _ _ Hrepr) as (m & st' & Est).
  destruct (cops_refine [OEnter; OSet LogFileKey log_path] (l_ctx s) st
    (<[LogFileKey := log_path]> ∅ :: st)) as (c' & Hc & Hr); [done|by rewrite Est|].
  cbn in Hc. unfold preExec. rewrite Hlf.
  apply String.eqb_neq in Hlog. rewrite outcome_bind_ret_l, Hlog, Hld, outcome_bind_ret_l.
  cbv zeta. fold log_name log_path.
  destruct (EnterContext (l_ctx s)) as [c1| |]; try discriminate Hc. rewrite outcome_bind_ret_l.
  cbn in Hc. destruct (ctxSet c1 LogFileKey log_path) as [c2| |]; try discriminate Hc.
  injection Hc as ->. rewrite outcome_bind_ret_l.
  eexists. split; [reflexivity|]. split; [done|]. cbn [l_dir].
  unfold remove_file at 1. rewrite Hlatest, lookup_delete_eq. apply lookup_insert_eq.
Qed.

(** The layer of the attempt. *)
Let layered (c : pctx) : Prop := repr c (<[LogFileKey := log_path]> ∅ :: st).

Lemma layered_LogFile c : layered c -> LogFile c = Ret log_path.
Proof. intros Hc. unfold LogFile. rewrite (repr_read _ _ _ _ Hc). cbn. done. Qed.
Lemma layered_same key message c :
  layered c -> key <> LogFileKey -> context_string key message c = context_string key message (l_ctx s).
Proof.
  intros Hc Hk. rewrite (repr_read _ _ _ _ Hc), (repr_read _ _ _ _ Hrepr).
  cbn [stack_get]. by rewrite lookup_insert_ne, lookup_empty.
Qed.

Lemma layered_exit c : layered c -> exists c', ExitContext c = Ret c' /\ repr c' st.
Proof.
  intros Hc. destruct (stack_not_nil _ _ Hrepr) as (m & st' & Est).
  apply (cstep_refines OExit c _ st Hc). by rewrite Est.
Qed.

Lemma postSuccess_closes s2 :
  layered (l_ctx s2) -> exists c', postSuccess s2 = Ret (mkL (l_dir s2) c') /\ repr c' st.
Proof.
  intros Hc. destruct (layered_exit _ Hc) as (c' & E & Hr). exists c'.
  unfold postSuccess. by rewrite E.
Qed.

Lemma postFail_closes now s2 e :
  layered (l_ctx s2) -> l_dir s2 !! log_name = Some e ->
  exists s3, postFail removable now s2 = Ret s3 /\ repr (l_ctx s3) st /\
    l_dir s3 !! "latest" = Some (DLink now (log_name +:+ ".fail")) /\
    l_dir s3 !! (log_name +:+ ".fail") = Some e.
Proof.
  intros Hc He. destruct (layered_exit _ Hc) as (c' & Ec & Hr).
  pose proof (log_name_plain Hname Hstamp) as Hp. pose proof log_name_fresh as [Hf1 Hf2].
  assert (Hb : Path.Base log_path = log_name).
  { pose proof (Path.Base_Join ld log_name "" Hp eq_refl) as E. by rewrite !Strings.app_nil_r in E. }
  assert (Hbf : Path.Base (log_path +:+ ".fail") = log_name +:+ ".fail") by (by apply Path.Base_Join).
  unfold postFail. rewrite (layered_LogFile _ Hc), outcome_bind_ret_l.
  assert (LogDir (l_ctx s2) = Ret ld) as ->.
  { rewrite <-Hld. by apply layered_same. }
  rewrite outcome_bind_ret_l. cbv zeta. rewrite Hb, Hbf.
  fold log_path. rewrite String.eqb_refl, Ec, outcome_bind_ret_l. eexists. split; [reflexivity|].
  split; [done|]. unfold rename. rewrite He. cbn [l_dir].
  unfold remove_file. rewrite Hlatest, lookup_delete_eq. split; [apply lookup_insert_eq|].
  rewrite lookup_insert_ne, lookup_delete_ne by done. apply lookup_insert_eq.
Qed.
End attempt.

(** ** The hooks of a provider around an attempt *)
Section around.
Context `{!SortSlice} {F T : Type} `{!Btrfs F T}.
Context (name upstream : string).
Implicit Types (s : @hstate F) (a : answers).
Abbreviation run := (run_calls name upstream).

Lemma run_app a cs cs' s s1 : run a cs s = (s1, Ret tt) -> run a (cs ++ cs') s = run a cs' s1.
Proof.
  revert s; induction cs as [|[h p] cs IH]; intros s; simpl; [by intros [= ->]|].
  destruct (call name upstream a h p s) as [s' [[]| |]]; [apply IH|done|done].
Qed.

(** Hooks that touch neither the log nor the file system during an attempt. *)
Definition quiet (h : hook) : bool :=
  match h with HLog | HBtrfs _ => false | HZfs _ => true | HExec _ c => negb (bool_decide (c = [])) end.

Lemma run_idle a hs p s :
  p = PreExec \/ p = PostExec -> Forall (fun h => quiet h = true) hs ->
  run a (calls hs p) s = (s, Ret tt).
Proof.
  intros Hp Hq. induction Hq as [|h hs Hh _ IH]; [done|]. unfold calls in *. cbn [map run_calls].
  destruct Hp as [->| ->], h as [| | |[] ]; try done; exact IH.
Qed.

(** The commands that follow an attempt with this result, in the order of the hooks. *)
Definition commands (ok : bool) (hs : list hook) : list (list string) :=
  omap (fun h => match h with HExec b c => if Bool.eqb b ok then Some c else None | _ => None end) hs.

Lemma commands_app ok l l' : commands ok (l ++ l') = commands ok l ++ commands ok l'.
Proof. unfold commands. by rewrite omap_app. Qed.

(** The commands that are run, up to the first that fails, and its error. *)
Fixpoint until_failure (f : list string -> option string) (cs : list (list string))
    : list (list string) * option string :=
  match cs with
  | [] => ([], None)
  | c :: cs =>
      match f c with
      | Some e => ([c], Some e)
      | None => let '(ran, e) := until_failure f cs in (c :: ran, e)
      end
  end.
Definition as_error (e : option string) : outcome unit :=
  match e with None => Ret tt | Some e => Err e end.

Lemma run_commands a ok env hs s :
  Forall (fun h => quiet h = true) hs ->
  exec_env name upstream ok (l_ctx (h_log s)) = Ret env ->
  let '(ran, e) := until_failure (a_run a env) (commands ok hs) in
  run a (calls hs (if ok then PostSuccess else PostFail)) s
  = (mkH (h_log s) (h_fs s) (h_ran s ++ map (fun c => (env, c)) ran), as_error e).
Proof.
  intros Hq. revert s; induction Hq as [|h hs Hh _ IH]; intros s He.
  - simpl. by rewrite app_nil_r; destruct s.
  - unfold calls in *. cbn [map run_calls].
    destruct h as [| | |b c]; try done.
    + assert (call name upstream a (HZfs zpool) (if ok then PostSuccess else PostFail) s = (s, Ret tt))
        as -> by (by destruct ok). by apply IH.
    + unfold commands in *. cbn [omap list_omap]. destruct (Bool.eqb_spec b ok) as [->|Hne].
      * assert (call name upstream a (HExec ok c) (if ok then PostSuccess else PostFail) s
          = (mkH (h_log s) (h_fs s) (h_ran s ++ [(env, c)]), as_error (a_run a env c))) as ->.
        { by destruct ok; unfold call, exec_postSuccess, exec_postFail, Do; rewrite He; destruct c. }
        cbn [until_failure]. destruct (a_run a env c) as [e|]; [done|]. cbn [as_error].
        specialize (IH (mkH (h_log s) (h_fs s) (h_ran s ++ [(env, c)])) He).
        destruct (until_failure _ _) as [ran e]. rewrite IH. cbn [h_log h_fs h_ran map].
        by rewrite <-app_assoc.
      * assert (call name upstream a (HExec b c) (if ok then PostSuccess else PostFail) s = (s, Ret tt))
          as -> by (by destruct b, ok). by apply IH.
Qed.

(** An error ends the calls. *)
Lemma run_app_err a cs cs' s s1 e : run a cs s = (s1, Err e) -> run a (cs ++ cs') s = (s1, Err e).
Proof.
  revert s; induction cs as [|[h p] cs IH]; intros s; simpl; [done|].
  destruct (call name upstream a h p s) as [s' [[]| |]]; [apply IH|done|done].
Qed.
End around.

(** ** The hooks a provider is built with *)
Section built.
Context {regexp : Type} (shlex : string -> outcome (list string)).
Context (Compile : string -> outcome regexp) (formatLogDir : Config -> string -> outcome string).
Implicit Types p : @mirrorProvider regexp.

Lemma add_hook_hooks h p :
  bp_hooks (provider_base (add_hook h p)) = bp_hooks (provider_base p) ++ [h].
Proof. by destruct p. Qed.

Definition after_limiter (btrfs : bool) (h : hook) : Prop :=
  match h with HLog => False | HBtrfs _ => btrfs = true | _ => True end.

Lemma add_exec_hooks_hooks b cmds p p' :
  add_exec_hooks shlex b cmds p = Ret p' ->
  exists hs, bp_hooks (provider_base p') = bp_hooks (provider_base p) ++ hs /\
    forall btrfs, Forall (after_limiter btrfs) hs.
Proof.
  revert p; induction cmds as [|c cmds IH]; intros p E; simplify_eq/=.
  - exists []. by rewrite app_nil_r.
  - unfold newExecPostHook in E. destruct (shlex c) as [l| |]; simplify_eq/=.
    destruct (negb _ && _); simplify_eq/=.
    destruct (IH _ E) as (hs & Hh & Hf). exists (HExec (b =? execOnSuccess) l :: hs).
    rewrite Hh, add_hook_hooks, <-app_assoc. split; [done|]. intros btrfs. by constructor.
Qed.

Lemma made_provider {A} (f : A -> @mirrorProvider regexp) o p :
  f <$> or_panic o = Ret p -> exists q, o = Ret q /\ p = f q.
Proof. destruct o as [q| |]; intros E; try discriminate E. injection E as <-. by exists q. Qed.

Lemma newCmdProvider_hooks c q : newCmdProvider shlex Compile c = Ret q -> bp_hooks (cp_base q) = [].
Proof.
  unfold newCmdProvider. destruct (shlex _) as [l| |]; try (intros E; discriminate E).
  rewrite outcome_bind_ret_l.
  destruct (compile_pattern _ _ (cf_failOnMatch c)) as [r| |]; try (intros E; discriminate E).
  rewrite outcome_bind_ret_l.
  destruct (compile_pattern _ _ (cf_sizePattern c)) as [r'| |]; try (intros E; discriminate E).
  by intros [= <-].
Qed.

Lemma bare_provider_hooks cfg logDir p :
  bare_provider shlex Compile cfg logDir = Ret p -> bp_hooks (provider_base p) = [].
Proof.
  unfold bare_provider. intros E.
  destruct (String.eqb (c_Provider cfg) "command");
    [|destruct (String.eqb (c_Provider cfg) "rsync");
      [|destruct (String.eqb (c_Provider cfg) "two-stage-rsync"); [|discriminate E]]];
    apply made_provider in E as (q & Eq & ->).
  - exact (newCmdProvider_hooks _ _ Eq).
  - unfold newRsyncProvider in Eq. destruct (negb _); try discriminate Eq. by injection Eq as <-.
  - unfold newTwoStageRsyncProvider in Eq. destruct (negb _); try discriminate Eq. by injection Eq as <-.
Qed.

Lemma newMirrorProvider_hooks cfg p :
  newMirrorProvider shlex Compile formatLogDir cfg = Ret p ->
  exists rest, bp_hooks (provider_base p) = HLog :: rest /\
    Forall (after_limiter (c_BtrfsEnable cfg)) rest.
Proof.
  unfold newMirrorProvider. intros E.
  destruct (or_panic _) as [logDir| |]; try discriminate E. rewrite outcome_bind_ret_l in E.
  destruct (bare_provider _ _ cfg logDir) as [p0| |] eqn:E0; try discriminate E.
  rewrite outcome_bind_ret_l in E. apply bare_provider_hooks in E0. cbv zeta in E.
  set (p1 := add_hook newLogLimiter p0) in E.
  set (p2 := if c_ZFSEnable cfg then add_hook (newZfsHook (c_Zpool cfg)) p1 else p1) in E.
  set (p3 := if c_BtrfsEnable cfg then add_hook _ p2 else p2) in E.
  assert (H2 : exists r, bp_hooks (provider_base p2) = HLog :: r /\
    Forall (after_limiter (c_BtrfsEnable cfg)) r).
  { unfold p2, p1. destruct (c_ZFSEnable cfg); rewrite !add_hook_hooks, E0; eexists; (split; [done|]);
      repeat constructor. }
  assert (H3 : exists r, bp_hooks (provider_base p3) = HLog :: r /\
    Forall (after_limiter (c_BtrfsEnable cfg)) r).
  { destruct H2 as (r & H2 & Hr). unfold p3. destruct (c_BtrfsEnable cfg); [|by exists r].
    rewrite add_hook_hooks, H2. eexists. split; [done|].
    apply Forall_app; split; [done|]. by repeat constructor. }
  destruct (add_exec_hooks shlex execOnSuccess _ p3) as [p4| |] eqn:E4; try discriminate E.
  rewrite outcome_bind_ret_l in E.
  apply add_exec_hooks_hooks in E4 as (h4 & E4 & H4), E as (h5 & -> & H5).
  destruct H3 as (r & H3 & Hr). rewrite E4, H3. exists ((r ++ h4) ++ h5). split; [done|].
  by rewrite !Forall_app.
Qed.
End built.

(** Every context entry but the log file is inherited by the attempt's layer. *)
Lemma exec_env_log name upstream ok c ld lf wd :
  WorkingDir c = Ret wd -> LogDir c = Ret ld -> LogFile c = Ret lf ->
  exists env, exec_env name upstream ok c = Ret env /\
    env !! "TUNASYNC_LOG_FILE" = Some lf /\ env !! "TUNASYNC_WORKING_DIR" = Some wd /\
    env !! "TUNASYNC_JOB_EXIT_STATUS" = Some (if ok then "success" else "failure").
Proof.
  intros Hw Hl Hf. unfold exec_env. rewrite Hw, Hl, Hf, !outcome_bind_ret_l.
  eexists. split; [reflexivity|]. by vm_compute.
Qed.

(** The sync process writes its log. *)
Definition logged {F} (name stamp : string) (t : Z) (data : string) (s : @hstate F) : hstate :=
  mkH (write_log name stamp t data (h_log s)) (h_fs s) (h_ran s).

(** The limiter first, quiet hooks after it. *)
Section limited.
Context `{!SortSlice} {F T : Type} `{!Btrfs F T}.
Context (name upstream stamp : string) (st : list (gmap string string)) (wd ld lf : string) (s : @hstate F).
Context (rest : list hook).
Hypothesis (Hrepr : repr (l_ctx (h_log s)) st).
Hypothesis (Hwd : WorkingDir (l_ctx (h_log s)) = Ret wd).
Hypothesis (Hld : LogDir (l_ctx (h_log s)) = Ret ld).
Hypothesis (Hlf : LogFile (l_ctx (h_log s)) = Ret lf).
Hypothesis (Hlog : lf <> "/dev/null").
Hypothesis (Hname : Strings.mem "/" name = false).
Hypothesis (Hstamp : Strings.mem "/" stamp = false).
Hypothesis (Hquiet : Forall (fun h => quiet h = true) rest).
Implicit Types a : answers.
Let path := log_path name stamp ld.

Lemma limited_before a :
  a_stamp a = stamp -> a_read_err a = None -> a_removable a "latest" = true ->
  exists l1, run_calls name upstream a (calls (HLog :: rest) PreExec) s
      = (mkH l1 (h_fs s) (h_ran s), Ret tt) /\
    repr (l_ctx l1) (<[LogFileKey := path]> ∅ :: st) /\
    l_dir l1 !! "latest" = Some (DLink (a_now a) (log_name name stamp)).
Proof.
  intros Ha Hre Hrm.
  destruct (preExec_opens (a_removable a) name stamp st ld lf (h_log s) Hrepr Hld Hlf Hlog Hrm
    (a_now a)) as (l1 & E1 & Hl1 & Hlat).
  exists l1. split; [|done]. unfold calls. cbn [map run_calls call].
  unfold with_log. rewrite Ha, Hre, E1. apply run_idle; auto.
Qed.

Lemma limiter_after a (ok : bool) now t data s1 :
  a_removable a "latest" = true ->
  repr (l_ctx (h_log s1)) (<[LogFileKey := path]> ∅ :: st) ->
  l_dir (h_log s1) !! "latest" = Some (DLink now (log_name name stamp)) ->
  l_dir (h_log s1) !! log_name name stamp = Some (DFile t data) ->
  exists l2, call name upstream a HLog (if ok then PostSuccess else PostFail) s1
      = (mkH l2 (h_fs s1) (h_ran s1), Ret tt) /\
    resolve (l_dir l2) "latest" = Some (DFile t data) /\ repr (l_ctx l2) st.
Proof.
  intros Hrm Hl Hlat Hdata. destruct ok; cbn [call]; unfold with_log.
  - destruct (postSuccess_closes name stamp st ld (h_log s) Hrepr (h_log s1) Hl) as (c & -> & Hc).
    eexists. split; [reflexivity|]. split; [|done]. unfold resolve. cbn [l_dir]. by rewrite Hlat.
  - destruct (postFail_closes (a_removable a) name stamp st ld (h_log s) Hrepr Hld Hrm Hname Hstamp
      (a_now a) (h_log s1) _ Hl Hdata) as (l2 & -> & Hc & H1 & H2).
    eexists. split; [reflexivity|]. split; [|done]. unfold resolve. by rewrite H1.
Qed.

Lemma limited_after a (ok : bool) now t data s1 :
  a_removable a "latest" = true ->
  repr (l_ctx (h_log s1)) (<[LogFileKey := path]> ∅ :: st) ->
  l_dir (h_log s1) !! "latest" = Some (DLink now (log_name name stamp)) ->
  exists s2 env, let '(ran, failed) := until_failure (a_run a env) (commands ok (rev rest)) in
    run_calls name upstream a
      (calls (rHooks (HLog :: rest)) PostExec
       ++ calls (rHooks (HLog :: rest)) (if ok then PostSuccess else PostFail))
      (logged name stamp t data s1) = (s2, as_error failed) /\
    h_ran s2 = h_ran s1 ++ map (fun c => (env, c)) ran /\
    env !! "TUNASYNC_LOG_FILE" = Some path /\ env !! "TUNASYNC_WORKING_DIR" = Some wd /\
    env !! "TUNASYNC_JOB_EXIT_STATUS" = Some (if ok then "success" else "failure") /\
    resolve (l_dir (h_log s2)) "latest" = Some (DFile t data) /\
    repr (l_ctx (h_log s2))
      (match failed with None => st | Some _ => <[LogFileKey := path]> ∅ :: st end).
Proof.
  intros Hrm Hl Hlat.
  assert (Hqr : Forall (fun h => quiet h = true) (rev rest)) by (by apply Forall_rev).
  assert (Hidle : run_calls name upstream a (calls (rHooks (HLog :: rest)) PostExec)
    (logged name stamp t data s1) = (logged name stamp t data s1, Ret tt)).
  { unfold rHooks, calls. cbn [rev]. rewrite map_app. erewrite run_app; [|by apply run_idle; auto]. done. }
  rewrite (run_app _ _ _ _ _ _ _ Hidle).
  destruct (exec_env_log name upstream ok (l_ctx (h_log s1)) ld path wd) as (env & He & H1 & H2 & H3).
  { rewrite <-Hwd. by eapply layered_same. }
  { rewrite <-Hld. by eapply layered_same. }
  { by eapply layered_LogFile. }
  assert (Hlat' : l_dir (h_log (logged name stamp t data s1)) !! "latest"
    = Some (DLink now (log_name name stamp))).
  { cbn. rewrite lookup_insert_ne; [done|]. by apply log_name_fresh. }
  assert (Hdata : l_dir (h_log (logged name stamp t data s1)) !! log_name name stamp = Some (DFile t data)).
  { cbn. apply lookup_insert_eq. }
  pose proof (run_commands name upstream a ok env (rev rest) (logged name stamp t data s1) Hqr He) as Hrun.
  unfold rHooks, calls in *. cbn [rev]. rewrite map_app.
  destruct (until_failure (a_run a env) (commands ok (rev rest))) as [ran [e|]] eqn:Eu; cbn [as_error] in Hrun.
  - eexists _, env. rewrite Eu. rewrite (run_app_err _ _ _ _ _ _ _ _ Hrun). split; [reflexivity|].
    split_and!; [done..| |done]. unfold resolve. cbn [h_log]. by rewrite Hlat'.
  - destruct (limiter_after a ok now t data (mkH (h_log (logged name stamp t data s1))
      (h_fs (logged name stamp t data s1)) (h_ran (logged name stamp t data s1) ++ map (fun c => (env, c)) ran)))
      as (l2 & E2 & Hres & Hctx); try done.
    eexists _, env. rewrite Eu. rewrite (run_app _ _ _ _ _ _ _ Hrun). cbn [map run_calls]. rewrite E2.
    split; [reflexivity|]. done.
Qed.
End limited.


(** ** Snapshots *)

(** A btrfs snapshot is the synchronised tree: when the hook after a successful
    sync succeeds, the snapshot holds what the working directory holds; whatever it
    answers, the working directory is left alone; a path that exists and is no
    subvolume is refused and kept; and after a failed sync the hook changes
    nothing. *)
Theorem snapshot_is_synced_tree `{!SortSlice} {F T : Type} `{!Btrfs F T, !BtrfsLaws F T}
    (name upstream : string) (a : answers) (snapshot wd : string) (s s' : @hstate F)
    (r : outcome unit) :
  WorkingDir (l_ctx (h_log s)) = Ret wd -> outside wd snapshot ->
  call name upstream a (HBtrfs snapshot) PostSuccess s = (s', r) ->
  (r = Ret tt -> tree (h_fs s') snapshot = tree (h_fs s) wd) /\
  tree (h_fs s') wd = tree (h_fs s) wd /\
  (path_exists (h_fs s) snapshot = true -> IsSubVolume snapshot (h_fs s) = Ret false ->
     is_err r = true /\ s' = s) /\
  call name upstream a (HBtrfs snapshot) PostFail s = (s, Ret tt).
Proof.
  intros Hwd Hout E. cbn [call] in E |- *. unfold btrfs_postSuccess in E.
  assert (Htake : forall s0, h_log s0 = h_log s -> tree (h_fs s0) wd = tree (h_fs s) wd ->
    btrfs_take snapshot s0 = (s', r) ->
    (r = Ret tt -> tree (h_fs s') snapshot = tree (h_fs s) wd) /\ tree (h_fs s') wd = tree (h_fs s) wd).
  { intros s0 Hl Ht Es. unfold btrfs_take, with_dir, on_fs in Es. rewrite Hl, Hwd in Es.
    destruct (SnapshotSubVolume wd snapshot (h_fs s0)) as [e f] eqn:Ef. simplify_eq/=. split.
    - destruct e; [done|]. intros _. rewrite <-Ht. by eapply snapshot_taken.
    - rewrite <-Ht. by eapply snapshot_frame. }
  destruct (path_exists (h_fs s) snapshot).
  2:{ destruct (Htake s eq_refl eq_refl E). done. }
  destruct (IsSubVolume snapshot (h_fs s)) as [[]|e|m]; [|by simplify_eq..].
  unfold on_fs in E. destruct (DeleteSubVolume snapshot (h_fs s)) as [e f] eqn:Ed.
  assert (Hf : tree f wd = tree (h_fs s) wd) by (by eapply delete_frame).
  destruct e as [e|]; [by simplify_eq|].
  destruct (Htake (mkH (h_log s) f (h_ran s)) eq_refl Hf E). done.
Qed.

(** A file system in memory: what a path holds and whether it is a subvolume. *)
Abbreviation mem_fs := (gmap string (bool * string)).

#[export] Instance mem_btrfs : Btrfs mem_fs string := {|
  tree f p := snd <$> f !! p;
  IsSubVolume p f := match f !! p with Some (b, _) => Ret b | None => Err "no such file or directory" end;
  CreateSubVolume p f :=
    match f !! p with Some _ => (Some "file exists", f) | None => (None, <[p := (true, "")]> f) end;
  DeleteSubVolume p f :=
    match f !! p with Some (true, _) => (None, delete p f) | _ => (Some "not a subvolume", f) end;
  SnapshotSubVolume a b f :=
    match f !! a, f !! b with
    | Some (true, d), None => (None, <[b := (true, d)]> f)
    | _, _ => (Some "cannot take the snapshot", f)
    end |}.

#[export] Instance mem_btrfs_laws : BtrfsLaws mem_fs string.
Proof.
  split; cbn.
  - intros p f e f'. by repeat split_match; intros [= ? ?].
  - intros p f f'. repeat split_match; intros [= <-]. by rewrite lookup_delete_eq.
  - intros p q f r f' E [Hne _]. revert E.
    repeat split_match; intros [= <- <-]; try done. by rewrite lookup_delete_ne.
  - intros x b f e f'. by repeat split_match; intros [= ? ?].
  - intros x b f f'. repeat split_match; intros [= <-]. by rewrite lookup_insert_eq.
  - intros x b q f r f' E [Hne _]. revert E.
    repeat split_match; intros [= <- <-]; try done. by rewrite lookup_insert_ne.
Qed.

Lemma snapshot_is_synced_tree_witness :
  let fs : mem_fs := <["/data/d" := (true, "new")]> (<["/snap/d" := (true, "old")]> ∅) in
  let s := mkH (mkL ∅ (provider_context "/data/d" "/log" "/log/l")) fs [] in
  let a := mkAns (fun _ => true) "t" 0 None None (fun _ _ => None) in
  tree (h_fs (call "d" "u" a (HBtrfs "/snap/d") PostSuccess s).1) "/snap/d" = Some "new".
Proof.
  cbv zeta.
  set (fs := <["/data/d" := (true, "new")]> (<["/snap/d" := (true, "old")]> (∅ : mem_fs))).
  set (s := mkH (mkL ∅ (provider_context "/data/d" "/log" "/log/l")) fs []).
  set (a := mkAns (fun _ => true) "t" 0 None None (fun _ _ => None)).
  destruct (snapshot_is_synced_tree "d" "u" a "/snap/d" "/data/d" s _ _ eq_refl
    ltac:(by split_and!) (surjective_pairing _)) as [H _].
  rewrite H by (vm_compute; reflexivity). vm_compute. reflexivity.
Defined.

(** An attempt of an rsync provider with a command for each result. *)
Module AttemptDemo.
Definition cfg : Config := mkConfig "debian" "rsync" "rsync://u/" "/log" "/data" "" 3 1440 0 0
  "" "" "" false false "" false 0 None None "" (Some ["ok"]) (Some ["bad"]) "" "" false "" false ""
  false false.
Definition words (s : string) : outcome (list string) := Ret [s].
Definition p : mirrorProvider :=
  match newMirrorProvider (regexp := unit) words (fun _ => Ret tt) (fun _ d => Ret d) cfg with
  | Ret p => p
  | _ => PRsync (mkRsyncProvider (base_of "" (provider_context "" "" "") 0 0 0) "" "" [])
  end.
Definition a : answers := mkAns (fun _ => true) "2024-01-01_00_00" 7 None None (fun _ _ => None).
Definition s : @hstate mem_fs := mkH (mkL ∅ (bp_ctx (provider_base p))) ∅ [].
End AttemptDemo.


(** ** GET /log of the worker (makeHTTPServer of src/worker/worker.go)

    The directory the limiter keeps is [ld]; the handler looks below the
    configured [LogDir], whose template it does not instantiate. *)
Definition open_path (ld : string) (d : ldir) (path : string) : option dentry :=
  if String.eqb (Path.Join [ld; Path.Base path]) path then resolve d (Path.Base path) else None.

Definition serve_log (cfg : Config) (ld : string) (d : ldir) : Z * string :=
  let filePath := Path.Join [c_LogDir cfg; "latest"] in
  match open_path ld d filePath with
  | Some (DFile _ data) => (200, data)
  | _ => (404, "log not found")
  end.

Lemma serve_log_latest cfg ld d t data :
  Path.Join [ld; "latest"] = Path.Join [c_LogDir cfg; "latest"] ->
  resolve d "latest" = Some (DFile t data) -> serve_log cfg ld d = (200, data).
Proof.
  intros He Hr. unfold serve_log, open_path. rewrite <-He.
  pose proof (Path.Base_Join ld "latest" "" eq_refl eq_refl) as Hb. rewrite !Strings.app_nil_r in Hb.
  by rewrite Hb, String.eqb_refl, Hr.
Qed.

(** The worker's log is served from where its configuration names it, before
    templates: a log directory given by a template, under which the provider
    logs, is not found by GET /log, whatever the directory holds; a directory
    without template actions is served, the latest attempt's log. *)
Theorem log_request_ignores_template (cfg : Config) (ld : string) (d : ldir) (t : Z) (data : string) :
  resolve d "latest" = Some (DFile t data) ->
  serve_log cfg ld d = if String.eqb (Path.Join [ld; "latest"]) (Path.Join [c_LogDir cfg; "latest"])
                       then (200, data) else (404, "log not found").
Proof.
  intros Hr. destruct (String.eqb_spec (Path.Join [ld; "latest"]) (Path.Join [c_LogDir cfg; "latest"]))
    as [He|Hne]; [by eapply serve_log_latest|].
  unfold serve_log, open_path.
  pose proof (Path.Base_Join (c_LogDir cfg) "latest" "" eq_refl eq_refl) as Hb.
  rewrite !Strings.app_nil_r in Hb. rewrite Hb. apply String.eqb_neq in Hne. by rewrite Hne.
Qed.

Lemma log_request_ignores_template_witness :
  let cfg := mkConfig "debian" "rsync" "rsync://u/" "/log/{{.Name}}" "/data" "" 3 1440 0 0
    "" "" "" false false "" false 0 None None "" None None "" "" false "" false "" false false in
  serve_log cfg "/log/debian" (<["latest" := DLink 1 "a.log"]> {["a.log" := DFile 1 "done"]})
  = (404, "log not found").
Proof.
  cbv zeta. set (cfg := mkConfig _ _ _ _ _ _ _ _ _ _ _ _ _ _ _ _ _ _ _ _ _ _ _ _ _ _ _ _ _ _ _).
  set (d := <["latest" := DLink 1 "a.log"]> {["a.log" := DFile 1 "done"]} : ldir).
  assert (Hd : resolve d "latest" = Some (DFile 1 "done")) by (vm_compute; reflexivity).
  rewrite (log_request_ignores_template cfg "/log/debian" d 1 "done" Hd). vm_compute. reflexivity.
Defined.
