(* ===== verification/Process.v ===== *)
(** * The process a provider starts (newCmdJob of src/worker/runner.go; Start of
      src/worker/cmd_provider.go and rsync_provider.go, a stage of Run of
      src/worker/two_stage_rsync_provider.go)

    What is executed for a configuration: the program and its arguments, the
    directory it runs in and the lines of its environment.  [newEnviron] and the
    command lines are those of [SyncResult] and [Provider]; locking and the
    running flag are in [Runner].  A provider is started by an attempt, after the
    hooks of its phase PreExec ([Hooks]): the log limiter has then given it a
    context with the log file of the attempt. *)

From S2P Require Import Prelude GoLib Types Config Context Provider EndToEnd Sizes SyncResult.
From S2P Require Import Wrapper Hooks.

(** A Go map is traversed in an order of its own choice. *)
Class EnvOrder := {
  env_range : gmap string string -> list (string * string);
  env_range_perm : forall m, env_range m ≡ₚ map_to_list m;
}.

Record cmdJob := mkCmdJob {
  cj_cmd : string; cj_args : list string; cj_dir : string; cj_env : list string;
  cj_mkdir : option string; (* the directory it tries to make *)
}.

Section start.
Context {regexp : Type} `{!EnvOrder}.
(** [os.Environ] and whether [os.Stat] says that a path does not exist. *)
Context (environ : list string) (missing : string -> bool).

(** An error of [os.MkdirAll] is only logged. *)
Definition newCmdJob (cmdAndArgs : list string) (workingDir : string) (env : gmap string string)
    : outcome cmdJob :=
  match cmdAndArgs with
  | [] => Panic "Command length should be at least 1!"
  | c :: args =>
      Ret (mkCmdJob c args workingDir (newEnviron environ (env_range env) true)
             (if missing workingDir then Some workingDir else None))
  end.

(** [Start] of the command and of the rsync provider, and stage [stage] of the
    two-stage provider, up to the log file. *)
Definition cmd_Start (p : cmdProvider (regexp := regexp)) : outcome cmdJob :=
  env ← cmd_env p;
  dir ← WorkingDir (bp_ctx (cp_base p));
  newCmdJob (cp_command p) dir env.
Definition rsync_Start (p : rsyncProvider) : outcome cmdJob :=
  command ← rsync_command p;
  dir ← WorkingDir (bp_ctx (rp_base p));
  newCmdJob command dir ∅.
Definition stage_Start (stage : Z) (p : twoStageRsyncProvider) : outcome cmdJob :=
  command ← stage_command p stage;
  dir ← WorkingDir (bp_ctx (tp_base p));
  newCmdJob command dir ∅.

(** The provider with the context its hooks have left it. *)
Definition in_context (ctx : pctx) (p : mirrorProvider (regexp := regexp)) : mirrorProvider :=
  let b := provider_base p in
  with_base (mkBase (bp_name b) ctx (bp_interval b) (bp_retry b) (bp_timeout b) (bp_hooks b)) p.

(** What provider [p] starts while its context is [ctx]. *)
Definition process_of (stage : Z) (ctx : pctx) (p : mirrorProvider (regexp := regexp)) : outcome cmdJob :=
  match in_context ctx p with
  | PCmd p => cmd_Start p | PRsync p => rsync_Start p | PTwoStage p => stage_Start stage p
  end.
End start.

(** ** The providers of a configuration *)
Section inverse.
Context {regexp : Type} (shlex : string -> outcome (list string)) (Compile : string -> outcome regexp).
Context (formatLogDir : Config -> string -> outcome string).
Implicit Types p : mirrorProvider (regexp := regexp).

Lemma or_panic_Ret {A} (o : outcome A) x : or_panic o = Ret x -> o = Ret x.
Proof. by destruct o. Qed.

Lemma add_exec_hooks_inv b cmds p p' : add_exec_hooks shlex b cmds p = Ret p' -> same_sync p p'.
Proof.
  revert p. induction cmds as [|c cmds IH]; intros p E; cbn [add_exec_hooks] in E.
  - injection E as <-. apply same_sync_refl.
  - destruct (or_panic (newExecPostHook shlex b c)) as [h| |]; cbn in E; [|done..].
    eapply same_sync_trans; [apply add_hook_same|by apply IH].
Qed.

(** A provider that is built is the bare provider with hooks. *)
Lemma newMirrorProvider_inv cfg p :
  newMirrorProvider shlex Compile formatLogDir cfg = Ret p ->
  exists logDir q, formatLogDir cfg (c_LogDir cfg) = Ret logDir /\
    bare_provider shlex Compile cfg logDir = Ret q /\ same_sync q p.
Proof.
  unfold newMirrorProvider. intros E.
  destruct (or_panic _) as [logDir| |] eqn:El in E; cbn [mbind outcome_bind] in E; [|done..].
  apply or_panic_Ret in El. exists logDir.
  destruct (bare_provider shlex Compile cfg logDir) as [q| |]; [|done..].
  rewrite outcome_bind_ret_l in E. exists q. split_and!; [done..|].
  match type of E with context [add_exec_hooks shlex execOnSuccess ?l ?p0] =>
    destruct (add_exec_hooks shlex execOnSuccess l p0) as [p4| |] eqn:E4; [|done..] end.
  rewrite outcome_bind_ret_l in E.
  eapply same_sync_trans, add_exec_hooks_inv, E. eapply same_sync_trans, add_exec_hooks_inv, E4.
  eapply same_sync_trans; [apply (add_hook_same newLogLimiter)|].
  eapply same_sync_trans; [|by destruct (c_BtrfsEnable cfg); [apply add_hook_same|apply same_sync_refl]].
  destruct (c_ZFSEnable cfg); [apply add_hook_same|apply same_sync_refl].
Qed.

(** What a configuration adds to the environment of a process that logs to
    [logFile]. *)
Definition config_env (cfg : Config) (logDir logFile : string) : gmap string string :=
  if String.eqb (c_Provider cfg) "command" then
    list_to_map [("TUNASYNC_MIRROR_NAME", c_Name cfg); ("TUNASYNC_WORKING_DIR", mirror_dir cfg);
      ("TUNASYNC_UPSTREAM_URL", c_Upstream cfg); ("TUNASYNC_LOG_DIR", logDir);
      ("TUNASYNC_LOG_FILE", logFile)]
  else ∅.

Context `{!EnvOrder} (environ : list string) (missing : string -> bool).

(** The lines of the environment with the key [k]. *)
Definition lines (k : string) (env : list string) : list string :=
  List.filter (fun line => String.eqb (env_key line) k) env.

Lemma newEnviron_lines (m : gmap string string) k :
  (forall k' v, m !! k' = Some v -> Strings.mem "=" k' = false) ->
  lines k (newEnviron environ (env_range m) true) =
  match m !! k with Some v => [k +:+ "=" +:+ v] | None => lines k environ end.
Proof.
  intros Hm. pose proof (env_range_perm m) as Hp. unfold lines.
  rewrite environ_overrides.
  - assert (list_to_map (env_range m) = m) as ->; [|done].
    rewrite <- (list_to_map_to_list m) at 2. apply list_to_map_proper; [|done].
    rewrite Hp. apply NoDup_fst_map_to_list.
  - rewrite Hp. apply NoDup_fst_map_to_list.
  - rewrite Hp. apply Forall_forall. intros k' ([k2 v] & -> & Hin)%list_elem_of_fmap.
    apply elem_of_map_to_list in Hin. by eapply Hm.
Qed.

Lemma config_env_keys cfg logDir logFile k v :
  config_env cfg logDir logFile !! k = Some v -> Strings.mem "=" k = false.
Proof.
  unfold config_env. destruct (String.eqb _ _); [|by rewrite lookup_empty].
  intros Hin%elem_of_list_to_map_2. rewrite !elem_of_cons in Hin.
  repeat (destruct Hin as [[= -> ->]|Hin]; [done|]). by apply not_elem_of_nil in Hin.
Qed.

(** The process of a built provider is that of its bare provider. *)
Lemma process_of_same stage ctx p p' :
  same_sync p p' -> process_of environ missing stage ctx p' = process_of environ missing stage ctx p.
Proof. intros [hs ->]. by destruct p. Qed.

Lemma newCmdJob_runs cfg logDir logFile l j :
  newCmdJob environ missing l (mirror_dir cfg) (config_env cfg logDir logFile) = Ret j ->
  cj_dir j = mirror_dir cfg /\
  cj_mkdir j = (if missing (mirror_dir cfg) then Some (mirror_dir cfg) else None) /\
  forall k, lines k (cj_env j) =
    match config_env cfg logDir logFile !! k with Some v => [k +:+ "=" +:+ v] | None => lines k environ end.
Proof.
  intros Hj. destruct l as [|c args]; [done|]. injection Hj as <-. cbn. split_and!; [done..|].
  intros k. apply newEnviron_lines. intros k' v. apply config_env_keys.
Qed.

(** A context with these entries. *)
Record has_entries (ctx : pctx) (dir logDir logFile : string) : Prop := {
  has_dir : WorkingDir ctx = Ret dir;
  has_logDir : LogDir ctx = Ret logDir;
  has_logFile : LogFile ctx = Ret logFile;
}.

(** The process of a bare provider: a command line, or the refusal of a stage. *)
Lemma bare_process cfg logDir logFile ctx q stage :
  bare_provider shlex Compile cfg logDir = Ret q -> stage = 1 \/ stage = 2 ->
  has_entries ctx (mirror_dir cfg) logDir logFile ->
  (exists l, process_of environ missing stage ctx q =
      newCmdJob environ missing l (mirror_dir cfg) (config_env cfg logDir logFile) /\
    (l = [] <-> c_Provider cfg = "command" /\ shlex (c_Command cfg) = Ret []) /\
    ~ (c_Provider cfg = "two-stage-rsync" /\ stage = 1 /\ rsyncStage1Profiles (c_Stage1Profile cfg) = None)) \/
  (is_err (process_of environ missing stage ctx q) = true /\
   is_panic (process_of environ missing stage ctx q) = false /\
   c_Provider cfg = "two-stage-rsync" /\ stage = 1 /\ rsyncStage1Profiles (c_Stage1Profile cfg) = None).
Proof.
  intros Hq Hst [Hd Hld Hlf]. unfold bare_provider in Hq. unfold config_env, process_of.
  destruct (String.eqb_spec (c_Provider cfg) "command") as [Ec|Ec].
  { destruct (newCmdProvider _ _ _) as [r| |] eqn:Er in Hq; cbn in Hq; [|done..]. injection Hq as <-.
    unfold newCmdProvider in Er. cbn in Er. destruct (shlex (c_Command cfg)) as [l| |]; cbn in Er; [|done..].
    destruct (compile_pattern Compile "fail-on-match" _) in Er; cbn in Er; [|done..].
    destruct (compile_pattern Compile "size-pattern" _) in Er; cbn in Er; [|done..]. injection Er as <-.
    left. exists l. split_and!; [|naive_solver|rewrite Ec; naive_solver].
    cbn [in_context with_base]. unfold cmd_Start, cmd_env. cbn. by rewrite Hd, Hld, Hlf. }
  destruct (String.eqb_spec (c_Provider cfg) "rsync") as [Er|Er].
  { destruct (newRsyncProvider _) as [r| |] eqn:En in Hq; cbn in Hq; [|done..]. injection Hq as <-.
    unfold newRsyncProvider in En. cbn in En. destruct (negb _) in En; [done|]. injection En as <-.
    left. cbn [in_context with_base]. unfold rsync_Start, rsync_command. cbn. rewrite Hd.
    eexists. split_and!; [reflexivity|split; [done|naive_solver]|rewrite Er; naive_solver]. }
  destruct (String.eqb_spec (c_Provider cfg) "two-stage-rsync") as [Et|Et]; [|done].
  destruct (newTwoStageRsyncProvider _) as [r| |] eqn:En in Hq; cbn in Hq; [|done..]. injection Hq as <-.
  unfold newTwoStageRsyncProvider in En. cbn in En. destruct (negb _) in En; [done|]. injection En as <-.
  cbn [in_context with_base]. unfold stage_Start, stage_command, Options.
  cbn [tp_config ts_stage1Profile tp_base bp_ctx]. rewrite Hd.
  destruct Hst as [->| ->]; cbn [Z.eqb Pos.eqb].
  - destruct (rsyncStage1Profiles (c_Stage1Profile cfg)) as [profile|]; [left|right; by split_and!].
    eexists. split_and!; [reflexivity|split; [done|naive_solver]|naive_solver].
  - left. eexists. split_and!; [reflexivity|split; [done|naive_solver]|naive_solver].
Qed.

(** The context a provider is built with. *)
Lemma bare_context cfg logDir q :
  bare_provider shlex Compile cfg logDir = Ret q ->
  bp_ctx (provider_base q) = provider_context (mirror_dir cfg) logDir (Path.Join [logDir; "latest.log"]).
Proof.
  unfold bare_provider. intros Hq.
  destruct (String.eqb (c_Provider cfg) "command");
    [|destruct (String.eqb (c_Provider cfg) "rsync");
      [|destruct (String.eqb (c_Provider cfg) "two-stage-rsync"); [|discriminate Hq]]];
    apply made_provider in Hq as (r & Er & ->).
  - unfold newCmdProvider in Er. cbn in Er. destruct (shlex (c_Command cfg)) as [l| |]; cbn in Er; [|done..].
    destruct (compile_pattern Compile "fail-on-match" _) in Er; cbn in Er; [|done..].
    destruct (compile_pattern Compile "size-pattern" _) in Er; cbn in Er; [|done..]. by injection Er as <-.
  - unfold newRsyncProvider in Er. cbn in Er. destruct (negb _) in Er; [done|]. by injection Er as <-.
  - unfold newTwoStageRsyncProvider in Er. cbn in Er. destruct (negb _) in Er; [done|]. by injection Er as <-.
Qed.

Lemma same_sync_context p p' : same_sync p p' -> bp_ctx (provider_base p') = bp_ctx (provider_base p).
Proof. intros [hs ->]. by destruct p. Qed.
End inverse.

(** ** The process of an attempt *)

(** The log limiter, first of the hooks, gives the attempt its log file. *)
Lemma attempt_context `{!SortSlice} {F T : Type} `{!Btrfs F T} (name upstream dir logDir logFile : string)
    (a : answers) (rest : list hook) (st : list (gmap string string)) (s s1 : @hstate F) :
  repr (l_ctx (h_log s)) st -> repr (provider_context dir logDir logFile) st -> logFile <> "/dev/null" ->
  Forall (fun h => h <> HLog) rest -> a_removable a "latest" = true ->
  run_calls name upstream a (calls (HLog :: rest) PreExec) s = (s1, Ret tt) ->
  has_entries (l_ctx (h_log s1)) dir logDir (Path.Join [logDir; name +:+ "_" +:+ a_stamp a +:+ ".log"]).
Proof.
  intros Hr Hb Hne Hrest Hrm E. unfold calls in E. cbn [map run_calls call] in E. unfold with_log in E.
  assert (Hsame : forall key message, context_string key message (l_ctx (h_log s))
    = context_string key message (provider_context dir logDir logFile)).
  { intros key message. by rewrite (repr_read _ _ _ _ Hr), (repr_read _ _ _ _ Hb). }
  assert (Hlf : LogFile (l_ctx (h_log s)) = Ret logFile) by apply Hsame.
  assert (Hld : LogDir (l_ctx (h_log s)) = Ret logDir) by apply Hsame.
  assert (Hwd : WorkingDir (l_ctx (h_log s)) = Ret dir) by apply Hsame.
  destruct (a_read_err a) as [e|] eqn:Ee.
  { unfold preExec in E. rewrite Hlf, outcome_bind_ret_l in E. apply String.eqb_neq in Hne.
    by rewrite Hne, Hld, outcome_bind_ret_l in E. }
  destruct (preExec_opens (a_removable a) name (a_stamp a) st logDir logFile (h_log s) Hr Hld Hlf Hne Hrm
    (a_now a)) as (l1 & E1 & Hl1 & _). rewrite E1 in E.
  assert (Hidle : run_calls name upstream a (map (fun h => (h, PreExec)) rest) (mkH l1 (h_fs s) (h_ran s))
    = (mkH l1 (h_fs s) (h_ran s), Ret tt)).
  { clear E. induction Hrest as [|h rest Hh _ IH]; [done|]. cbn [map run_calls].
    destruct h as [| | |[] ]; try done; exact IH. }
  rewrite Hidle in E. injection E as <-. cbn [h_log]. split.
  - rewrite <-Hwd. by eapply layered_same.
  - rewrite <-Hld. by eapply layered_same.
  - by eapply layered_LogFile.
Qed.

(** C17: What an attempt executes is what the configuration says: once the hooks of
    the phase PreExec have succeeded (with a link "latest" that can be replaced) on a
    provider whose context reads as it was built, the process it starts runs in the
    directory of the mirror, which is made when it is missing; of every variable of
    its environment it has the one value the provider sets, the log file of this very
    attempt among them for a command provider, or what the worker inherited; the
    command is empty, and kills the worker, exactly for a command provider whose
    command has no words; and a stage is refused exactly for an unknown profile of
    the first. *)
Theorem configured_process `{!SortSlice} {F T regexp : Type} `{!Btrfs F T} `{!EnvOrder}
    (shlex : string -> outcome (list string)) (Compile : string -> outcome regexp)
    (formatLogDir : Config -> string -> outcome string) (environ : list string) (missing : string -> bool)
    (cfg : Config) (p : mirrorProvider) (upstream : string) (a : answers)
    (st : list (gmap string string)) (s s1 : @hstate F) (stage : Z) :
  newMirrorProvider shlex Compile formatLogDir cfg = Ret p -> stage = 1 \/ stage = 2 ->
  repr (bp_ctx (provider_base p)) st -> repr (l_ctx (h_log s)) st -> a_removable a "latest" = true ->
  run_calls (c_Name cfg) upstream a (calls (bp_hooks (provider_base p)) PreExec) s = (s1, Ret tt) ->
  let started := process_of environ missing stage (l_ctx (h_log s1)) p in
  exists logDir, formatLogDir cfg (c_LogDir cfg) = Ret logDir /\
  let logFile := Path.Join [logDir; c_Name cfg +:+ "_" +:+ a_stamp a +:+ ".log"] in
  (is_panic started = true <-> c_Provider cfg = "command" /\ shlex (c_Command cfg) = Ret []) /\
  (is_err started = true <->
     c_Provider cfg = "two-stage-rsync" /\ stage = 1 /\ rsyncStage1Profiles (c_Stage1Profile cfg) = None) /\
  forall j, started = Ret j ->
    cj_dir j = mirror_dir cfg /\
    cj_mkdir j = (if missing (mirror_dir cfg) then Some (mirror_dir cfg) else None) /\
    forall k, lines k (cj_env j) =
      match config_env cfg logDir logFile !! k with Some v => [k +:+ "=" +:+ v] | None => lines k environ end.
Proof.
  intros Hp Hst Hb Hc Hrm Hx started. subst started.
  destruct (newMirrorProvider_hooks _ _ _ _ _ Hp) as (rest & Hhs & Hrest). rewrite Hhs in Hx.
  destruct (newMirrorProvider_inv _ _ _ _ _ Hp) as (logDir & q & Hl & Hq & Hs). exists logDir. split; [done|].
  rewrite (same_sync_context _ _ Hs), (bare_context _ _ _ _ _ Hq) in Hb.
  assert (Hent : has_entries (l_ctx (h_log s1)) (mirror_dir cfg) logDir
    (Path.Join [logDir; c_Name cfg +:+ "_" +:+ a_stamp a +:+ ".log"])).
  { eapply attempt_context; [exact Hc|exact Hb| | |exact Hrm|exact Hx].
    - intros E. apply (f_equal Path.Base) in E.
      pose proof (Path.Base_Join logDir "latest.log" "" eq_refl eq_refl) as Hj.
      rewrite !Strings.app_nil_r in Hj. by rewrite Hj in E.
    - eapply Forall_impl; [exact Hrest|]. by intros [| | |]. }
  rewrite (process_of_same _ _ _ _ _ _ Hs). clear Hs.
  destruct (bare_process _ _ formatLogDir environ missing cfg logDir _ _ q stage Hq Hst Hent)
    as [(l & -> & Hl0 & Hn)|(He & Hpn & Hcc & Hxx)].
  - split_and!; [| |apply newCmdJob_runs]; destruct l; cbn; naive_solver.
  - split_and!; [|done|]; [rewrite Hpn; split; [done|intros [Hc' _]; congruence]|].
    intros j Hj. by rewrite Hj in He.
Qed.

(** *** A command provider, and one without a command *)
#[export] Program Instance listed_env : EnvOrder := {| env_range := map_to_list |}.
Next Obligation. done. Qed.

Module ProcessDemo.
Definition words (s : string) : outcome (list string) :=
  Ret (List.filter (fun w => negb (String.eqb w "")) (Strings.Split s " ")).
Definition env (command : string) : Config.environ :=
  list_to_map [("NAME", "debian"); ("PROVIDER", "command"); ("UPSTREAM", "https://up/debian");
    ("COMMAND", command)].
Definition built (command : string) : outcome (mirrorProvider (regexp := unit)) :=
  cfg ← LoadConfig (env command);
  newMirrorProvider words (fun _ => Ret tt) (fun _ d => Ret d) cfg.
Definition inherited : list string := ["HOME=/root"; "TUNASYNC_LOG_DIR=/tmp"].
Definition a : answers := mkAns (fun _ => true) "2024-01-01_00_00" 7 None None (fun _ _ => None).
Definition before (p : mirrorProvider (regexp := unit)) : @hstate mem_fs :=
  mkH (mkL ∅ (bp_ctx (provider_base p))) ∅ [].
Definition prepared (p : mirrorProvider (regexp := unit)) : @hstate mem_fs :=
  (run_calls "debian" "https://up/debian" a (calls (bp_hooks (provider_base p)) PreExec) (before p)).1.
Definition started (command : string) : outcome cmdJob :=
  p ← built command; process_of inherited (fun _ => true) 1 (l_ctx (h_log (prepared p))) p.
End ProcessDemo.

Example command_runs_in_its_directory :
  match ProcessDemo.started "/home/sync.sh all" with
  | Ret j => cj_cmd j = "/home/sync.sh" /\ cj_args j = ["all"] /\ cj_dir j = "/data/debian" /\
             lines "TUNASYNC_LOG_DIR" (cj_env j) = ["TUNASYNC_LOG_DIR=/var/log"] /\
             lines "TUNASYNC_LOG_FILE" (cj_env j)
             = ["TUNASYNC_LOG_FILE=/var/log/debian_2024-01-01_00_00.log"] /\
             lines "HOME" (cj_env j) = ["HOME=/root"]
  | _ => False
  end.
Proof. vm_compute. by split_and!. Qed.

(** A command job without a command is built, and dies when its sync starts. *)
Lemma blank_command_kills_the_worker :
  is_panic (ProcessDemo.built "") = false /\
  ProcessDemo.started "" = Panic "Command length should be at least 1!".
Proof. vm_compute. done. Qed.

Lemma configured_process_witness :
  exists cfg p j, LoadConfig (ProcessDemo.env "sync.sh") = Ret cfg /\
    ProcessDemo.built "sync.sh" = Ret p /\ ProcessDemo.started "sync.sh" = Ret j /\
    cj_dir j = mirror_dir cfg.
Proof.
  destruct (LoadConfig (ProcessDemo.env "sync.sh")) as [cfg| |] eqn:Ec; try (vm_compute in Ec; discriminate Ec).
  destruct (newMirrorProvider ProcessDemo.words (fun _ => Ret tt) (fun _ d => Ret d) cfg) as [p| |] eqn:Ep;
    try (vm_compute in Ec; injection Ec as <-; vm_compute in Ep; discriminate Ep).
  assert (Hb : ProcessDemo.built "sync.sh" = Ret p) by (unfold ProcessDemo.built; rewrite Ec; exact Ep).
  destruct (ProcessDemo.started "sync.sh") as [j| |] eqn:Ej; try (vm_compute in Ej; discriminate Ej).
  exists cfg, p, j. split; [reflexivity|]. split; [exact Hb|]. split; [reflexivity|].
  destruct (configured_process ProcessDemo.words (fun _ => Ret tt) (fun _ d => Ret d) ProcessDemo.inherited
    (fun _ => true) cfg p "https://up/debian" ProcessDemo.a
    [<[LogFileKey := "/var/log/latest.log"]> (<[LogDirKey := "/var/log"]> (<[WorkingDirKey := "/data/debian"]> ∅))]
    (ProcessDemo.before p) (ProcessDemo.prepared p) 1)
    as (logDir & _ & _ & _ & Hj).
  - exact Ep.
  - by left.
  - vm_compute in Ec. injection Ec as <-. vm_compute in Ep. injection Ep as <-. apply provider_context_repr.
  - vm_compute in Ec. injection Ec as <-. vm_compute in Ep. injection Ep as <-. apply provider_context_repr.
  - reflexivity.
  - vm_compute in Ec. injection Ec as <-. vm_compute in Ep. injection Ep as <-. vm_compute. reflexivity.
  - unfold ProcessDemo.started in Ej. rewrite Hb in Ej. exact (proj1 (Hj j Ej)).
Defined.
